(** * Highlight overlays of the web clipper: offsets, merge policy, drag sessions,
      overlay rectangles and the annotation browser snapshot.

    Shallow embedding of
      - src/utils/highlighter-overlays.ts
      - src/utils/highlight-merge-policy.ts
      - src/utils/highlight-timestamp-utils.ts
      - src/core/annotation-browser-data.ts

    Conventions.  Character offsets and pointer ids are [Z]; lengths of
    strings are injected from [nat].  Geometry ([DOMRect]), pointer
    coordinates and timestamps are [Q]: every finite IEEE double is a
    rational and comparisons are exact.  The result of an addition,
    subtraction, multiplication or division of the overlay code is rounded
    to the nearest double by [Js.fl], ties to even; coordinates are far from
    the largest double, and the overflow to Infinity is modelled only where
    a number is parsed ([Js.roundToDouble]).  The counts of the browser
    panel are integers below [2^53], whose sums are exact, and the sort
    comparators only use the sign of a difference, which rounding keeps.  A
    JS string is a [string] whose characters stand for code units.  What the
    browser computes (layout, hit-testing, the native selection, the clock,
    the URL parser) is an argument of the function that reads it. *)

From Stdlib Require Import ZArith QArith Qabs Qminmax Qround Qpower List String Ascii Bool Lia
  Permutation Sorted.
From Stdlib Require Import DecimalString DecimalNat Lqa.
Import ListNotations.
Local Open Scope string_scope.
Local Open Scope Z_scope.
Local Set Warnings "-register-all".

(* ================================================================== *)
(** ** The document tree seen through a text TreeWalker *)
(* ================================================================== *)

Module Dom.

(** DOM nodes as far as [NodeFilter.SHOW_TEXT] walks and [textContent]
    can tell them apart. *)
Inductive Node : Type :=
| TextNode (data : string)
| ElementNode (tagName : string) (childNodes : list Node).

(** An [Element]: the root handed to [document.createTreeWalker]. *)
Record Element : Type := mkElement {
  tagName : string;
  childNodes : list Node
}.

(** Text descendants in document order: what successive
    [treeWalker.nextNode()] calls return. *)
Fixpoint textDescendants (n : Node) : list string :=
  match n with
  | TextNode data => [data]
  | ElementNode _ kids => flat_map textDescendants kids
  end.

Definition textNodesOf (e : Element) : list string :=
  flat_map textDescendants (childNodes e).

Definition jsLength (s : string) : Z := Z.of_nat (String.length s).

Definition textLengths (e : Element) : list Z := map jsLength (textNodesOf e).

(** [element.textContent?.length || 0]. *)
Definition textContentLength (e : Element) : Z :=
  fold_right Z.add 0 (textLengths e).

(** Identity of a node relative to a walk rooted at the target element:
    the root itself, its [i]-th text descendant, or any other node (an
    inner element, or a node outside the target). *)
Inductive NodeRef : Type :=
| RootRef
| TextRef (i : nat)
| OtherRef.

Definition NodeRef_eqb (a b : NodeRef) : bool :=
  match a, b with
  | RootRef, RootRef => true
  | TextRef i, TextRef j => Nat.eqb i j
  | _, _ => false
  end.

(** One node as the walker loop sees it: [nodeType === TEXT_NODE] and
    [textContent?.length || 0]. *)
Record Visited : Type := mkVisited {
  vRef : NodeRef;
  vIsText : bool;
  vLength : Z
}.

Fixpoint textVisits (i : nat) (lengths : list Z) : list Visited :=
  match lengths with
  | [] => []
  | len :: rest => mkVisited (TextRef i) true len :: textVisits (S i) rest
  end.

(** The sequence [node, treeWalker.nextNode(), ...] of the loop in
    [findTextNodeAtOffset]: it starts at [treeWalker.nextNode()] (first text
    descendant) when [useCanonicalOffsets], and at [treeWalker.currentNode]
    (the root element, whose textContent is the whole text) otherwise. *)
Definition walkFrom (e : Element) (useCanonicalOffsets : bool) : list Visited :=
  if useCanonicalOffsets
  then textVisits 0 (textLengths e)
  else mkVisited RootRef false (textContentLength e) :: textVisits 0 (textLengths e).

Record CaretPoint : Type := mkCaretPoint {
  node : NodeRef;
  offset : Z
}.

(** The [while (node)] loop of [findTextNodeAtOffset]. *)
Fixpoint findTextNodeLoop (nodes : list Visited) (offset currentOffset : Z)
         (firstTextNode : option NodeRef) : option CaretPoint :=
  match nodes with
  | [] =>
      match firstTextNode with
      | Some first => Some (mkCaretPoint first 0)
      | None => None
      end
  | n :: rest =>
      let nodeLength := vLength n in
      if vIsText n then
        let firstTextNode' :=
          match firstTextNode with
          | None => Some (vRef n)
          | Some _ => firstTextNode
          end in
        if currentOffset + nodeLength >=? offset then
          let adjustedOffset := Z.min (Z.max 0 (offset - currentOffset)) nodeLength in
          Some (mkCaretPoint (vRef n) adjustedOffset)
        else findTextNodeLoop rest offset (currentOffset + nodeLength) firstTextNode'
      else findTextNodeLoop rest offset (currentOffset + nodeLength) firstTextNode
  end.

Definition findTextNodeAtOffset (element : Element) (offset : Z)
           (useCanonicalOffsets : bool) : option CaretPoint :=
  findTextNodeLoop (walkFrom element useCanonicalOffsets) offset 0 None.

Definition shouldUseCanonicalOffsetDecoding (target : Element)
           (startOffset endOffset : Z) : bool :=
  let totalTextLength := textContentLength target in
  if totalTextLength <=? 0 then false
  else (startOffset <? totalTextLength) || (endOffset <? totalTextLength).

(** The decoding step shared by [planHighlightOverlayRects] and
    [selectHighlightTextFromOpposingEdge]. *)
Definition resolveTextBoundaries (target : Element) (startOffset endOffset : Z)
  : option CaretPoint * option CaretPoint :=
  let useCanonicalOffsets := shouldUseCanonicalOffsetDecoding target startOffset endOffset in
  (findTextNodeAtOffset target startOffset useCanonicalOffsets,
   findTextNodeAtOffset target endOffset useCanonicalOffsets).

(** The [while (node)] loop of [getLegacyTextOffset]; the walk always
    starts at [treeWalker.currentNode], the root. *)
Fixpoint legacyOffsetLoop (nodes : list Visited) (targetNode : NodeRef)
         (targetOffset offset : Z) : Z :=
  match nodes with
  | [] => offset
  | n :: rest =>
      if NodeRef_eqb (vRef n) targetNode then offset + targetOffset
      else legacyOffsetLoop rest targetNode targetOffset (offset + vLength n)
  end.

Definition getLegacyTextOffset (container : Element) (targetNode : NodeRef)
           (targetOffset : Z) : Z :=
  legacyOffsetLoop (walkFrom container false) targetNode targetOffset 0.

(** *** The decoding rule in the words of the specification *)

(** Walk the text descendants in document order, accumulating lengths from
    [consumed], until the cumulative length first reaches or exceeds the
    stored offset; the local offset is the stored offset minus the length
    consumed so far. *)
Fixpoint walkUntilReached (lengths : list Z) (i : nat) (consumed stored : Z)
  : option CaretPoint :=
  match lengths with
  | [] => None
  | len :: rest =>
      if consumed + len >=? stored
      then Some (mkCaretPoint (TextRef i) (stored - consumed))
      else walkUntilReached rest (S i) (consumed + len) stored
  end.

(** Where the walk never reaches the offset the code answers the first
    text descendant at offset 0, or nothing when there is no text node. *)
Definition firstTextFallback (lengths : list Z) : option CaretPoint :=
  match lengths with
  | [] => None
  | _ :: _ => Some (mkCaretPoint (TextRef 0) 0)
  end.

Definition orFallback (r fallback : option CaretPoint) : option CaretPoint :=
  match r with
  | Some p => Some p
  | None => fallback
  end.

(** Canonical reading: raw character count from the first text descendant. *)
Definition decodeCanonical (e : Element) (stored : Z) : option CaretPoint :=
  orFallback (walkUntilReached (textLengths e) 0 0 stored)
             (firstTextFallback (textLengths e)).

(** Legacy reading: the stored value is [totalTextLength + actualOffset]. *)
Definition decodeLegacy (e : Element) (stored : Z) : option CaretPoint :=
  orFallback (walkUntilReached (textLengths e) 0 (textContentLength e) stored)
             (firstTextFallback (textLengths e)).

(** Characters of the target that precede text descendant [i]. *)
Definition consumedBefore (e : Element) (i : nat) : Z :=
  fold_right Z.add 0 (firstn i (textLengths e)).

(** Position of a caret point counted in characters of the whole target. *)
Definition characterPosition (e : Element) (p : CaretPoint) : option Z :=
  match node p with
  | TextRef i =>
      match nth_error (textLengths e) i with
      | Some len => if (0 <=? offset p) && (offset p <=? len)
                    then Some (consumedBefore e i + offset p) else None
      | None => None
      end
  | _ => None
  end.

End Dom.

(* ================================================================== *)
(** ** JavaScript values, numbers and the string built-ins the code calls *)
(* ================================================================== *)

Module Js.

(** A JS number: the three non-finite doubles and the finite ones. *)
Inductive JsNumber : Type :=
| NaN
| Infinity (negative : bool)
| Finite (q : Q).

(** A value of type [unknown]. [VObject] lists the own enumerable
    properties in [Object.entries] order. *)
Inductive JsValue : Type :=
| VUndefined
| VNull
| VBoolean (b : bool)
| VNumber (n : JsNumber)
| VString (s : string)
| VArray (items : list JsValue)
| VObject (props : list (string * JsValue)).

Definition Qlt_bool (a b : Q) : bool := negb (Qle_bool b a).

(** *** Rounding to the nearest double *)

(** The integer nearest to [x], the even one of the two when [x] lies
    halfway between them. *)
Definition roundHalfEven (x : Q) : Z :=
  let f := Qfloor x in
  match (2 * (x - inject_Z f) ?= 1)%Q with
  | Lt => f
  | Gt => f + 1
  | Eq => if Z.even f then f else f + 1
  end.

(** For a positive [a], the [k] with [2^k <= a < 2^(k+1)]. *)
Definition floorLog2 (a : Q) : Z :=
  let k := Z.log2 (Qnum a) - Z.log2 (Zpos (Qden a)) in
  if Qle_bool (2 ^ k) a then k else k - 1.

(** The exponent of the last place of the double nearest to a positive
    [a]: 53 significant bits, and no place below [2^-1074]. *)
Definition exponentOf (a : Q) : Z := Z.max (-1074) (floorLog2 a - 52).

Definition roundPositive (a : Q) : Q :=
  let e := exponentOf a in
  (inject_Z (roundHalfEven (a / 2 ^ e)) * 2 ^ e)%Q.

(** The result of an arithmetic operation whose exact value is [q]: the
    double nearest to [q], that is the nearest [m * 2^e] with [|m| < 2^53]
    and [-1074 <= e], ties to the even [m].  No bound is put on [e] from
    above: coordinates are far from [2^1024], where a result becomes
    infinite; [roundToDouble] has that case. *)
Definition fl (q : Q) : Q :=
  match (q ?= 0)%Q with
  | Eq => 0%Q
  | Gt => Qred (roundPositive q)
  | Lt => Qred (- roundPositive (- q))
  end.

(** The same as a Number: a magnitude that rounds to [2^1024] or more is
    infinite. *)
Definition roundToDouble (q : Q) : JsNumber :=
  let r := fl q in
  if Qle_bool (2 ^ 1024) (Qabs r) then Infinity (Qlt_bool r 0) else Finite r.

(** A rational that is a double: rounding leaves it as it is. *)
Definition isDouble (q : Q) : Prop := (fl q == q)%Q.

(** [Number.isFinite(n) && n > 0]. *)
Definition isFinitePositive (n : JsNumber) : bool :=
  match n with
  | Finite q => Qlt_bool 0 q
  | _ => false
  end.

(** [a <= b] on numbers; any comparison with NaN is false. *)
Definition jsLeb (a b : JsNumber) : bool :=
  match a, b with
  | NaN, _ | _, NaN => false
  | Infinity true, _ => true
  | _, Infinity false => true
  | Infinity false, _ => false
  | _, Infinity true => false
  | Finite x, Finite y => Qle_bool x y
  end.

Definition jsMin2 (a b : JsNumber) : JsNumber :=
  match a, b with
  | NaN, _ | _, NaN => NaN
  | _, _ => if jsLeb a b then a else b
  end.

Definition jsMax2 (a b : JsNumber) : JsNumber :=
  match a, b with
  | NaN, _ | _, NaN => NaN
  | _, _ => if jsLeb a b then b else a
  end.

(** [Math.min(...values)] and [Math.max(...values)]. *)
Definition Math_min (values : list JsNumber) : JsNumber :=
  fold_left jsMin2 values (Infinity false).

Definition Math_max (values : list JsNumber) : JsNumber :=
  fold_left jsMax2 values (Infinity true).

(** White space and line terminators among the code units below 256
    (TAB, LF, VT, FF, CR, SP, NBSP); the ones above are not representable. *)
Definition isWhiteSpace (c : ascii) : bool :=
  let n := nat_of_ascii c in
  ((9 <=? n) && (n <=? 13))%nat || (n =? 32)%nat || (n =? 160)%nat.

Definition isDigit (c : ascii) : bool :=
  let n := nat_of_ascii c in ((48 <=? n) && (n <=? 57))%nat.

Definition digitValue (c : ascii) : Z := Z.of_nat (nat_of_ascii c) - 48.

Fixpoint trimStart (s : string) : string :=
  match s with
  | String c rest => if isWhiteSpace c then trimStart rest else s
  | EmptyString => EmptyString
  end.

(** Value of the longest prefix of decimal digits, [None] when it is empty. *)
Fixpoint leadingDigits (s : string) (acc : option Z) : option Z :=
  match s with
  | String c rest =>
      if isDigit c
      then leadingDigits rest
             (Some (10 * match acc with Some a => a | None => 0 end + digitValue c))
      else acc
  | EmptyString => acc
  end.

(** The mathematical integer of [parseInt(s, 10)]: leading white space
    skipped, an optional sign, then decimal digits; [None] stands for NaN. *)
Definition parseIntDigits (s : string) : option Z :=
  match trimStart s with
  | String "-" rest =>
      match leadingDigits rest None with Some z => Some (- z) | None => None end
  | String "+" rest => leadingDigits rest None
  | t => leadingDigits t None
  end.

(** Integers from this magnitude on round to an infinite double. *)
Definition doubleOverflow : Z := 2 ^ 1024 - 2 ^ 970.

(** The Number for a mathematical integer: the double nearest to it, which
    is the integer itself up to [2^53] and is infinite from [doubleOverflow]
    on.  (Engines round the decimal digits correctly; ECMAScript lets them
    drop the digits after the twentieth.) *)
Definition numberOfInteger (z : Z) : JsNumber := roundToDouble (inject_Z z).

(** [Number.parseInt(s, 10)]. *)
Definition parseInt10 (s : string) : JsNumber :=
  match parseIntDigits s with
  | Some z => numberOfInteger z
  | None => NaN
  end.

(** [String(index)] for an array index. *)
Definition stringOfIndex (n : nat) : string :=
  NilEmpty.string_of_uint (Nat.to_uint n).

(** A value used as a condition: [Boolean(s)] for [string | null]. *)
Definition truthy (s : option string) : bool :=
  match s with
  | Some (String _ _) => true
  | _ => false
  end.

Definition toUpperAscii (c : ascii) : ascii :=
  let n := nat_of_ascii c in
  if ((97 <=? n) && (n <=? 122))%nat then ascii_of_nat (n - 32) else c.

Fixpoint toUpperCase (s : string) : string :=
  match s with
  | String c rest => String (toUpperAscii c) (toUpperCase rest)
  | EmptyString => EmptyString
  end.

Definition isSome {A : Type} (o : option A) : bool :=
  match o with Some _ => true | None => false end.

(** [typeof value === 'object' && value !== null]. *)
Definition isRecord (value : JsValue) : bool :=
  match value with
  | VArray _ | VObject _ => true
  | _ => false
  end.

Fixpoint lookupProp (props : list (string * JsValue)) (key : string) : JsValue :=
  match props with
  | [] => VUndefined
  | (k, v) :: rest => if String.eqb k key then v else lookupProp rest key
  end.

(** [value.key] for one of the property names the code reads ([url],
    [highlights], [createdAt], [id]); an array has none of them. *)
Definition getProp (value : JsValue) (key : string) : JsValue :=
  match value with
  | VObject props => lookupProp props key
  | _ => VUndefined
  end.

Fixpoint indexedEntries (i : nat) (items : list JsValue) : list (string * JsValue) :=
  match items with
  | [] => []
  | v :: rest => (stringOfIndex i, v) :: indexedEntries (S i) rest
  end.

(** [Object.entries(value)] of a record. *)
Definition objectEntries (value : JsValue) : list (string * JsValue) :=
  match value with
  | VObject props => props
  | VArray items => indexedEntries 0 items
  | _ => []
  end.

(** A number that is neither NaN nor infinite. *)
Definition isFiniteNumber (n : JsNumber) : Prop :=
  match n with Finite _ => True | _ => False end.

(** The smaller and the larger of two rationals, as [jsMin2] and [jsMax2]
    choose them. *)
Definition qmin (a b : Q) : Q := if Qle_bool a b then a else b.
Definition qmax (a b : Q) : Q := if Qle_bool a b then b else a.

End Js.

(* ================================================================== *)
(** ** src/utils/highlight-timestamp-utils.ts *)
(* ================================================================== *)

Module Timestamps.
Import Js.

Definition isValidHighlightTimestamp (value : JsValue) : bool :=
  match value with
  | VNumber n => isFinitePositive n
  | _ => false
  end.

Definition parseHighlightIdTimestamp (id : JsValue) : option JsNumber :=
  match id with
  | VString s =>
      let parsedIdTimestamp := parseInt10 s in
      if isFinitePositive parsedIdTimestamp then Some parsedIdTimestamp else None
  | _ => None
  end.

(** Picks the first valid candidate.  [None] as the result means that the
    loop fell through to [return Date.now()]. *)
Fixpoint firstValidCandidate (candidates : list (option JsNumber)) : option JsNumber :=
  match candidates with
  | [] => None
  | Some candidate :: rest =>
      if isFinitePositive candidate then Some candidate else firstValidCandidate rest
  | None :: rest => firstValidCandidate rest
  end.

(** [resolveHighlightCreatedAt(...candidates)]; [now] is what [Date.now()]
    answers if it is called. *)
Definition resolveHighlightCreatedAt (candidates : list (option JsNumber)) (now : JsNumber)
  : JsNumber :=
  match firstValidCandidate candidates with
  | Some candidate => candidate
  | None => now
  end.

Definition createdAtCandidates (createdAt highlightId : JsValue) : list (option JsNumber) :=
  [ match createdAt with
    | VNumber n => if isValidHighlightTimestamp createdAt then Some n else None
    | _ => None
    end;
    parseHighlightIdTimestamp highlightId ].

Definition normalizeHighlightCreatedAt (createdAt highlightId : JsValue) (now : JsNumber)
  : JsNumber :=
  resolveHighlightCreatedAt (createdAtCandidates createdAt highlightId) now.

(** Whether [normalizeHighlightCreatedAt] reads the clock. *)
Definition readsClock (createdAt highlightId : JsValue) : bool :=
  match firstValidCandidate (createdAtCandidates createdAt highlightId) with
  | Some _ => false
  | None => true
  end.

End Timestamps.

(* ================================================================== *)
(** ** Highlight records (types of ./highlighter) *)
(* ================================================================== *)

Module Highlighter.

Inductive HighlightType : Type := TypeText | TypeElement | TypeComplex.

Definition HighlightType_eqb (a b : HighlightType) : bool :=
  match a, b with
  | TypeText, TypeText | TypeElement, TypeElement | TypeComplex, TypeComplex => true
  | _, _ => false
  end.

(** Modelled from the spec: [AnyHighlightData] of ./highlighter, which is
    not in src, with the fields of the highlight record that this code
    reads.  [startOffset] and [endOffset] are the fields of
    [TextHighlightData] and carry no meaning on the other two types;
    optional fields are [None] when absent. *)
Record AnyHighlightData : Type := mkHighlight {
  id : option string;
  type : HighlightType;
  xpath : string;
  content : string;
  startOffset : Z;
  endOffset : Z;
  color : option string;
  notes : option (list string);
  createdAt : option Q
}.

End Highlighter.

(* ================================================================== *)
(** ** src/utils/highlight-merge-policy.ts *)
(* ================================================================== *)

Module MergePolicy.
Import Highlighter.

Inductive HighlightMergeRelationship : Type := Adjacent | Overlap.

Definition FALLBACK_HIGHLIGHT_COLOR : string := "#ffeb3b".

(** [highlight.color || FALLBACK_HIGHLIGHT_COLOR]: an absent and an empty
    colour are both falsy. *)
Definition resolveHighlightColor (highlight : AnyHighlightData) : string :=
  match color highlight with
  | Some (String c rest) => String c rest
  | _ => FALLBACK_HIGHLIGHT_COLOR
  end.

Definition shouldAutoMergeHighlights (highlight1 highlight2 : AnyHighlightData)
           (relationship : HighlightMergeRelationship) : bool :=
  match relationship with
  | Overlap => false
  | Adjacent =>
      if HighlightType_eqb (type highlight1) TypeText
         && HighlightType_eqb (type highlight2) TypeText
         && String.eqb (xpath highlight1) (xpath highlight2)
      then String.eqb (resolveHighlightColor highlight1) (resolveHighlightColor highlight2)
      else true
  end.

End MergePolicy.

(* ================================================================== *)
(** ** Geometry: DOMRect *)
(* ================================================================== *)

Module Geometry.
Local Open Scope Q_scope.

Record DOMRect : Type := mkDOMRect {
  x : Q;
  y : Q;
  width : Q;
  height : Q
}.

(** The edge getters of DOMRectReadOnly. *)
Definition left (r : DOMRect) : Q := Qmin (x r) (Js.fl (x r + width r)).
Definition right (r : DOMRect) : Q := Qmax (x r) (Js.fl (x r + width r)).
Definition top (r : DOMRect) : Q := Qmin (y r) (Js.fl (y r + height r)).
Definition bottom (r : DOMRect) : Q := Qmax (y r) (Js.fl (y r + height r)).

(** [Math.abs(a - b) < 1]. *)
Definition near (a b : Q) : bool := Js.Qlt_bool (Qabs (Js.fl (a - b))) 1.

End Geometry.

(* ================================================================== *)
(** ** src/utils/highlighter-overlays.ts: page state *)
(* ================================================================== *)

Module Overlays.
Import Js Dom Highlighter Geometry.

Definition LINE_BY_LINE_OVERLAY_TAGS : list string := ["P"].
Definition OFFSET_HANDLE_DRAG_THRESHOLD_PX : Q := 2.

Inductive Edge : Type := EdgeStart | EdgeEnd.

Definition Edge_eqb (a b : Edge) : bool :=
  match a, b with
  | EdgeStart, EdgeStart | EdgeEnd, EdgeEnd => true
  | _, _ => false
  end.

Inductive OffsetHandleDragInputType : Type := InputPointer | InputMouse.

(** The two offset handles are told apart by their [dataset.edge]. *)
Definition Handle : Type := Edge.

(** An element with class [obsidian-highlight-overlay].  [ovKey] is the
    identity of the element, the other fields are the attributes and inline
    styles that [createHighlightOverlayElement] writes (lengths in px); an
    overlay whose inline [width] or [height] was refused has [None]. *)
Record Overlay : Type := mkOverlay {
  ovKey : nat;
  highlightIndex : nat;
  highlightId : option string;
  isSelected : bool;
  styleLeft : Q;
  styleTop : Q;
  styleWidth : option Q;
  styleHeight : option Q;
  dataContent : string;
  dataNotes : option (list string);
  showCommentBadge : bool;
  pointerEvents : string
}.

Record OffsetHandleDragState : Type := mkDragState {
  anchorNode : NodeRef;
  anchorOffset : Z;
  target : Element;
  edge : Edge;
  pointerId : option Z;
  inputType : OffsetHandleDragInputType;
  handle : Handle;
  startClientX : Q;
  startClientY : Q;
  hasMoved : bool;
  initialSelectionText : string;
  disabledOverlayPointerEvents : list (nat * string)
}.

(** Capture-phase listeners that a drag registers on [document]. *)
Inductive DragListener : Type :=
| OnPointerMove | OnPointerUp | OnPointerCancel | OnMouseMove | OnMouseUp.

Definition DragListener_eqb (a b : DragListener) : bool :=
  match a, b with
  | OnPointerMove, OnPointerMove | OnPointerUp, OnPointerUp
  | OnPointerCancel, OnPointerCancel | OnMouseMove, OnMouseMove
  | OnMouseUp, OnMouseUp => true
  | _, _ => false
  end.

Inductive PreviewAlpha : Type := DefaultAlpha | DragAlpha.

(** Calls that leave this module: the collaborators of ./highlighter and
    ./highlighter-widget, and writes to the native selection. *)
Inductive Call : Type :=
| HideHighlightWidgetTooltip
| UpdateHighlights (nextHighlights : list AnyHighlightData)
| SortHighlights
| ApplyHighlights
| SaveHighlights
| UpdateHighlighterMenu
| ScheduleHighlightWidgetOpenFromPoint (clientX clientY : Q)
| ApplyNativeSelection (anchor focus : CaretPoint)
| SelectionRemoveAllRanges
| SetSelectionPreviewColor (c : option string) (alpha : PreviewAlpha)
| PositionOffsetHandle (h : Handle) (e : Edge).

(** The calls by which a committed resize persists and re-renders the
    highlights. *)
Definition isPersistenceCall (c : Call) : bool :=
  match c with
  | UpdateHighlights _ | SortHighlights | ApplyHighlights | SaveHighlights
  | UpdateHighlighterMenu => true
  | _ => false
  end.

(** Module state together with the part of the document it acts on. *)
Record Page : Type := mkPage {
  highlights : list AnyHighlightData;
  elements : list (string * Element);
  selectedHighlightId : option string;
  selectedHighlightIndex : option string;
  activeOffsetHandleDrag : option OffsetHandleDragState;
  suppressNextMouseUpHighlight : bool;
  overlays : list Overlay;
  nextOverlayKey : nat;
  scrollX : Q;
  scrollY : Q;
  documentListeners : list DragListener;
  pointerCaptures : list (Handle * Z);
  offsetHandleDragging : bool;
  calls : list Call
}.

Definition setHighlights (p : Page) (v : list AnyHighlightData) : Page :=
  mkPage v (elements p) (selectedHighlightId p) (selectedHighlightIndex p)
         (activeOffsetHandleDrag p) (suppressNextMouseUpHighlight p) (overlays p)
         (nextOverlayKey p) (scrollX p) (scrollY p) (documentListeners p)
         (pointerCaptures p) (offsetHandleDragging p) (calls p).

Definition setActiveOffsetHandleDrag (p : Page) (v : option OffsetHandleDragState) : Page :=
  mkPage (highlights p) (elements p) (selectedHighlightId p) (selectedHighlightIndex p)
         v (suppressNextMouseUpHighlight p) (overlays p)
         (nextOverlayKey p) (scrollX p) (scrollY p) (documentListeners p)
         (pointerCaptures p) (offsetHandleDragging p) (calls p).

Definition setSuppressNextMouseUpHighlight (p : Page) (v : bool) : Page :=
  mkPage (highlights p) (elements p) (selectedHighlightId p) (selectedHighlightIndex p)
         (activeOffsetHandleDrag p) v (overlays p)
         (nextOverlayKey p) (scrollX p) (scrollY p) (documentListeners p)
         (pointerCaptures p) (offsetHandleDragging p) (calls p).

Definition setOverlays (p : Page) (v : list Overlay) : Page :=
  mkPage (highlights p) (elements p) (selectedHighlightId p) (selectedHighlightIndex p)
         (activeOffsetHandleDrag p) (suppressNextMouseUpHighlight p) v
         (nextOverlayKey p) (scrollX p) (scrollY p) (documentListeners p)
         (pointerCaptures p) (offsetHandleDragging p) (calls p).

Definition setNextOverlayKey (p : Page) (v : nat) : Page :=
  mkPage (highlights p) (elements p) (selectedHighlightId p) (selectedHighlightIndex p)
         (activeOffsetHandleDrag p) (suppressNextMouseUpHighlight p) (overlays p)
         v (scrollX p) (scrollY p) (documentListeners p)
         (pointerCaptures p) (offsetHandleDragging p) (calls p).

Definition setDocumentListeners (p : Page) (v : list DragListener) : Page :=
  mkPage (highlights p) (elements p) (selectedHighlightId p) (selectedHighlightIndex p)
         (activeOffsetHandleDrag p) (suppressNextMouseUpHighlight p) (overlays p)
         (nextOverlayKey p) (scrollX p) (scrollY p) v
         (pointerCaptures p) (offsetHandleDragging p) (calls p).

Definition setPointerCaptures (p : Page) (v : list (Handle * Z)) : Page :=
  mkPage (highlights p) (elements p) (selectedHighlightId p) (selectedHighlightIndex p)
         (activeOffsetHandleDrag p) (suppressNextMouseUpHighlight p) (overlays p)
         (nextOverlayKey p) (scrollX p) (scrollY p) (documentListeners p)
         v (offsetHandleDragging p) (calls p).

(** [setOffsetHandleDraggingState]: toggles the class on the root element. *)
Definition setOffsetHandleDraggingState (p : Page) (isDragging : bool) : Page :=
  mkPage (highlights p) (elements p) (selectedHighlightId p) (selectedHighlightIndex p)
         (activeOffsetHandleDrag p) (suppressNextMouseUpHighlight p) (overlays p)
         (nextOverlayKey p) (scrollX p) (scrollY p) (documentListeners p)
         (pointerCaptures p) isDragging (calls p).

(** Records a call, latest last. *)
Definition call (p : Page) (c : Call) : Page :=
  mkPage (highlights p) (elements p) (selectedHighlightId p) (selectedHighlightIndex p)
         (activeOffsetHandleDrag p) (suppressNextMouseUpHighlight p) (overlays p)
         (nextOverlayKey p) (scrollX p) (scrollY p) (documentListeners p)
         (pointerCaptures p) (offsetHandleDragging p) (calls p ++ [c]).

(** Modelled from the spec: [getElementByXPath] of ./dom-utils is not in
    src; it resolves a path to the element it names, or to null. *)
Fixpoint getElementByXPath (doc : list (string * Element)) (path : string) : option Element :=
  match doc with
  | [] => None
  | (k, e) :: rest => if String.eqb k path then Some e else getElementByXPath rest path
  end.

(** *** Overlay rectangles *)

(** [element.style.width = `${value}px`], and the same for [height]: CSS
    refuses a negative length, the declaration is dropped and the new
    element keeps no inline size. *)
Definition cssSize (value : Q) : option Q :=
  if Qle_bool 0 value then Some value else None.

(** The size that layout gives an overlay: its inline size; without one the
    absolutely positioned box is as wide, or as high, as its content, and
    the overlay is created empty. *)
Definition usedSize (inlineSize : option Q) : Q :=
  match inlineSize with
  | Some size => size
  | None => 0
  end.

(** [overlay.getBoundingClientRect()]: an overlay is absolutely positioned
    in the body with the inline box written by
    [createHighlightOverlayElement] in document coordinates, so its client
    rectangle is that box moved back by the scroll offset. *)
Definition overlayBoundingClientRect (p : Page) (overlay : Overlay) : DOMRect :=
  mkDOMRect (styleLeft overlay - scrollX p) (styleTop overlay - scrollY p)
            (usedSize (styleWidth overlay)) (usedSize (styleHeight overlay)).

(** What one highlight hands down to every overlay made for it. *)
Record OverlayData : Type := mkOverlayData {
  odContent : string;
  odIndex : nat;
  odNotes : option (list string);
  odColor : option string;
  odHighlightId : option string;
  odCreatedAt : option Q
}.

Definition overlayDataOf (highlight : AnyHighlightData) (index : nat) : OverlayData :=
  mkOverlayData (content highlight) index (notes highlight) (color highlight)
                (id highlight) (createdAt highlight).

Definition optionStringEqb (a b : option string) : bool :=
  match a, b with
  | Some s, Some t => String.eqb s t
  | None, None => true
  | _, _ => false
  end.

(** [notes && notes.length > 0], also [Array.isArray(notes) && notes.length > 0]. *)
Definition hasNotes (notes : option (list string)) : bool :=
  match notes with
  | Some (_ :: _) => true
  | _ => false
  end.

(** [createHighlightOverlayElement]: the new element is appended to the
    body; the contrast class and the decoration belong to ./dom-utils and
    ./highlighter-widget, which receive [showCommentBadge] unchanged. *)
Definition createHighlightOverlayElement (p : Page) (rect : DOMRect) (d : OverlayData)
           (showCommentBadge : bool) : Page :=
  let datasetHighlightId := if truthy (odHighlightId d) then odHighlightId d else None in
  let selected :=
    (truthy (selectedHighlightId p)
       && optionStringEqb datasetHighlightId (selectedHighlightId p))
    || (negb (truthy (selectedHighlightId p))
          && truthy (selectedHighlightIndex p)
          && optionStringEqb (Some (stringOfIndex (odIndex d))) (selectedHighlightIndex p)) in
  let overlay :=
    mkOverlay (nextOverlayKey p) (odIndex d) datasetHighlightId selected
              (fl (fl (left rect + scrollX p) - 2)) (fl (fl (top rect + scrollY p) - 2))
              (cssSize (fl (width rect + 4))) (cssSize (fl (height rect + 4)))
              (odContent d)
              (if hasNotes (odNotes d) then odNotes d else None)
              showCommentBadge
              EmptyString in
  setNextOverlayKey (setOverlays p (overlays p ++ [overlay])) (S (nextOverlayKey p)).

Definition copyRect (rect : DOMRect) : DOMRect :=
  mkDOMRect (x rect) (y rect) (width rect) (height rect).

(** The test that lets [rect] join the running rectangle. *)
Definition sameLine (rect currentRect : DOMRect) : bool :=
  near (y rect) (y currentRect) && near (height rect) (height currentRect).

(** [currentRect.width = rect.right - currentRect.left]. *)
Definition extendTo (currentRect rect : DOMRect) : DOMRect :=
  mkDOMRect (x currentRect) (y currentRect) (fl (right rect - left currentRect))
            (height currentRect).

(** The [for] loop of [mergeHighlightOverlayRects]. *)
Fixpoint mergeRectsLoop (rects mergedRects : list DOMRect) (currentRect : option DOMRect)
  : list DOMRect * option DOMRect :=
  match rects with
  | [] => (mergedRects, currentRect)
  | rect :: rest =>
      match currentRect with
      | None => mergeRectsLoop rest mergedRects (Some (copyRect rect))
      | Some cur =>
          if sameLine rect cur
          then mergeRectsLoop rest mergedRects (Some (extendTo cur rect))
          else mergeRectsLoop rest (mergedRects ++ [cur]) (Some (copyRect rect))
      end
  end.

(** [mergedRects] after the loop and the final push. *)
Definition mergedRectsOf (rects : list DOMRect) : list DOMRect :=
  let '(mergedRects, currentRect) := mergeRectsLoop rects [] None in
  match currentRect with
  | Some cur => mergedRects ++ [cur]
  | None => mergedRects
  end.

Definition isDuplicate (p : Page) (existingOverlays : list Overlay) (rect : DOMRect) : bool :=
  existsb (fun overlay =>
             let overlayRect := overlayBoundingClientRect p overlay in
             near (left rect) (left overlayRect)
             && near (top rect) (top overlayRect)
             && near (width rect) (width overlayRect)
             && near (height rect) (height overlayRect))
          existingOverlays.

(** [mergedRects.forEach((rect, rectIndex) => ...)]. *)
Fixpoint emitMergedRects (p : Page) (mergedRects : list DOMRect) (rectIndex : nat)
         (existingOverlays : list Overlay) (d : OverlayData) : Page :=
  match mergedRects with
  | [] => p
  | rect :: rest =>
      let p' :=
        if isDuplicate p existingOverlays rect then p
        else
          let showCommentBadge := hasNotes (odNotes d) && Nat.eqb rectIndex 0 in
          createHighlightOverlayElement p rect d showCommentBadge in
      emitMergedRects p' rest (S rectIndex) existingOverlays d
  end.

Definition mergeHighlightOverlayRects (p : Page) (rects : list DOMRect)
           (existingOverlays : list Overlay) (d : OverlayData) : Page :=
  emitMergedRects p (mergedRectsOf rects) 0 existingOverlays d.

Definition calculateAverageLineHeight (rects : list DOMRect) : Q :=
  let heights := map height rects in
  let sum := fold_left (fun a b => fl (a + b)) heights 0%Q in
  fl (sum / inject_Z (Z.of_nat (List.length heights))).

(** [processRangeForOverlayRects]; [rects] is [range.getClientRects()] and
    [fallbackRect] is [targetElementForFallback.getBoundingClientRect()]. *)
Definition processRangeForOverlayRects (p : Page) (rects : list DOMRect)
           (fallbackRect : DOMRect) (existingOverlays : list Overlay) (d : OverlayData)
  : Page :=
  match rects with
  | [] => mergeHighlightOverlayRects p [fallbackRect] existingOverlays d
  | _ :: _ =>
      let averageLineHeight := calculateAverageLineHeight rects in
      let textRects :=
        filter (fun rect => Qle_bool (height rect) (fl (averageLineHeight * (3 # 2)))) rects in
      let complexRects :=
        filter (fun rect => Qlt_bool (fl (averageLineHeight * (3 # 2))) (height rect)) rects in
      let p1 :=
        match textRects with
        | [] => p
        | _ :: _ => mergeHighlightOverlayRects p textRects existingOverlays d
        end in
      match complexRects with
      | [] => p1
      | _ :: _ => mergeHighlightOverlayRects p1 complexRects existingOverlays d
      end
  end.

(** What layout answers during one call of [planHighlightOverlayRects]:
    the client rectangles of the range the call builds and the bounding
    rectangle of the target. *)
Record Layout : Type := mkLayout {
  rangeClientRects : list DOMRect;
  boundingClientRect : DOMRect
}.

Definition overlaysOfIndex (p : Page) (index : nat) : list Overlay :=
  filter (fun overlay => Nat.eqb (highlightIndex overlay) index) (overlays p).

(** [planHighlightOverlayRects]; the [catch] branches, taken when the
    range throws, end in the same bounding-box call as the [else] branch. *)
Definition planHighlightOverlayRects (p : Page) (layout : Layout) (target : Element)
           (highlight : AnyHighlightData) (index : nat) : Page :=
  let existingOverlays := overlaysOfIndex p index in
  let tagName := toUpperCase (Dom.tagName target) in
  let d := overlayDataOf highlight index in
  match type highlight with
  | TypeComplex | TypeElement =>
      if existsb (String.eqb tagName) LINE_BY_LINE_OVERLAY_TAGS
      then processRangeForOverlayRects p (rangeClientRects layout)
             (boundingClientRect layout) existingOverlays d
      else mergeHighlightOverlayRects p [boundingClientRect layout] existingOverlays d
  | TypeText =>
      match resolveTextBoundaries target (startOffset highlight) (endOffset highlight) with
      | (Some startNodeResult, Some endNodeResult) =>
          processRangeForOverlayRects p (rangeClientRects layout)
            (boundingClientRect layout) existingOverlays d
      | _ => mergeHighlightOverlayRects p [boundingClientRect layout] existingOverlays d
      end
  end.

(** [removeExistingHighlightOverlays]. *)
Definition removeExistingHighlightOverlays (p : Page) (index : nat) : Page :=
  setOverlays p (filter (fun overlay => negb (Nat.eqb (highlightIndex overlay) index))
                        (overlays p)).

(** *** Selected highlight and the native selection *)

(** The Selection object as the handlers read it: [rangeCount],
    [isCollapsed], [toString()] and the boundary points of [getRangeAt(0)],
    nodes being named relative to the target of the selected highlight. *)
Record Selection : Type := mkSelection {
  rangeCount : nat;
  isCollapsed : bool;
  selectionText : string;
  startContainer : NodeRef;
  rangeStartOffset : Z;
  endContainer : NodeRef;
  rangeEndOffset : Z
}.

(** What the browser answers while one handler runs: [window.getSelection()]
    at the time it is read, the caret found by [getCaretPointAtClientPosition]
    under the pointer, whether [getCaretRectAtPoint] finds a rectangle for it,
    and whether [setPointerCapture] throws. *)
Record Browser : Type := mkBrowser {
  windowSelection : option Selection;
  caretPointAtPointer : option CaretPoint;
  caretRectFound : bool;
  setPointerCaptureThrows : bool
}.

(** [Number.parseInt(s, 10)] followed by [Number.isInteger(i) && i >= 0 &&
    i < length]: an integer that overflows to Infinity is not below any
    length either. *)
Definition parseIndexBelow (s : string) (length : nat) : option nat :=
  match parseIntDigits s with
  | Some z => if (0 <=? z) && (z <? Z.of_nat length) then Some (Z.to_nat z) else None
  | None => None
  end.

Definition resolveSelectedTextHighlight (p : Page) : option (AnyHighlightData * Element) :=
  let byId :=
    match selectedHighlightId p with
    | Some sel =>
        if truthy (Some sel)
        then find (fun item => optionStringEqb (id item) (Some sel)) (highlights p)
        else None
    | None => None
    end in
  let selectedHighlight :=
    match byId with
    | Some h => Some h
    | None =>
        match selectedHighlightIndex p with
        | Some idx =>
            if truthy (Some idx) then
              match parseIndexBelow idx (List.length (highlights p)) with
              | Some parsedIndex => nth_error (highlights p) parsedIndex
              | None => None
              end
            else None
        | None => None
        end
    end in
  match selectedHighlight with
  | Some h =>
      if HighlightType_eqb (type h) TypeText then
        match getElementByXPath (elements p) (xpath h) with
        | Some target => Some (h, target)
        | None => None
        end
      else None
  | None => None
  end.

Definition selectedColor (p : Page) : option string :=
  match resolveSelectedTextHighlight p with
  | Some (h, _) => color h
  | None => None
  end.

Record SelectedRange : Type := mkSelectedRange {
  srTarget : Element;
  srAnchorNode : NodeRef;
  srAnchorOffset : Z
}.

Definition selectHighlightTextFromOpposingEdge (p : Page) (edge : Edge)
  : Page * option SelectedRange :=
  match resolveSelectedTextHighlight p with
  | None => (p, None)
  | Some (highlight, target) =>
      match resolveTextBoundaries target (startOffset highlight) (endOffset highlight) with
      | (Some startNodeResult, Some endNodeResult) =>
          let anchor := if Edge_eqb edge EdgeStart then endNodeResult else startNodeResult in
          let focus := if Edge_eqb edge EdgeStart then startNodeResult else endNodeResult in
          (call p (ApplyNativeSelection anchor focus),
           Some (mkSelectedRange target (node anchor) (offset anchor)))
      | _ => (p, None)
      end
  end.

Fixpoint mapWithIndex {A B : Type} (f : A -> nat -> B) (index : nat) (l : list A) : list B :=
  match l with
  | [] => []
  | item :: rest => f item index :: mapWithIndex f (S index) rest
  end.

(** The callback of [highlights.map] in
    [updateSelectedTextHighlightFromSelection]. *)
Definition rewriteSelected (p : Page) (newStart newEnd : Z) (selectedContent : string)
           (item : AnyHighlightData) (index : nat) : AnyHighlightData :=
  let itemMatchesById :=
    truthy (selectedHighlightId p) && optionStringEqb (id item) (selectedHighlightId p) in
  let itemMatchesByIndex :=
    optionStringEqb (selectedHighlightIndex p) (Some (stringOfIndex index)) in
  let isTargetHighlight := itemMatchesById || itemMatchesByIndex in
  if negb isTargetHighlight || negb (HighlightType_eqb (type item) TypeText) then item
  else mkHighlight (id item) (type item) (xpath item) selectedContent newStart newEnd
                   (color item) (notes item) (createdAt item).

(** Modelled from the spec: [updateHighlights] of ./highlighter is not in
    src; it installs the sequence it is given as the current highlights.
    The other collaborators are recorded as calls. *)
Definition updateHighlights (p : Page) (nextHighlights : list AnyHighlightData) : Page :=
  call (setHighlights p nextHighlights) (UpdateHighlights nextHighlights).

Definition updateSelectedTextHighlightFromSelection (p : Page) (selection : Selection)
  : bool * Page :=
  if Nat.eqb (rangeCount selection) 0 || isCollapsed selection then (false, p)
  else
    match resolveSelectedTextHighlight p with
    | None => (false, p)
    | Some (_, target) =>
        let rawStart :=
          getLegacyTextOffset target (startContainer selection) (rangeStartOffset selection) in
        let rawEnd :=
          getLegacyTextOffset target (endContainer selection) (rangeEndOffset selection) in
        let newStart := Z.min rawStart rawEnd in
        let newEnd := Z.max rawStart rawEnd in
        if Z.eqb newStart newEnd then (false, p)
        else
          let selectedContent := selectionText selection in
          let mappedHighlights :=
            mapWithIndex (rewriteSelected p newStart newEnd selectedContent) 0 (highlights p) in
          let p1 := updateHighlights p mappedHighlights in
          let p2 := call p1 SortHighlights in
          let p3 := call p2 ApplyHighlights in
          let p4 := call p3 SaveHighlights in
          (true, call p4 UpdateHighlighterMenu)
    end.

(** *** Offset-handle drag sessions *)

Definition DRAG_LISTENERS : list DragListener :=
  [OnPointerMove; OnPointerUp; OnPointerCancel; OnMouseMove; OnMouseUp].

(** [document.addEventListener(type, handler, true)]: registering the same
    handler again is a no-op. *)
Definition addEventListener (l : list DragListener) (k : DragListener) : list DragListener :=
  if existsb (DragListener_eqb k) l then l else l ++ [k].

Definition removeEventListener (l : list DragListener) (k : DragListener)
  : list DragListener :=
  filter (fun k' => negb (DragListener_eqb k k')) l.

Definition withPointerEvents (o : Overlay) (value : string) : Overlay :=
  mkOverlay (ovKey o) (highlightIndex o) (highlightId o) (isSelected o)
            (styleLeft o) (styleTop o) (styleWidth o) (styleHeight o)
            (dataContent o) (dataNotes o) (showCommentBadge o) value.

(** [overlay.style.pointerEvents = value] on the element [key]; an element
    that has left the document is not part of the page any more. *)
Definition setOverlayPointerEvents (ovs : list Overlay) (key : nat) (value : string)
  : list Overlay :=
  map (fun o => if Nat.eqb (ovKey o) key then withPointerEvents o value else o) ovs.

Definition restorePointerEvents (ovs : list Overlay) (saved : list (nat * string))
  : list Overlay :=
  fold_left (fun acc entry => setOverlayPointerEvents acc (fst entry) (snd entry)) saved ovs.

Definition releasePointerCapture (l : list (Handle * Z)) (h : Handle) (pid : Z)
  : list (Handle * Z) :=
  filter (fun c => negb (Edge_eqb (fst c) h && Z.eqb (snd c) pid)) l.

Definition teardownOffsetHandleDrag (p : Page) : Page :=
  match activeOffsetHandleDrag p with
  | None => p
  | Some drag =>
      let p1 :=
        setOverlays p (restorePointerEvents (overlays p) (disabledOverlayPointerEvents drag)) in
      let p2 :=
        setDocumentListeners p1
          (fold_left removeEventListener DRAG_LISTENERS (documentListeners p1)) in
      let p3 :=
        match pointerId drag with
        | Some pid =>
            setPointerCaptures p2 (releasePointerCapture (pointerCaptures p2) (handle drag) pid)
        | None => p2
        end in
      let p4 := setOffsetHandleDraggingState p3 false in
      let p5 := call p4 (SetSelectionPreviewColor (selectedColor p4) DefaultAlpha) in
      setActiveOffsetHandleDrag p5 None
  end.

(** [window.getSelection()?.toString() || ''] as the browser answers it. *)
Definition selectionTextOf (b : Browser) : string :=
  match windowSelection b with
  | Some s => selectionText s
  | None => EmptyString
  end.

Definition snapshotPointerEvents (ovs : list Overlay) : list (nat * string) :=
  map (fun overlay => (ovKey overlay, pointerEvents overlay)) ovs.

(** The statements of [beginOffsetHandleDrag] that follow the teardown of a
    prior session: suspend the overlays, install the session state, capture
    the pointer and register the document listeners. *)
Definition installOffsetHandleDrag (p2 : Page) (b : Browser) (selectedRange : SelectedRange)
           (handle : Handle) (edge : Edge) (clientX clientY : Q)
           (inputType : OffsetHandleDragInputType) (pointerId : option Z) : Page :=
  let overlaysForDrag := overlays p2 in
  let disabledOverlayPointerEvents := snapshotPointerEvents overlaysForDrag in
  let p3 :=
    setOverlays p2 (map (fun overlay => withPointerEvents overlay "none") overlaysForDrag) in
  let drag :=
    mkDragState (srAnchorNode selectedRange) (srAnchorOffset selectedRange)
                (srTarget selectedRange) edge pointerId inputType handle
                clientX clientY false (selectionTextOf b)
                disabledOverlayPointerEvents in
  let p4 := setActiveOffsetHandleDrag p3 (Some drag) in
  let p5 := setOffsetHandleDraggingState p4 true in
  let p6 := call p5 (SetSelectionPreviewColor (selectedColor p5) DragAlpha) in
  let p7 :=
    match inputType, pointerId with
    | InputPointer, Some pid =>
        if setPointerCaptureThrows b then p6
        else setPointerCaptures p6 (pointerCaptures p6 ++ [(handle, pid)])
    | _, _ => p6
    end in
  setDocumentListeners p7 (fold_left addEventListener DRAG_LISTENERS (documentListeners p7)).

Definition beginOffsetHandleDrag (p : Page) (b : Browser) (handle : Handle) (edge : Edge)
           (clientX clientY : Q) (inputType : OffsetHandleDragInputType)
           (pointerId : option Z) : Page :=
  let p0 := call p HideHighlightWidgetTooltip in
  match selectHighlightTextFromOpposingEdge p0 edge with
  | (p1, None) => p1
  | (p1, Some selectedRange) =>
      let p2 := if isSome (activeOffsetHandleDrag p1) then teardownOffsetHandleDrag p1 else p1 in
      installOffsetHandleDrag p2 b selectedRange handle edge clientX clientY inputType pointerId
  end.

(** The fields of a MouseEvent that the handlers read; a PointerEvent adds
    [pointerId]. *)
Record MouseEventInit : Type := mkMouseEvent {
  button : Z;
  clientX : Q;
  clientY : Q;
  currentTarget : option Handle
}.

Inductive InputEvent : Type :=
| PointerEvent (pointerId : Z) (init : MouseEventInit)
| MouseEvent (init : MouseEventInit).

Definition eventInit (event : InputEvent) : MouseEventInit :=
  match event with
  | PointerEvent _ init => init
  | MouseEvent init => init
  end.

Definition withHasMoved (d : OffsetHandleDragState) : OffsetHandleDragState :=
  mkDragState (anchorNode d) (anchorOffset d) (target d) (edge d) (pointerId d)
              (inputType d) (handle d) (startClientX d) (startClientY d) true
              (initialSelectionText d) (disabledOverlayPointerEvents d).

Definition handleOffsetHandleDragMove (p : Page) (b : Browser) (event : InputEvent) : Page :=
  match activeOffsetHandleDrag p with
  | None => p
  | Some drag =>
      let accepted :=
        match inputType drag, event with
        | InputPointer, PointerEvent pid _ =>
            match pointerId drag with
            | Some dragPointerId => Z.eqb pid dragPointerId
            | None => false
            end
        | InputPointer, MouseEvent _ => false
        | InputMouse, PointerEvent _ _ => false
        | InputMouse, MouseEvent _ => true
        end in
      if negb accepted then p
      else
        let e := eventInit event in
        let drag' :=
          if Qlt_bool OFFSET_HANDLE_DRAG_THRESHOLD_PX
                      (Qabs (fl (clientX e - startClientX drag)))
             || Qlt_bool OFFSET_HANDLE_DRAG_THRESHOLD_PX
                         (Qabs (fl (clientY e - startClientY drag)))
          then withHasMoved drag else drag in
        let p1 := setActiveOffsetHandleDrag p (Some drag') in
        match caretPointAtPointer b with
        | None => p1
        | Some focus =>
            let p2 :=
              call p1 (ApplyNativeSelection
                         (mkCaretPoint (anchorNode drag') (anchorOffset drag')) focus) in
            if caretRectFound b then call p2 (PositionOffsetHandle (handle drag') (edge drag'))
            else p2
        end
  end.

Definition finalizeOffsetHandleDrag (p : Page) (b : Browser) (clientX clientY : Q) : Page :=
  match activeOffsetHandleDrag p with
  | None => p
  | Some drag =>
      let selection := windowSelection b in
      let currentSelectionText := selectionTextOf b in
      let didChangeSelection :=
        hasMoved drag
        || negb (String.eqb currentSelectionText (initialSelectionText drag)) in
      let p1 := teardownOffsetHandleDrag p in
      let p2 := setSuppressNextMouseUpHighlight p1 true in
      match selection with
      | None => p2
      | Some sel =>
          if negb didChangeSelection || isCollapsed sel then p2
          else
            let '(updated, p3) := updateSelectedTextHighlightFromSelection p2 sel in
            if updated
            then call (call p3 SelectionRemoveAllRanges)
                      (ScheduleHighlightWidgetOpenFromPoint clientX clientY)
            else p3
      end
  end.

Definition pointerSessionMatches (p : Page) (pid : Z) : bool :=
  match activeOffsetHandleDrag p with
  | Some drag =>
      match inputType drag, pointerId drag with
      | InputPointer, Some dragPointerId => Z.eqb pid dragPointerId
      | _, _ => false
      end
  | None => false
  end.

Definition handleOffsetHandlePointerUp (p : Page) (b : Browser) (pid : Z)
           (e : MouseEventInit) : Page :=
  if pointerSessionMatches p pid then finalizeOffsetHandleDrag p b (clientX e) (clientY e)
  else p.

Definition handleOffsetHandlePointerCancel (p : Page) (pid : Z) : Page :=
  if pointerSessionMatches p pid
  then setSuppressNextMouseUpHighlight (teardownOffsetHandleDrag p) true
  else p.

Definition handleOffsetHandleMouseUp (p : Page) (b : Browser) (e : MouseEventInit) : Page :=
  match activeOffsetHandleDrag p with
  | Some drag =>
      match inputType drag with
      | InputMouse => finalizeOffsetHandleDrag p b (clientX e) (clientY e)
      | InputPointer => p
      end
  | None => p
  end.

(** [handle.dataset.edge === 'start' ? 'start' : 'end'], the handle being
    named by the edge it was created for. *)
Definition edgeOfHandle (h : Handle) : Edge := h.

Definition handleOffsetHandleDown (p : Page) (b : Browser) (pid : Z) (e : MouseEventInit)
  : Page :=
  if negb (Z.eqb (button e) 0) then p
  else
    match currentTarget e with
    | None => p
    | Some handle =>
        beginOffsetHandleDrag p b handle (edgeOfHandle handle) (clientX e) (clientY e)
                              InputPointer (Some pid)
    end.

Definition handleOffsetHandleMouseDown (p : Page) (b : Browser) (e : MouseEventInit) : Page :=
  if negb (Z.eqb (button e) 0) || isSome (activeOffsetHandleDrag p) then p
  else
    match currentTarget e with
    | None => p
    | Some handle =>
        beginOffsetHandleDrag p b handle (edgeOfHandle handle) (clientX e) (clientY e)
                              InputMouse None
    end.

Definition hideOffsetHandles (p : Page) : Page :=
  let p1 := if isSome (activeOffsetHandleDrag p) then teardownOffsetHandleDrag p else p in
  let p2 := setOffsetHandleDraggingState p1 false in
  call p2 (SetSelectionPreviewColor None DefaultAlpha).

(** Input that reaches the drag controller.  The handle listeners are
    installed for the life of a handle; the document listeners fire only
    while they are registered. *)
Inductive Input : Type :=
| HandlePointerDown (pid : Z) (e : MouseEventInit) (b : Browser)
| HandleMouseDown (e : MouseEventInit) (b : Browser)
| DocumentPointerMove (pid : Z) (e : MouseEventInit) (b : Browser)
| DocumentMouseMove (e : MouseEventInit) (b : Browser)
| DocumentPointerUp (pid : Z) (e : MouseEventInit) (b : Browser)
| DocumentPointerCancel (pid : Z)
| DocumentMouseUp (e : MouseEventInit) (b : Browser)
| HideOffsetHandles.

Definition listening (p : Page) (k : DragListener) : bool :=
  existsb (DragListener_eqb k) (documentListeners p).

Definition dispatch (p : Page) (i : Input) : Page :=
  match i with
  | HandlePointerDown pid e b => handleOffsetHandleDown p b pid e
  | HandleMouseDown e b => handleOffsetHandleMouseDown p b e
  | DocumentPointerMove pid e b =>
      if listening p OnPointerMove then handleOffsetHandleDragMove p b (PointerEvent pid e)
      else p
  | DocumentMouseMove e b =>
      if listening p OnMouseMove then handleOffsetHandleDragMove p b (MouseEvent e) else p
  | DocumentPointerUp pid e b =>
      if listening p OnPointerUp then handleOffsetHandlePointerUp p b pid e else p
  | DocumentPointerCancel pid =>
      if listening p OnPointerCancel then handleOffsetHandlePointerCancel p pid else p
  | DocumentMouseUp e b =>
      if listening p OnMouseUp then handleOffsetHandleMouseUp p b e else p
  | HideOffsetHandles => hideOffsetHandles p
  end.

Definition run (p : Page) (inputs : list Input) : Page := fold_left dispatch inputs p.

(** A page before any drag: no session, no drag listener, no capture. *)
Definition idle (p : Page) : bool :=
  negb (isSome (activeOffsetHandleDrag p))
  && match documentListeners p with [] => true | _ => false end
  && match pointerCaptures p with [] => true | _ => false end
  && negb (offsetHandleDragging p).

(** *** Properties of sessions and records that the theorems speak of *)

(** A move event that stays within the drag threshold of the point where
    the session started. *)
Definition moveWithinThreshold (d : OffsetHandleDragState) (i : Input) : bool :=
  match i with
  | DocumentPointerMove _ e _ | DocumentMouseMove e _ =>
      Qle_bool (Qabs (clientX e - startClientX d)) OFFSET_HANDLE_DRAG_THRESHOLD_PX
      && Qle_bool (Qabs (clientY e - startClientY d)) OFFSET_HANDLE_DRAG_THRESHOLD_PX
  | _ => false
  end.

Definition persistenceCalls (p : Page) : list Call := filter isPersistenceCall (calls p).

(** What a session owns.  With no session there is no drag listener, no
    pointer capture, no dragging class, and every overlay carries its own
    pointer-events value; a session holds the five listeners, at most the
    capture of its own pointer, and the values it suspended. *)
Definition sessionInvariant (baseline : list (nat * string)) (p : Page) : Prop :=
  match activeOffsetHandleDrag p with
  | None =>
      documentListeners p = []
      /\ pointerCaptures p = []
      /\ offsetHandleDragging p = false
      /\ snapshotPointerEvents (overlays p) = baseline
  | Some d =>
      documentListeners p = DRAG_LISTENERS
      /\ (pointerCaptures p = []
          \/ exists pid, pointerId d = Some pid /\ pointerCaptures p = [(handle d, pid)])
      /\ offsetHandleDragging p = true
      /\ disabledOverlayPointerEvents d = baseline
      /\ map ovKey (overlays p) = map fst baseline
  end.

(** The offsets of a text highlight are in order. *)
Definition offsetsOrdered (h : AnyHighlightData) : Prop :=
  type h = TypeText -> startOffset h <= endOffset h.

(** *** The merge step, in the words of the specification and as the loop runs *)

(** The running rectangle with its right edge moved to that of [rect],
    its left edge, top and height kept. *)
Definition extendRightEdge (running rect : DOMRect) : DOMRect :=
  mkDOMRect (left running) (top running) (right rect - left running) (height running).

(** "Two consecutive rectangles are merged when their vertical positions and
    heights match within 1 pixel": each rectangle is compared with the one
    generated just before it. *)
Fixpoint mergeConsecutive (previous running : DOMRect) (rects : list DOMRect)
  : list DOMRect :=
  match rects with
  | [] => [running]
  | rect :: rest =>
      if near (y rect) (y previous) && near (height rect) (height previous)
      then mergeConsecutive rect (extendRightEdge running rect) rest
      else running :: mergeConsecutive rect rect rest
  end.

Definition mergeConsecutiveRule (rects : list DOMRect) : list DOMRect :=
  match rects with
  | [] => []
  | rect :: rest => mergeConsecutive rect rect rest
  end.

(** The same walk with each rectangle compared with the running rectangle,
    whose [y] and [height] are those of the first rectangle of its run. *)
Fixpoint mergeRunning (running : DOMRect) (rects : list DOMRect) : list DOMRect :=
  match rects with
  | [] => [running]
  | rect :: rest =>
      if sameLine rect running
      then mergeRunning (extendTo running rect) rest
      else running :: mergeRunning (copyRect rect) rest
  end.

Definition mergeRunningRule (rects : list DOMRect) : list DOMRect :=
  match rects with
  | [] => []
  | rect :: rest => mergeRunning (copyRect rect) rest
  end.

(** What the commit does to one record: it is kept, or it is a text record
    that receives the new offsets and content. *)
Definition keptOrRewritten (newStart newEnd : Z) (selectedContent : string)
           (old new : AnyHighlightData) : Prop :=
  new = old
  \/ (type old = TypeText
      /\ new = mkHighlight (id old) TypeText (xpath old) selectedContent newStart newEnd
                           (color old) (notes old) (createdAt old)).

(** What the restores of a teardown do to one overlay. *)
Definition restoreOne (saved : list (nat * string)) (o : Overlay) : Overlay :=
  fold_left (fun o' entry =>
               if Nat.eqb (ovKey o') (fst entry) then withPointerEvents o' (snd entry) else o')
            saved o.

(** Two pages that differ at most in their records, their calls and the
    mouse-up flag. *)
Definition sameSession (p q : Page) : Prop :=
  activeOffsetHandleDrag p = activeOffsetHandleDrag q
  /\ documentListeners p = documentListeners q
  /\ pointerCaptures p = pointerCaptures q
  /\ offsetHandleDragging p = offsetHandleDragging q
  /\ overlays p = overlays q.

(** The inline box of [o] is [rect] in document coordinates, grown by 2px
    on each edge. *)
Definition paddedBy2 (p : Page) (rect : DOMRect) (o : Overlay) : Prop :=
  styleLeft o = fl (fl (left rect + scrollX p) - 2)
  /\ styleTop o = fl (fl (top rect + scrollY p) - 2)
  /\ styleWidth o = cssSize (fl (width rect + 4))
  /\ styleHeight o = cssSize (fl (height rect + 4)).

End Overlays.

(* ================================================================== *)
(** ** src/core/annotation-browser-data.ts: the snapshot of stored highlights *)
(* ================================================================== *)

Module AnnotationBrowser.
Import Js Timestamps.

(** The fields of a parsed [URL] that the code reads; [href] is what
    [toString()] returns. *)
Record URL : Type := mkURL {
  href : string;
  hostname : string;
  pathname : string
}.

Record AnnotationBrowserPage : Type := mkBrowserPage {
  url : string;
  title : string;
  siteLabel : string;
  path : string;
  annotationsCount : nat;
  firstCreatedAt : JsNumber;
  lastCreatedAt : JsNumber
}.

Record AnnotationBrowserSnapshot : Type := mkSnapshot {
  totalPages : nat;
  totalAnnotations : nat;
  recentPages : list AnnotationBrowserPage;
  mostAnnotatedPages : list AnnotationBrowserPage
}.

(** [a - b] on numbers, as the sort comparators use it: the sort only
    looks at the sign of the result, which is that of the exact difference
    (a double difference is zero only for equal operands). *)
Definition jsSub (a b : JsNumber) : JsNumber :=
  match a, b with
  | NaN, _ | _, NaN => NaN
  | Infinity s, Infinity t => if Bool.eqb s t then NaN else Infinity s
  | Infinity s, Finite _ => Infinity s
  | Finite _, Infinity t => Infinity (negb t)
  | Finite x, Finite y => Finite (x - y)
  end.

(** [a !== b] on numbers. *)
Definition jsNumberNeq (a b : JsNumber) : bool :=
  match a, b with
  | NaN, _ | _, NaN => true
  | Infinity s, Infinity t => negb (Bool.eqb s t)
  | Finite x, Finite y => negb (Qeq_bool x y)
  | _, _ => true
  end.

Definition isNegative (n : JsNumber) : bool :=
  match n with
  | Infinity true => true
  | Finite q => Qlt_bool q 0
  | _ => false
  end.

Definition numberOfNat (n : nat) : JsNumber := Finite (inject_Z (Z.of_nat n)).

(** *** Array.prototype.sort *)

Section Sort.
Context {A : Type}.
Variable comparefn : A -> A -> JsNumber.

(** Puts [x] behind every element it does not strictly precede. *)
Fixpoint insertSorted (x : A) (sorted : list A) : list A :=
  match sorted with
  | [] => [x]
  | y :: rest =>
      if isNegative (comparefn x y) then x :: y :: rest
      else y :: insertSorted x rest
  end.

(** [[...l].sort(comparefn)]: the sort is stable, and a stable sort by a
    consistent comparator has one result, which insertion in input order
    computes. *)
Definition arraySort (l : list A) : list A :=
  fold_left (fun sorted x => insertSorted x sorted) l [].

End Sort.

(** *** Strings *)

Definition isTitleSeparator (c : ascii) : bool :=
  let n := nat_of_ascii c in ((n =? 43) || (n =? 95) || (n =? 45))%nat.

Definition isAlphaNumeric (c : ascii) : bool :=
  let n := nat_of_ascii c in
  (((97 <=? n) && (n <=? 122)) || ((65 <=? n) && (n <=? 90)) || ((48 <=? n) && (n <=? 57)))%nat.

Fixpoint takeWhile {A : Type} (f : A -> bool) (l : list A) : list A :=
  match l with
  | x :: rest => if f x then x :: takeWhile f rest else []
  | [] => []
  end.

Fixpoint dropWhile {A : Type} (f : A -> bool) (l : list A) : list A :=
  match l with
  | x :: rest => if f x then dropWhile f rest else l
  | [] => []
  end.

(** [s.replace(/\.[a-z0-9]{2,5}$/i, '')]: only the maximal alphanumeric
    suffix can follow the dot that the pattern needs. *)
Definition stripExtension (s : list ascii) : list ascii :=
  let reversed := rev s in
  let suffix := takeWhile isAlphaNumeric reversed in
  let n := List.length suffix in
  if ((2 <=? n) && (n <=? 5))%nat then
    match skipn n reversed with
    | c :: before => if Ascii.eqb c "." then rev before else s
    | [] => s
    end
  else s.

(** [s.replace(/[...]+/g, ' ')] for a character class: every maximal run
    becomes one space. *)
Fixpoint collapseRuns (inClass : ascii -> bool) (inRun : bool) (s : list ascii)
  : list ascii :=
  match s with
  | [] => []
  | c :: rest =>
      if inClass c
      then if inRun then collapseRuns inClass true rest
           else " "%char :: collapseRuns inClass true rest
      else c :: collapseRuns inClass false rest
  end.

Definition trim (s : list ascii) : list ascii :=
  rev (dropWhile isWhiteSpace (rev (dropWhile isWhiteSpace s))).

(** [s.split('/')]. *)
Fixpoint splitSlash (s current : list ascii) : list (list ascii) :=
  match s with
  | [] => [rev current]
  | c :: rest =>
      if Ascii.eqb c "/" then rev current :: splitSlash rest []
      else splitSlash rest (c :: current)
  end.

Definition endsWith (s suffix : string) : bool :=
  let ls := list_ascii_of_string s in
  let lx := list_ascii_of_string suffix in
  String.eqb (string_of_list_ascii (skipn (List.length ls - List.length lx) ls)) suffix
  && (List.length lx <=? List.length ls)%nat.

Section Snapshot.

(** The platform: the URL parser ([new URL(value)], [None] when it
    throws), [decodeURIComponent] ([None] when it throws),
    [String.prototype.localeCompare], and the successive answers of
    [Date.now()] in milliseconds. *)
Variable parseUrl : string -> option URL.
Variable decodeURIComponent : string -> option string.
Variable localeCompare : string -> string -> Z.
Variable clock : nat -> Z.

Definition dateNow (tick : nat) : JsNumber := Finite (inject_Z (clock tick)).

Definition decodeUriComponentSafe (value : string) : string :=
  match decodeURIComponent value with
  | Some decoded => decoded
  | None => value
  end.

Definition normalizeTitleSegment (segment : string) : string :=
  let withoutExtension :=
    string_of_list_ascii (stripExtension (list_ascii_of_string segment)) in
  let decoded := decodeUriComponentSafe withoutExtension in
  string_of_list_ascii
    (trim (collapseRuns isWhiteSpace false
             (collapseRuns isTitleSeparator false (list_ascii_of_string decoded)))).

Definition isWikipediaHost (hostname : string) : bool :=
  String.eqb hostname "wikipedia.org" || endsWith hostname ".wikipedia.org".

Fixpoint firstTitle (segments : list string) : option string :=
  match segments with
  | [] => None
  | segment :: rest =>
      match normalizeTitleSegment segment with
      | EmptyString => firstTitle rest
      | t => Some t
      end
  end.

(** [url.pathname.slice('/wiki/'.length)]. *)
Definition wikiSlugOf (u : URL) : string :=
  string_of_list_ascii (skipn 6 (list_ascii_of_string (pathname u))).

(** [url.pathname.split('/').filter((segment) => segment.length > 0)]. *)
Definition pathSegmentsOf (u : URL) : list string :=
  filter (fun segment => negb (String.eqb segment EmptyString))
         (map string_of_list_ascii (splitSlash (list_ascii_of_string (pathname u)) [])).

Definition derivePageTitle (u : URL) : string :=
  let wikiTitle :=
    if isWikipediaHost (hostname u) && String.prefix "/wiki/" (pathname u)
    then normalizeTitleSegment (wikiSlugOf u)
    else EmptyString in
  match wikiTitle with
  | String _ _ => wikiTitle
  | EmptyString =>
      let pathSegments := pathSegmentsOf u in
      match firstTitle (rev pathSegments) with
      | Some t => t
      | None => hostname u
      end
  end.

Definition deriveSiteLabel (u : URL) : string :=
  if isWikipediaHost (hostname u) then "Wikipedia (" ++ hostname u ++ ")"
  else hostname u.

Definition derivePathLabel (u : URL) : string :=
  if String.eqb (pathname u) EmptyString || String.eqb (pathname u) "/" then "/"
  else decodeUriComponentSafe (pathname u).

Definition compareTitles (l r : AnnotationBrowserPage) : JsNumber :=
  Finite (inject_Z (localeCompare (title l) (title r))).

Definition sortByMostRecentLast (l r : AnnotationBrowserPage) : JsNumber :=
  if jsNumberNeq (lastCreatedAt r) (lastCreatedAt l)
  then jsSub (lastCreatedAt r) (lastCreatedAt l)
  else if negb (Nat.eqb (annotationsCount r) (annotationsCount l))
  then jsSub (numberOfNat (annotationsCount r)) (numberOfNat (annotationsCount l))
  else compareTitles l r.

Definition sortByMostAnnotations (l r : AnnotationBrowserPage) : JsNumber :=
  if negb (Nat.eqb (annotationsCount r) (annotationsCount l))
  then jsSub (numberOfNat (annotationsCount r)) (numberOfNat (annotationsCount l))
  else if jsNumberNeq (lastCreatedAt r) (lastCreatedAt l)
  then jsSub (lastCreatedAt r) (lastCreatedAt l)
  else compareTitles l r.

(** [getHighlightCreatedAt], with the number of clock reads so far. *)
Definition getHighlightCreatedAt (highlight : JsValue) (tick : nat)
  : option JsNumber * nat :=
  if isRecord highlight then
    let createdAt := getProp highlight "createdAt" in
    let highlightId := getProp highlight "id" in
    (Some (normalizeHighlightCreatedAt createdAt highlightId (dateNow tick)),
     if readsClock createdAt highlightId then S tick else tick)
  else (None, tick).

(** The loop that fills [highlightTimestamps]. *)
Fixpoint collectTimestamps (highlights : list JsValue) (highlightTimestamps : list JsNumber)
         (tick : nat) : list JsNumber * nat :=
  match highlights with
  | [] => (highlightTimestamps, tick)
  | highlight :: rest =>
      match getHighlightCreatedAt highlight tick with
      | (Some createdAt, tick') =>
          collectTimestamps rest (highlightTimestamps ++ [createdAt]) tick'
      | (None, tick') => collectTimestamps rest highlightTimestamps tick'
      end
  end.

Definition entryUrl (storageKey : string) (rawEntry : JsValue) : string :=
  match getProp rawEntry "url" with
  | VString s => s
  | _ => storageKey
  end.

Definition entryHighlights (rawEntry : JsValue) : list JsValue :=
  match getProp rawEntry "highlights" with
  | VArray items => items
  | _ => []
  end.

(** One turn of the loop over [Object.entries]: the page that is pushed,
    or [None] after a [continue]. *)
Definition pageOfEntry (storageKey : string) (rawEntry : JsValue) (tick : nat)
  : option AnnotationBrowserPage * nat :=
  if negb (isRecord rawEntry) then (None, tick)
  else
    match parseUrl (entryUrl storageKey rawEntry) with
    | None => (None, tick)
    | Some parsedUrl =>
        match entryHighlights rawEntry with
        | [] => (None, tick)
        | highlights =>
            let '(highlightTimestamps, tick') := collectTimestamps highlights [] tick in
            match highlightTimestamps with
            | [] => (None, tick')
            | _ :: _ =>
                (Some (mkBrowserPage (href parsedUrl) (derivePageTitle parsedUrl)
                         (deriveSiteLabel parsedUrl) (derivePathLabel parsedUrl)
                         (List.length highlightTimestamps)
                         (Math_min highlightTimestamps) (Math_max highlightTimestamps)),
                 tick')
            end
        end
    end.

(** The loop over the entries: [pages] and [totalAnnotations]. *)
Fixpoint collectPages (entries : list (string * JsValue))
         (pages : list AnnotationBrowserPage) (totalAnnotations tick : nat)
  : list AnnotationBrowserPage * nat :=
  match entries with
  | [] => (pages, totalAnnotations)
  | (storageKey, rawEntry) :: rest =>
      match pageOfEntry storageKey rawEntry tick with
      | (Some page, tick') =>
          collectPages rest (pages ++ [page])
                       (totalAnnotations + annotationsCount page) tick'
      | (None, tick') => collectPages rest pages totalAnnotations tick'
      end
  end.

(** The [pages] array at the end of [buildAnnotationBrowserSnapshot]. *)
Definition emittedPages (rawHighlightsStorage : JsValue) (tick : nat)
  : list AnnotationBrowserPage :=
  if isRecord rawHighlightsStorage
  then fst (collectPages (objectEntries rawHighlightsStorage) [] 0%nat tick)
  else [].

Definition buildAnnotationBrowserSnapshot (rawHighlightsStorage : JsValue) (tick : nat)
  : AnnotationBrowserSnapshot :=
  if negb (isRecord rawHighlightsStorage) then mkSnapshot 0 0 [] []
  else
    let '(pages, totalAnnotations) :=
      collectPages (objectEntries rawHighlightsStorage) [] 0%nat tick in
    mkSnapshot (List.length pages) totalAnnotations
               (arraySort sortByMostRecentLast pages)
               (arraySort sortByMostAnnotations pages).

(** *** The exclusion rule in the words of the specification *)

(** An entry counts when it is a record whose URL parses and which holds a
    highlight with a resolvable timestamp, that is, a highlight that is a
    record. *)
Definition contributes (entry : string * JsValue) : bool :=
  isRecord (snd entry)
  && isSome (parseUrl (entryUrl (fst entry) (snd entry)))
  && existsb isRecord (entryHighlights (snd entry)).

Definition contributedUrl (entry : string * JsValue) : string :=
  match parseUrl (entryUrl (fst entry) (snd entry)) with
  | Some parsedUrl => href parsedUrl
  | None => EmptyString
  end.

Definition contributedCount (entry : string * JsValue) : nat :=
  List.length (filter isRecord (entryHighlights (snd entry))).

End Snapshot.

(** A page counts at least one annotation, first created no later than
    the last. *)
Definition pageWellFormed (page : AnnotationBrowserPage) : Prop :=
  (1 <= annotationsCount page)%nat
  /\ jsLeb (firstCreatedAt page) (lastCreatedAt page) = true.

End AnnotationBrowser.

(* ================================================================== *)
(** ** A page used to exercise the definitions *)
(* ================================================================== *)

Module Examples.
Import Js Dom Highlighter Geometry Overlays.

(** A paragraph [<p>James <b>Clerk</b> Maxwell.</p>] of 20 characters. *)
Definition maxwellParagraph : Element :=
  mkElement "P" [TextNode "James ";
                 ElementNode "B" [TextNode "Clerk"];
                 TextNode " Maxwell."].

(** The highlights of the merge policy's test file. *)
Definition textHighlight (startOffset endOffset : Z) (color : option string)
  : AnyHighlightData :=
  mkHighlight None TypeText "/html/body/p[1]" EmptyString startOffset endOffset color None None.

(** The word "Clerk" highlighted in green, with canonical offsets. *)
Definition clerkHighlight : AnyHighlightData :=
  mkHighlight (Some "1700000000000") TypeText "/html/body/p[1]" "Clerk" 6 11
              (Some "#86d26f") None None.

Definition plainOverlay (key : nat) (pointerEvents : string) : Overlay :=
  mkOverlay key 0 (Some "1700000000000") true 8 8 (Some 44%Q) (Some 24%Q) "Clerk" None false
            pointerEvents.

(** The page with that highlight selected and two overlays whose
    pointer-events differ. *)
Definition examplePage : Page :=
  mkPage [clerkHighlight] [("/html/body/p[1]", maxwellParagraph)]
         (Some "1700000000000") (Some "0") None false
         [plainOverlay 0 EmptyString; plainOverlay 1 "auto"] 2 0 0 [] [] false [].

Definition clerkSelection : Selection :=
  mkSelection 1 false "Clerk" (TextRef 0) 6 (TextRef 1) 5.

Definition browserWithClerk : Browser :=
  mkBrowser (Some clerkSelection) None false false.

(** Pointer 1 presses the start handle at (100, 50). *)
Definition pressStartHandle : Input :=
  HandlePointerDown 1 (mkMouseEvent 0 100%Q 50%Q (Some EdgeStart)) browserWithClerk.

(** The session that this press arms. *)
Definition startHandleSession : OffsetHandleDragState :=
  mkDragState (TextRef 1) 5 maxwellParagraph EdgeStart (Some 1) InputPointer EdgeStart
              100%Q 50%Q false "Clerk" [(0%nat, EmptyString); (1%nat, "auto")].

(** A pointer move of a pixel and a half, for which hit-testing finds no
    caret. *)
Definition smallMove : Input :=
  DocumentPointerMove 1 (mkMouseEvent 0 (1005 # 10) 51%Q None) browserWithClerk.

(** A live selection whose range ends at the anchor element itself (child
    offset 3) and starts inside its last text node: the raw end offset, 3,
    is below the raw start offset, 34. *)
Definition reversedSelection : Selection :=
  mkSelection 1 false "xwell." (TextRef 2) 3 RootRef 3.

(** Three sub-runs of one slightly slanted line: each is 0.625px lower
    than the one before it. *)
Definition driftFirst : DOMRect := mkDOMRect 0 0 10 10.
Definition driftSecond : DOMRect := mkDOMRect 10 (5 # 8) 10 10.
Definition driftThird : DOMRect := mkDOMRect 20 (5 # 4) 10 10.

Definition driftRects : list DOMRect := [driftFirst; driftSecond; driftThird].

(** Three sub-runs of one line of right-to-left text: the second lies left
    of the first, the third right of it. *)
Definition leftwardRects : list DOMRect :=
  [mkDOMRect 50 0 10 10; mkDOMRect 0 0 10 10; mkDOMRect 100 0 10 10].

(** Two sub-runs whose [y] are [2^-60] and 1: they differ by less than a
    pixel. *)
Definition hairBelowTop : DOMRect := mkDOMRect 0 (2 ^ (-60)) 10 10.
Definition pixelBelowTop : DOMRect := mkDOMRect 10 1 10 10.

(** The page before any overlay is rendered. *)
Definition unrenderedPage : Page :=
  mkPage [clerkHighlight] [("/html/body/p[1]", maxwellParagraph)]
         None None None false [] 0 0 0 [] [] false [].

(** Layout of the word "Clerk": one box of 40 by 20 at (10, 10). *)
Definition clerkLayout : Layout :=
  mkLayout [mkDOMRect 10 10 40 20] (mkDOMRect 0 0 300 40).

(** A paragraph highlighted as an element, annotated with one note. *)
Definition notedParagraph : AnyHighlightData :=
  mkHighlight (Some "1700000000001") TypeElement "/html/body/p[1]"
              "James Clerk Maxwell." 0 0 (Some "#ffeb3b") (Some ["check the date"]) None.

(** Its layout: three text lines of height 20 and an inline image of height
    80 on the last line. *)
Definition paragraphWithImageLayout : Layout :=
  mkLayout [mkDOMRect 0 0 300 20; mkDOMRect 0 20 300 20; mkDOMRect 0 40 120 20;
            mkDOMRect 120 40 80 80]
           (mkDOMRect 0 0 300 120).

(** A second highlight, " Maxwell", and a page that shows both: two
    overlays for "Clerk" and, between them in the document, one for
    " Maxwell"; nothing is selected. *)
Definition maxwellHighlight : AnyHighlightData :=
  mkHighlight (Some "1700000000500") TypeText "/html/body/p[1]" " Maxwell" 11 19
              (Some "#f5c542") None None.

Definition maxwellOverlay : Overlay :=
  mkOverlay 2 1 (Some "1700000000500") false 8 40 (Some 60%Q) (Some 24%Q) " Maxwell" None false
            EmptyString.

Definition twoHighlightsPage : Page :=
  mkPage [clerkHighlight; maxwellHighlight] [("/html/body/p[1]", maxwellParagraph)]
         None None None false
         [plainOverlay 0 EmptyString; maxwellOverlay; plainOverlay 1 EmptyString]
         3 0 0 [] [] false [].

End Examples.

(* ================================================================== *)
(** * The order of the sorted page lists *)
(* ================================================================== *)

Module PageOrder.
Import Js AnnotationBrowser.

(** The time of a finite timestamp. *)
Definition timeOf (n : JsNumber) : Q :=
  match n with Finite q => q | _ => 0 end.

(** [a] may stand before [b] in the list of recent pages: it was annotated
    later, or at the same time and holds at least as many annotations. *)
Definition recentFirst (a b : AnnotationBrowserPage) : Prop :=
  (timeOf (lastCreatedAt b) < timeOf (lastCreatedAt a))%Q
  \/ ((timeOf (lastCreatedAt a) == timeOf (lastCreatedAt b))%Q
      /\ (annotationsCount b <= annotationsCount a)%nat).

(** [a] may stand before [b] in the list of most annotated pages: it holds
    more annotations, or as many and was annotated no earlier. *)
Definition mostAnnotatedFirst (a b : AnnotationBrowserPage) : Prop :=
  (annotationsCount b < annotationsCount a)%nat
  \/ (annotationsCount a = annotationsCount b
      /\ (timeOf (lastCreatedAt b) <= timeOf (lastCreatedAt a))%Q).

Definition finiteTimes (page : AnnotationBrowserPage) : Prop :=
  isFiniteNumber (firstCreatedAt page) /\ isFiniteNumber (lastCreatedAt page).

End PageOrder.

(* ================================================================== *)
(** * src/core/annotation-browser-panel.ts: how many pages a section shows *)
(* ================================================================== *)

Module BrowserPanel.
Import Js AnnotationBrowser.

Definition INITIAL_VISIBLE_ITEMS : JsNumber := Finite 25.
Definition VISIBLE_BATCH_SIZE : JsNumber := Finite 25.

(** [Number.isFinite(n)]. *)
Definition Number_isFinite (n : JsNumber) : bool :=
  match n with Finite _ => true | _ => false end.

(** [a + b] on numbers, as [loadMore] uses it: on a counter and the batch
    size, whole numbers far below [2^53], whose sum is a double. *)
Definition jsAdd (a b : JsNumber) : JsNumber :=
  match a, b with
  | NaN, _ | _, NaN => NaN
  | Infinity s, Infinity t => if Bool.eqb s t then Infinity s else NaN
  | Infinity s, Finite _ => Infinity s
  | Finite _, Infinity t => Infinity t
  | Finite x, Finite y => Finite (x + y)
  end.

(** [a < b] on numbers; any comparison with NaN is false. *)
Definition jsLtb (a b : JsNumber) : bool :=
  match a, b with
  | NaN, _ | _, NaN => false
  | _, _ => negb (jsLeb b a)
  end.

Definition clampVisibleCount (current total : JsNumber) : JsNumber :=
  if jsLeb total (Finite 0) then Finite 0
  else if negb (Number_isFinite current) || jsLeb current (Finite 0)
  then Math_min [INITIAL_VISIBLE_ITEMS; total]
  else Math_min [Math_max [current; Math_min [INITIAL_VISIBLE_ITEMS; total]]; total].

(** One section of the panel: the pages of its [SectionConfig] and the
    counter of the controller that [getVisibleCount] reads and
    [setVisibleCount] writes. *)
Record SectionView : Type := mkSectionView {
  pages : list AnnotationBrowserPage;
  visibleCount : JsNumber
}.

(** The counter after [loadMore]. *)
Definition loadMore (s : SectionView) : SectionView :=
  let length := numberOfNat (List.length (pages s)) in
  let currentVisible := Math_min [visibleCount s; length] in
  if jsLeb length currentVisible then s
  else mkSectionView (pages s) (Math_min [jsAdd currentVisible VISIBLE_BATCH_SIZE; length]).

(** The loop [for (index = 0; index < visibleCount; index++)] that appends
    the card of [pages[index]]. *)
Fixpoint cardsLoop (rest : list AnnotationBrowserPage) (index : nat) (visible : JsNumber)
  : list AnnotationBrowserPage :=
  match rest with
  | [] => []
  | page :: rest' =>
      if jsLtb (numberOfNat index) visible
      then page :: cardsLoop rest' (S index) visible
      else []
  end.

(** [renderVisibleItems]: the pages whose cards are in the list, and
    [hasMore]. *)
Definition renderVisibleItems (s : SectionView) : list AnnotationBrowserPage * bool :=
  let length := numberOfNat (List.length (pages s)) in
  let visible := Math_min [visibleCount s; length] in
  (cardsLoop (pages s) 0 visible, jsLtb visible length).

(** The part of [refresh] that concerns one section: the counter is
    clamped to the new list, which [renderSnapshot] then shows. *)
Definition refreshSection (s : SectionView) (newPages : list AnnotationBrowserPage)
  : SectionView :=
  mkSectionView newPages
                (clampVisibleCount (visibleCount s) (numberOfNat (List.length newPages))).

Inductive PanelEvent : Type :=
| RefreshCompleted (newPages : list AnnotationBrowserPage)
| LoadMoreRequested.

Definition panelStep (s : SectionView) (e : PanelEvent) : SectionView :=
  match e with
  | RefreshCompleted newPages => refreshSection s newPages
  | LoadMoreRequested => loadMore s
  end.

(** [let recentVisibleCount = 0], before the first snapshot. *)
Definition initialSection : SectionView := mkSectionView [] (Finite 0).

Definition panelRun (events : list PanelEvent) : SectionView :=
  fold_left panelStep events initialSection.

(** The counter is a whole number between min(25, n) and n. *)
Definition countInRange (s : SectionView) (v : nat) : Prop :=
  visibleCount s = numberOfNat v
  /\ (Nat.min 25 (List.length (pages s)) <= v <= List.length (pages s))%nat.

End BrowserPanel.

(* ================================================================== *)
(** * src/utils/highlighter-overlays.ts: selecting and repainting overlays *)
(* ================================================================== *)

Module OverlaySelection.
Import Js Dom Highlighter Geometry Overlays.

(** Calls to ./highlighter-widget, to the runtime and to the viewport that
    the selection code makes besides those recorded in the page. *)
Inductive WidgetCall : Type :=
| ScrollIntoView (overlayKey : nat)
| OpenHighlightWidgetForOverlay (overlayKey : nat) (openPoint : option (Q * Q))
| NotifyPanelSelection (highlightId : string)
| SyncHighlightWidgetPosition
| CloseHighlightWidget.

(** [OverlaySelectionOptions]; an absent option is [None]. *)
Record OverlaySelectionOptions : Type := mkOptions {
  openWidget : option bool;
  scrollIntoView : option bool;
  notifyPanel : option bool;
  openPoint : option (Q * Q)
}.

(** [classList.add] and [classList.remove] of the selected class. *)
Definition withSelected (o : Overlay) (selected : bool) : Overlay :=
  mkOverlay (ovKey o) (highlightIndex o) (highlightId o) selected
            (styleLeft o) (styleTop o) (styleWidth o) (styleHeight o)
            (dataContent o) (dataNotes o) (showCommentBadge o) (pointerEvents o).

Definition setSelectedReference (p : Page) (id index : option string) : Page :=
  mkPage (highlights p) (elements p) id index
         (activeOffsetHandleDrag p) (suppressNextMouseUpHighlight p) (overlays p)
         (nextOverlayKey p) (scrollX p) (scrollY p) (documentListeners p)
         (pointerCaptures p) (offsetHandleDragging p) (calls p).

(** [overlay.dataset.highlightIndex]. *)
Definition datasetHighlightIndex (o : Overlay) : string := stringOfIndex (highlightIndex o).

(** The comparator that [getMatchingOverlays] hands to [sort]. *)
Definition byPosition (p : Page) (a b : Overlay) : JsNumber :=
  let aRect := overlayBoundingClientRect p a in
  let bRect := overlayBoundingClientRect p b in
  if Qlt_bool 1 (Qabs (fl (top aRect - top bRect)))
  then Finite (fl (top aRect - top bRect))
  else Finite (fl (left aRect - left bRect)).

(** The test of [findOverlayAtPoint]. *)
Definition containsPoint (p : Page) (clientX clientY : Q) (overlay : Overlay) : bool :=
  let rect := overlayBoundingClientRect p overlay in
  Qle_bool (left rect) clientX && Qle_bool clientX (right rect)
  && Qle_bool (top rect) clientY && Qle_bool clientY (bottom rect).

(** [findOverlayAtPoint]: the overlays are tried from the last of the
    document to the first. *)
Definition findOverlayAtPoint (p : Page) (clientX clientY : Q) : option Overlay :=
  find (containsPoint p clientX clientY) (rev (overlays p)).

(** What the click and touch handlers read of an event: the overlay that
    [event.target.closest('.obsidian-highlight-overlay')] finds and the
    point that [getEventPoint] answers. *)
Record UiEvent : Type := mkUiEvent {
  closestOverlay : option Overlay;
  eventPoint : option (Q * Q)
}.

Definition findOverlayFromEvent (p : Page) (event : UiEvent) : option Overlay :=
  match closestOverlay event with
  | Some target => Some target
  | None =>
      match eventPoint event with
      | None => None
      | Some (clientX, clientY) => findOverlayAtPoint p clientX clientY
      end
  end.

Definition clearSelectedOverlays (p : Page) : Page :=
  setOverlays p (map (fun overlay => withSelected overlay false) (overlays p)).

(** [matches.forEach(overlay => overlay.classList.add(...))], the matches
    being elements of the document. *)
Definition addSelectedClass (p : Page) (matches : list Overlay) : Page :=
  setOverlays p
    (map (fun overlay =>
            if existsb (fun m => Nat.eqb (ovKey m) (ovKey overlay)) matches
            then withSelected overlay true else overlay)
         (overlays p)).

Definition rememberSelectedOverlayReference (p : Page) (overlay : Overlay) : Page :=
  setSelectedReference p
    (if truthy (highlightId overlay) then highlightId overlay else None)
    (if truthy (Some (datasetHighlightIndex overlay))
     then Some (datasetHighlightIndex overlay) else None).

Section Engine.

(** [Array.prototype.sort] as the engine runs it; the comparator of
    [getMatchingOverlays] is not a consistent one, so that the order of the
    result is the engine's.  What layout answers for the highlight at each
    index while the overlays are planned. *)
Variable engineSort : (Overlay -> Overlay -> JsNumber) -> list Overlay -> list Overlay.
Variable layoutOf : nat -> Layout.

Definition getMatchingOverlays (p : Page) (highlightId highlightIndex : option string)
  : list Overlay :=
  let byId :=
    if truthy highlightId
    then filter (fun overlay => optionStringEqb (Overlays.highlightId overlay) highlightId)
                (overlays p)
    else [] in
  match byId with
  | _ :: _ => engineSort (byPosition p) byId
  | [] =>
      let matches :=
        if truthy highlightIndex
        then filter (fun overlay =>
                       optionStringEqb (Some (datasetHighlightIndex overlay)) highlightIndex)
                    (overlays p)
        else [] in
      engineSort (byPosition p) matches
  end.

Definition updateOffsetHandles (p : Page) : Page :=
  match resolveSelectedTextHighlight p with
  | None => hideOffsetHandles p
  | Some (highlight, _) =>
      let p1 := call p (SetSelectionPreviewColor (color highlight) DefaultAlpha) in
      match getMatchingOverlays p1 (selectedHighlightId p1) (selectedHighlightIndex p1) with
      | [] => hideOffsetHandles p1
      | _ :: _ =>
          call (call p1 (PositionOffsetHandle EdgeStart EdgeStart))
               (PositionOffsetHandle EdgeEnd EdgeEnd)
      end
  end.

(** [applySelectedOverlayState]: the primary overlay, if any, and the page. *)
Definition applySelectedOverlayState (p : Page) : option Overlay * Page :=
  let p1 := clearSelectedOverlays p in
  match getMatchingOverlays p1 (selectedHighlightId p1) (selectedHighlightIndex p1) with
  | [] => (None, hideOffsetHandles p1)
  | primary :: others =>
      (Some primary, updateOffsetHandles (addSelectedClass p1 (primary :: others)))
  end.

Definition selectOverlay (p : Page) (overlay : Overlay) (options : OverlaySelectionOptions)
  : bool * Page * list WidgetCall :=
  let p1 := rememberSelectedOverlayReference p overlay in
  match applySelectedOverlayState p1 with
  | (None, p2) => (false, p2, [])
  | (Some primaryOverlay, p2) =>
      let scrolled :=
        match scrollIntoView options with
        | Some true => [ScrollIntoView (ovKey primaryOverlay)]
        | _ => []
        end in
      let opened :=
        match openWidget options with
        | Some false => []
        | _ => [OpenHighlightWidgetForOverlay (ovKey primaryOverlay) (openPoint options)]
        end in
      let notified :=
        match notifyPanel options, selectedHighlightId p2 with
        | Some false, _ => []
        | _, Some (String c rest) => [NotifyPanelSelection (String c rest)]
        | _, _ => []
        end in
      (true, p2, (scrolled ++ opened ++ notified)%list)
  end.

(** [highlights.forEach((highlight, index) => ...)] of
    [ensureHighlightOverlaysPresent]. *)
Fixpoint planEach (p : Page) (rest : list AnyHighlightData) (index : nat) : Page :=
  match rest with
  | [] => p
  | highlight :: rest' =>
      let p' :=
        match getElementByXPath (elements p) (xpath highlight) with
        | Some target => planHighlightOverlayRects p (layoutOf index) target highlight index
        | None => p
        end in
      planEach p' rest' (S index)
  end.

Definition ensureHighlightOverlaysPresent (p : Page) : Page :=
  match overlays p, highlights p with
  | _ :: _, _ => p
  | [], [] => p
  | [], _ :: _ => planEach p (highlights p) 0
  end.

Definition selectHighlightOverlayById (p : Page) (highlightId : string)
           (options : OverlaySelectionOptions) : bool * Page * list WidgetCall :=
  if negb (truthy (Some highlightId)) then (false, p, [])
  else
    let p1 := ensureHighlightOverlaysPresent p in
    match getMatchingOverlays p1 (Some highlightId) None with
    | [] => (false, p1, [])
    | first :: _ => selectOverlay p1 first options
    end.

(** [highlights.forEach((highlight, index) => ...)] of
    [updateHighlightOverlayPositions]. *)
Fixpoint repaintEach (p : Page) (rest : list AnyHighlightData) (index : nat) : Page :=
  match rest with
  | [] => p
  | highlight :: rest' =>
      let p' :=
        match getElementByXPath (elements p) (xpath highlight) with
        | Some target =>
            let p1 :=
              match overlaysOfIndex p index with
              | _ :: _ => removeExistingHighlightOverlays p index
              | [] => p
              end in
            planHighlightOverlayRects p1 (layoutOf index) target highlight index
        | None => p
        end in
      repaintEach p' rest' (S index)
  end.

Definition updateHighlightOverlayPositions (p : Page) : Page * list WidgetCall :=
  let p1 := repaintEach p (highlights p) 0 in
  (snd (applySelectedOverlayState p1), [SyncHighlightWidgetPosition]).

Definition handleHighlightClick (p : Page) (event : UiEvent) : Page * list WidgetCall :=
  let p0 := call p HideHighlightWidgetTooltip in
  match findOverlayFromEvent p0 event with
  | None => (p0, [])
  | Some overlay =>
      let '(_, p1, widgetCalls) :=
        selectOverlay p0 overlay (mkOptions (Some true) (Some false) (Some true)
                                            (eventPoint event)) in
      (p1, widgetCalls)
  end.

End Engine.

Definition removeExistingHighlights (p : Page) : Page * list WidgetCall :=
  let p1 := setOverlays p [] in
  let p2 := setSelectedReference p1 None None in
  let p3 := hideOffsetHandles p2 in
  (call p3 HideHighlightWidgetTooltip, [CloseHighlightWidget]).

(** *** What the theorems about selection speak of *)

(** [candidate] belongs to the highlight of [overlay]: it carries the same
    identifier, or, when [overlay] has none, the same index. *)
Definition sameHighlight (overlay candidate : Overlay) : bool :=
  if truthy (highlightId overlay)
  then optionStringEqb (highlightId candidate) (highlightId overlay)
  else Nat.eqb (highlightIndex candidate) (highlightIndex overlay).

(** Everything of an overlay but its selected class and its pointer-events
    value. *)
Definition sameElement (o o' : Overlay) : Prop :=
  ovKey o' = ovKey o /\ highlightIndex o' = highlightIndex o
  /\ highlightId o' = highlightId o
  /\ styleLeft o' = styleLeft o /\ styleTop o' = styleTop o
  /\ styleWidth o' = styleWidth o /\ styleHeight o' = styleHeight o
  /\ dataContent o' = dataContent o /\ dataNotes o' = dataNotes o
  /\ showCommentBadge o' = showCommentBadge o.

(** What planning keeps of a page: everything but the overlays and the
    next key. *)
Definition sameButOverlays (p q : Page) : Prop :=
  selectedHighlightId q = selectedHighlightId p
  /\ selectedHighlightIndex q = selectedHighlightIndex p
  /\ highlights q = highlights p /\ elements q = elements p
  /\ scrollX q = scrollX p /\ scrollY q = scrollY p
  /\ activeOffsetHandleDrag q = activeOffsetHandleDrag p
  /\ calls q = calls p.

(** *** What the theorems about repainting speak of *)

(** The inline box of an element: [left] and [top], and [width] and
    [height] where the style has them. *)
Record InlineBox : Type := mkInlineBox {
  boxLeft : Q;
  boxTop : Q;
  boxWidth : option Q;
  boxHeight : option Q
}.

(** The inline box of an overlay, in document coordinates. *)
Definition overlayBox (o : Overlay) : InlineBox :=
  mkInlineBox (styleLeft o) (styleTop o) (styleWidth o) (styleHeight o).

(** The box that [createHighlightOverlayElement] writes for [rect]: the
    rectangle in document coordinates grown by 2px on each edge, without the
    width or the height that would be negative. *)
Definition paddedBox (p : Page) (rect : DOMRect) : InlineBox :=
  mkInlineBox (fl (fl (left rect + scrollX p) - 2)) (fl (fl (top rect + scrollY p) - 2))
              (cssSize (fl (width rect + 4))) (cssSize (fl (height rect + 4))).

(** The merged rectangles that [processRangeForOverlayRects] goes through,
    in the order of its two calls: those of the text rectangles, then those
    of the taller ones; the fallback rectangle when the range has none. *)
Definition rangeRects (rects : list DOMRect) (fallbackRect : DOMRect) : list DOMRect :=
  match rects with
  | [] => mergedRectsOf [fallbackRect]
  | _ :: _ =>
      let averageLineHeight := calculateAverageLineHeight rects in
      (mergedRectsOf
         (filter (fun rect => Qle_bool (height rect) (fl (averageLineHeight * (3 # 2)))) rects)
       ++ mergedRectsOf
            (filter (fun rect => Qlt_bool (fl (averageLineHeight * (3 # 2))) (height rect))
                    rects))%list
  end.

(** The merged rectangles that [planHighlightOverlayRects] goes through
    for a highlight. *)
Definition plannedRects (layout : Layout) (target : Element) (highlight : AnyHighlightData)
  : list DOMRect :=
  let tagName := toUpperCase (Dom.tagName target) in
  match type highlight with
  | TypeComplex | TypeElement =>
      if existsb (String.eqb tagName) LINE_BY_LINE_OVERLAY_TAGS
      then rangeRects (rangeClientRects layout) (boundingClientRect layout)
      else mergedRectsOf [boundingClientRect layout]
  | TypeText =>
      match resolveTextBoundaries target (startOffset highlight) (endOffset highlight) with
      | (Some _, Some _) => rangeRects (rangeClientRects layout) (boundingClientRect layout)
      | _ => mergedRectsOf [boundingClientRect layout]
      end
  end.

End OverlaySelection.

(* ================================================================== *)
(** * src/utils/highlighter-overlays.ts: mouse-up and touch-end on the page *)
(* ================================================================== *)

Module PointerRelease.
Import Js Dom Highlighter Geometry Overlays OverlaySelection.

Definition toLowerAscii (c : ascii) : ascii :=
  let n := nat_of_ascii c in
  if ((65 <=? n) && (n <=? 90))%nat then ascii_of_nat (n + 32) else c.

Fixpoint toLowerCase (s : string) : string :=
  match s with
  | String c rest => String (toLowerAscii c) (toLowerCase rest)
  | EmptyString => EmptyString
  end.

(** What the handlers read of an element: its tag name, its id, its
    classes, whether [closest] finds the highlighter menu or an offset
    handle from it, and what [isHighlightWidgetElement] of
    ./highlighter-widget answers for it. *)
Record DomElement : Type := mkDomElement {
  elementTagName : string;
  elementId : string;
  classList : list string;
  closestHighlighterMenu : bool;
  closestOffsetHandle : bool;
  isHighlightWidgetElement : bool
}.

Definition classListContains (element : DomElement) (name : string) : bool :=
  existsb (String.eqb name) (classList element).

Definition ALLOWED_TAGS : list string :=
  ["SPAN"; "P"; "H1"; "H2"; "H3"; "H4"; "H5"; "H6"; "MATH"; "FIGURE"; "UL"; "OL"; "TABLE";
   "LI"; "TR"; "TD"; "TH"; "CODE"; "PRE"; "BLOCKQUOTE"; "EM"; "STRONG"; "A"].

Definition OFFSET_HANDLE_CLASS : string := "obsidian-highlight-offset-handle".

Definition isIgnoredElement (element : DomElement) : bool :=
  let tagName := toUpperCase (elementTagName element) in
  let isDisallowedTag := negb (existsb (String.eqb tagName) ALLOWED_TAGS) in
  String.eqb (toLowerCase (elementTagName element)) "html"
  || String.eqb (toLowerCase (elementTagName element)) "body"
  || classListContains element "obsidian-highlighter-menu"
  || closestHighlighterMenu element
  || classListContains element OFFSET_HANDLE_CLASS
  || closestOffsetHandle element
  || isHighlightWidgetElement element
  || isDisallowedTag.

(** *** The mutation observer *)

Definition isHighlighterManagedElement (element : DomElement) : bool :=
  String.prefix "obsidian-highlight" (elementId element)
  || classListContains element "obsidian-highlight-overlay"
  || classListContains element OFFSET_HANDLE_CLASS
  || isHighlightWidgetElement element
  || classListContains element "obsidian-highlighter-menu"
  || closestHighlighterMenu element.

Inductive MutationType : Type := ChildList | Attributes | CharacterData.

(** A [MutationRecord]; a node that is not an [Element] is [None]. *)
Record MutationRecord : Type := mkMutationRecord {
  mutationType : MutationType;
  mutationTarget : option DomElement;
  addedNodes : list (option DomElement);
  removedNodes : list (option DomElement);
  attributeName : option string
}.

Definition isChildListMutationOnlyHighlighterManaged (mutation : MutationRecord) : bool :=
  let allChangedNodes := (addedNodes mutation ++ removedNodes mutation)%list in
  match allChangedNodes with
  | [] => false
  | _ :: _ =>
      forallb (fun node => match node with
                           | Some element => isHighlighterManagedElement element
                           | None => false
                           end)
              allChangedNodes
  end.

(** The test of [mutations.some] in the observer. *)
Definition mutationAsksForUpdate (mutation : MutationRecord) : bool :=
  match mutationType mutation with
  | ChildList =>
      match mutationTarget mutation with
      | None => false
      | Some target =>
          if isChildListMutationOnlyHighlighterManaged mutation then false
          else negb (isHighlighterManagedElement target)
      end
  | Attributes =>
      (optionStringEqb (attributeName mutation) (Some "style")
       || optionStringEqb (attributeName mutation) (Some "class"))
      && match mutationTarget mutation with
         | Some target => negb (isHighlighterManagedElement target)
         | None => false
         end
  | CharacterData => false
  end.

(** The callback of the observer: whether it calls
    [throttledUpdateHighlights]. *)
Definition observerCallsUpdate (isApplyingHighlights : bool)
           (mutations : list MutationRecord) : bool :=
  if negb isApplyingHighlights then existsb mutationAsksForUpdate mutations else false.

(** The element that [createHighlightOverlayElement] appends, and the
    offset handles, as the observer sees them. *)
Definition isOverlayOrHandle (element : DomElement) : bool :=
  classListContains element "obsidian-highlight-overlay"
  || classListContains element OFFSET_HANDLE_CLASS.

(** A mouse-up or touch-end as [handleMouseUp] reads it.  [releasePoint]
    is what [getEventPoint] answers: the mouse position, or the first
    changed touch, if any.  [hitElement] is [event.target] of a mouse event
    and what [elementFromPoint] finds under the touch otherwise, with its
    parent element and the table that [closest('table')] finds from it.
    [releaseOverlay] is the overlay that [closest] finds from
    [event.target]. *)
Record ReleaseEvent : Type := mkReleaseEvent {
  isMouseEvent : bool;
  releasePoint : option (Q * Q);
  hitElement : option DomElement;
  hitParentElement : option DomElement;
  hitClosestTable : option DomElement;
  releaseOverlay : option Overlay
}.

(** Calls to ./highlighter and ./highlighter-widget made by
    [handleMouseUp]. *)
Inductive HighlighterCall : Type :=
| HandleTextSelection
| ScheduleHighlightWidgetOpen (point : option (Q * Q))
| OpenHighlightWidget (overlayKey : nat) (point : option (Q * Q))
| HighlightElement (element : DomElement).

(** The page together with the touch variables of the module. *)
Record ReleaseState : Type := mkReleaseState {
  page : Page;
  touchStartX : Q;
  touchStartY : Q;
  isTouchMoved : bool
}.

(** [handleTouchStart]; [touch] is [event.touches[0]], and reading the
    position of a touch that is not there throws. *)
Definition handleTouchStart (s : ReleaseState) (touch : option (Q * Q)) : ReleaseState :=
  match touch with
  | None => s
  | Some (clientX, clientY) => mkReleaseState (page s) clientX clientY false
  end.

(** [handleTouchMove]: the state, and whether [handleMouseMove] is reached
    for the hover effects. *)
Definition handleTouchMove (s : ReleaseState) (touch : option (Q * Q))
  : ReleaseState * bool :=
  match touch with
  | None => (s, false)
  | Some (clientX, clientY) =>
      let moveThreshold := 10%Q in
      let moved :=
        Qlt_bool moveThreshold (Qabs (fl (clientX - touchStartX s)))
        || Qlt_bool moveThreshold (Qabs (fl (clientY - touchStartY s))) in
      (mkReleaseState (page s) (touchStartX s) (touchStartY s)
                      (if moved then true else isTouchMoved s),
       true)
  end.

Definition isTableCellTag (tagName : string) : bool :=
  existsb (String.eqb tagName) ["TD"; "TH"; "TR"].

(** The last branch of [handleMouseUp], for a release that is neither over
    a selection nor over an overlay.  A [target] that is null makes
    [target.tagName] throw. *)
Definition highlightUnderRelease (event : ReleaseEvent) : list HighlighterCall :=
  match hitElement event with
  | None => []
  | Some target =>
      let targetTagName := toUpperCase (elementTagName target) in
      let elementToProcess :=
        if isTableCellTag targetTagName then hitClosestTable event
        else if isIgnoredElement target then
          match hitParentElement event with
          | Some parent => if negb (isIgnoredElement parent) then Some parent else None
          | None => None
          end
        else Some target in
      match elementToProcess with
      | Some element =>
          [HighlightElement element; ScheduleHighlightWidgetOpen (releasePoint event)]
      | None => []
      end
  end.

(** [handleMouseUp]; [selectionCollapsed] is [isCollapsed] of
    [window.getSelection()], [None] when there is no selection object. *)
Definition handleMouseUp (s : ReleaseState) (event : ReleaseEvent)
           (selectionCollapsed : option bool) : ReleaseState * list HighlighterCall :=
  if suppressNextMouseUpHighlight (page s)
  then (mkReleaseState (setSuppressNextMouseUpHighlight (page s) false)
                       (touchStartX s) (touchStartY s) (isTouchMoved s), [])
  else if negb (isMouseEvent event) && isTouchMoved s
  then (mkReleaseState (page s) (touchStartX s) (touchStartY s) false, [])
  else
    match isMouseEvent event, releasePoint event with
    | false, None => (s, [])
    | _, _ =>
        match selectionCollapsed with
        | Some false =>
            (s, [HandleTextSelection; ScheduleHighlightWidgetOpen (releasePoint event)])
        | _ =>
            let overlayFromEvent :=
              findOverlayFromEvent (page s)
                                   (mkUiEvent (releaseOverlay event) (releasePoint event)) in
            match overlayFromEvent with
            | Some overlay =>
                (s, [OpenHighlightWidget (ovKey overlay) (releasePoint event)])
            | None => (s, highlightUnderRelease event)
            end
        end
    end.

End PointerRelease.

(* ================================================================== *)
(** * src/utils/highlighter-overlays.ts: the caret under the pointer *)
(* ================================================================== *)

Module CaretHitTest.
Import Js Dom.


(** A caret of the document that lies in the target: in its [index]-th
    text descendant, or at a boundary of an element of the target, for
    which [textBefore] is the length of the text of the range from the
    start of the target to the boundary ([None] when the range cannot be
    set). *)
Inductive ContainedCaret : Type :=
| CaretInText (index : nat) (offset : Z)
| CaretAtBoundary (textBefore : option Z).

(** What [getRawCaretPointAtClientPosition] answers together with
    [target.contains]: a caret in the target, or one elsewhere. *)
Inductive RawCaret : Type :=
| Inside (caret : ContainedCaret)
| Elsewhere.




Section HitTest.

(** The caret that the document finds at a point of the viewport, if any. *)
Variable caretFromPoint : Q -> Q -> option RawCaret.



End HitTest.

End CaretHitTest.

(* ================================================================== *)
(** * Theorems *)
(* ================================================================== *)

Local Open Scope list_scope.

(** ** Rounding to doubles *)

Section DoubleRounding.
Import Js.
Local Open Scope Q_scope.

Lemma Qlt_bool_iff (a b : Q) : Qlt_bool a b = true <-> a < b.
Proof.
  unfold Qlt_bool. rewrite negb_true_iff. split.
  - intros H. apply Qnot_le_lt. intros Hle. apply Qle_bool_iff in Hle. congruence.
  - intros H. destruct (Qle_bool b a) eqn:E; [|reflexivity].
    apply Qle_bool_iff in E. exfalso. exact (Qlt_not_le _ _ H E).
Qed.

(** Integers among the rationals. *)
Lemma inject_Z_succ (n : Z) : inject_Z (n + 1) == inject_Z n + 1.
Proof. rewrite inject_Z_plus. reflexivity. Qed.

Lemma Zlt_Qlt_succ (f n : Z) : inject_Z f < inject_Z n + 1 -> (f <= n)%Z.
Proof.
  intros H. rewrite <- inject_Z_succ in H. rewrite <- Zlt_Qlt in H. lia.
Qed.

Lemma floor_bounds (x : Q) : inject_Z (Qfloor x) <= x /\ x < inject_Z (Qfloor x) + 1.
Proof.
  split; [apply Qfloor_le|]. rewrite <- inject_Z_succ. apply Qlt_floor.
Qed.

Lemma floor_unique (x : Q) (n : Z) : inject_Z n <= x -> x < inject_Z n + 1 -> Qfloor x = n.
Proof.
  intros Hle Hlt. destruct (floor_bounds x) as [Hf Hf'].
  assert (H1 : (Qfloor x <= n)%Z) by (apply Zlt_Qlt_succ; lra).
  assert (H2 : (n <= Qfloor x)%Z) by (apply Zlt_Qlt_succ; lra).
  lia.
Qed.

(** Where the rounded integer lies: it is at most [n] exactly when [x] is
    below [n + 1/2], or is [n + 1/2] with [n] even. *)
Lemma roundHalfEven_le_iff (x : Q) (n : Z) :
  (roundHalfEven x <= n)%Z <->
  x < inject_Z n + (1 # 2) \/ (x == inject_Z n + (1 # 2) /\ Z.even n = true).
Proof.
  unfold roundHalfEven. destruct (floor_bounds x) as [Hf Hf'].
  set (f := Qfloor x) in *.
  destruct (Qcompare_spec (2 * (x - inject_Z f)) 1) as [He|Hl|Hg].
  - destruct (Z.even f) eqn:Ef; split.
    + intros Hn. destruct (Z.eq_dec f n) as [->|Hne].
      * right. split; [lra|exact Ef].
      * left. assert (Hlt : (f + 1 <= n)%Z) by lia.
        rewrite Zle_Qle in Hlt. rewrite inject_Z_succ in Hlt. lra.
    + intros [H|[H _]]; apply Zlt_Qlt_succ; lra.
    + intros Hn. left. rewrite Zle_Qle in Hn. rewrite inject_Z_succ in Hn. lra.
    + intros [H|[H En]].
      * assert (Hfn : (f <= n)%Z) by (apply Zlt_Qlt_succ; lra).
        destruct (Z.eq_dec f n) as [->|Hne]; [lra|lia].
      * assert (Hfn : f = n).
        { assert (H1 : (f <= n)%Z) by (apply Zlt_Qlt_succ; lra).
          assert (H2 : (n <= f)%Z) by (apply Zlt_Qlt_succ; lra). lia. }
        rewrite Hfn in Ef. congruence.
  - split.
    + intros Hn. left. rewrite Zle_Qle in Hn. lra.
    + intros [H|[H _]]; apply Zlt_Qlt_succ; lra.
  - split.
    + intros Hn. left. rewrite Zle_Qle in Hn. rewrite inject_Z_succ in Hn. lra.
    + intros [H|[H _]].
      * assert (Hfn : (f <= n)%Z) by (apply Zlt_Qlt_succ; lra).
        destruct (Z.eq_dec f n) as [->|Hne]; [lra|lia].
      * assert (Hfn : (f <= n)%Z) by (apply Zlt_Qlt_succ; lra).
        destruct (Z.eq_dec f n) as [->|Hne]; [lra|lia].
Qed.

Lemma roundHalfEven_comp (x y : Q) : x == y -> roundHalfEven x = roundHalfEven y.
Proof.
  intros H. apply Z.le_antisymm.
  - apply roundHalfEven_le_iff. rewrite H. apply roundHalfEven_le_iff. lia.
  - apply roundHalfEven_le_iff. rewrite <- H. apply roundHalfEven_le_iff. lia.
Qed.

Lemma roundHalfEven_mono (x y : Q) : x <= y -> (roundHalfEven x <= roundHalfEven y)%Z.
Proof.
  intros H. apply roundHalfEven_le_iff.
  destruct (proj1 (roundHalfEven_le_iff y (roundHalfEven y)) (Z.le_refl _)) as [Hy|[Hy He]].
  - left. lra.
  - destruct (Qlt_le_dec x y) as [Hlt|Hge]; [left; lra|].
    right. split; [lra|exact He].
Qed.

Lemma roundHalfEven_Z (n : Z) : roundHalfEven (inject_Z n) = n.
Proof.
  unfold roundHalfEven. rewrite Qfloor_Z.
  destruct (Qcompare_spec (2 * (inject_Z n - inject_Z n)) 1) as [H|H|H]; [lra|reflexivity|lra].
Qed.

Lemma roundHalfEven_ge (x : Q) (n : Z) : inject_Z n <= x -> (n <= roundHalfEven x)%Z.
Proof.
  intros H. rewrite <- (roundHalfEven_Z n). apply roundHalfEven_mono, H.
Qed.

Lemma roundHalfEven_le (x : Q) (n : Z) : x <= inject_Z n -> (roundHalfEven x <= n)%Z.
Proof.
  intros H. rewrite <- (roundHalfEven_Z n). apply roundHalfEven_mono, H.
Qed.

(** It is above [n] exactly when [x] is above [n + 1/2], or is
    [n + 1/2] with [n] odd. *)
Lemma roundHalfEven_gt_iff (x : Q) (n : Z) :
  (n < roundHalfEven x)%Z <->
  inject_Z n + (1 # 2) < x \/ (x == inject_Z n + (1 # 2) /\ Z.even n = false).
Proof.
  pose proof (roundHalfEven_le_iff x n) as H.
  destruct (Q_dec x (inject_Z n + (1 # 2))) as [[Hlt|Hgt]|Heq]; destruct (Z.even n) eqn:En;
    split; intros H'; try lia; try tauto.
  all: try (destruct H' as [H'|[H' ?]]; try lra; try discriminate).
  all: try (apply Z.nle_gt; intros Hle; apply H in Hle; destruct Hle as [Hle|[Hle ?]];
            try lra; try discriminate).
  all: try (exfalso; assert (Hle : (roundHalfEven x <= n)%Z) by (apply H; tauto); lia).
Qed.


(** Powers of two. *)
Lemma pow2_pos (k : Z) : 0 < 2 ^ k.
Proof. apply Qpower_0_lt. reflexivity. Qed.

Lemma pow2_add (a b : Z) : 2 ^ (a + b) == 2 ^ a * 2 ^ b.
Proof. apply Qpower_plus. discriminate. Qed.

Lemma pow2_le (a b : Z) : (a <= b)%Z -> 2 ^ a <= 2 ^ b.
Proof. intros H. apply Qpower_le_compat_l; [exact H|discriminate]. Qed.

Lemma pow2_lt (a b : Z) : (a < b)%Z -> 2 ^ a < 2 ^ b.
Proof. intros H. apply Qpower_lt_compat_l; [exact H|reflexivity]. Qed.

Lemma pow2_lt_inv (a b : Z) : 2 ^ a < 2 ^ b -> (a < b)%Z.
Proof. intros H. apply (Qpower_lt_compat_l_inv 2); [exact H|reflexivity]. Qed.

Lemma pow2_Z (n : Z) : (0 <= n)%Z -> 2 ^ n == inject_Z (2 ^ n).
Proof. intros H. rewrite Zpower_Qpower by exact H. reflexivity. Qed.

Lemma pow2_succ (k : Z) : 2 ^ (k + 1) == 2 * 2 ^ k.
Proof. rewrite pow2_add. change (2 ^ 1) with 2. ring. Qed.

Lemma div_pow2 (x : Q) (e : Z) : x / 2 ^ e == x * 2 ^ (- e).
Proof. rewrite Qpower_opp. reflexivity. Qed.

Lemma pow2_cancel (e : Z) : 2 ^ (- e) * 2 ^ e == 1.
Proof. rewrite <- pow2_add. replace (- e + e)%Z with 0%Z by lia. reflexivity. Qed.

(** [x * 2^(-e)] compared with an integer is [x] compared with the integer
    times [2^e]. *)
Lemma scaled_le (x c : Q) (e : Z) : x / 2 ^ e <= c <-> x <= c * 2 ^ e.
Proof.
  pose proof (pow2_pos e) as He. pose proof (pow2_pos (- e)) as Hn.
  pose proof (pow2_cancel e) as Hc. rewrite div_pow2. split; intros H.
  - assert (H' : x * 2 ^ (- e) * 2 ^ e <= c * 2 ^ e) by (apply Qmult_le_compat_r; lra).
    assert (Hx : x * 2 ^ (- e) * 2 ^ e == x) by (rewrite <- Qmult_assoc, Hc; ring).
    lra.
  - assert (H' : x * 2 ^ (- e) <= c * 2 ^ e * 2 ^ (- e)) by (apply Qmult_le_compat_r; lra).
    assert (Hx : c * 2 ^ e * 2 ^ (- e) == c)
      by (rewrite <- Qmult_assoc, (Qmult_comm (2 ^ e)), Hc; ring).
    lra.
Qed.

Lemma scaled_ge (x c : Q) (e : Z) : c <= x / 2 ^ e <-> c * 2 ^ e <= x.
Proof.
  pose proof (pow2_pos e) as He. pose proof (pow2_pos (- e)) as Hn.
  pose proof (pow2_cancel e) as Hc. rewrite div_pow2. split; intros H.
  - assert (H' : c * 2 ^ e <= x * 2 ^ (- e) * 2 ^ e) by (apply Qmult_le_compat_r; lra).
    assert (Hx : x * 2 ^ (- e) * 2 ^ e == x) by (rewrite <- Qmult_assoc, Hc; ring).
    lra.
  - assert (H' : c * 2 ^ e * 2 ^ (- e) <= x * 2 ^ (- e)) by (apply Qmult_le_compat_r; lra).
    assert (Hx : c * 2 ^ e * 2 ^ (- e) == c)
      by (rewrite <- Qmult_assoc, (Qmult_comm (2 ^ e)), Hc; ring).
    lra.
Qed.

Lemma scaled_lt (x c : Q) (e : Z) : x / 2 ^ e < c <-> x < c * 2 ^ e.
Proof.
  pose proof (scaled_ge x c e) as H. split; intros H'.
  - apply Qnot_le_lt. intros Hle. apply H in Hle. lra.
  - apply Qnot_le_lt. intros Hle. apply H in Hle. lra.
Qed.

Lemma scaled_gt (x c : Q) (e : Z) : c < x / 2 ^ e <-> c * 2 ^ e < x.
Proof.
  pose proof (scaled_le x c e) as H. split; intros H'.
  - apply Qnot_le_lt. intros Hle. apply H in Hle. lra.
  - apply Qnot_le_lt. intros Hle. apply H in Hle. lra.
Qed.

(** The binary logarithm of a positive rational. *)
Lemma floorLog2_spec (a : Q) :
  0 < a -> 2 ^ floorLog2 a <= a /\ a < 2 ^ (floorLog2 a + 1).
Proof.
  intros Ha. unfold floorLog2. destruct a as [n d].
  assert (Hn : (0 < n)%Z) by (unfold Qlt in Ha; simpl in Ha; lia).
  cbn [Qnum Qden].
  set (ln := Z.log2 n). set (ld := Z.log2 (Zpos d)).
  assert (Hln : (0 <= ln)%Z) by apply Z.log2_nonneg.
  assert (Hld : (0 <= ld)%Z) by apply Z.log2_nonneg.
  destruct (Z.log2_spec n Hn) as [Hn1 Hn2]. fold ln in Hn1, Hn2.
  destruct (Z.log2_spec (Zpos d) ltac:(lia)) as [Hd1 Hd2]. fold ld in Hd1, Hd2.
  rewrite Zle_Qle in Hn1, Hd1. rewrite Zlt_Qlt in Hn2, Hd2.
  replace (Z.succ ln) with (ln + 1)%Z in Hn2 by lia.
  replace (Z.succ ld) with (ld + 1)%Z in Hd2 by lia.
  rewrite <- !pow2_Z in Hn1, Hd1, Hn2, Hd2 by lia.
  set (N := inject_Z n) in *. set (D := inject_Z (Zpos d)) in *.
  assert (HD : 0 < D) by (unfold D; rewrite <- (Zlt_Qlt 0); lia).
  assert (Hq : n # d == N / D) by apply Qmake_Qdiv.
  assert (Hmul : forall c, c <= n # d <-> c * D <= N).
  { intros c. rewrite Hq. split; intros H.
    - apply (Qmult_le_compat_r _ _ D) in H; [|lra].
      assert (Hx : N / D * D == N) by (field; lra). lra.
    - apply Qle_shift_div_l; assumption. }
  assert (Hmul' : forall c, n # d < c <-> N < c * D).
  { intros c. split; intros H.
    - apply Qnot_le_lt. intros Hle. apply Hmul in Hle. lra.
    - apply Qnot_le_lt. intros Hle. apply Hmul in Hle. lra. }
  assert (Hup : n # d < 2 ^ (ln - ld + 1)).
  { apply Hmul'. replace (ln - ld + 1)%Z with ((ln + 1) + - ld)%Z by lia.
    rewrite pow2_add. pose proof (pow2_cancel ld) as Hc.
    pose proof (pow2_pos (- ld)) as Hp. pose proof (pow2_pos (ln + 1)) as Hp'.
    assert (Hge : 2 ^ (ln + 1) * (2 ^ (- ld) * 2 ^ ld) <= 2 ^ (ln + 1) * 2 ^ (- ld) * D).
    { rewrite Qmult_assoc. apply Qmult_le_l; [|exact Hd1].
      apply Qmult_lt_0_compat; assumption. }
    rewrite Hc in Hge. lra. }
  assert (Hlow : 2 ^ (ln - ld - 1) <= n # d).
  { apply Hmul. replace (ln - ld - 1)%Z with (ln + - (ld + 1))%Z by lia.
    rewrite pow2_add. pose proof (pow2_cancel (ld + 1)) as Hc.
    pose proof (pow2_pos (- (ld + 1))) as Hp. pose proof (pow2_pos ln) as Hp'.
    assert (Hle : 2 ^ ln * 2 ^ (- (ld + 1)) * D <= 2 ^ ln * (2 ^ (- (ld + 1)) * 2 ^ (ld + 1))).
    { rewrite <- Qmult_assoc. apply Qmult_le_l; [exact Hp'|].
      apply Qmult_le_l; [exact Hp|]. lra. }
    rewrite Hc in Hle. lra. }
  destruct (Qle_bool (2 ^ (ln - ld)) (n # d)) eqn:E.
  - apply Qle_bool_iff in E. split; assumption.
  - split; [exact Hlow|].
    replace (ln - ld - 1 + 1)%Z with (ln - ld)%Z by lia.
    apply Qnot_le_lt. intros Hle. apply Qle_bool_iff in Hle. congruence.
Qed.

Lemma floorLog2_unique (a : Q) (k : Z) : 2 ^ k <= a -> a < 2 ^ (k + 1) -> floorLog2 a = k.
Proof.
  intros Hlow Hup. pose proof (pow2_pos k) as Hk.
  destruct (floorLog2_spec a ltac:(lra)) as [Hl Hu].
  assert (H1 : (floorLog2 a < k + 1)%Z) by (apply pow2_lt_inv; lra).
  assert (H2 : (k < floorLog2 a + 1)%Z) by (apply pow2_lt_inv; lra).
  lia.
Qed.

Lemma floorLog2_ge (a : Q) (k : Z) : 2 ^ k <= a -> (k <= floorLog2 a)%Z.
Proof.
  intros H. pose proof (pow2_pos k) as Hk.
  destruct (floorLog2_spec a ltac:(lra)) as [_ Hu].
  assert (H1 : (k < floorLog2 a + 1)%Z) by (apply pow2_lt_inv; lra). lia.
Qed.

Lemma floorLog2_lt (a : Q) (k : Z) : 0 < a -> a < 2 ^ k -> (floorLog2 a < k)%Z.
Proof.
  intros Ha H. destruct (floorLog2_spec a Ha) as [Hl _]. apply pow2_lt_inv. lra.
Qed.

Lemma floorLog2_comp (a b : Q) : 0 < a -> a == b -> floorLog2 a = floorLog2 b.
Proof.
  intros Ha H. destruct (floorLog2_spec a Ha) as [Hl Hu].
  symmetry. apply floorLog2_unique; lra.
Qed.


Lemma pow2_le_inv (a b : Z) : 2 ^ a <= 2 ^ b -> (a <= b)%Z.
Proof. intros H. apply (Qpower_le_compat_l_inv 2); [exact H|reflexivity]. Qed.

(** *** The rounding of a positive number *)

Lemma exponentOf_comp (a b : Q) : 0 < a -> a == b -> exponentOf a = exponentOf b.
Proof. intros Ha H. unfold exponentOf. rewrite (floorLog2_comp a b Ha H). reflexivity. Qed.

Lemma roundPositive_comp (a b : Q) : 0 < a -> a == b -> roundPositive a == roundPositive b.
Proof.
  intros Ha H. unfold roundPositive. rewrite (exponentOf_comp a b Ha H).
  rewrite (roundHalfEven_comp (a / 2 ^ exponentOf b) (b / 2 ^ exponentOf b)).
  - reflexivity.
  - rewrite H. reflexivity.
Qed.

(** A power of two that is on the grid of step [2^e] bounds the rounded
    value as it bounds the exact one. *)
Lemma grid_ge (a : Q) (e k : Z) :
  (e <= k)%Z -> 2 ^ k <= a -> 2 ^ k <= inject_Z (roundHalfEven (a / 2 ^ e)) * 2 ^ e.
Proof.
  intros Hek Ha. pose proof (pow2_pos e) as He.
  assert (Hk : 2 ^ k == inject_Z (2 ^ (k - e)) * 2 ^ e).
  { rewrite <- pow2_Z by lia. rewrite <- pow2_add. replace (k - e + e)%Z with k by lia.
    reflexivity. }
  rewrite Hk. apply Qmult_le_compat_r; [|lra].
  rewrite <- Zle_Qle. apply roundHalfEven_ge. apply scaled_ge. rewrite <- Hk. exact Ha.
Qed.

Lemma grid_le (a : Q) (e k : Z) :
  (e <= k)%Z -> a <= 2 ^ k -> inject_Z (roundHalfEven (a / 2 ^ e)) * 2 ^ e <= 2 ^ k.
Proof.
  intros Hek Ha. pose proof (pow2_pos e) as He.
  assert (Hk : 2 ^ k == inject_Z (2 ^ (k - e)) * 2 ^ e).
  { rewrite <- pow2_Z by lia. rewrite <- pow2_add. replace (k - e + e)%Z with k by lia.
    reflexivity. }
  rewrite Hk. apply Qmult_le_compat_r; [|lra].
  rewrite <- Zle_Qle. apply roundHalfEven_le. apply scaled_le. rewrite <- Hk. exact Ha.
Qed.

Lemma roundPositive_ge (a : Q) (k : Z) :
  (-1074 <= k)%Z -> 2 ^ k <= a -> 2 ^ k <= roundPositive a.
Proof.
  intros Hk Ha. pose proof (pow2_pos k) as Hp.
  pose proof (floorLog2_ge a k Ha) as Hj.
  destruct (floorLog2_spec a ltac:(lra)) as [Hl _].
  unfold roundPositive, exponentOf.
  set (j := floorLog2 a) in *. set (e := Z.max (-1074) (j - 52)).
  destruct (Z.le_gt_cases e k) as [Hek|Hek].
  - apply grid_ge; assumption.
  - apply Qle_trans with (2 ^ j); [apply pow2_le; exact Hj|].
    apply grid_ge; [unfold e; lia|exact Hl].
Qed.

Lemma roundPositive_le (a : Q) (k : Z) :
  (-1074 <= k)%Z -> 0 < a -> a <= 2 ^ k -> roundPositive a <= 2 ^ k.
Proof.
  intros Hk Hpos Ha. destruct (floorLog2_spec a Hpos) as [Hl _].
  assert (Hj : (floorLog2 a <= k)%Z) by (apply pow2_le_inv; lra).
  unfold roundPositive, exponentOf. apply grid_le; [lia|exact Ha].
Qed.

Lemma roundPositive_nonneg (a : Q) : 0 < a -> 0 <= roundPositive a.
Proof.
  intros Ha. unfold roundPositive. pose proof (pow2_pos (exponentOf a)) as He.
  apply Qmult_le_0_compat; [|lra].
  rewrite <- (Zle_Qle 0). apply roundHalfEven_ge.
  apply scaled_ge. change (inject_Z 0) with 0. lra.
Qed.

(** A number with at most 53 significant bits and no bit below [2^-1074]
    is its own rounding. *)
Lemma roundPositive_exact (m E : Z) :
  (0 < m < 2 ^ 53)%Z -> (-1074 <= E)%Z ->
  roundPositive (inject_Z m * 2 ^ E) == inject_Z m * 2 ^ E.
Proof.
  intros Hm HE. set (q := inject_Z m * 2 ^ E).
  pose proof (pow2_pos E) as HpE.
  set (l := Z.log2 m).
  assert (Hl0 : (0 <= l)%Z) by apply Z.log2_nonneg.
  destruct (Z.log2_spec m ltac:(lia)) as [Hm1 Hm2]. fold l in Hm1, Hm2.
  assert (Hl52 : (l <= 52)%Z).
  { destruct (Z.le_gt_cases l 52) as [H|H]; [exact H|].
    assert (Hpow : (2 ^ 53 <= 2 ^ l)%Z) by (apply Z.pow_le_mono_r; lia). lia. }
  rewrite Zle_Qle in Hm1. rewrite Zlt_Qlt in Hm2.
  replace (Z.succ l) with (l + 1)%Z in Hm2 by lia.
  rewrite <- !pow2_Z in Hm1, Hm2 by lia.
  assert (Hj : floorLog2 q = (l + E)%Z).
  { apply floorLog2_unique; unfold q.
    - rewrite pow2_add. apply Qmult_le_compat_r; lra.
    - replace (l + E + 1)%Z with ((l + 1) + E)%Z by lia. rewrite pow2_add.
      apply Qmult_lt_r; assumption. }
  unfold roundPositive, exponentOf. rewrite Hj.
  set (e := Z.max (-1074) (l + E - 52)).
  assert (He : (e <= E)%Z) by (unfold e; lia).
  assert (Hscaled : q / 2 ^ e == inject_Z (m * 2 ^ (E - e))).
  { rewrite inject_Z_mult, <- pow2_Z by lia. unfold q. rewrite div_pow2.
    replace (E - e)%Z with (E + - e)%Z by lia. rewrite pow2_add. ring. }
  rewrite (roundHalfEven_comp _ _ Hscaled), roundHalfEven_Z.
  rewrite inject_Z_mult, <- pow2_Z by lia. unfold q.
  rewrite <- Qmult_assoc, <- pow2_add. replace (E - e + e)%Z with E by lia. reflexivity.
Qed.

Lemma roundPositive_mono (a b : Q) : 0 < a -> a <= b -> roundPositive a <= roundPositive b.
Proof.
  intros Ha Hab.
  destruct (floorLog2_spec a Ha) as [Hal Hau].
  destruct (floorLog2_spec b ltac:(lra)) as [Hbl Hbu].
  assert (Hj : (floorLog2 a <= floorLog2 b)%Z) by (apply floorLog2_ge; lra).
  destruct (Z.eq_dec (exponentOf a) (exponentOf b)) as [He|Hne].
  - unfold roundPositive. rewrite He. pose proof (pow2_pos (exponentOf b)) as Hp.
    apply Qmult_le_compat_r; [|lra]. rewrite <- Zle_Qle. apply roundHalfEven_mono.
    apply scaled_le. rewrite div_pow2, <- Qmult_assoc, pow2_cancel. lra.
  - unfold exponentOf in Hne.
    assert (Hlt : (floorLog2 a < floorLog2 b)%Z) by lia.
    assert (Hb : (-1074 <= floorLog2 b)%Z) by lia.
    apply Qle_trans with (2 ^ floorLog2 b).
    + apply roundPositive_le; [exact Hb|exact Ha|].
      apply Qle_trans with (2 ^ (floorLog2 a + 1)); [lra|apply pow2_le; lia].
    + apply roundPositive_ge; assumption.
Qed.

(** The rounded value has at most 53 significant bits. *)
Lemma roundPositive_mantissa (a : Q) :
  0 < a -> (0 <= roundHalfEven (a / 2 ^ exponentOf a) <= 2 ^ 53)%Z.
Proof.
  intros Ha. destruct (floorLog2_spec a Ha) as [_ Hu]. split.
  - apply roundHalfEven_ge. apply scaled_ge. change (inject_Z 0) with 0. lra.
  - apply roundHalfEven_le. apply scaled_le. rewrite <- pow2_Z, <- pow2_add by lia.
    apply Qle_trans with (2 ^ (floorLog2 a + 1)); [lra|].
    apply pow2_le. unfold exponentOf. lia.
Qed.

(** *** The rounding of any number *)

Lemma fl_pos (a : Q) : 0 < a -> fl a == roundPositive a.
Proof.
  intros Ha. unfold fl. destruct (Qcompare_spec a 0) as [H|H|H]; try lra.
  apply Qred_correct.
Qed.

Lemma fl_neg (a : Q) : a < 0 -> fl a == - roundPositive (- a).
Proof.
  intros Ha. unfold fl. destruct (Qcompare_spec a 0) as [H|H|H]; try lra.
  apply Qred_correct.
Qed.

Lemma fl_zero (a : Q) : a == 0 -> fl a = 0.
Proof.
  intros Ha. unfold fl. destruct (Qcompare_spec a 0) as [H|H|H]; try lra. reflexivity.
Qed.

Lemma fl_comp (a b : Q) : a == b -> fl a = fl b.
Proof.
  intros H. unfold fl. rewrite (Qcompare_comp a b H 0 0 (Qeq_refl 0)).
  destruct (Qcompare_spec b 0) as [Hb|Hb|Hb]; [reflexivity| |].
  - apply Qred_complete. apply Qopp_comp. apply roundPositive_comp; lra.
  - apply Qred_complete. apply roundPositive_comp; lra.
Qed.

Lemma fl_opp (a : Q) : fl (- a) == - fl a.
Proof.
  destruct (Q_dec a 0) as [[H|H]|H].
  - rewrite (fl_pos (- a)) by lra. rewrite (fl_neg a H). ring.
  - rewrite (fl_neg (- a)) by lra. rewrite (fl_pos a H).
    rewrite (roundPositive_comp (- - a) a); [reflexivity|lra|ring].
  - rewrite (fl_zero a H), (fl_zero (- a)) by lra. reflexivity.
Qed.

Lemma fl_nonneg (a : Q) : 0 <= a -> 0 <= fl a.
Proof.
  intros Ha. destruct (Qle_lt_or_eq _ _ Ha) as [H|H].
  - rewrite (fl_pos a H). apply roundPositive_nonneg, H.
  - rewrite (fl_zero a) by lra. lra.
Qed.

Lemma fl_nonpos (a : Q) : a <= 0 -> fl a <= 0.
Proof.
  intros Ha. pose proof (fl_nonneg (- a) ltac:(lra)) as H. rewrite fl_opp in H. lra.
Qed.

Lemma fl_mono (a b : Q) : a <= b -> fl a <= fl b.
Proof.
  intros Hab. destruct (Qlt_le_dec 0 a) as [Ha|Ha].
  - rewrite (fl_pos a Ha), (fl_pos b) by lra. apply roundPositive_mono; assumption.
  - destruct (Qlt_le_dec b 0) as [Hb|Hb].
    + assert (Ha' : a < 0) by lra. rewrite (fl_neg a Ha'), (fl_neg b Hb).
      apply Qopp_le_compat. apply roundPositive_mono; lra.
    + apply Qle_trans with 0; [apply fl_nonpos, Ha|apply fl_nonneg, Hb].
Qed.

Lemma fl_abs (a : Q) : Qabs (fl a) == fl (Qabs a).
Proof.
  destruct (Qlt_le_dec a 0) as [Ha|Ha].
  - rewrite (Qabs_neg (fl a)) by (apply fl_nonpos; lra).
    rewrite (fl_comp (Qabs a) (- a)) by (apply Qabs_neg; lra).
    rewrite fl_opp. reflexivity.
  - rewrite (Qabs_pos (fl a)) by (apply fl_nonneg, Ha).
    rewrite (fl_comp (Qabs a) a) by (apply Qabs_pos, Ha). reflexivity.
Qed.

(** A double is its own rounding. *)
Lemma fl_exact (m E : Z) :
  (Z.abs m <= 2 ^ 53)%Z -> (-1074 <= E)%Z -> fl (inject_Z m * 2 ^ E) == inject_Z m * 2 ^ E.
Proof.
  assert (Hpos : forall m E, (0 < m <= 2 ^ 53)%Z -> (-1074 <= E)%Z ->
                             fl (inject_Z m * 2 ^ E) == inject_Z m * 2 ^ E).
  { clear. intros m E Hm HE. pose proof (pow2_pos E) as Hp.
    assert (Hq : 0 < inject_Z m * 2 ^ E).
    { apply Qmult_lt_0_compat; [|exact Hp]. rewrite <- (Zlt_Qlt 0). lia. }
    rewrite fl_pos by exact Hq.
    destruct (Z.eq_dec m (2 ^ 53)) as [->|Hne].
    - assert (Heq : inject_Z (2 ^ 53) * 2 ^ E == inject_Z (2 ^ 52) * 2 ^ (E + 1)).
      { rewrite pow2_succ. change (inject_Z (2 ^ 53)) with (2 * inject_Z (2 ^ 52)). ring. }
      rewrite (roundPositive_comp _ _ Hq Heq), Heq.
      apply roundPositive_exact; [split; reflexivity|lia].
    - apply roundPositive_exact; [lia|exact HE]. }
  intros Hm HE. destruct (Z.lt_trichotomy m 0) as [Hneg|[->|Hp]].
  - assert (Heq : inject_Z m * 2 ^ E == - (inject_Z (- m) * 2 ^ E))
      by (rewrite inject_Z_opp; ring).
    rewrite (fl_comp _ _ Heq), fl_opp, Hpos by lia. symmetry. exact Heq.
  - rewrite (fl_zero (inject_Z 0 * 2 ^ E)) by ring. ring.
  - apply Hpos; lia.
Qed.

Lemma fl_idempotent (a : Q) : fl (fl a) == fl a.
Proof.
  assert (Hpos : forall a, 0 < a -> fl (roundPositive a) == roundPositive a).
  { clear. intros a Ha. unfold roundPositive. apply fl_exact.
    - pose proof (roundPositive_mantissa a Ha). lia.
    - unfold exponentOf. lia. }
  destruct (Q_dec a 0) as [[H|H]|H].
  - rewrite (fl_comp (fl a) (- roundPositive (- a))) by (apply fl_neg, H).
    rewrite fl_opp, Hpos by lra. symmetry. apply fl_neg, H.
  - rewrite (fl_comp (fl a) (roundPositive a)) by (apply fl_pos, H).
    rewrite Hpos by exact H. symmetry. apply fl_pos, H.
  - rewrite (fl_zero a H). reflexivity.
Qed.

(** Integers up to [2^53] are doubles. *)
Lemma fl_Z (z : Z) : (Z.abs z <= 2 ^ 53)%Z -> fl (inject_Z z) = inject_Z z.
Proof.
  intros Hz.
  assert (Heq : fl (inject_Z z) == inject_Z z).
  { rewrite (fl_comp (inject_Z z) (inject_Z z * 2 ^ 0)) by (change (2 ^ 0) with 1; ring).
    rewrite fl_exact by lia. change (2 ^ 0) with 1. ring. }
  assert (Hred : forall q, fl q = Qred (fl q)).
  { clear. intros q. unfold fl. destruct (q ?= 0); [reflexivity| |];
      symmetry; apply Qred_complete, Qred_correct. }
  rewrite Hred. rewrite (Qred_complete _ _ Heq).
  unfold Qred, inject_Z. cbn [Qnum Qden].
  pose proof (Z.ggcd_gcd z 1) as Hg. pose proof (Z.ggcd_correct_divisors z 1) as Hd.
  destruct (Z.ggcd z 1) as [g [aa bb]]. cbn [fst snd] in *.
  rewrite Z.gcd_1_r in Hg. subst g. destruct Hd as [Hz' Hb].
  rewrite Z.mul_1_l in Hz', Hb. subst aa bb. reflexivity.
Qed.


(** *** Where a rounded value lies with respect to a double *)

Lemma fl_binade (a : Q) (k : Z) :
  (-1022 <= k)%Z -> 2 ^ k <= a -> a < 2 ^ (k + 1) ->
  fl a == inject_Z (roundHalfEven (a / 2 ^ (k - 52))) * 2 ^ (k - 52).
Proof.
  intros Hk Hl Hu. pose proof (pow2_pos k) as Hp.
  rewrite fl_pos by lra. unfold roundPositive, exponentOf.
  rewrite (floorLog2_unique a k Hl Hu).
  replace (Z.max (-1074) (k - 52)) with (k - 52)%Z by lia. reflexivity.
Qed.

Lemma fl_le_pow2 (a : Q) (k : Z) : (-1074 <= k)%Z -> a <= 2 ^ k -> fl a <= 2 ^ k.
Proof.
  intros Hk Ha. pose proof (pow2_pos k) as Hp.
  destruct (Qlt_le_dec 0 a) as [Hpos|Hneg].
  - rewrite fl_pos by exact Hpos. apply roundPositive_le; assumption.
  - pose proof (fl_nonpos a Hneg). lra.
Qed.

Lemma fl_ge_pow2 (a : Q) (k : Z) : (-1074 <= k)%Z -> 2 ^ k <= a -> 2 ^ k <= fl a.
Proof.
  intros Hk Ha. pose proof (pow2_pos k) as Hp.
  rewrite fl_pos by lra. apply roundPositive_ge; assumption.
Qed.

(** With [c = n * 2^(k-52)] a double of the binade of [2^k] whose last bit
    is 0, the rounding of [a] exceeds [c] exactly when [a] exceeds the
    midpoint between [c] and the next double. *)
Lemma fl_gt_even (a : Q) (k n : Z) :
  (-1022 <= k)%Z -> (2 ^ 52 <= n < 2 ^ 53)%Z -> Z.even n = true ->
  inject_Z n * 2 ^ (k - 52) < fl a <-> (inject_Z n + (1 # 2)) * 2 ^ (k - 52) < a.
Proof.
  intros Hk [Hn1 Hn2] Heven. set (e := (k - 52)%Z).
  pose proof (pow2_pos e) as He.
  assert (Hlow : 2 ^ k == inject_Z (2 ^ 52) * 2 ^ e).
  { rewrite <- pow2_Z, <- pow2_add by lia. unfold e. replace (52 + (k - 52))%Z with k by lia.
    reflexivity. }
  assert (Hhigh : 2 ^ (k + 1) == inject_Z (2 ^ 53) * 2 ^ e).
  { rewrite <- pow2_Z, <- pow2_add by lia. unfold e. replace (53 + (k - 52))%Z with (k + 1)%Z by lia.
    reflexivity. }
  rewrite Zle_Qle in Hn1. rewrite Zlt_Qlt in Hn2.
  assert (Hn2' : inject_Z n + 1 <= inject_Z (2 ^ 53)).
  { rewrite <- inject_Z_succ, <- Zle_Qle. rewrite <- Zlt_Qlt in Hn2. lia. }
  set (N := inject_Z n) in *. set (P := 2 ^ e) in *.
  assert (Hc1 : inject_Z (2 ^ 52) * P <= N * P) by (apply Qmult_le_compat_r; lra).
  assert (Hc2 : (N + 1) * P <= inject_Z (2 ^ 53) * P) by (apply Qmult_le_compat_r; lra).
  assert (Hc3 : N * P < (N + (1 # 2)) * P) by (apply Qmult_lt_r; lra).
  assert (Hc4 : (N + (1 # 2)) * P < (N + 1) * P) by (apply Qmult_lt_r; lra).
  destruct (Qlt_le_dec a (2 ^ k)) as [Hbelow|Hge].
  - pose proof (fl_le_pow2 a k ltac:(lia) ltac:(lra)) as Hfl. split; intros H; lra.
  - destruct (Qlt_le_dec a (2 ^ (k + 1))) as [Hin|Habove].
    + rewrite (fl_binade a k Hk Hge Hin). fold e. fold P.
      rewrite Qmult_lt_r by exact He. unfold N. rewrite <- Zlt_Qlt.
      rewrite roundHalfEven_gt_iff. unfold P.
      rewrite (scaled_gt a (inject_Z n + (1 # 2)) e).
      split; [intros [H|[_ H]]; [exact H|congruence]|intros H; left; exact H].
    + pose proof (fl_ge_pow2 a (k + 1) ltac:(lia) Habove) as Hfl. split; intros H; lra.
Qed.

(** The rounding of [a] stays below [2^(k+1)] exactly when [a] is below
    the midpoint between the last double of the binade and [2^(k+1)]. *)
Lemma fl_lt_pow2 (a : Q) (k : Z) :
  (-1022 <= k)%Z ->
  fl a < 2 ^ (k + 1) <-> a < (inject_Z (2 ^ 53 - 1) + (1 # 2)) * 2 ^ (k - 52).
Proof.
  intros Hk. set (e := (k - 52)%Z).
  pose proof (pow2_pos e) as He.
  assert (Hlow : 2 ^ k == inject_Z (2 ^ 52) * 2 ^ e).
  { rewrite <- pow2_Z, <- pow2_add by lia. unfold e. replace (52 + (k - 52))%Z with k by lia.
    reflexivity. }
  assert (Hhigh : 2 ^ (k + 1) == inject_Z (2 ^ 53) * 2 ^ e).
  { rewrite <- pow2_Z, <- pow2_add by lia. unfold e. replace (53 + (k - 52))%Z with (k + 1)%Z by lia.
    reflexivity. }
  set (P := 2 ^ e) in *.
  assert (Hc1 : inject_Z (2 ^ 52) * P < (inject_Z (2 ^ 53 - 1) + (1 # 2)) * P)
    by (apply Qmult_lt_r; [exact He|reflexivity]).
  assert (Hc2 : (inject_Z (2 ^ 53 - 1) + (1 # 2)) * P < inject_Z (2 ^ 53) * P)
    by (apply Qmult_lt_r; [exact He|reflexivity]).
  destruct (Qlt_le_dec a (2 ^ k)) as [Hbelow|Hge].
  - pose proof (fl_le_pow2 a k ltac:(lia) ltac:(lra)) as Hfl. split; intros H; lra.
  - destruct (Qlt_le_dec a (2 ^ (k + 1))) as [Hin|Habove].
    + rewrite (fl_binade a k Hk Hge Hin), Hhigh. fold e. fold P.
      rewrite Qmult_lt_r by exact He. rewrite <- Zlt_Qlt. unfold P.
      rewrite <- (scaled_lt a _ e).
      assert (Hiff : (roundHalfEven (a / 2 ^ e) < 2 ^ 53)%Z <->
                     (roundHalfEven (a / 2 ^ e) <= 2 ^ 53 - 1)%Z) by lia.
      rewrite Hiff, roundHalfEven_le_iff.
      split; [intros [H|[_ H]]; [exact H|discriminate]|intros H; left; exact H].
    + pose proof (fl_ge_pow2 a (k + 1) ltac:(lia) Habove) as Hfl. split; intros H; lra.
Qed.

(** The thresholds that the code compares a rounded difference with. *)
Lemma fl_below_1 (d : Q) : Qabs (fl d) < 1 <-> Qabs d < 1 - 2 ^ (-54).
Proof.
  rewrite fl_abs. change 1 with (2 ^ (-1 + 1)) at 1.
  rewrite (fl_lt_pow2 (Qabs d) (-1)) by lia.
  assert (H : (inject_Z (2 ^ 53 - 1) + (1 # 2)) * 2 ^ (-1 - 52) == 1 - 2 ^ (-54)) by reflexivity.
  rewrite H. reflexivity.
Qed.

Lemma fl_above_1 (d : Q) : 1 < Qabs (fl d) <-> 1 + 2 ^ (-53) < Qabs d.
Proof.
  rewrite fl_abs.
  pose proof (fl_gt_even (Qabs d) 0 (2 ^ 52) ltac:(lia) ltac:(lia) eq_refl) as H.
  assert (H1 : inject_Z (2 ^ 52) * 2 ^ (0 - 52) == 1) by reflexivity.
  assert (H2 : (inject_Z (2 ^ 52) + (1 # 2)) * 2 ^ (0 - 52) == 1 + 2 ^ (-53)) by reflexivity.
  rewrite H1, H2 in H. exact H.
Qed.

Lemma fl_above_2 (d : Q) : 2 < Qabs (fl d) <-> 2 + 2 ^ (-52) < Qabs d.
Proof.
  rewrite fl_abs.
  pose proof (fl_gt_even (Qabs d) 1 (2 ^ 52) ltac:(lia) ltac:(lia) eq_refl) as H.
  assert (H1 : inject_Z (2 ^ 52) * 2 ^ (1 - 52) == 2) by reflexivity.
  assert (H2 : (inject_Z (2 ^ 52) + (1 # 2)) * 2 ^ (1 - 52) == 2 + 2 ^ (-52)) by reflexivity.
  rewrite H1, H2 in H. exact H.
Qed.

Lemma fl_above_10 (d : Q) : 10 < Qabs (fl d) <-> 10 + 2 ^ (-50) < Qabs d.
Proof.
  rewrite fl_abs.
  pose proof (fl_gt_even (Qabs d) 3 (5 * 2 ^ 50) ltac:(lia) ltac:(lia) eq_refl) as H.
  assert (H1 : inject_Z (5 * 2 ^ 50) * 2 ^ (3 - 52) == 10) by reflexivity.
  assert (H2 : (inject_Z (5 * 2 ^ 50) + (1 # 2)) * 2 ^ (3 - 52) == 10 + 2 ^ (-50))
    by reflexivity.
  rewrite H1, H2 in H. exact H.
Qed.

(** The integers that [roundToDouble] keeps finite. *)
Lemma roundToDouble_finite (q : Q) :
  (exists r, roundToDouble q = Finite r) <-> Qabs q < inject_Z (2 ^ 1024 - 2 ^ 970).
Proof.
  unfold roundToDouble.
  assert (Hiff : Qabs (fl q) < 2 ^ 1024 <-> Qabs q < inject_Z (2 ^ 1024 - 2 ^ 970)).
  { rewrite fl_abs. change (2 ^ 1024) with (2 ^ (1023 + 1)).
    rewrite (fl_lt_pow2 (Qabs q) 1023) by lia.
    assert (H : (inject_Z (2 ^ 53 - 1) + (1 # 2)) * 2 ^ (1023 - 52)
                == inject_Z (2 ^ 1024 - 2 ^ 970)) by (vm_compute; reflexivity).
    rewrite H. reflexivity. }
  destruct (Qle_bool (2 ^ 1024) (Qabs (fl q))) eqn:E.
  - apply Qle_bool_iff in E. split; [intros [r H]; discriminate|].
    intros H. apply Hiff in H. lra.
  - split; [|intros _; eexists; reflexivity].
    intros _. apply Hiff. apply Qnot_le_lt. intros H. apply Qle_bool_iff in H. congruence.
Qed.

End DoubleRounding.

(** ** Offset decoding *)

Section OffsetDecoding.
Import Dom Examples.

Lemma textLengths_nonneg (e : Element) : Forall (fun len => 0 <= len) (textLengths e).
Proof.
  unfold textLengths. apply Forall_forall. intros len Hin.
  apply in_map_iff in Hin. destruct Hin as [s [<- _]]. unfold jsLength. lia.
Qed.

Lemma sum_nonneg (l : list Z) : Forall (fun len => 0 <= len) l -> 0 <= fold_right Z.add 0 l.
Proof. induction 1; simpl; lia. Qed.

Lemma textContentLength_nonneg (e : Element) : 0 <= textContentLength e.
Proof. apply sum_nonneg, textLengths_nonneg. Qed.

(** The code's loop over text descendants is the walk of the specification
    as soon as the running total has not passed the stored offset. *)
Lemma findTextNodeLoop_text (lengths : list Z) :
  forall (i : nat) (stored c : Z) (first : option NodeRef),
    c <= stored ->
    findTextNodeLoop (textVisits i lengths) stored c first =
    orFallback (walkUntilReached lengths i c stored)
               (match first with
                | Some f => Some (mkCaretPoint f 0)
                | None => match lengths with
                          | [] => None
                          | _ :: _ => Some (mkCaretPoint (TextRef i) 0)
                          end
                end).
Proof.
  induction lengths as [|len rest IH]; intros i stored c first Hc; simpl.
  - destruct first; reflexivity.
  - destruct (c + len >=? stored) eqn:Hreach.
    + simpl. f_equal. f_equal.
      apply Z.geb_le in Hreach. lia.
    + rewrite Z.geb_leb in Hreach. apply Z.leb_gt in Hreach.
      rewrite IH by lia.
      destruct first; [reflexivity|].
      destruct (walkUntilReached rest (S i) (c + len) stored); [reflexivity|].
      simpl. destruct rest; reflexivity.
Qed.

Lemma findTextNodeAtOffset_canonical (e : Element) (stored : Z) :
  0 <= stored -> findTextNodeAtOffset e stored true = decodeCanonical e stored.
Proof.
  intros H. unfold findTextNodeAtOffset, decodeCanonical, walkFrom.
  rewrite findTextNodeLoop_text by assumption.
  unfold firstTextFallback. reflexivity.
Qed.

Lemma findTextNodeAtOffset_legacy (e : Element) (stored : Z) :
  textContentLength e <= stored ->
  findTextNodeAtOffset e stored false = decodeLegacy e stored.
Proof.
  intros H. unfold findTextNodeAtOffset, decodeLegacy, walkFrom.
  cbn [findTextNodeLoop vIsText vLength]. rewrite Z.add_0_l.
  rewrite findTextNodeLoop_text by assumption.
  unfold firstTextFallback. reflexivity.
Qed.

(** With no text at all the root contributes nothing and both walks agree. *)
Lemma findTextNodeAtOffset_empty_text (e : Element) (stored : Z) :
  textContentLength e = 0 ->
  findTextNodeAtOffset e stored false = findTextNodeAtOffset e stored true.
Proof.
  intros H. unfold findTextNodeAtOffset, walkFrom.
  cbn [findTextNodeLoop vIsText vLength]. rewrite H. reflexivity.
Qed.

Lemma walkUntilReached_position (lengths : list Z) :
  forall (i : nat) (c stored : Z) (p : CaretPoint),
    c <= stored ->
    walkUntilReached lengths i c stored = Some p ->
    exists k len,
      node p = TextRef (i + k) /\ nth_error lengths k = Some len /\
      0 <= offset p <= len /\
      c + fold_right Z.add 0 (firstn k lengths) + offset p = stored.
Proof.
  induction lengths as [|len rest IH]; intros i c stored p Hc Hw; simpl in Hw.
  - discriminate.
  - destruct (c + len >=? stored) eqn:Hreach.
    + injection Hw as <-. apply Z.geb_le in Hreach.
      exists 0%nat, len. simpl. rewrite Nat.add_0_r. repeat split; lia.
    + rewrite Z.geb_leb in Hreach. apply Z.leb_gt in Hreach.
      destruct (IH (S i) (c + len) stored p ltac:(lia) Hw) as [k [len' [Hn [Hnth [Hoff Hsum]]]]].
      exists (S k), len'. simpl. rewrite Hn.
      repeat split; try assumption; try lia. f_equal. lia.
Qed.

Lemma walkUntilReached_reaches (lengths : list Z) :
  forall (i : nat) (c stored : Z),
    lengths <> [] -> stored <= c + fold_right Z.add 0 lengths ->
    exists p, walkUntilReached lengths i c stored = Some p.
Proof.
  induction lengths as [|len rest IH]; intros i c stored Hne Hsum; [congruence|].
  simpl in *. destruct (c + len >=? stored) eqn:Hreach; [eauto|].
  rewrite Z.geb_leb in Hreach. apply Z.leb_gt in Hreach.
  apply IH; [|lia]. intros ->. simpl in Hsum. lia.
Qed.

(** A legacy offset [L + k] with [0 <= k <= L] lands on character [k]. *)
Lemma decodeLegacy_character (e : Element) (k : Z) :
  0 <= k <= textContentLength e -> 0 < textContentLength e ->
  exists p, decodeLegacy e (textContentLength e + k) = Some p /\
            characterPosition e p = Some k.
Proof.
  intros Hk Hpos. unfold decodeLegacy.
  assert (Hne : textLengths e <> []).
  { intros Heq. unfold textContentLength in Hpos. rewrite Heq in Hpos. simpl in Hpos. lia. }
  destruct (walkUntilReached_reaches (textLengths e) 0 (textContentLength e)
              (textContentLength e + k) Hne) as [p Hp].
  { unfold textContentLength in *. lia. }
  rewrite Hp. simpl. exists p. split; [reflexivity|].
  assert (Hle : textContentLength e <= textContentLength e + k) by lia.
  destruct (walkUntilReached_position _ _ _ _ _ Hle Hp) as [j [len [Hn [Hnth [Hoff Hsum]]]]].
  unfold characterPosition. rewrite Hn. simpl. rewrite Hnth.
  replace (0 <=? offset p) with true by (symmetry; apply Z.leb_le; lia).
  replace (offset p <=? len) with true by (symmetry; apply Z.leb_le; lia).
  simpl. f_equal. unfold consumedBefore. lia.
Qed.

(** C1 as amended.  Stored offsets of a text highlight are read as
    canonical when one of them is strictly below the total text length [L]
    of the anchor and as legacy otherwise.  The canonical reading counts
    characters from the first text descendant; the legacy reading walks the
    text descendants in document order on top of the base [L] until the
    cumulative length first reaches the stored offset, the local offset being
    the stored offset minus the length consumed.  With [L = 20] the stored
    pair (23, 27) resolves to characters 3 and 7 of the anchor, which are the
    local offsets (3, 7) when the text is one node; otherwise each local
    offset is counted in the text node where the walk stops. *)
Theorem C1_offset_decoding (target : Element) (startOffset endOffset : Z) :
  let L := textContentLength target in
  resolveTextBoundaries target startOffset endOffset =
    (if (startOffset <? L) || (endOffset <? L)
     then (findTextNodeAtOffset target startOffset true,
           findTextNodeAtOffset target endOffset true)
     else (findTextNodeAtOffset target startOffset false,
           findTextNodeAtOffset target endOffset false))
  /\ (forall stored, 0 <= stored ->
        findTextNodeAtOffset target stored true = decodeCanonical target stored)
  /\ ((startOffset <? L) || (endOffset <? L) = false ->
        findTextNodeAtOffset target startOffset false = decodeLegacy target startOffset /\
        findTextNodeAtOffset target endOffset false = decodeLegacy target endOffset)
  /\ (L = 20 ->
        exists ps pe,
          resolveTextBoundaries target 23 27 = (Some ps, Some pe) /\
          characterPosition target ps = Some 3 /\
          characterPosition target pe = Some 7)
  /\ (textLengths target = [20] ->
        resolveTextBoundaries target 23 27 =
          (Some (mkCaretPoint (TextRef 0) 3), Some (mkCaretPoint (TextRef 0) 7))).
Proof.
  intros L. pose proof (textContentLength_nonneg target) as HL. fold L in HL.
  repeat split.
  - unfold resolveTextBoundaries, shouldUseCanonicalOffsetDecoding. fold L.
    destruct (L <=? 0) eqn:Hz.
    + apply Z.leb_le in Hz. assert (L = 0) as HL0 by lia.
      rewrite !findTextNodeAtOffset_empty_text by exact HL0.
      destruct ((startOffset <? L) || (endOffset <? L)); reflexivity.
    + destruct ((startOffset <? L) || (endOffset <? L)); reflexivity.
  - intros stored Hs. apply findTextNodeAtOffset_canonical, Hs.
  - apply findTextNodeAtOffset_legacy. fold L.
    apply orb_false_elim in H. destruct H as [H _]. apply Z.ltb_ge in H. exact H.
  - apply findTextNodeAtOffset_legacy. fold L.
    apply orb_false_elim in H. destruct H as [_ H]. apply Z.ltb_ge in H. exact H.
  - intros H20.
    assert (H3 : 0 <= 3 <= textContentLength target) by (fold L; lia).
    assert (H7 : 0 <= 7 <= textContentLength target) by (fold L; lia).
    assert (Hpos : 0 < textContentLength target) by (fold L; lia).
    destruct (decodeLegacy_character target 3 H3 Hpos) as [ps [Hps Hcs]].
    destruct (decodeLegacy_character target 7 H7 Hpos) as [pe [Hpe Hce]].
    fold L in Hps, Hpe. rewrite H20 in Hps, Hpe. simpl in Hps, Hpe.
    exists ps, pe. repeat split; try assumption.
    unfold resolveTextBoundaries, shouldUseCanonicalOffsetDecoding. fold L. rewrite H20.
    simpl. rewrite !findTextNodeAtOffset_legacy by (fold L; lia).
    rewrite Hps, Hpe. reflexivity.
  - intros Hone.
    unfold resolveTextBoundaries, shouldUseCanonicalOffsetDecoding, findTextNodeAtOffset,
      walkFrom, textContentLength. rewrite Hone. reflexivity.
Qed.

(** The paragraph of 20 characters with the legacy pair (23, 27): character
    3 is in the first text node, character 7 is character 1 of the second. *)
Lemma C1_offset_decoding_witness :
  textContentLength maxwellParagraph = 20 /\
  (23 <? 20) || (27 <? 20) = false /\
  findTextNodeAtOffset maxwellParagraph 23 false = decodeLegacy maxwellParagraph 23 /\
  resolveTextBoundaries maxwellParagraph 23 27 =
    (Some (mkCaretPoint (TextRef 0) 3), Some (mkCaretPoint (TextRef 1) 1)).
Proof.
  split; [reflexivity|]. split; [reflexivity|]. split.
  - exact (proj1 (proj1 (proj2 (proj2 (C1_offset_decoding maxwellParagraph 23 27))) eq_refl)).
  - reflexivity.
Defined.

(** C1 as stated fails on its worked example.  The paragraph
    [<p>James <b>Clerk</b> Maxwell.</p>] has 20 characters in three text
    nodes; the stored pair (23, 27) is decoded to offset 3 of the first node
    and offset 1 of the second, not to the local offsets (3, 7): a total text
    length of 20 does not make them the local offsets. *)
Lemma C1_local_offsets_counterexample :
  textContentLength maxwellParagraph = 20
  /\ shouldUseCanonicalOffsetDecoding maxwellParagraph 23 27 = false
  /\ resolveTextBoundaries maxwellParagraph 23 27
     = (Some (mkCaretPoint (TextRef 0) 3), Some (mkCaretPoint (TextRef 1) 1))
  /\ ~ (forall target : Element,
          textContentLength target = 20 ->
          exists ps pe,
            resolveTextBoundaries target 23 27 = (Some ps, Some pe)
            /\ offset ps = 3 /\ offset pe = 7).
Proof.
  split; [reflexivity|]. split; [reflexivity|]. split; [reflexivity|].
  intros H. destruct (H maxwellParagraph eq_refl) as [ps [pe [Hr [_ He]]]].
  vm_compute in Hr. injection Hr as _ <-. discriminate.
Qed.

End OffsetDecoding.

(** ** Merge policy *)

Section MergePolicyFacts.
Import Highlighter MergePolicy Examples.

Lemma HighlightType_eqb_eq (a b : HighlightType) : HighlightType_eqb a b = true <-> a = b.
Proof. destruct a, b; simpl; split; intros H; try reflexivity; discriminate. Qed.

(** C2.  Overlapping highlights never merge.  Adjacent highlights merge
    unless both are text highlights on the same anchor path whose resolved
    colours differ; the resolved colour is the explicit colour, or one shared
    fallback when the colour is unset, so two colourless highlights count as
    equally coloured and merge when adjacent. *)
Theorem C2_merge_policy (h1 h2 : AnyHighlightData) :
  shouldAutoMergeHighlights h1 h2 Overlap = false
  /\ (shouldAutoMergeHighlights h1 h2 Adjacent = false <->
        type h1 = TypeText /\ type h2 = TypeText /\ xpath h1 = xpath h2 /\
        resolveHighlightColor h1 <> resolveHighlightColor h2)
  /\ resolveHighlightColor h1 =
       match color h1 with
       | Some (String c rest) => String c rest
       | Some EmptyString | None => FALLBACK_HIGHLIGHT_COLOR
       end
  /\ (color h1 = None -> color h2 = None ->
        resolveHighlightColor h1 = resolveHighlightColor h2 /\
        shouldAutoMergeHighlights h1 h2 Adjacent = true).
Proof.
  split; [reflexivity|]. split; [|split].
  - unfold shouldAutoMergeHighlights.
    destruct (HighlightType_eqb (type h1) TypeText) eqn:E1;
      destruct (HighlightType_eqb (type h2) TypeText) eqn:E2;
      destruct (String.eqb (xpath h1) (xpath h2)) eqn:E3; simpl.
    + apply HighlightType_eqb_eq in E1, E2. apply String.eqb_eq in E3.
      rewrite String.eqb_neq. tauto.
    + apply String.eqb_neq in E3. split; [discriminate|tauto].
    + split; [discriminate|]. intros [_ [H _]]. apply HighlightType_eqb_eq in H. congruence.
    + split; [discriminate|]. intros [_ [H _]]. apply HighlightType_eqb_eq in H. congruence.
    + split; [discriminate|]. intros [H _]. apply HighlightType_eqb_eq in H. congruence.
    + split; [discriminate|]. intros [H _]. apply HighlightType_eqb_eq in H. congruence.
    + split; [discriminate|]. intros [H _]. apply HighlightType_eqb_eq in H. congruence.
    + split; [discriminate|]. intros [H _]. apply HighlightType_eqb_eq in H. congruence.
  - unfold resolveHighlightColor. destruct (color h1) as [[|c rest]|]; reflexivity.
  - intros H1 H2.
    assert (Heq : resolveHighlightColor h1 = resolveHighlightColor h2).
    { unfold resolveHighlightColor. rewrite H1, H2. reflexivity. }
    split; [exact Heq|].
    unfold shouldAutoMergeHighlights.
    destruct (_ && _ && _); [|reflexivity].
    apply String.eqb_eq. exact Heq.
Qed.

(** Two colourless adjacent text highlights merge; a green and a yellow
    one do not. *)
Lemma C2_merge_policy_witness :
  shouldAutoMergeHighlights (textHighlight 0 5 None) (textHighlight 5 11 None) Adjacent = true
  /\ shouldAutoMergeHighlights (textHighlight 0 5 (Some "#86d26f"))
       (textHighlight 5 11 (Some "#ffeb3b")) Adjacent = false.
Proof.
  split.
  - exact (proj2 (proj2 (proj2 (proj2 (C2_merge_policy (textHighlight 0 5 None)
                                           (textHighlight 5 11 None)))) eq_refl eq_refl)).
  - apply (proj1 (proj2 (C2_merge_policy (textHighlight 0 5 (Some "#86d26f"))
                           (textHighlight 5 11 (Some "#ffeb3b"))))).
    repeat split; discriminate.
Defined.

End MergePolicyFacts.

(** ** Timestamp fallback *)

Section TimestampFacts.
Import Js Timestamps.

Lemma isFinitePositive_integer (z : Z) :
  isFinitePositive (Finite (inject_Z z)) = true <-> 0 < z.
Proof.
  simpl. rewrite Qlt_bool_iff. unfold Qlt, inject_Z. simpl. lia.
Qed.

Lemma numberOfInteger_exact (z : Z) :
  Z.abs z <= 2 ^ 53 -> numberOfInteger z = Finite (inject_Z z).
Proof.
  intros Hz. unfold numberOfInteger, roundToDouble. rewrite (fl_Z z Hz).
  replace (Qle_bool (2 ^ 1024) (Qabs (inject_Z z))) with false; [reflexivity|].
  symmetry. apply not_true_is_false. intros H. apply Qle_bool_iff in H.
  assert (Habs : (Qabs (inject_Z z) <= inject_Z (2 ^ 53))%Q).
  { apply Qabs_Qle_condition. rewrite <- inject_Z_opp, <- !Zle_Qle. lia. }
  assert (Hlt : (inject_Z (2 ^ 53) < 2 ^ 1024)%Q) by reflexivity.
  lra.
Qed.

Lemma numberOfInteger_finite (z : Z) :
  (exists r, numberOfInteger z = Finite r) <-> Z.abs z < doubleOverflow.
Proof.
  unfold numberOfInteger. rewrite roundToDouble_finite.
  assert (Habs : (Qabs (inject_Z z) == inject_Z (Z.abs z))%Q).
  { destruct (Z.abs_spec z) as [[Hz ->]|[Hz ->]].
    - apply Qabs_pos. unfold Qle; simpl; lia.
    - rewrite inject_Z_opp. apply Qabs_neg. unfold Qle; simpl; lia. }
  rewrite Habs. fold doubleOverflow. rewrite <- Zlt_Qlt. reflexivity.
Qed.

Lemma isFinitePositive_numberOfInteger (z : Z) :
  isFinitePositive (numberOfInteger z) = true <-> 0 < z < doubleOverflow.
Proof.
  pose proof (numberOfInteger_finite z) as Hfin.
  unfold numberOfInteger, roundToDouble in *.
  destruct (Qle_bool (2 ^ 1024) (Qabs (fl (inject_Z z)))).
  - cbn [isFinitePositive]. split; [discriminate|]. intros [Hpos Hlt].
    assert (Hex : exists r, Infinity (Qlt_bool (fl (inject_Z z)) 0) = Finite r)
      by (apply Hfin; lia).
    destruct Hex as [r Hr]. discriminate.
  - cbn [isFinitePositive]. rewrite Qlt_bool_iff.
    assert (Hlt : Z.abs z < doubleOverflow) by (apply Hfin; eexists; reflexivity).
    split.
    + intros Hpos. split; [|lia].
      destruct (Z.lt_ge_cases 0 z) as [H|H]; [exact H|].
      assert (Hle : (fl (inject_Z z) <= 0)%Q)
        by (apply fl_nonpos; unfold Qle; simpl; lia).
      lra.
    + intros [Hpos _].
      assert (Hge : (2 ^ 0 <= fl (inject_Z z))%Q).
      { apply fl_ge_pow2; [lia|]. unfold Qle; simpl; lia. }
      change (2 ^ 0)%Q with 1%Q in Hge. lra.
Qed.

(** The first integer that is not a double is read as its even neighbour. *)
Lemma parseInt10_rounds :
  parseInt10 "9007199254740993" = Finite (inject_Z 9007199254740992)
  /\ parseHighlightIdTimestamp (VString "9007199254740993")
     = Some (Finite (inject_Z 9007199254740992)).
Proof. split; vm_compute; reflexivity. Qed.

(** The identifier yields a timestamp exactly when it is a string whose
    [parseInt] value is a positive integer within the range of doubles; the
    timestamp is the double nearest to that integer. *)
Lemma parseHighlightIdTimestamp_Some (id : JsValue) (t : JsNumber) :
  parseHighlightIdTimestamp id = Some t <->
  exists s z, id = VString s /\ parseIntDigits s = Some z /\
              0 < z < doubleOverflow /\ t = numberOfInteger z.
Proof.
  split.
  - destruct id; simpl; try discriminate.
    unfold parseInt10. destruct (parseIntDigits s) as [z|] eqn:Ez; simpl; [|discriminate].
    destruct (isFinitePositive (numberOfInteger z)) eqn:Ep; [|discriminate].
    intros H. injection H as <-.
    apply isFinitePositive_numberOfInteger in Ep.
    exists s, z. split; [reflexivity|]. split; [exact Ez|]. split; [lia|reflexivity].
  - intros [s [z [-> [Hz [Hr ->]]]]]. simpl. unfold parseInt10. rewrite Hz.
    replace (isFinitePositive (numberOfInteger z)) with true; [reflexivity|].
    symmetry. apply isFinitePositive_numberOfInteger. exact Hr.
Qed.

Lemma firstValidCandidate_none (candidates : list (option JsNumber)) :
  (forall c, In (Some c) candidates -> isFinitePositive c = false) ->
  firstValidCandidate candidates = None.
Proof.
  induction candidates as [|[c|] rest IH]; intros H; simpl; [reflexivity| |].
  - rewrite (H c (or_introl eq_refl)). apply IH. intros c' Hin. apply H. right. exact Hin.
  - apply IH. intros c' Hin. apply H. right. exact Hin.
Qed.

(** C9.  An identifier that is not a string, or whose [parseInt] value is
    not a positive integer, yields no timestamp; when no candidate is valid
    the caller answers the current time; and a finite positive numeric
    [createdAt] wins over the timestamp derived from the identifier. *)
Theorem C9_timestamp_fallback (createdAt id : JsValue) (now : JsNumber) :
  ((forall s, id <> VString s) -> parseHighlightIdTimestamp id = None)
  /\ (forall s, id = VString s ->
        (forall z, parseIntDigits s = Some z -> z <= 0) ->
        parseHighlightIdTimestamp id = None)
  /\ (forall t, parseHighlightIdTimestamp id = Some t ->
        exists s z, id = VString s /\ parseIntDigits s = Some z /\ 0 < z /\
                    t = numberOfInteger z /\ isFinitePositive t = true)
  /\ (forall candidates,
        (forall c, In (Some c) candidates -> isFinitePositive c = false) ->
        resolveHighlightCreatedAt candidates now = now)
  /\ (isValidHighlightTimestamp createdAt = false ->
      parseHighlightIdTimestamp id = None ->
      normalizeHighlightCreatedAt createdAt id now = now)
  /\ (forall n, createdAt = VNumber n -> isFinitePositive n = true ->
        normalizeHighlightCreatedAt createdAt id now = n).
Proof.
  repeat split.
  - intros H. destruct id; try reflexivity. exfalso. exact (H s eq_refl).
  - intros s -> H.
    destruct (parseHighlightIdTimestamp (VString s)) as [t|] eqn:E; [|reflexivity].
    apply parseHighlightIdTimestamp_Some in E.
    destruct E as [s' [z [Hs [Hz [Hr _]]]]]. injection Hs as <-.
    specialize (H z Hz). lia.
  - intros t H. apply parseHighlightIdTimestamp_Some in H.
    destruct H as [s [z [Hs [Hz [Hr Ht]]]]]. exists s, z.
    split; [exact Hs|]. split; [exact Hz|]. split; [lia|]. split; [exact Ht|].
    rewrite Ht. apply isFinitePositive_numberOfInteger. exact Hr.
  - intros candidates H. unfold resolveHighlightCreatedAt.
    rewrite firstValidCandidate_none by exact H. reflexivity.
  - intros Hc Hi. unfold normalizeHighlightCreatedAt, resolveHighlightCreatedAt,
      createdAtCandidates. rewrite Hi, Hc. simpl. destruct createdAt; reflexivity.
  - intros n -> Hn. unfold normalizeHighlightCreatedAt, resolveHighlightCreatedAt,
      createdAtCandidates. simpl. rewrite Hn. simpl. rewrite Hn. reflexivity.
Qed.

(** A numeric identifier, a legacy identifier without digits, and a valid
    [createdAt] next to a numeric identifier. *)
Lemma C9_timestamp_fallback_witness :
  parseHighlightIdTimestamp (VNumber (Finite 1700000000000)) = None
  /\ parseHighlightIdTimestamp (VString "legacy-id") = None
  /\ normalizeHighlightCreatedAt VUndefined (VString "legacy-id") (Finite 1762000000000)
     = Finite 1762000000000
  /\ normalizeHighlightCreatedAt (VNumber (Finite 5)) (VString "1700000000000")
       (Finite 1762000000000) = Finite 5.
Proof.
  pose proof (C9_timestamp_fallback VUndefined (VString "legacy-id") (Finite 1762000000000))
    as [_ [Hstr [_ [_ [Hnow _]]]]].
  pose proof (C9_timestamp_fallback (VNumber (Finite 5)) (VString "1700000000000")
                (Finite 1762000000000)) as [_ [_ [_ [_ [_ Hpref]]]]].
  pose proof (C9_timestamp_fallback VUndefined (VNumber (Finite 1700000000000)) NaN)
    as [Hnon _].
  split; [apply Hnon; intros s; discriminate|].
  split; [apply (Hstr "legacy-id" eq_refl); intros z Hz; discriminate|].
  split; [apply Hnow; reflexivity|].
  apply (Hpref (Finite 5) eq_refl). reflexivity.
Defined.

End TimestampFacts.

(** ** The annotation browser snapshot *)

Section SnapshotFacts.
Import Js Timestamps AnnotationBrowser.

Variable parseUrl : string -> option URL.
Variable decodeURIComponent : string -> option string.
Variable localeCompare : string -> string -> Z.
Variable clock : nat -> Z.

Lemma all_finite_map (l : list JsNumber) :
  Forall isFiniteNumber l -> exists qs, l = map Finite qs.
Proof.
  induction 1 as [|n l Hn _ [qs ->]]; [exists []; reflexivity|].
  destruct n; try contradiction. exists (q :: qs). reflexivity.
Qed.

Lemma fold_jsMin2_finite (qs : list Q) :
  forall a, fold_left jsMin2 (map Finite qs) (Finite a) = Finite (fold_left qmin qs a).
Proof.
  induction qs as [|q qs IH]; intros a; [reflexivity|].
  simpl. unfold qmin at 2. destruct (Qle_bool a q); apply IH.
Qed.

Lemma fold_jsMax2_finite (qs : list Q) :
  forall a, fold_left jsMax2 (map Finite qs) (Finite a) = Finite (fold_left qmax qs a).
Proof.
  induction qs as [|q qs IH]; intros a; [reflexivity|].
  simpl. unfold qmax at 2. destruct (Qle_bool a q); apply IH.
Qed.

Lemma fold_qmin_le (qs : list Q) : forall a, (fold_left qmin qs a <= a)%Q.
Proof.
  induction qs as [|q qs IH]; intros a; simpl; [apply Qle_refl|].
  eapply Qle_trans; [apply IH|]. unfold qmin.
  destruct (Qle_bool a q) eqn:E; [apply Qle_refl|].
  apply Qlt_le_weak, Qnot_le_lt. intros H. apply Qle_bool_iff in H. congruence.
Qed.

Lemma fold_qmax_ge (qs : list Q) : forall a, (a <= fold_left qmax qs a)%Q.
Proof.
  induction qs as [|q qs IH]; intros a; simpl; [apply Qle_refl|].
  eapply Qle_trans; [|apply IH]. unfold qmax.
  destruct (Qle_bool a q) eqn:E; [apply Qle_bool_iff, E|apply Qle_refl].
Qed.

(** The least of finitely many finite timestamps is at most the greatest. *)
Lemma Math_min_le_Math_max (l : list JsNumber) :
  l <> [] -> Forall isFiniteNumber l -> jsLeb (Math_min l) (Math_max l) = true.
Proof.
  intros Hne Hfin. destruct (all_finite_map l Hfin) as [qs ->].
  destruct qs as [|q qs]; [exfalso; apply Hne; reflexivity|].
  unfold Math_min, Math_max. simpl.
  rewrite fold_jsMin2_finite, fold_jsMax2_finite. simpl.
  apply Qle_bool_iff. eapply Qle_trans; [apply fold_qmin_le|apply fold_qmax_ge].
Qed.

Lemma firstValidCandidate_finite (candidates : list (option JsNumber)) (c : JsNumber) :
  firstValidCandidate candidates = Some c -> isFiniteNumber c.
Proof.
  induction candidates as [|[c'|] rest IH]; simpl; intros H; [discriminate| |auto].
  destruct (isFinitePositive c') eqn:E; [|auto].
  injection H as <-. destruct c'; simpl in E; try discriminate. exact I.
Qed.

Lemma getHighlightCreatedAt_spec (highlight : JsValue) (tick : nat) :
  match fst (getHighlightCreatedAt clock highlight tick) with
  | Some createdAt => isRecord highlight = true /\ isFiniteNumber createdAt
  | None => isRecord highlight = false
  end.
Proof.
  unfold getHighlightCreatedAt. destruct (isRecord highlight); simpl; [|reflexivity].
  split; [reflexivity|].
  unfold normalizeHighlightCreatedAt, resolveHighlightCreatedAt.
  destruct (firstValidCandidate _) eqn:E; [|exact I].
  eapply firstValidCandidate_finite, E.
Qed.

Lemma collectTimestamps_spec (highlights : list JsValue) :
  forall acc tick,
    exists ts,
      fst (collectTimestamps clock highlights acc tick) = acc ++ ts /\
      List.length ts = List.length (filter isRecord highlights) /\
      Forall isFiniteNumber ts.
Proof.
  induction highlights as [|h rest IH]; intros acc tick; simpl.
  - exists []. rewrite app_nil_r. repeat split. constructor.
  - pose proof (getHighlightCreatedAt_spec h tick) as Hh.
    destruct (getHighlightCreatedAt clock h tick) as [[createdAt|] tick']; simpl in Hh.
    + destruct Hh as [Hrec Hfin]. rewrite Hrec.
      destruct (IH (acc ++ [createdAt]) tick') as [ts [Heq [Hlen Hall]]].
      exists (createdAt :: ts). rewrite Heq, <- app_assoc. simpl.
      split; [reflexivity|]. split; [rewrite Hlen; reflexivity|].
      constructor; assumption.
    + rewrite Hh. apply IH.
Qed.

Lemma existsb_filter_nil {A : Type} (f : A -> bool) (l : list A) :
  existsb f l = false <-> filter f l = [].
Proof.
  induction l as [|a l IH]; simpl; [tauto|].
  destruct (f a); simpl; [split; discriminate|exact IH].
Qed.

(** One entry either is skipped, and then it does not contribute, or it
    pushes the page of its URL with one annotation per record highlight. *)
Lemma pageOfEntry_spec (storageKey : string) (rawEntry : JsValue) (tick : nat) :
  match fst (pageOfEntry parseUrl decodeURIComponent clock storageKey rawEntry tick) with
  | Some page =>
      contributes parseUrl (storageKey, rawEntry) = true
      /\ url page = contributedUrl parseUrl (storageKey, rawEntry)
      /\ annotationsCount page = contributedCount (storageKey, rawEntry)
      /\ pageWellFormed page
  | None => contributes parseUrl (storageKey, rawEntry) = false
  end.
Proof.
  unfold pageOfEntry, contributes, contributedUrl, contributedCount.
  cbn [fst snd].
  destruct (isRecord rawEntry); cbn [negb andb fst]; [|reflexivity].
  destruct (parseUrl (entryUrl storageKey rawEntry)) as [parsedUrl|];
    cbn [isSome andb fst]; [|reflexivity].
  destruct (entryHighlights rawEntry) as [|h rest] eqn:Eh; [reflexivity|].
  destruct (collectTimestamps_spec (h :: rest) [] tick) as [ts [Heq [Hlen Hfin]]].
  destruct (collectTimestamps clock (h :: rest) [] tick) as [highlightTimestamps tick'].
  cbn [fst app] in Heq. subst highlightTimestamps.
  destruct ts as [|t ts'].
  - cbn [fst]. symmetry in Hlen. apply length_zero_iff_nil in Hlen.
    apply existsb_filter_nil. exact Hlen.
  - cbn [fst url annotationsCount firstCreatedAt lastCreatedAt].
    split.
    + destruct (existsb isRecord (h :: rest)) eqn:E; [reflexivity|].
      apply existsb_filter_nil in E. rewrite E in Hlen. discriminate.
    + split; [reflexivity|]. split; [exact Hlen|].
      split; [simpl; lia|].
      apply Math_min_le_Math_max; [discriminate|exact Hfin].
Qed.

Lemma collectPages_spec (entries : list (string * JsValue)) :
  forall pages total tick,
    exists new,
      collectPages parseUrl decodeURIComponent clock entries pages total tick =
        (pages ++ new, (total + list_sum (map annotationsCount new))%nat)
      /\ Forall pageWellFormed new
      /\ map url new = map (contributedUrl parseUrl) (filter (contributes parseUrl) entries)
      /\ map annotationsCount new =
           map contributedCount (filter (contributes parseUrl) entries).
Proof.
  induction entries as [|[storageKey rawEntry] rest IH]; intros pages total tick.
  - exists []. simpl. rewrite app_nil_r, Nat.add_0_r. repeat split. constructor.
  - cbn [collectPages filter].
    pose proof (pageOfEntry_spec storageKey rawEntry tick) as Hp.
    destruct (pageOfEntry parseUrl decodeURIComponent clock storageKey rawEntry tick)
      as [[page|] tick']; simpl in Hp.
    + destruct Hp as [Hc [Hu [Hn Hwf]]]. rewrite Hc.
      destruct (IH (pages ++ [page]) (total + annotationsCount page)%nat tick')
        as [new [Heq [Hall [Hurls Hcounts]]]].
      exists (page :: new). rewrite Heq, <- app_assoc. simpl.
      split; [f_equal; lia|]. split; [constructor; assumption|].
      split; congruence.
    + rewrite Hp. apply IH.
Qed.

Lemma insertSorted_perm {A : Type} (cmp : A -> A -> JsNumber) (x : A) (l : list A) :
  Permutation (insertSorted cmp x l) (x :: l).
Proof.
  induction l as [|y l IH]; simpl; [apply Permutation_refl|].
  destruct (isNegative (cmp x y)); [apply Permutation_refl|].
  eapply Permutation_trans; [apply perm_skip, IH|apply perm_swap].
Qed.

Lemma arraySort_perm {A : Type} (cmp : A -> A -> JsNumber) (l : list A) :
  Permutation (arraySort cmp l) l.
Proof.
  unfold arraySort.
  assert (H : forall acc, Permutation (fold_left (fun sorted x => insertSorted cmp x sorted) l acc)
                                      (acc ++ l)).
  { induction l as [|x l IH]; intros acc; simpl.
    - rewrite app_nil_r. apply Permutation_refl.
    - eapply Permutation_trans; [apply IH|].
      eapply Permutation_trans; [apply Permutation_app_tail, insertSorted_perm|].
      simpl. apply Permutation_middle. }
  apply (H []).
Qed.

(** C10.  For every raw storage value: [totalPages] is the number of
    emitted pages, [totalAnnotations] is the sum of their [annotationsCount],
    both sorted lists are permutations of the emitted pages, every emitted
    page has at least one annotation and [firstCreatedAt <= lastCreatedAt],
    and the emitted pages are, in order, those of the entries that are
    records with a parsable URL and at least one highlight with a resolvable
    timestamp, each counted with exactly those highlights. *)
Theorem C10_snapshot_invariants (rawHighlightsStorage : JsValue) (tick : nat) :
  let snapshot :=
    buildAnnotationBrowserSnapshot parseUrl decodeURIComponent localeCompare clock
      rawHighlightsStorage tick in
  let pages := emittedPages parseUrl decodeURIComponent clock rawHighlightsStorage tick in
  let entries := objectEntries rawHighlightsStorage in
  totalPages snapshot = List.length pages
  /\ totalAnnotations snapshot = list_sum (map annotationsCount pages)
  /\ Permutation (recentPages snapshot) pages
  /\ Permutation (mostAnnotatedPages snapshot) pages
  /\ Forall (fun page => (1 <= annotationsCount page)%nat
                         /\ jsLeb (firstCreatedAt page) (lastCreatedAt page) = true) pages
  /\ map url pages = map (contributedUrl parseUrl) (filter (contributes parseUrl) entries)
  /\ map annotationsCount pages =
       map contributedCount (filter (contributes parseUrl) entries).
Proof.
  unfold buildAnnotationBrowserSnapshot, emittedPages.
  destruct (isRecord rawHighlightsStorage) eqn:Hrec; simpl.
  - destruct (collectPages_spec (objectEntries rawHighlightsStorage) [] 0%nat tick)
      as [new [Heq [Hall [Hurls Hcounts]]]].
    rewrite Heq. simpl.
    repeat split; try assumption; try apply arraySort_perm.
  - assert (He : objectEntries rawHighlightsStorage = []).
    { destruct rawHighlightsStorage; try reflexivity; discriminate. }
    rewrite He. simpl. repeat split; try apply Permutation_refl. constructor.
Qed.

End SnapshotFacts.

(** ** Resize commit: the offsets written back *)

Section ResizeCommit.
Import Js Dom Highlighter Overlays Examples.

Lemma mapWithIndex_Forall2 {A B : Type} (R : A -> B -> Prop) (f : A -> nat -> B) :
  (forall item index, R item (f item index)) ->
  forall l index, Forall2 R l (mapWithIndex f index l).
Proof.
  intros H l. induction l as [|item rest IH]; intros index; simpl; constructor; auto.
Qed.

Lemma rewriteSelected_spec (p : Page) (newStart newEnd : Z) (selectedContent : string)
      (item : AnyHighlightData) (index : nat) :
  keptOrRewritten newStart newEnd selectedContent item
                  (rewriteSelected p newStart newEnd selectedContent item index).
Proof.
  unfold rewriteSelected, keptOrRewritten.
  destruct (negb _ || negb (HighlightType_eqb (type item) TypeText)) eqn:E; [left; reflexivity|].
  right. apply orb_false_elim in E. destruct E as [_ E].
  apply negb_false_iff in E. destruct (type item); try discriminate. split; reflexivity.
Qed.

(** When a resize commit succeeds, the offsets it derives from the live
    selection are written in order: every record of the new sequence is
    either untouched or a text record whose offsets are the smaller and the
    larger of the two raw boundary offsets, with start strictly below end; a
    selection captured in reverse is therefore swapped.  Consequently, if
    all text highlights had ordered stored offsets before, they still do. *)
Lemma commit_orders_stored_offsets (p p' : Page) (selection : Selection) :
  updateSelectedTextHighlightFromSelection p selection = (true, p') ->
  exists (selected : AnyHighlightData) (target : Element) (rawStart rawEnd : Z),
    resolveSelectedTextHighlight p = Some (selected, target)
    /\ rawStart = getLegacyTextOffset target (startContainer selection)
                                      (rangeStartOffset selection)
    /\ rawEnd = getLegacyTextOffset target (endContainer selection)
                                    (rangeEndOffset selection)
    /\ Z.min rawStart rawEnd < Z.max rawStart rawEnd
    /\ (rawEnd < rawStart -> Z.min rawStart rawEnd = rawEnd /\ Z.max rawStart rawEnd = rawStart)
    /\ Forall2 (keptOrRewritten (Z.min rawStart rawEnd) (Z.max rawStart rawEnd)
                                (selectionText selection))
               (highlights p) (highlights p')
    /\ In (UpdateHighlights (highlights p')) (calls p')
    /\ (Forall offsetsOrdered (highlights p) -> Forall offsetsOrdered (highlights p')).
Proof.
  unfold updateSelectedTextHighlightFromSelection.
  destruct (Nat.eqb (rangeCount selection) 0 || isCollapsed selection); [discriminate|].
  destruct (resolveSelectedTextHighlight p) as [[selected target]|]; [|discriminate].
  set (rawStart := getLegacyTextOffset target (startContainer selection)
                                       (rangeStartOffset selection)).
  set (rawEnd := getLegacyTextOffset target (endContainer selection)
                                     (rangeEndOffset selection)).
  destruct (Z.eqb (Z.min rawStart rawEnd) (Z.max rawStart rawEnd)) eqn:Eeq; [discriminate|].
  apply Z.eqb_neq in Eeq.
  intros H. injection H as <-.
  exists selected, target, rawStart, rawEnd.
  assert (HF : Forall2 (keptOrRewritten (Z.min rawStart rawEnd) (Z.max rawStart rawEnd)
                                        (selectionText selection))
                       (highlights p)
                       (mapWithIndex (rewriteSelected p (Z.min rawStart rawEnd)
                                        (Z.max rawStart rawEnd) (selectionText selection))
                                     0 (highlights p))).
  { apply mapWithIndex_Forall2. intros item index. apply rewriteSelected_spec. }
  split; [reflexivity|]. split; [reflexivity|]. split; [reflexivity|].
  split; [lia|]. split; [lia|]. split; [exact HF|]. split.
  - simpl. rewrite !in_app_iff. left. left. left. left. right. left. reflexivity.
  - simpl. intros Hall. revert HF Hall.
    generalize (mapWithIndex (rewriteSelected p (Z.min rawStart rawEnd) (Z.max rawStart rawEnd)
                                (selectionText selection)) 0 (highlights p)).
    generalize (highlights p).
    induction 1 as [|old new olds news Hk _ IH]; intros Hall; [constructor|].
    inversion Hall as [|? ? Hold Holds]; subst. constructor; [|apply IH, Holds].
    destruct Hk as [->|[_ ->]]; [exact Hold|].
    unfold offsetsOrdered. simpl. lia.
Qed.


End ResizeCommit.

(** ** Drag sessions *)

Section DragSessions.
Import Js Dom Highlighter Overlays Examples.

Lemma persistenceCalls_call (p : Page) (c : Call) :
  persistenceCalls (call p c) =
  persistenceCalls p ++ (if isPersistenceCall c then [c] else []).
Proof.
  unfold persistenceCalls. simpl. rewrite filter_app. simpl.
  destruct (isPersistenceCall c); reflexivity.
Qed.

(** Teardown ends the session and touches neither the records nor the
    persistence collaborator. *)
Lemma teardown_frame (p : Page) :
  activeOffsetHandleDrag (teardownOffsetHandleDrag p) = None
  /\ highlights (teardownOffsetHandleDrag p) = highlights p
  /\ persistenceCalls (teardownOffsetHandleDrag p) = persistenceCalls p.
Proof.
  unfold teardownOffsetHandleDrag.
  destruct (activeOffsetHandleDrag p) as [drag|] eqn:E; [|auto].
  destruct (pointerId drag); simpl; repeat split;
    unfold persistenceCalls; simpl; rewrite filter_app; simpl; apply app_nil_r.
Qed.

(** A difference of at most 2px is not above the threshold once rounded. *)
Lemma rounded_within_threshold (d : Q) :
  Qle_bool (Qabs d) OFFSET_HANDLE_DRAG_THRESHOLD_PX = true ->
  Qlt_bool OFFSET_HANDLE_DRAG_THRESHOLD_PX (Qabs (fl d)) = false.
Proof.
  intros H. apply Qle_bool_iff in H. apply not_true_is_false. intros Hlt.
  apply Qlt_bool_iff in Hlt. unfold OFFSET_HANDLE_DRAG_THRESHOLD_PX in *.
  apply fl_above_2 in Hlt.
  assert (Hpos : (0 < 2 ^ (-52))%Q) by reflexivity. lra.
Qed.

(** A move within the threshold leaves the session as it is, [hasMoved]
    included, and persists nothing. *)
Lemma move_within_threshold (p : Page) (d : OffsetHandleDragState) (i : Input) :
  activeOffsetHandleDrag p = Some d ->
  hasMoved d = false ->
  moveWithinThreshold d i = true ->
  activeOffsetHandleDrag (dispatch p i) = Some d
  /\ highlights (dispatch p i) = highlights p
  /\ persistenceCalls (dispatch p i) = persistenceCalls p.
Proof.
  intros Hactive Hmoved Hwithin.
  assert (Hmove : forall b event,
             Qle_bool (Qabs (clientX (eventInit event) - startClientX d))
                      OFFSET_HANDLE_DRAG_THRESHOLD_PX = true ->
             Qle_bool (Qabs (clientY (eventInit event) - startClientY d))
                      OFFSET_HANDLE_DRAG_THRESHOLD_PX = true ->
             activeOffsetHandleDrag (handleOffsetHandleDragMove p b event) = Some d
             /\ highlights (handleOffsetHandleDragMove p b event) = highlights p
             /\ persistenceCalls (handleOffsetHandleDragMove p b event) = persistenceCalls p).
  { intros b event Hx Hy. unfold handleOffsetHandleDragMove. rewrite Hactive.
    match goal with |- context [negb ?a] => destruct a end; cbn [negb]; [|auto].
    rewrite (rounded_within_threshold _ Hx), (rounded_within_threshold _ Hy). cbn [orb].
    destruct (caretPointAtPointer b); [|simpl; auto].
    destruct (caretRectFound b); simpl; repeat split;
      unfold persistenceCalls; simpl; rewrite ?filter_app; simpl; rewrite ?app_nil_r;
      reflexivity. }
  destruct i; simpl in Hwithin; try discriminate;
    apply andb_true_iff in Hwithin; destruct Hwithin as [Hx Hy]; simpl.
  - destruct (listening p OnPointerMove); [apply Hmove; assumption|auto].
  - destruct (listening p OnMouseMove); [apply Hmove; assumption|auto].
Qed.

Lemma moves_within_threshold (d : OffsetHandleDragState) (moves : list Input) :
  forall p,
    activeOffsetHandleDrag p = Some d ->
    hasMoved d = false ->
    Forall (fun i => moveWithinThreshold d i = true) moves ->
    activeOffsetHandleDrag (run p moves) = Some d
    /\ highlights (run p moves) = highlights p
    /\ persistenceCalls (run p moves) = persistenceCalls p.
Proof.
  induction moves as [|i rest IH]; intros p Hactive Hmoved Hall; [simpl; auto|].
  inversion Hall as [|? ? Hi Hrest]; subst.
  destruct (move_within_threshold p d i Hactive Hmoved Hi) as [Ha [Hh Hc]].
  destruct (IH (dispatch p i) Ha Hmoved Hrest) as [Ha' [Hh' Hc']].
  unfold run in *. simpl. rewrite Ha', Hh', Hc'. auto.
Qed.

(** C4.  A session whose pointer stayed within the drag threshold and whose
    selection text at release equals the snapshot taken when it was armed is
    discarded on release: the session is gone, the highlight records are
    the same, and no persistence call has been made. *)
Theorem C4_drag_noop_does_not_persist (p : Page) (d : OffsetHandleDragState)
        (moves : list Input) (b : Browser) (releaseX releaseY : Q) :
  activeOffsetHandleDrag p = Some d ->
  hasMoved d = false ->
  Forall (fun i => moveWithinThreshold d i = true) moves ->
  selectionTextOf b = initialSelectionText d ->
  let p' := finalizeOffsetHandleDrag (run p moves) b releaseX releaseY in
  activeOffsetHandleDrag p' = None
  /\ highlights p' = highlights p
  /\ persistenceCalls p' = persistenceCalls p.
Proof.
  intros Hactive Hmoved Hall Htext.
  destruct (moves_within_threshold d moves p Hactive Hmoved Hall) as [Ha [Hh Hc]].
  destruct (teardown_frame (run p moves)) as [Ta [Th Tc]].
  intros p'. subst p'. unfold finalizeOffsetHandleDrag. rewrite Ha.
  rewrite Hmoved, Htext, String.eqb_refl. simpl.
  destruct (windowSelection b); simpl; rewrite Ta;
    unfold persistenceCalls in *; simpl; rewrite Th, Tc, Hh, Hc; auto.
Qed.

(** *** One session at a time *)

Lemma restorePointerEvents_map (saved : list (nat * string)) :
  forall ovs, restorePointerEvents ovs saved = map (restoreOne saved) ovs.
Proof.
  unfold restorePointerEvents, restoreOne.
  induction saved as [|entry rest IH]; intros ovs; simpl.
  - symmetry. apply map_id.
  - rewrite IH. unfold setOverlayPointerEvents. rewrite map_map. reflexivity.
Qed.

Lemma restoreOne_key (saved : list (nat * string)) :
  forall o, ovKey (restoreOne saved o) = ovKey o.
Proof.
  unfold restoreOne. induction saved as [|entry rest IH]; intros o; simpl; [reflexivity|].
  rewrite IH. destruct (Nat.eqb (ovKey o) (fst entry)); reflexivity.
Qed.

Lemma restoreOne_other (saved : list (nat * string)) :
  forall o, ~ In (ovKey o) (map fst saved) -> restoreOne saved o = o.
Proof.
  unfold restoreOne. induction saved as [|entry rest IH]; intros o Hnot; simpl; [reflexivity|].
  simpl in Hnot. destruct (Nat.eqb (ovKey o) (fst entry)) eqn:E.
  - apply Nat.eqb_eq in E. exfalso. apply Hnot. left. congruence.
  - apply IH. tauto.
Qed.

Lemma restoreOne_saved (saved : list (nat * string)) :
  forall o v,
    NoDup (map fst saved) -> In (ovKey o, v) saved ->
    pointerEvents (restoreOne saved o) = v.
Proof.
  induction saved as [|entry rest IH]; intros o v Hnd Hin; [contradiction|].
  simpl in Hnd. inversion Hnd as [|? ? Hfresh Hnd']; subst.
  unfold restoreOne. simpl. fold (restoreOne rest).
  destruct Hin as [->|Hin].
  - simpl. rewrite Nat.eqb_refl.
    rewrite restoreOne_other; [reflexivity|]. exact Hfresh.
  - destruct (Nat.eqb (ovKey o) (fst entry)) eqn:E.
    + apply Nat.eqb_eq in E. exfalso. apply Hfresh. rewrite <- E.
      apply (in_map fst) in Hin. exact Hin.
    + apply IH; assumption.
Qed.

(** Restoring the saved values of the overlays they were taken from gives
    every overlay its saved value back. *)
Lemma snapshot_restore (saved : list (nat * string)) (ovs : list Overlay) :
  NoDup (map fst saved) -> map ovKey ovs = map fst saved ->
  snapshotPointerEvents (restorePointerEvents ovs saved) = saved.
Proof.
  intros Hnd Hkeys. rewrite restorePointerEvents_map.
  assert (H : forall sub ovs',
             incl sub saved -> map ovKey ovs' = map fst sub ->
             snapshotPointerEvents (map (restoreOne saved) ovs') = sub).
  { induction sub as [|[k v] sub IH]; intros ovs' Hincl Hk.
    - destruct ovs'; [reflexivity|discriminate].
    - destruct ovs' as [|o ovs']; [discriminate|].
      simpl in Hk. injection Hk as Hko Hk'.
      simpl. rewrite restoreOne_key, Hko.
      rewrite (restoreOne_saved saved o v Hnd).
      + f_equal. apply IH; [|exact Hk']. intros e He. apply Hincl. right. exact He.
      + rewrite Hko. apply Hincl. left. reflexivity. }
  apply H; [apply incl_refl|exact Hkeys].
Qed.

Lemma snapshot_keys (ovs : list Overlay) :
  map fst (snapshotPointerEvents ovs) = map ovKey ovs.
Proof. unfold snapshotPointerEvents. rewrite map_map. reflexivity. Qed.

Lemma sessionInvariant_same (baseline : list (nat * string)) (p q : Page) :
  sameSession p q -> sessionInvariant baseline p -> sessionInvariant baseline q.
Proof.
  intros [Ha [Hl [Hc [Hd Ho]]]]. unfold sessionInvariant.
  rewrite Ha, Hl, Hc, Hd, Ho. tauto.
Qed.

Lemma sameSession_refl (p : Page) : sameSession p p.
Proof. repeat split. Qed.

Lemma sameSession_trans (p q r : Page) : sameSession p q -> sameSession q r -> sameSession p r.
Proof.
  intros [A1 [A2 [A3 [A4 A5]]]] [B1 [B2 [B3 [B4 B5]]]].
  repeat split; congruence.
Qed.

Lemma selectHighlightText_same (p : Page) (edge : Edge) :
  sameSession p (fst (selectHighlightTextFromOpposingEdge p edge)).
Proof.
  unfold selectHighlightTextFromOpposingEdge.
  destruct (resolveSelectedTextHighlight p) as [[h t]|]; [|apply sameSession_refl].
  destruct (resolveTextBoundaries t (startOffset h) (endOffset h)) as [[s|] [e|]];
    simpl; repeat split.
Qed.

Lemma updateSelected_same (p : Page) (selection : Selection) :
  sameSession p (snd (updateSelectedTextHighlightFromSelection p selection)).
Proof.
  unfold updateSelectedTextHighlightFromSelection.
  destruct (_ || _); [apply sameSession_refl|].
  destruct (resolveSelectedTextHighlight p) as [[h t]|]; [|apply sameSession_refl].
  destruct (Z.eqb _ _); simpl; repeat split.
Qed.

(** The teardown of a session that satisfies the invariant leaves a page
    with no session, no listener, no capture, and every overlay restored. *)
Lemma teardown_invariant (baseline : list (nat * string)) (p : Page) :
  NoDup (map fst baseline) -> sessionInvariant baseline p ->
  activeOffsetHandleDrag (teardownOffsetHandleDrag p) = None
  /\ sessionInvariant baseline (teardownOffsetHandleDrag p).
Proof.
  intros Hnd Hinv. unfold teardownOffsetHandleDrag.
  destruct (activeOffsetHandleDrag p) as [d|] eqn:Ea.
  - unfold sessionInvariant in Hinv. rewrite Ea in Hinv.
    destruct Hinv as [Hl [Hc [Hd [Hb Hk]]]].
    assert (Hrestore : snapshotPointerEvents
                         (restorePointerEvents (overlays p) (disabledOverlayPointerEvents d))
                       = baseline).
    { rewrite Hb. apply snapshot_restore; assumption. }
    destruct (pointerId d) as [pid|] eqn:Ep.
    + split; [reflexivity|]. unfold sessionInvariant. simpl. rewrite Hl.
      split; [reflexivity|]. split; [|split; [reflexivity|exact Hrestore]].
      destruct Hc as [->|[pid' [Hpid ->]]]; [reflexivity|].
      injection Hpid as <-. simpl.
      replace (Edge_eqb (handle d) (handle d)) with true by (destruct (handle d); reflexivity).
      rewrite Z.eqb_refl. reflexivity.
    + split; [reflexivity|]. unfold sessionInvariant. simpl. rewrite Hl.
      split; [reflexivity|]. split; [|split; [reflexivity|exact Hrestore]].
      destruct Hc as [->|[pid' [Hpid _]]]; [reflexivity|]. discriminate.
  - split; [exact Ea|exact Hinv].
Qed.

Lemma install_invariant (baseline : list (nat * string)) (p2 : Page) (b : Browser)
      (selectedRange : SelectedRange) (handle : Handle) (edge : Edge) (x y : Q)
      (inputType : OffsetHandleDragInputType) (pointerId : option Z) :
  activeOffsetHandleDrag p2 = None -> sessionInvariant baseline p2 ->
  let p' := installOffsetHandleDrag p2 b selectedRange handle edge x y inputType pointerId in
  sessionInvariant baseline p'
  /\ exists d', activeOffsetHandleDrag p' = Some d'
                /\ disabledOverlayPointerEvents d' = snapshotPointerEvents (overlays p2)
                /\ hasMoved d' = false
                /\ initialSelectionText d' = selectionTextOf b.
Proof.
  intros Ha Hinv. unfold sessionInvariant in Hinv. rewrite Ha in Hinv.
  destruct Hinv as [Hl [Hc [Hd Hb]]].
  assert (Hkeys : map ovKey (map (fun overlay => withPointerEvents overlay "none") (overlays p2))
                  = map fst baseline).
  { rewrite <- Hb, snapshot_keys, map_map. reflexivity. }
  unfold installOffsetHandleDrag, sessionInvariant.
  destruct inputType, pointerId as [pid|]; [destruct (setPointerCaptureThrows b)| | |];
    simpl; rewrite ?Hl, ?Hc; simpl;
    (split; [repeat split; try assumption; try (left; reflexivity);
             try (right; exists pid; split; reflexivity)
            |eexists; repeat split]).
Qed.

Lemma call_same (p : Page) (c : Call) : sameSession p (call p c).
Proof. repeat split. Qed.

Lemma begin_invariant (baseline : list (nat * string)) (p : Page) (b : Browser)
      (handle : Handle) (edge : Edge) (x y : Q) (inputType : OffsetHandleDragInputType)
      (pointerId : option Z) :
  NoDup (map fst baseline) -> sessionInvariant baseline p ->
  sessionInvariant baseline (beginOffsetHandleDrag p b handle edge x y inputType pointerId).
Proof.
  intros Hnd Hinv. unfold beginOffsetHandleDrag.
  pose proof (selectHighlightText_same (call p HideHighlightWidgetTooltip) edge) as Hsame.
  destruct (selectHighlightTextFromOpposingEdge (call p HideHighlightWidgetTooltip) edge)
    as [p1 [selectedRange|]]; simpl in Hsame.
  - assert (Hinv1 : sessionInvariant baseline p1).
    { eapply sessionInvariant_same; [|exact Hinv].
      eapply sameSession_trans; [apply call_same|exact Hsame]. }
    destruct (teardown_invariant baseline p1 Hnd Hinv1) as [Hnone Hinv2].
    destruct (activeOffsetHandleDrag p1) eqn:Ea; simpl.
    + apply install_invariant; assumption.
    + apply install_invariant; assumption.
  - eapply sessionInvariant_same; [|exact Hinv].
    eapply sameSession_trans; [apply call_same|exact Hsame].
Qed.

Lemma move_invariant (baseline : list (nat * string)) (p : Page) (b : Browser)
      (event : InputEvent) :
  sessionInvariant baseline p ->
  sessionInvariant baseline (handleOffsetHandleDragMove p b event).
Proof.
  intros Hinv. unfold handleOffsetHandleDragMove.
  destruct (activeOffsetHandleDrag p) as [d|] eqn:Ea; [|exact Hinv].
  match goal with |- context [negb ?a] => destruct a end; simpl; [|exact Hinv].
  unfold sessionInvariant in *. rewrite Ea in Hinv.
  destruct (_ || _); destruct (caretPointAtPointer b); try destruct (caretRectFound b);
    simpl; exact Hinv.
Qed.

Lemma finalize_invariant (baseline : list (nat * string)) (p : Page) (b : Browser) (x y : Q) :
  NoDup (map fst baseline) -> sessionInvariant baseline p ->
  sessionInvariant baseline (finalizeOffsetHandleDrag p b x y).
Proof.
  intros Hnd Hinv. unfold finalizeOffsetHandleDrag.
  destruct (activeOffsetHandleDrag p) as [d|] eqn:Ea; [|exact Hinv].
  destruct (teardown_invariant baseline p Hnd Hinv) as [_ Hinv1].
  assert (Hinv2 : sessionInvariant baseline
                    (setSuppressNextMouseUpHighlight (teardownOffsetHandleDrag p) true)).
  { eapply sessionInvariant_same; [|exact Hinv1]. repeat split. }
  destruct (windowSelection b) as [sel|]; [|exact Hinv2].
  destruct (negb _ || isCollapsed sel); [exact Hinv2|].
  pose proof (updateSelected_same
                (setSuppressNextMouseUpHighlight (teardownOffsetHandleDrag p) true) sel) as Hsame.
  destruct (updateSelectedTextHighlightFromSelection _ sel) as [updated p3]. simpl in Hsame.
  assert (Hinv3 : sessionInvariant baseline p3)
    by (eapply sessionInvariant_same; [exact Hsame|exact Hinv2]).
  destruct updated; [|exact Hinv3].
  eapply sessionInvariant_same; [|exact Hinv3].
  eapply sameSession_trans; apply call_same.
Qed.

Lemma dispatch_invariant (baseline : list (nat * string)) (p : Page) (i : Input) :
  NoDup (map fst baseline) -> sessionInvariant baseline p ->
  sessionInvariant baseline (dispatch p i).
Proof.
  intros Hnd Hinv. destruct i; simpl.
  - unfold handleOffsetHandleDown.
    destruct (negb _); [exact Hinv|]. destruct (currentTarget e); [|exact Hinv].
    apply begin_invariant; assumption.
  - unfold handleOffsetHandleMouseDown.
    destruct (_ || _); [exact Hinv|]. destruct (currentTarget e); [|exact Hinv].
    apply begin_invariant; assumption.
  - destruct (listening p OnPointerMove); [apply move_invariant|]; exact Hinv.
  - destruct (listening p OnMouseMove); [apply move_invariant|]; exact Hinv.
  - destruct (listening p OnPointerUp); [|exact Hinv].
    unfold handleOffsetHandlePointerUp.
    destruct (pointerSessionMatches p pid); [apply finalize_invariant; assumption|exact Hinv].
  - destruct (listening p OnPointerCancel); [|exact Hinv].
    unfold handleOffsetHandlePointerCancel.
    destruct (pointerSessionMatches p pid); [|exact Hinv].
    destruct (teardown_invariant baseline p Hnd Hinv) as [_ Hinv1].
    eapply sessionInvariant_same; [|exact Hinv1]. repeat split.
  - destruct (listening p OnMouseUp); [|exact Hinv].
    unfold handleOffsetHandleMouseUp.
    destruct (activeOffsetHandleDrag p) as [d|] eqn:Ea; [|exact Hinv].
    destruct (inputType d); [exact Hinv|apply finalize_invariant; assumption].
  - unfold hideOffsetHandles.
    destruct (teardown_invariant baseline p Hnd Hinv) as [Hnone Hinv1].
    assert (H : forall q, activeOffsetHandleDrag q = None -> sessionInvariant baseline q ->
                          sessionInvariant baseline
                            (call (setOffsetHandleDraggingState q false)
                                  (SetSelectionPreviewColor None DefaultAlpha))).
    { intros q Hq Hi. unfold sessionInvariant in *. simpl. rewrite Hq in *. tauto. }
    destruct (activeOffsetHandleDrag p) eqn:Ea; simpl; apply H; assumption.
Qed.

Lemma run_invariant (baseline : list (nat * string)) (inputs : list Input) :
  forall p, NoDup (map fst baseline) -> sessionInvariant baseline p ->
            sessionInvariant baseline (run p inputs).
Proof.
  induction inputs as [|i rest IH]; intros p Hnd Hinv; [exact Hinv|].
  unfold run in *. simpl. apply IH; [exact Hnd|]. apply dispatch_invariant; assumption.
Qed.

Lemma idle_invariant (p0 : Page) :
  idle p0 = true -> sessionInvariant (snapshotPointerEvents (overlays p0)) p0.
Proof.
  unfold idle, sessionInvariant. intros H.
  repeat (apply andb_true_iff in H; destruct H as [H ?]).
  destruct (activeOffsetHandleDrag p0); [discriminate|].
  destruct (documentListeners p0); [|discriminate].
  destruct (pointerCaptures p0); [|discriminate].
  destruct (offsetHandleDragging p0); [discriminate|]. repeat split.
Qed.

Lemma remove_all_listeners (l : list DragListener) :
  fold_left removeEventListener DRAG_LISTENERS l = [].
Proof.
  unfold DRAG_LISTENERS. cbn [fold_left]. unfold removeEventListener.
  induction l as [|k l IH]; [reflexivity|].
  destruct k; simpl; exact IH.
Qed.

(** A teardown, whatever the page: the session is gone, no drag listener
    is left, the pointer of the session is not captured, and every overlay
    of the document that the session had suspended has its saved value. *)
Lemma teardown_releases (p : Page) (d : OffsetHandleDragState) :
  activeOffsetHandleDrag p = Some d ->
  NoDup (map fst (disabledOverlayPointerEvents d)) ->
  let mid := teardownOffsetHandleDrag p in
  activeOffsetHandleDrag mid = None
  /\ documentListeners mid = []
  /\ (forall pid, pointerId d = Some pid -> ~ In (handle d, pid) (pointerCaptures mid))
  /\ offsetHandleDragging mid = false
  /\ (forall o v, In o (overlays mid) -> In (ovKey o, v) (disabledOverlayPointerEvents d) ->
                  pointerEvents o = v).
Proof.
  intros Ha Hnd. unfold teardownOffsetHandleDrag. rewrite Ha.
  assert (Hrestored : forall o v,
             In o (restorePointerEvents (overlays p) (disabledOverlayPointerEvents d)) ->
             In (ovKey o, v) (disabledOverlayPointerEvents d) -> pointerEvents o = v).
  { intros o v Hin Hsaved. rewrite restorePointerEvents_map in Hin.
    apply in_map_iff in Hin. destruct Hin as [o0 [<- _]].
    rewrite restoreOne_key in Hsaved. apply restoreOne_saved; assumption. }
  destruct (pointerId d) as [pid|] eqn:Ep; simpl.
  - split; [reflexivity|]. split; [apply remove_all_listeners|].
    split; [|split; [reflexivity|exact Hrestored]].
    intros pid' Hpid Hin. injection Hpid as <-.
    unfold releasePointerCapture in Hin. apply filter_In in Hin.
    destruct Hin as [_ Hf]. simpl in Hf.
    replace (Edge_eqb (handle d) (handle d)) with true in Hf
      by (destruct (handle d); reflexivity).
    rewrite Z.eqb_refl in Hf. discriminate.
  - split; [reflexivity|]. split; [apply remove_all_listeners|].
    split; [|split; [reflexivity|exact Hrestored]].
    intros pid' Hpid. discriminate.
Qed.

Lemma install_session (p2 : Page) (b : Browser) (selectedRange : SelectedRange)
      (handle : Handle) (edge : Edge) (x y : Q) (inputType : OffsetHandleDragInputType)
      (pointerId : option Z) :
  exists d',
    activeOffsetHandleDrag
      (installOffsetHandleDrag p2 b selectedRange handle edge x y inputType pointerId) = Some d'
    /\ disabledOverlayPointerEvents d' = snapshotPointerEvents (overlays p2)
    /\ hasMoved d' = false.
Proof.
  unfold installOffsetHandleDrag.
  destruct inputType, pointerId as [pid|]; [destruct (setPointerCaptureThrows b)| | |];
    simpl; eexists; repeat split.
Qed.

(** C3.  The slot holds at most one session, and on every page reached from
    an idle one the slot and what a session owns agree: without a session
    there is no drag listener, no pointer capture and every overlay has its
    own pointer-events value; with a session there are exactly its listeners
    and at most its capture, and a teardown gives every overlay its original
    value back.  When a drag is armed while a session [d] is active, the
    page on which the new session is installed is the torn-down one: no
    session, no drag listener, the pointer of [d] released, no dragging
    class, and every overlay that [d] had suspended carrying its saved
    value, which is the value that the new session records for it. *)
Theorem C3_single_drag_session (p0 : Page) (inputs : list Input)
        (q : Page) (d : OffsetHandleDragState) (b : Browser) (handle : Handle) (edge : Edge)
        (x y : Q) (inputType : OffsetHandleDragInputType) (pointerId : option Z)
        (p1 : Page) (selectedRange : SelectedRange) :
  (idle p0 = true ->
   NoDup (map ovKey (overlays p0)) ->
   let baseline := snapshotPointerEvents (overlays p0) in
   sessionInvariant baseline (run p0 inputs)
   /\ snapshotPointerEvents (overlays (teardownOffsetHandleDrag (run p0 inputs))) = baseline)
  /\ (activeOffsetHandleDrag q = Some d ->
      NoDup (map fst (disabledOverlayPointerEvents d)) ->
      selectHighlightTextFromOpposingEdge (call q HideHighlightWidgetTooltip) edge
        = (p1, Some selectedRange) ->
      let mid := teardownOffsetHandleDrag p1 in
      let q' := beginOffsetHandleDrag q b handle edge x y inputType pointerId in
      activeOffsetHandleDrag mid = None
      /\ documentListeners mid = []
      /\ (forall pid, Overlays.pointerId d = Some pid ->
                      ~ In (Overlays.handle d, pid) (pointerCaptures mid))
      /\ offsetHandleDragging mid = false
      /\ (forall o v, In o (overlays mid) ->
                      In (ovKey o, v) (disabledOverlayPointerEvents d) ->
                      pointerEvents o = v)
      /\ q' = installOffsetHandleDrag mid b selectedRange handle edge x y inputType pointerId
      /\ exists d', activeOffsetHandleDrag q' = Some d'
                    /\ disabledOverlayPointerEvents d' = snapshotPointerEvents (overlays mid)
                    /\ hasMoved d' = false).
Proof.
  split.
  - intros Hidle Hnd baseline.
    assert (Hndb : NoDup (map fst baseline)).
    { unfold baseline. rewrite snapshot_keys. exact Hnd. }
    assert (Hinv : sessionInvariant baseline (run p0 inputs)).
    { apply run_invariant; [exact Hndb|apply idle_invariant, Hidle]. }
    split; [exact Hinv|].
    destruct (teardown_invariant baseline (run p0 inputs) Hndb Hinv) as [Hnone Hmid].
    unfold sessionInvariant in Hmid. rewrite Hnone in Hmid. tauto.
  - intros Hactive Hnd Hselect mid q'.
    pose proof (selectHighlightText_same (call q HideHighlightWidgetTooltip) edge) as Hsame.
    rewrite Hselect in Hsame. simpl in Hsame.
    assert (Hactive1 : activeOffsetHandleDrag p1 = Some d).
    { destruct Hsame as [Ha _]. rewrite <- Ha. exact Hactive. }
    destruct (teardown_releases p1 d Hactive1 Hnd) as [Hnone [Hl [Hc [Hdrag Hrestored]]]].
    fold mid in Hnone, Hl, Hc, Hdrag, Hrestored.
    assert (Hbegin : q' = installOffsetHandleDrag mid b selectedRange handle edge x y
                            inputType pointerId).
    { unfold q', beginOffsetHandleDrag. rewrite Hselect, Hactive1. reflexivity. }
    split; [exact Hnone|]. split; [exact Hl|]. split; [exact Hc|]. split; [exact Hdrag|].
    split; [exact Hrestored|]. split; [exact Hbegin|].
    rewrite Hbegin. apply install_session.
Qed.

(** The start handle is pressed, the pointer moves by a pixel and a half,
    and is released with the selection still reading "Clerk". *)
Lemma C4_drag_noop_does_not_persist_witness :
  let p := run examplePage [pressStartHandle] in
  let p' := finalizeOffsetHandleDrag (run p [smallMove]) browserWithClerk (1005 # 10) 51%Q in
  activeOffsetHandleDrag p = Some startHandleSession
  /\ activeOffsetHandleDrag p' = None
  /\ highlights p' = [clerkHighlight]
  /\ persistenceCalls p' = [].
Proof.
  intros p p'.
  assert (Hactive : activeOffsetHandleDrag p = Some startHandleSession)
    by (vm_compute; reflexivity).
  split; [exact Hactive|].
  apply (C4_drag_noop_does_not_persist p startHandleSession [smallMove] browserWithClerk
           (1005 # 10)%Q 51%Q Hactive eq_refl).
  - constructor; [reflexivity|constructor].
  - reflexivity.
Defined.

(** The start handle is pressed with pointer 1, and the end handle with
    pointer 2 while that session is active. *)
Lemma C3_single_drag_session_witness :
  let q := run examplePage [pressStartHandle] in
  let q' := beginOffsetHandleDrag q browserWithClerk EdgeEnd EdgeEnd 140%Q 50%Q
              InputPointer (Some 2) in
  activeOffsetHandleDrag q = Some startHandleSession
  /\ sessionInvariant (snapshotPointerEvents (overlays examplePage)) q
  /\ exists d', activeOffsetHandleDrag q' = Some d'
                /\ disabledOverlayPointerEvents d' = [(0%nat, EmptyString); (1%nat, "auto")].
Proof.
  intros q q'.
  assert (Hnd : NoDup (map ovKey (overlays examplePage))).
  { simpl. constructor; [simpl; intros [H|[]]; discriminate|].
    constructor; [simpl; tauto|constructor]. }
  assert (Hidle : idle examplePage = true) by reflexivity.
  assert (Hactive : activeOffsetHandleDrag q = Some startHandleSession)
    by (vm_compute; reflexivity).
  assert (Hsaved : NoDup (map fst (disabledOverlayPointerEvents startHandleSession))).
  { simpl. constructor; [simpl; intros [H|[]]; discriminate|].
    constructor; [simpl; tauto|constructor]. }
  assert (Hselect : selectHighlightTextFromOpposingEdge
                      (call q HideHighlightWidgetTooltip) EdgeEnd
                    = (fst (selectHighlightTextFromOpposingEdge
                              (call q HideHighlightWidgetTooltip) EdgeEnd),
                       Some (mkSelectedRange maxwellParagraph (TextRef 0) 6)))
    by (vm_compute; reflexivity).
  destruct (C3_single_drag_session examplePage [pressStartHandle] q startHandleSession
              browserWithClerk EdgeEnd EdgeEnd 140%Q 50%Q InputPointer (Some 2)
              (fst (selectHighlightTextFromOpposingEdge
                      (call q HideHighlightWidgetTooltip) EdgeEnd))
              (mkSelectedRange maxwellParagraph (TextRef 0) 6))
    as [Hreach Hrearm].
  destruct (Hreach Hidle Hnd) as [Hinv _].
  destruct (Hrearm Hactive Hsaved Hselect) as [_ [_ [_ [_ [_ [_ [d' [Hd' [Hdis _]]]]]]]]].
  split; [exact Hactive|]. split; [exact Hinv|].
  exists d'. split; [exact Hd'|]. rewrite Hdis. vm_compute. reflexivity.
Defined.

End DragSessions.

(** ** Overlay rectangles *)

Section OverlayRectangles.
Import Js Dom Highlighter Geometry Overlays Examples.
Local Open Scope Q_scope.

(** The rounded difference is below 1 exactly when the difference itself
    is below the midpoint between 1 and the double before it. *)
Lemma near_iff (a b : Q) : near a b = true <-> Qabs (a - b) < 1 - 2 ^ (-54).
Proof. unfold near. rewrite Qlt_bool_iff. apply fl_below_1. Qed.

Lemma sameLine_iff (rect running : DOMRect) :
  sameLine rect running = true <->
  Qabs (y rect - y running) < 1 - 2 ^ (-54)
  /\ Qabs (height rect - height running) < 1 - 2 ^ (-54).
Proof. unfold sameLine. rewrite andb_true_iff, !near_iff. tauto. Qed.

(** The accumulating loop of the code pushes the rectangles that the
    recursive reading lists. *)
Lemma mergeRectsLoop_running (rects : list DOMRect) :
  forall (mergedRects : list DOMRect) (running : DOMRect),
    exists m c,
      mergeRectsLoop rects mergedRects (Some running) = (m, Some c)
      /\ (m ++ [c])%list = (mergedRects ++ mergeRunning running rects)%list.
Proof.
  induction rects as [|rect rest IH]; intros mergedRects running; simpl.
  - exists mergedRects, running. split; reflexivity.
  - destruct (sameLine rect running).
    + apply IH.
    + destruct (IH (mergedRects ++ [running])%list (copyRect rect)) as [m [c [Hloop Heq]]].
      exists m, c. split; [exact Hloop|]. rewrite Heq, <- app_assoc. reflexivity.
Qed.

Lemma mergedRectsOf_running (rects : list DOMRect) :
  mergedRectsOf rects = mergeRunningRule rects.
Proof.
  unfold mergedRectsOf, mergeRunningRule. destruct rects as [|rect rest]; [reflexivity|].
  simpl. destruct (mergeRectsLoop_running rest [] (copyRect rect)) as [m [c [Hloop Heq]]].
  rewrite Hloop. exact Heq.
Qed.

(** The right edge of a rectangle whose origin is a double is a double. *)
Lemma right_isDouble (rect : DOMRect) : isDouble (x rect) -> isDouble (right rect).
Proof.
  unfold isDouble, right. intros Hx.
  destruct (Q.max_spec (x rect) (fl (x rect + width rect))) as [[_ H]|[_ H]].
  - rewrite (fl_comp _ _ H). apply Qeq_trans with (fl (x rect + width rect)).
    + apply fl_idempotent.
    + symmetry. exact H.
  - rewrite (fl_comp _ _ H). apply Qeq_trans with (x rect); [exact Hx|symmetry; exact H].
Qed.

Lemma extendTo_edges (running rect : DOMRect) :
  isDouble (x running) -> isDouble (x rect) ->
  0 <= width running -> left running <= right rect ->
  isDouble (right rect - left running) ->
  left (extendTo running rect) == left running
  /\ right (extendTo running rect) == right rect.
Proof.
  intros Hx Hxr Hw Hr Hexact. unfold isDouble in Hx, Hexact.
  pose proof (right_isDouble rect Hxr) as Hright. unfold isDouble in Hright.
  assert (Hsum : x running <= fl (x running + width running)).
  { pose proof (fl_mono (x running) (x running + width running) ltac:(lra)). lra. }
  assert (Hleft : left running == x running) by (unfold left; apply Q.min_l; exact Hsum).
  set (l := left running) in *. set (r := right rect) in *.
  assert (Hx' : x (extendTo running rect) = x running) by reflexivity.
  assert (Hwidth : width (extendTo running rect) = fl (r - l)) by reflexivity.
  assert (Hfl : fl (x running + fl (r - l)) == r).
  { rewrite (fl_comp (x running + fl (r - l)) r) by lra. exact Hright. }
  split.
  - unfold left at 1. rewrite Hx', Hwidth. rewrite Q.min_l by lra. lra.
  - unfold right at 1. rewrite Hx', Hwidth. rewrite Q.max_r by lra. exact Hfl.
Qed.

(** C7 as amended.  The merged rectangles are those of the walk that
    compares each rectangle with the running rectangle: it joins the running
    rectangle exactly when the differences of its [y] and of its height from
    those of the running rectangle, rounded to doubles, are below 1 in
    absolute value, that is when the differences themselves are below
    [1 - 2^-54]; otherwise the running rectangle is emitted and the rectangle
    starts a new one.  Joining keeps [x], [y], top and height of the running
    rectangle and sets its width to the rounded difference between the right
    edge of the joined rectangle and its own left edge.  For rectangles whose
    origins are doubles the left edge is then kept and the right edge is that
    of the joined rectangle whenever the running rectangle's width is not
    negative, the new right edge is not left of its left edge and the
    difference needs no rounding. *)
Theorem C7_merge_with_running_rectangle (rects : list DOMRect) (running rect : DOMRect) :
  mergedRectsOf rects = mergeRunningRule rects
  /\ (sameLine rect running = true <->
        Qabs (fl (y rect - y running)) < 1 /\ Qabs (fl (height rect - height running)) < 1)
  /\ (sameLine rect running = true <->
        Qabs (y rect - y running) < 1 - 2 ^ (-54)
        /\ Qabs (height rect - height running) < 1 - 2 ^ (-54))
  /\ x (extendTo running rect) = x running
  /\ y (extendTo running rect) = y running
  /\ top (extendTo running rect) = top running
  /\ height (extendTo running rect) = height running
  /\ width (extendTo running rect) = fl (right rect - left running)
  /\ (isDouble (x running) -> isDouble (x rect) ->
      0 <= width running -> left running <= right rect ->
      isDouble (right rect - left running) ->
        left (extendTo running rect) == left running
        /\ right (extendTo running rect) == right rect).
Proof.
  split; [apply mergedRectsOf_running|]. split; [|split; [apply sameLine_iff|]].
  - unfold sameLine, near. rewrite andb_true_iff, !Qlt_bool_iff. reflexivity.
  - repeat (split; [reflexivity|]). apply extendTo_edges.
Qed.

(** The second sub-run of [driftRects] joins the first. *)
Lemma C7_merge_with_running_rectangle_witness :
  mergedRectsOf driftRects = mergeRunningRule driftRects
  /\ left (extendTo driftFirst driftSecond) == 0
  /\ right (extendTo driftFirst driftSecond) == 20.
Proof.
  pose proof (C7_merge_with_running_rectangle driftRects driftFirst driftSecond)
    as [Hrule [_ [_ [_ [_ [_ [_ [_ Hedges]]]]]]]].
  split; [exact Hrule|].
  assert (Hx : isDouble (x driftFirst)) by (vm_compute; reflexivity).
  assert (Hxr : isDouble (x driftSecond)) by (vm_compute; reflexivity).
  assert (Hw : 0 <= width driftFirst) by (vm_compute; discriminate).
  assert (Hr : left driftFirst <= right driftSecond) by (vm_compute; discriminate).
  assert (Hexact : isDouble (right driftSecond - left driftFirst)) by (vm_compute; reflexivity).
  destruct (Hedges Hx Hxr Hw Hr Hexact) as [Hl Hrt]. split.
  - rewrite Hl. reflexivity.
  - rewrite Hrt. reflexivity.
Defined.

(** C7 as stated fails.  In [driftRects] every rectangle matches the one
    generated before it within 1 pixel in [y] and in height, so the rule on
    consecutive rectangles merges all three into one; the code compares the
    third with the running rectangle, 1.25px above it, emits the running
    rectangle and starts a second one.  In [leftwardRects] the second
    rectangle lies left of the first: the running rectangle gets a negative
    width, and joining the third leaves it from 50 to 150 although the
    rectangles reach from 0 to 110.  And two rectangles whose [y] differ by
    [1 - 2^-60], less than 1 pixel, are not on the same line: the difference
    rounds to 1. *)
Lemma C7_consecutive_rule_counterexample :
  sameLine driftSecond driftFirst = true
  /\ sameLine driftThird driftSecond = true
  /\ mergeConsecutiveRule driftRects = [mkDOMRect 0 0 30 10]
  /\ mergedRectsOf driftRects = [mkDOMRect 0 0 20 10; driftThird]
  /\ mergedRectsOf driftRects <> mergeConsecutiveRule driftRects
  /\ mergedRectsOf leftwardRects = [mkDOMRect 50 0 100 10]
  /\ Qabs (y pixelBelowTop - y hairBelowTop) < 1
  /\ sameLine pixelBelowTop hairBelowTop = false.
Proof.
  split; [reflexivity|]. split; [reflexivity|]. split; [reflexivity|].
  split; [reflexivity|]. split.
  - intros H. apply (f_equal (@List.length DOMRect)) in H. vm_compute in H. discriminate.
  - split; [vm_compute; reflexivity|]. split; vm_compute; reflexivity.
Qed.

(** *** Deduplication against rendered overlays *)

Lemma far_apart (a b : Q) : 1 <= Qabs (a - b) -> near a b = false.
Proof.
  intros H. destruct (near a b) eqn:E; [|reflexivity].
  apply near_iff in E. assert (Hpos : 0 < 2 ^ (-54)) by reflexivity. lra.
Qed.

(** Up to [2^52] the doubles are at most 1 apart, so that the rounded
    padded size stays more than 1 above the size. *)
Lemma fl_padding (w : Q) : Qabs w <= inject_Z (2 ^ 52) -> w + 1 <= fl (w + 4).
Proof.
  intros Hw. apply Qabs_Qle_condition in Hw. destruct Hw as [Hlow Hhigh].
  set (D := Qceiling (w + 1)).
  pose proof (Qle_ceiling (w + 1)) as Hc1. pose proof (Qceiling_lt (w + 1)) as Hc2.
  fold D in Hc1, Hc2.
  assert (HD : inject_Z (D - 1) == inject_Z D - 1)
    by (unfold Z.sub; rewrite inject_Z_plus; reflexivity).
  rewrite HD in Hc2.
  assert (Hbound : (Z.abs D <= 2 ^ 53)%Z).
  { assert (H1 : inject_Z D <= inject_Z (2 ^ 53)).
    { assert (Hc : inject_Z (2 ^ 52) + 2 <= inject_Z (2 ^ 53)) by (vm_compute; discriminate).
      lra. }
    assert (H2 : inject_Z (- 2 ^ 53) <= inject_Z D).
    { assert (Hc : inject_Z (- 2 ^ 53) <= - inject_Z (2 ^ 52)) by (vm_compute; discriminate).
      lra. }
    rewrite <- Zle_Qle in H1, H2. lia. }
  pose proof (fl_Z D Hbound) as Hexact.
  pose proof (fl_mono (inject_Z D) (w + 4) ltac:(lra)) as Hmono.
  rewrite Hexact in Hmono. lra.
Qed.

(** A rectangle is not found to duplicate the overlay rendered from it:
    the overlay is 4px wider than the rectangle, or has no width. *)
Lemma own_overlay_is_no_duplicate (p : Page) (rect : DOMRect) (d : OverlayData)
      (showCommentBadge : bool) :
  Qabs (width rect) <= inject_Z (2 ^ 52) ->
  let p' := createHighlightOverlayElement p rect d showCommentBadge in
  exists o, overlays p' = (overlays p ++ [o])%list /\ isDuplicate p' [o] rect = false.
Proof.
  intros Hw p'. eexists. split; [reflexivity|].
  assert (Hfar : near (width rect) (usedSize (cssSize (fl (width rect + 4)))) = false).
  { apply far_apart. rewrite Qabs_Qminus. apply Qabs_ge.
    unfold cssSize. destruct (Qle_bool 0 (fl (width rect + 4))) eqn:E; cbn [usedSize].
    - pose proof (fl_padding (width rect) Hw). lra.
    - assert (Hneg : width rect + 4 < 0).
      { apply Qnot_le_lt. intros Hge. apply fl_nonneg in Hge.
        apply Qle_bool_iff in Hge. congruence. }
      lra. }
  unfold isDuplicate. cbn [existsb]. cbv zeta.
  cbn [overlayBoundingClientRect width styleWidth]. rewrite Hfar.
  rewrite andb_false_r. reflexivity.
Qed.

(** C6 at the failing input.  The word "Clerk" is planned on a page without
    overlays and planned again with nothing changed: the second pass finds
    the overlay of the first, does not recognise its own rectangle in it,
    and renders a second overlay.  The repaint path, which removes the
    overlays of the highlight before it plans, keeps one. *)
Theorem C6_replanning_adds_rectangle :
  let p1 := planHighlightOverlayRects unrenderedPage clerkLayout maxwellParagraph
              clerkHighlight 0 in
  let p2 := planHighlightOverlayRects p1 clerkLayout maxwellParagraph clerkHighlight 0 in
  List.length (overlays p1) = 1%nat
  /\ List.length (overlaysOfIndex p1 0) = 1%nat
  /\ isDuplicate p1 (overlaysOfIndex p1 0) (mkDOMRect 10 10 40 20) = false
  /\ List.length (overlays p2) = 2%nat
  /\ List.length (overlays (planHighlightOverlayRects (removeExistingHighlightOverlays p1 0)
                              clerkLayout maxwellParagraph clerkHighlight 0)) = 1%nat.
Proof. vm_compute. repeat split. Qed.

(** *** Padding and the comment badge *)

(** Within one call of [mergeHighlightOverlayRects] every new overlay is a
    merged rectangle grown by 2px on each edge, and only the first merged
    rectangle, and only with notes, is handed the badge. *)
Lemma emitMergedRects_spec (mergedRects : list DOMRect) :
  forall (p : Page) (rectIndex : nat) (existingOverlays : list Overlay) (d : OverlayData),
    let p' := emitMergedRects p mergedRects rectIndex existingOverlays d in
    exists new,
      overlays p' = (overlays p ++ new)%list
      /\ scrollX p' = scrollX p /\ scrollY p' = scrollY p
      /\ Forall (fun o => exists rect, In rect mergedRects /\ paddedBy2 p rect o) new
      /\ Forall (fun o => showCommentBadge o = true -> hasNotes (odNotes d) = true) new
      /\ (rectIndex <> 0%nat -> Forall (fun o => showCommentBadge o = false) new)
      /\ Forall (fun o => showCommentBadge o = false) (tl new).
Proof.
  induction mergedRects as [|rect rest IH]; intros p rectIndex existingOverlays d; simpl.
  - exists []. rewrite app_nil_r. repeat split; constructor.
  - destruct (isDuplicate p existingOverlays rect).
    + destruct (IH p (S rectIndex) existingOverlays d)
        as [new [Ho [Hx [Hy [Hbox [Hnotes [Hrest Htl]]]]]]].
      exists new. repeat split; try assumption.
      * eapply Forall_impl; [|exact Hbox]. intros o [r [Hin Hp]]. exists r. split; [right|]; assumption.
      * intros _. apply Hrest. discriminate.
    + destruct (IH (createHighlightOverlayElement p rect d
                      (hasNotes (odNotes d) && Nat.eqb rectIndex 0))
                   (S rectIndex) existingOverlays d)
        as [new [Ho [Hx [Hy [Hbox [Hnotes [Hrest Htl]]]]]]].
      eexists (_ :: new). simpl in Ho, Hx, Hy.
      split; [rewrite Ho, <- app_assoc; reflexivity|].
      split; [exact Hx|]. split; [exact Hy|].
      assert (Hunflagged : Forall (fun o => showCommentBadge o = false) new)
        by (apply Hrest; discriminate).
      repeat split.
      * constructor.
        -- exists rect. split; [left; reflexivity|]. repeat split.
        -- eapply Forall_impl; [|exact Hbox]. intros o [r [Hin Hp]].
           exists r. split; [right; exact Hin|exact Hp].
      * constructor; [|exact Hnotes]. simpl. intros H.
        apply andb_true_iff in H. tauto.
      * intros Hne. constructor; [|exact Hunflagged]. simpl.
        apply Nat.eqb_neq in Hne. rewrite Hne. apply andb_false_r.
      * exact Hunflagged.
Qed.

(** C8 at the failing input.  A paragraph with three text lines and an
    inline image, annotated with one note, is planned: the text lines and
    the image are merged as two groups, and the first rectangle of each
    group is handed the comment badge. *)
Theorem C8_badge_on_two_rectangles :
  let p := planHighlightOverlayRects unrenderedPage paragraphWithImageLayout
             maxwellParagraph notedParagraph 0 in
  map highlightIndex (overlays p) = [0; 0; 0; 0]%nat
  /\ map showCommentBadge (overlays p) = [true; false; false; true].
Proof. vm_compute. split; reflexivity. Qed.

End OverlayRectangles.

(** ** Offsets: bounds and round trip *)

Section OffsetRoundTrip.
Import Dom Examples.

Lemma findTextNodeLoop_valid (lengths : list Z) :
  Forall (fun len => 0 <= len) lengths ->
  forall (suffix : list Z) (i : nat) (stored c : Z) (first : option NodeRef),
    (exists pre, lengths = pre ++ suffix /\ List.length pre = i) ->
    (forall f, first = Some f ->
       exists k len, f = TextRef k /\ nth_error lengths k = Some len) ->
    match findTextNodeLoop (textVisits i suffix) stored c first with
    | Some p => exists k len, node p = TextRef k /\ nth_error lengths k = Some len
                              /\ 0 <= offset p <= len
    | None => first = None /\ suffix = []
    end.
Proof.
  intros Hnn suffix. induction suffix as [|len rest IH]; intros i stored c first Hpre Hfirst.
  - simpl. destruct first as [f|]; [|auto].
    destruct (Hfirst f eq_refl) as [k [len [-> Hk]]]. exists k, len. simpl.
    repeat split; try assumption; try lia.
    apply nth_error_In in Hk. rewrite Forall_forall in Hnn. apply Hnn, Hk.
  - destruct Hpre as [pre [Hl Hlen]].
    assert (Hnth : nth_error lengths i = Some len).
    { rewrite Hl, nth_error_app2 by lia. rewrite Hlen, Nat.sub_diag. reflexivity. }
    assert (Hpos : 0 <= len).
    { apply nth_error_In in Hnth. rewrite Forall_forall in Hnn. apply Hnn, Hnth. }
    simpl. destruct (c + len >=? stored).
    + exists i, len. simpl. repeat split; try assumption; lia.
    + assert (Hpre' : exists pre', lengths = pre' ++ rest /\ List.length pre' = S i).
      { exists (pre ++ [len]). rewrite <- app_assoc. split; [exact Hl|].
        rewrite length_app. simpl. lia. }
      assert (Hfirst' : forall f,
                 match first with None => Some (TextRef i) | Some _ => first end = Some f ->
                 exists k len', f = TextRef k /\ nth_error lengths k = Some len').
      { intros f Hf. destruct first as [f0|]; [apply Hfirst; exact Hf|].
        injection Hf as <-. exists i, len. split; [reflexivity|exact Hnth]. }
      specialize (IH (S i) stored (c + len) _ Hpre' Hfirst').
      destruct (findTextNodeLoop (textVisits (S i) rest) stored (c + len) _); [exact IH|].
      destruct IH as [Hnone _]. destruct first; discriminate.
Qed.

Lemma findTextNodeAtOffset_valid (element : Element) (stored : Z)
      (useCanonicalOffsets : bool) :
  match findTextNodeAtOffset element stored useCanonicalOffsets with
  | Some p => exists k len, node p = TextRef k
                            /\ nth_error (textLengths element) k = Some len
                            /\ 0 <= offset p <= len
  | None => textLengths element = []
  end.
Proof.
  assert (H : forall c,
             match findTextNodeLoop (textVisits 0 (textLengths element)) stored c None with
             | Some p => exists k len, node p = TextRef k
                                       /\ nth_error (textLengths element) k = Some len
                                       /\ 0 <= offset p <= len
             | None => textLengths element = []
             end).
  { intros c.
    pose proof (findTextNodeLoop_valid (textLengths element) (textLengths_nonneg element)
                  (textLengths element) 0 stored c None) as Hv.
    destruct (findTextNodeLoop _ stored c None).
    - apply Hv; [exists []; split; reflexivity|discriminate].
    - apply Hv; [exists []; split; reflexivity|discriminate]. }
  unfold findTextNodeAtOffset, walkFrom. destruct useCanonicalOffsets; [apply H|].
  cbn [findTextNodeLoop vIsText vLength]. apply H.
Qed.

(** X1.  Whatever the offset and the encoding, [findTextNodeAtOffset]
    answers a text descendant of the element together with an offset inside
    that node; it answers nothing exactly when the element has no text
    descendant. *)
Theorem findTextNodeAtOffset_in_bounds (element : Element) (stored : Z)
        (useCanonicalOffsets : bool) :
  (findTextNodeAtOffset element stored useCanonicalOffsets = None
   <-> textLengths element = [])
  /\ forall p, findTextNodeAtOffset element stored useCanonicalOffsets = Some p ->
               exists i len, node p = TextRef i
                             /\ nth_error (textLengths element) i = Some len
                             /\ 0 <= offset p <= len.
Proof.
  pose proof (findTextNodeAtOffset_valid element stored useCanonicalOffsets) as Hfind.
  destruct (findTextNodeAtOffset element stored useCanonicalOffsets) as [p|] eqn:E.
  - split.
    + split; [discriminate|]. intros Hnil.
      destruct Hfind as [k [len [_ [Hk _]]]]. rewrite Hnil in Hk.
      destruct k; discriminate.
    + intros p' Hp'. injection Hp' as <-. exact Hfind.
  - split; [tauto|discriminate].
Qed.

Lemma legacyOffsetLoop_text (lengths : list Z) :
  forall (k i : nat) (len off c : Z),
    nth_error lengths i = Some len ->
    legacyOffsetLoop (textVisits k lengths) (TextRef (k + i)) off c
    = c + fold_right Z.add 0 (firstn i lengths) + off.
Proof.
  induction lengths as [|l rest IH]; intros k i len off c Hnth.
  - destruct i; discriminate.
  - destruct i as [|i]; simpl.
    + rewrite Nat.add_0_r, Nat.eqb_refl. lia.
    + replace (Nat.eqb k (k + S i)) with false by (symmetry; apply Nat.eqb_neq; lia).
      replace (k + S i)%nat with (S k + i)%nat by lia.
      rewrite (IH (S k) i len off (c + l) Hnth). lia.
Qed.

Lemma getLegacyTextOffset_text (e : Element) (i : nat) (len off : Z) :
  nth_error (textLengths e) i = Some len ->
  getLegacyTextOffset e (TextRef i) off = textContentLength e + consumedBefore e i + off.
Proof.
  intros Hnth. unfold getLegacyTextOffset, walkFrom. cbn [legacyOffsetLoop vRef NodeRef_eqb vLength].
  rewrite (legacyOffsetLoop_text (textLengths e) 0 i len off _ Hnth). unfold consumedBefore. lia.
Qed.

Lemma firstn_sum_le (lengths : list Z) :
  Forall (fun len => 0 <= len) lengths ->
  forall i, 0 <= fold_right Z.add 0 (firstn i lengths) <= fold_right Z.add 0 lengths.
Proof.
  induction 1 as [|l rest Hl Hrest IH]; intros i; destruct i; simpl; try lia.
  - pose proof (sum_nonneg rest Hrest). lia.
  - specialize (IH i). lia.
Qed.

Lemma firstn_sum_succ (lengths : list Z) :
  forall i len, nth_error lengths i = Some len ->
    fold_right Z.add 0 (firstn (S i) lengths) = fold_right Z.add 0 (firstn i lengths) + len.
Proof.
  induction lengths as [|l rest IH]; intros i len Hnth; destruct i; try discriminate.
  - simpl in *. injection Hnth as ->. lia.
  - simpl in Hnth. specialize (IH i len Hnth).
    change (firstn (S (S i)) (l :: rest)) with (l :: firstn (S i) rest).
    change (firstn (S i) (l :: rest)) with (l :: firstn i rest).
    cbn [fold_right]. lia.
Qed.

(** The walk stops in node [i] itself when the position is past the start
    of that node, or the node is the first one. *)
Lemma walkUntilReached_exact (lengths : list Z) :
  Forall (fun len => 0 <= len) lengths ->
  forall (k i : nat) (len off c : Z),
    nth_error lengths i = Some len -> 0 <= off <= len -> (0 < off \/ i = 0%nat) ->
    walkUntilReached lengths k c (c + fold_right Z.add 0 (firstn i lengths) + off)
    = Some (mkCaretPoint (TextRef (k + i)) off).
Proof.
  induction 1 as [|l rest Hl Hrest IH]; intros k i len off c Hnth Hoff Hpast.
  - destruct i; discriminate.
  - destruct i as [|i].
    + simpl in Hnth. injection Hnth as ->. simpl.
      replace (c + len >=? c + 0 + off) with true by (symmetry; apply Z.geb_le; lia).
      rewrite Nat.add_0_r. f_equal. f_equal. lia.
    + destruct Hpast as [Hpos|Hzero]; [|discriminate].
      simpl in Hnth. change (firstn (S i) (l :: rest)) with (l :: firstn i rest).
      simpl fold_right. cbn [walkUntilReached].
      pose proof (firstn_sum_le rest Hrest i) as Hsum.
      replace (c + l >=? c + (l + fold_right Z.add 0 (firstn i rest)) + off) with false
        by (symmetry; rewrite Z.geb_leb; apply Z.leb_gt; lia).
      replace (c + (l + fold_right Z.add 0 (firstn i rest)) + off)
        with (c + l + fold_right Z.add 0 (firstn i rest) + off) by lia.
      replace (k + S i)%nat with (S k + i)%nat by lia.
      destruct i as [|i'].
      * apply (IH (S k) 0%nat len off (c + l) Hnth Hoff). right. reflexivity.
      * apply (IH (S k) (S i') len off (c + l) Hnth Hoff). left. exact Hpos.
Qed.

(** X2.  Round trip of the legacy encoding.  The offset that
    [getLegacyTextOffset] computes for a point of a text descendant is the
    total text length plus the character position of the point; read back
    by the legacy walk it resolves to the same character of the anchor, and
    to the very same node and local offset unless the point is the start of
    a later text node, which is read back as the end of an earlier node.
    Two such offsets are never taken for canonical ones. *)
Theorem legacy_offset_round_trip (target : Element) (i : nat) (len off : Z) :
  nth_error (textLengths target) i = Some len ->
  0 <= off <= len ->
  let stored := getLegacyTextOffset target (TextRef i) off in
  stored = textContentLength target + consumedBefore target i + off
  /\ (forall other, textContentLength target <= other ->
        shouldUseCanonicalOffsetDecoding target stored other = false
        /\ shouldUseCanonicalOffsetDecoding target other stored = false)
  /\ (exists p, findTextNodeAtOffset target stored false = Some p
                /\ characterPosition target p = Some (consumedBefore target i + off))
  /\ (0 < off \/ i = 0%nat ->
      findTextNodeAtOffset target stored false = Some (mkCaretPoint (TextRef i) off)).
Proof.
  intros Hnth Hoff stored.
  assert (Hstored : stored = textContentLength target + consumedBefore target i + off)
    by (apply (getLegacyTextOffset_text target i len off Hnth)).
  pose proof (textLengths_nonneg target) as Hnn.
  pose proof (firstn_sum_le (textLengths target) Hnn i) as Hi.
  pose proof (firstn_sum_le (textLengths target) Hnn (S i)) as HSi.
  rewrite (firstn_sum_succ _ i len Hnth) in HSi.
  fold (consumedBefore target i) in Hi, HSi. fold (textContentLength target) in Hi, HSi.
  assert (Hge : textContentLength target <= stored) by lia.
  split; [exact Hstored|]. split; [|split].
  - intros other Hother. unfold shouldUseCanonicalOffsetDecoding.
    destruct (textContentLength target <=? 0); [split; reflexivity|].
    replace (stored <? textContentLength target) with false
      by (symmetry; apply Z.ltb_ge; exact Hge).
    replace (other <? textContentLength target) with false
      by (symmetry; apply Z.ltb_ge; exact Hother).
    split; reflexivity.
  - rewrite findTextNodeAtOffset_legacy by exact Hge. unfold decodeLegacy.
    assert (Hne : textLengths target <> []).
    { intros Hnil. rewrite Hnil in Hnth. destruct i; discriminate. }
    destruct (walkUntilReached_reaches (textLengths target) 0 (textContentLength target)
                stored Hne) as [p Hp].
    { fold (textContentLength target). lia. }
    rewrite Hp. exists p. split; [reflexivity|].
    destruct (walkUntilReached_position _ _ _ _ _ Hge Hp) as [j [lj [Hn [Hj [Hoj Hsum]]]]].
    unfold characterPosition. rewrite Hn. simpl. rewrite Hj.
    replace (0 <=? offset p) with true by (symmetry; apply Z.leb_le; lia).
    replace (offset p <=? lj) with true by (symmetry; apply Z.leb_le; lia).
    simpl. f_equal. unfold consumedBefore in *. lia.
  - intros Hpast. rewrite findTextNodeAtOffset_legacy by exact Hge. unfold decodeLegacy.
    rewrite Hstored. unfold consumedBefore.
    rewrite (walkUntilReached_exact (textLengths target) Hnn 0 i len off
               (textContentLength target) Hnth Hoff Hpast).
    reflexivity.
Qed.

(** Offset 1 of "Clerk" round-trips exactly; the start of "Clerk" is read
    back as the end of "James ". *)
Lemma legacy_offset_round_trip_witness :
  findTextNodeAtOffset maxwellParagraph (getLegacyTextOffset maxwellParagraph (TextRef 1) 1)
                       false = Some (mkCaretPoint (TextRef 1) 1)
  /\ findTextNodeAtOffset maxwellParagraph (getLegacyTextOffset maxwellParagraph (TextRef 1) 0)
                          false = Some (mkCaretPoint (TextRef 0) 6).
Proof.
  split; [|reflexivity].
  assert (Hnth : nth_error (textLengths maxwellParagraph) 1 = Some 5) by reflexivity.
  assert (Hoff : 0 <= 1 <= 5) by lia.
  destruct (legacy_offset_round_trip maxwellParagraph 1 5 1 Hnth Hoff) as [_ [_ [_ Hexact]]].
  apply Hexact. left. lia.
Defined.

End OffsetRoundTrip.

(** ** Decimal strings and the selected highlight *)

Section DecimalIndex.
Import Js Dom Timestamps Highlighter Overlays Examples.

Lemma leadingDigits_of_uint (d : Decimal.uint) :
  forall a : nat,
    leadingDigits (NilEmpty.string_of_uint d) (Some (Z.of_nat a))
    = Some (Z.of_nat (Nat.of_uint_acc d a)).
Proof.
  induction d; intros a; cbn [NilEmpty.string_of_uint Nat.of_uint_acc leadingDigits];
    [reflexivity|..];
    (match goal with
     | |- context [isDigit ?c] => change (isDigit c) with true; cbv iota
     end;
     match goal with
     | |- context [digitValue ?c] =>
         let v := eval vm_compute in (digitValue c) in change (digitValue c) with v
     end;
     rewrite <- IHd; f_equal; f_equal; rewrite Nat.tail_mul_spec; lia).
Qed.

Lemma to_uint_nonempty (n : nat) : Nat.to_uint n <> Decimal.Nil.
Proof.
  intros H. pose proof (DecimalNat.Unsigned.of_to n) as Hn. rewrite H in Hn.
  simpl in Hn. subst n. discriminate H.
Qed.

Lemma stringOfIndex_truthy (n : nat) : truthy (Some (stringOfIndex n)) = true.
Proof.
  unfold stringOfIndex. pose proof (to_uint_nonempty n) as H.
  destruct (Nat.to_uint n); [contradiction|..]; reflexivity.
Qed.

(** [parseInt(String(n), 10)] is [n]. *)
Lemma parseIntDigits_stringOfIndex (n : nat) :
  parseIntDigits (stringOfIndex n) = Some (Z.of_nat n).
Proof.
  unfold stringOfIndex.
  rewrite <- (DecimalNat.Unsigned.of_to n) at 2. unfold Nat.of_uint.
  rewrite <- (leadingDigits_of_uint (Nat.to_uint n) 0).
  pose proof (to_uint_nonempty n) as H.
  destruct (Nat.to_uint n); [contradiction|..]; reflexivity.
Qed.

Lemma parseIndexBelow_stringOfIndex (k length : nat) :
  (k < length)%nat -> parseIndexBelow (stringOfIndex k) length = Some k.
Proof.
  intros Hk. unfold parseIndexBelow. rewrite parseIntDigits_stringOfIndex.
  replace (0 <=? Z.of_nat k) with true by (symmetry; apply Z.leb_le; lia).
  replace (Z.of_nat k <? Z.of_nat length) with true by (symmetry; apply Z.ltb_lt; lia).
  simpl. rewrite Nat2Z.id. reflexivity.
Qed.

Lemma parseIndexBelow_bound (s : string) (length k : nat) :
  parseIndexBelow s length = Some k -> (k < length)%nat.
Proof.
  unfold parseIndexBelow. destruct (parseIntDigits s) as [z|]; [|discriminate].
  destruct (0 <=? z) eqn:E0; [|discriminate]. destruct (z <? Z.of_nat length) eqn:E1;
    [|discriminate].
  simpl. intros H. injection H as <-. apply Z.leb_le in E0. apply Z.ltb_lt in E1. lia.
Qed.

Lemma mapWithIndex_nth {A B : Type} (f : A -> nat -> B) (l : list A) :
  forall index k,
    nth_error (mapWithIndex f index l) k
    = option_map (fun item => f item (index + k)%nat) (nth_error l k).
Proof.
  induction l as [|item rest IH]; intros index k; destruct k; simpl; try reflexivity.
  - rewrite Nat.add_0_r. reflexivity.
  - rewrite IH. replace (S index + k)%nat with (index + S k)%nat by lia. reflexivity.
Qed.

Lemma find_position {A : Type} (f : A -> bool) (l : list A) (x : A) :
  find f l = Some x -> exists k, nth_error l k = Some x /\ f x = true.
Proof.
  induction l as [|y rest IH]; simpl; [discriminate|].
  destruct (f y) eqn:E.
  - intros H. injection H as <-. exists 0%nat. split; [reflexivity|exact E].
  - intros H. destruct (IH H) as [k [Hk Hf]]. exists (S k). split; assumption.
Qed.

Lemma optionStringEqb_refl (s : string) : optionStringEqb (Some s) (Some s) = true.
Proof. simpl. apply String.eqb_refl. Qed.

(** Where the resolved highlight sits, and that the callback of the commit
    takes that position for its target. *)
Lemma resolveSelectedTextHighlight_position (p : Page) (h : AnyHighlightData)
      (target : Element) :
  (forall idx, selectedHighlightIndex p = Some idx -> exists k, idx = stringOfIndex k) ->
  resolveSelectedTextHighlight p = Some (h, target) ->
  type h = TypeText
  /\ getElementByXPath (elements p) (xpath h) = Some target
  /\ exists k, nth_error (highlights p) k = Some h
               /\ (truthy (selectedHighlightId p)
                   && optionStringEqb (id h) (selectedHighlightId p)
                   || optionStringEqb (selectedHighlightIndex p) (Some (stringOfIndex k)))
                  = true.
Proof.
  intros Hcanon. unfold resolveSelectedTextHighlight.
  set (byId := match selectedHighlightId p with
               | Some sel => if truthy (Some sel)
                             then find (fun item => optionStringEqb (id item) (Some sel))
                                       (highlights p)
                             else None
               | None => None
               end).
  assert (HbyId : forall x, byId = Some x ->
            exists k, nth_error (highlights p) k = Some x
                      /\ truthy (selectedHighlightId p)
                         && optionStringEqb (id x) (selectedHighlightId p) = true).
  { intros x. unfold byId. destruct (selectedHighlightId p) as [sel|]; [|discriminate].
    destruct (truthy (Some sel)) eqn:Et; [|discriminate].
    intros Hf. apply find_position in Hf. destruct Hf as [k [Hk Hid]].
    exists k. split; [exact Hk|]. rewrite Hid. reflexivity. }
  set (chosen := match byId with
                 | Some h0 => Some h0
                 | None =>
                     match selectedHighlightIndex p with
                     | Some idx =>
                         if truthy (Some idx) then
                           match parseIndexBelow idx (List.length (highlights p)) with
                           | Some parsedIndex => nth_error (highlights p) parsedIndex
                           | None => None
                           end
                         else None
                     | None => None
                     end
                 end).
  assert (Hchosen : forall x, chosen = Some x ->
            exists k, nth_error (highlights p) k = Some x
                      /\ (truthy (selectedHighlightId p)
                          && optionStringEqb (id x) (selectedHighlightId p)
                          || optionStringEqb (selectedHighlightIndex p)
                                             (Some (stringOfIndex k))) = true).
  { intros x. unfold chosen. destruct byId as [h0|].
    - intros Hx. injection Hx as <-. destruct (HbyId h0 eq_refl) as [k [Hk Hid]].
      exists k. split; [exact Hk|]. rewrite Hid. reflexivity.
    - destruct (selectedHighlightIndex p) as [idx|] eqn:Eidx; [|discriminate].
      destruct (Hcanon idx eq_refl) as [k0 ->].
      destruct (truthy (Some (stringOfIndex k0))); [|discriminate].
      destruct (parseIndexBelow (stringOfIndex k0) (List.length (highlights p)))
        as [parsed|] eqn:Ep; [|discriminate].
      assert (parsed = k0).
      { pose proof (parseIndexBelow_bound _ _ _ Ep) as Hb. unfold parseIndexBelow in Ep.
        rewrite parseIntDigits_stringOfIndex in Ep.
        destruct ((0 <=? Z.of_nat k0) && (Z.of_nat k0 <? Z.of_nat (List.length (highlights p))));
          [|discriminate].
        injection Ep as <-. apply Nat2Z.id. }
      subst parsed. intros Hx. exists k0. split; [exact Hx|].
      rewrite optionStringEqb_refl. apply orb_true_r. }
  destruct chosen as [x|]; [|discriminate].
  destruct (HighlightType_eqb (type x) TypeText) eqn:Et; [|discriminate].
  destruct (getElementByXPath (elements p) (xpath x)) as [t|] eqn:Ex; [|discriminate].
  intros H. injection H as <- <-.
  split; [destruct (type x); try discriminate; reflexivity|].
  split; [exact Ex|]. apply Hchosen. reflexivity.
Qed.

(** X3.  A successful resize commit does rewrite the selected highlight:
    with the selected index being the decimal string that
    [rememberSelectedOverlayReference] stores, the record that
    [resolveSelectedTextHighlight] resolved sits at some position of the
    highlights, and after the commit that position holds the same record
    with the new content and the ordered offsets. *)
Theorem commit_rewrites_selected_highlight (p p' : Page) (selection : Selection) :
  (forall idx, selectedHighlightIndex p = Some idx -> exists k, idx = stringOfIndex k) ->
  updateSelectedTextHighlightFromSelection p selection = (true, p') ->
  exists (k : nat) (selected : AnyHighlightData) (target : Element),
    resolveSelectedTextHighlight p = Some (selected, target)
    /\ nth_error (highlights p) k = Some selected
    /\ let rawStart := getLegacyTextOffset target (startContainer selection)
                                           (rangeStartOffset selection) in
       let rawEnd := getLegacyTextOffset target (endContainer selection)
                                         (rangeEndOffset selection) in
       nth_error (highlights p') k
       = Some (mkHighlight (id selected) TypeText (xpath selected)
                           (selectionText selection)
                           (Z.min rawStart rawEnd) (Z.max rawStart rawEnd)
                           (color selected) (notes selected) (createdAt selected)).
Proof.
  intros Hcanon. unfold updateSelectedTextHighlightFromSelection.
  destruct (Nat.eqb (rangeCount selection) 0 || isCollapsed selection); [discriminate|].
  destruct (resolveSelectedTextHighlight p) as [[selected target]|] eqn:Er; [|discriminate].
  destruct (resolveSelectedTextHighlight_position p selected target Hcanon Er)
    as [Htype [_ [k [Hk Hmatch]]]].
  set (rawStart := getLegacyTextOffset target (startContainer selection)
                                       (rangeStartOffset selection)).
  set (rawEnd := getLegacyTextOffset target (endContainer selection)
                                     (rangeEndOffset selection)).
  destruct (Z.eqb (Z.min rawStart rawEnd) (Z.max rawStart rawEnd)); [discriminate|].
  intros H. injection H as <-.
  exists k, selected, target. split; [reflexivity|]. split; [exact Hk|].
  cbn zeta. cbn [highlights call setHighlights updateHighlights].
  rewrite mapWithIndex_nth, Hk. cbn [option_map Nat.add]. f_equal.
  unfold rewriteSelected. rewrite Hmatch, Htype. reflexivity.
Qed.

(** The clerk highlight, selected by identifier, is resized from a selection
    of characters 3 to 34. *)
Lemma commit_rewrites_selected_highlight_witness :
  exists k selected target,
    resolveSelectedTextHighlight examplePage = Some (selected, target)
    /\ nth_error (highlights examplePage) k = Some selected
    /\ option_map (fun h => (startOffset h, endOffset h))
         (nth_error (highlights (snd (updateSelectedTextHighlightFromSelection
                                        examplePage reversedSelection))) k)
       = Some (3, 34).
Proof.
  assert (Hcanon : forall idx, selectedHighlightIndex examplePage = Some idx ->
                               exists k, idx = stringOfIndex k).
  { intros idx H. vm_compute in H. injection H as <-. exists 0%nat. reflexivity. }
  assert (Hcommit : updateSelectedTextHighlightFromSelection examplePage reversedSelection
                    = (true, snd (updateSelectedTextHighlightFromSelection examplePage
                                    reversedSelection)))
    by (vm_compute; reflexivity).
  destruct (commit_rewrites_selected_highlight examplePage _ reversedSelection Hcanon Hcommit)
    as [k [selected [target [Hr [Hk Hnew]]]]].
  exists k, selected, target. split; [exact Hr|]. split; [exact Hk|].
  cbv zeta in Hnew. rewrite Hnew.
  assert (Ht : resolveSelectedTextHighlight examplePage
               = Some (clerkHighlight, maxwellParagraph)) by reflexivity.
  rewrite Ht in Hr. injection Hr as <- <-. reflexivity.
Defined.

Lemma legacyOffsetLoop_unvisited (nodes : list Visited) (targetNode : NodeRef) :
  Forall (fun v => NodeRef_eqb (vRef v) targetNode = false) nodes ->
  forall targetOffset c,
    legacyOffsetLoop nodes targetNode targetOffset c
    = c + fold_right Z.add 0 (map vLength nodes).
Proof.
  induction 1 as [|v rest Hv _ IH]; intros targetOffset c; simpl; [lia|].
  rewrite Hv, IH. lia.
Qed.

Lemma textVisits_lengths (lengths : list Z) :
  forall i, map vLength (textVisits i lengths) = lengths.
Proof. induction lengths as [|len rest IH]; intros i; simpl; [|rewrite IH]; reflexivity. Qed.

Lemma textVisits_not_other (lengths : list Z) :
  forall i, Forall (fun v => NodeRef_eqb (vRef v) OtherRef = false) (textVisits i lengths).
Proof. induction lengths as [|len rest IH]; intros i; simpl; constructor; auto. Qed.

(** A node that the walk never meets is given twice the text length,
    whatever its local offset. *)
Lemma getLegacyTextOffset_other (target : Element) (targetOffset : Z) :
  getLegacyTextOffset target OtherRef targetOffset = 2 * textContentLength target.
Proof.
  unfold getLegacyTextOffset, walkFrom.
  rewrite legacyOffsetLoop_unvisited.
  - cbn [map fold_right vLength]. rewrite textVisits_lengths.
    fold (textContentLength target). lia.
  - constructor; [reflexivity|apply textVisits_not_other].
Qed.

(** X4.  A commit that is refused changes nothing and calls no
    collaborator; and a selection both of whose boundaries lie in nodes that
    are neither the target nor one of its text descendants is always
    refused, whatever the selected highlight and the boundary offsets. *)
Theorem commit_refuses_selection_outside_text (p : Page) (selection : Selection) :
  (fst (updateSelectedTextHighlightFromSelection p selection) = false ->
   snd (updateSelectedTextHighlightFromSelection p selection) = p)
  /\ (startContainer selection = OtherRef -> endContainer selection = OtherRef ->
      updateSelectedTextHighlightFromSelection p selection = (false, p)).
Proof.
  unfold updateSelectedTextHighlightFromSelection.
  destruct (Nat.eqb (rangeCount selection) 0 || isCollapsed selection);
    [split; reflexivity|].
  destruct (resolveSelectedTextHighlight p) as [[selected target]|]; [|split; reflexivity].
  split.
  - destruct (Z.eqb _ _); [reflexivity|discriminate].
  - intros -> ->. rewrite !getLegacyTextOffset_other.
    rewrite Z.min_id, Z.max_id, Z.eqb_refl. reflexivity.
Qed.

(** A selection from inside an inner element to inside another one. *)
Lemma commit_refuses_selection_outside_text_witness :
  updateSelectedTextHighlightFromSelection examplePage
    (mkSelection 1 false "es Cl" OtherRef 0 OtherRef 1) = (false, examplePage).
Proof.
  apply (commit_refuses_selection_outside_text examplePage
           (mkSelection 1 false "es Cl" OtherRef 0 OtherRef 1)); reflexivity.
Defined.

(** X5.  The identifier that is the decimal string of a positive integer
    below the overflow of a double yields the double nearest to that integer
    as its timestamp: the integer itself up to [2^53], a finite positive
    number in any case.  A record whose [createdAt] is not valid is then
    dated by its identifier and the clock is not read. *)
Theorem decimal_identifier_dates_highlight (n : nat) (createdAt : JsValue) (now : JsNumber) :
  0 < Z.of_nat n < doubleOverflow ->
  parseHighlightIdTimestamp (VString (stringOfIndex n)) = Some (numberOfInteger (Z.of_nat n))
  /\ (Z.of_nat n <= 2 ^ 53 -> numberOfInteger (Z.of_nat n) = Finite (inject_Z (Z.of_nat n)))
  /\ isFinitePositive (numberOfInteger (Z.of_nat n)) = true
  /\ (isValidHighlightTimestamp createdAt = false ->
      normalizeHighlightCreatedAt createdAt (VString (stringOfIndex n)) now
      = numberOfInteger (Z.of_nat n)
      /\ readsClock createdAt (VString (stringOfIndex n)) = false).
Proof.
  intros Hn.
  assert (Hid : parseHighlightIdTimestamp (VString (stringOfIndex n))
                = Some (numberOfInteger (Z.of_nat n))).
  { apply parseHighlightIdTimestamp_Some. exists (stringOfIndex n), (Z.of_nat n).
    split; [reflexivity|]. split; [apply parseIntDigits_stringOfIndex|].
    split; [exact Hn|reflexivity]. }
  assert (Hpos : isFinitePositive (numberOfInteger (Z.of_nat n)) = true)
    by (apply isFinitePositive_numberOfInteger; exact Hn).
  split; [exact Hid|]. split; [intros Hsmall; apply numberOfInteger_exact; lia|].
  split; [exact Hpos|]. intros Hinvalid.
  unfold normalizeHighlightCreatedAt, readsClock, resolveHighlightCreatedAt, createdAtCandidates.
  rewrite Hid.
  destruct createdAt as [| |b|m|s0|items|props]; cbn [firstValidCandidate];
    try (rewrite Hpos; split; reflexivity).
  rewrite Hinvalid. cbn [firstValidCandidate]. rewrite Hpos. split; reflexivity.
Qed.

(** The identifier "1700" dates its record 1700. *)
Lemma decimal_identifier_dates_highlight_witness :
  normalizeHighlightCreatedAt VUndefined (VString "1700") NaN = Finite (inject_Z 1700).
Proof.
  assert (Hn : 0 < Z.of_nat 1700 < doubleOverflow) by (vm_compute; split; reflexivity).
  destruct (decimal_identifier_dates_highlight 1700 VUndefined NaN Hn)
    as [_ [Hexact [_ H]]].
  destruct (H eq_refl) as [Hnorm _].
  assert (Hsmall : Z.of_nat 1700 <= 2 ^ 53) by (vm_compute; discriminate).
  rewrite (Hexact Hsmall) in Hnorm. exact Hnorm.
Defined.

(** X6.  With a clock that answers a finite positive time, the normalised
    [createdAt] is always a valid timestamp, and normalising a record that
    carries it again gives it back without reading the clock, whatever the
    identifier and the time of the second call. *)
Theorem normalized_timestamp_is_stable (createdAt id : JsValue) (now : JsNumber) :
  isFinitePositive now = true ->
  let t := normalizeHighlightCreatedAt createdAt id now in
  isValidHighlightTimestamp (VNumber t) = true
  /\ forall id' now', normalizeHighlightCreatedAt (VNumber t) id' now' = t
                      /\ readsClock (VNumber t) id' = false.
Proof.
  intros Hnow t.
  assert (Hvalid : isFinitePositive t = true).
  { unfold t, normalizeHighlightCreatedAt, resolveHighlightCreatedAt, createdAtCandidates.
    destruct (parseHighlightIdTimestamp id) as [ti|] eqn:Ei.
    - assert (Hti : isFinitePositive ti = true).
      { apply parseHighlightIdTimestamp_Some in Ei.
        destruct Ei as [s [z [_ [_ [Hz ->]]]]].
        apply isFinitePositive_numberOfInteger. exact Hz. }
      destruct createdAt as [| |b|m|s0|items|props]; cbn [firstValidCandidate];
        try (rewrite Hti; exact Hti).
      cbn [isValidHighlightTimestamp]. destruct (isFinitePositive m) eqn:Em;
        cbn [firstValidCandidate]; [rewrite Em; exact Em|rewrite Hti; exact Hti].
    - destruct createdAt as [| |b|m|s0|items|props]; cbn [firstValidCandidate];
        try exact Hnow.
      cbn [isValidHighlightTimestamp]. destruct (isFinitePositive m) eqn:Em;
        cbn [firstValidCandidate]; [rewrite Em; exact Em|exact Hnow]. }
  split; [exact Hvalid|]. intros id' now'.
  unfold normalizeHighlightCreatedAt, readsClock, resolveHighlightCreatedAt, createdAtCandidates.
  cbn [isValidHighlightTimestamp]. rewrite Hvalid. cbn [firstValidCandidate].
  rewrite Hvalid. split; reflexivity.
Qed.

Lemma normalized_timestamp_is_stable_witness :
  normalizeHighlightCreatedAt
    (VNumber (normalizeHighlightCreatedAt VNull (VString "legacy") (Finite 1700)))
    (VString "12") (Finite 1800)
  = normalizeHighlightCreatedAt VNull (VString "legacy") (Finite 1700).
Proof.
  assert (Hnow : isFinitePositive (Finite 1700) = true) by reflexivity.
  destruct (normalized_timestamp_is_stable VNull (VString "legacy") (Finite 1700) Hnow)
    as [_ H].
  apply (H (VString "12") (Finite 1800)).
Defined.

End DecimalIndex.

(** ** The order of the sorted page lists *)

Section SnapshotOrder.
Import Js Timestamps AnnotationBrowser PageOrder.

Variable parseUrl : string -> option URL.
Variable decodeURIComponent : string -> option string.
Variable localeCompare : string -> string -> Z.
Variable clock : nat -> Z.

Section InsertionOrder.
Context {A : Type}.
Variable cmp : A -> A -> JsNumber.
Variable P : A -> Prop.
Variable R : A -> A -> Prop.
Hypothesis cmp_negative : forall x y, P x -> P y -> isNegative (cmp x y) = true -> R x y.
Hypothesis cmp_other : forall x y, P x -> P y -> isNegative (cmp x y) = false -> R y x.
Hypothesis R_trans : forall x y z, P x -> P y -> P z -> R x y -> R y z -> R x z.

Lemma insertSorted_sorted (x : A) (l : list A) :
  P x -> Forall P l -> StronglySorted R l -> StronglySorted R (insertSorted cmp x l).
Proof.
  intros Hx Hl Hs. induction Hs as [|y rest Hrest IH Hy]; simpl.
  - constructor; constructor.
  - inversion Hl as [|? ? Py Prest]; subst.
    destruct (isNegative (cmp x y)) eqn:E.
    + pose proof (cmp_negative x y Hx Py E) as Hxy.
      constructor; [constructor; assumption|].
      constructor; [exact Hxy|].
      rewrite Forall_forall in *. intros z Hz.
      apply (R_trans x y z); auto.
    + constructor; [apply IH; exact Prest|].
      apply (Permutation_Forall (Permutation_sym (insertSorted_perm cmp x rest))).
      constructor; [apply cmp_other; assumption|exact Hy].
Qed.

Lemma arraySort_sorted (l : list A) : Forall P l -> StronglySorted R (arraySort cmp l).
Proof.
  unfold arraySort.
  assert (H : forall acc, Forall P acc -> StronglySorted R acc -> Forall P l ->
                          StronglySorted R (fold_left (fun sorted x => insertSorted cmp x sorted)
                                                      l acc)).
  { induction l as [|x rest IH]; intros acc Pacc Hs Pl; simpl; [exact Hs|].
    inversion Pl as [|? ? Px Prest]; subst.
    apply IH; [|apply insertSorted_sorted; assumption|exact Prest].
    apply (Permutation_Forall (Permutation_sym (insertSorted_perm cmp x acc))).
    constructor; assumption. }
  intros Pl. apply H; [constructor|constructor|exact Pl].
Qed.

End InsertionOrder.

Lemma isNegative_sub (x y : Q) :
  isNegative (jsSub (Finite x) (Finite y)) = true <-> (x < y)%Q.
Proof. simpl. rewrite Qlt_bool_iff. split; intros H; lra. Qed.

Lemma isNegative_count (a b : nat) :
  isNegative (jsSub (numberOfNat a) (numberOfNat b)) = true <-> (a < b)%nat.
Proof.
  unfold numberOfNat. rewrite isNegative_sub. rewrite <- Zlt_Qlt. lia.
Qed.

Lemma jsNumberNeq_finite (x y : Q) :
  jsNumberNeq (Finite x) (Finite y) = false <-> (x == y)%Q.
Proof. simpl. rewrite negb_false_iff. apply Qeq_bool_iff. Qed.

Lemma not_true_false (b : bool) (Q0 : Prop) : (b = true <-> Q0) -> b = false -> ~ Q0.
Proof. intros H Hb HQ. apply H in HQ. congruence. Qed.

Lemma sortByMostRecentLast_negative (x y : AnnotationBrowserPage) :
  finiteTimes x -> finiteTimes y ->
  isNegative (sortByMostRecentLast localeCompare x y) = true -> recentFirst x y.
Proof.
  unfold finiteTimes, recentFirst, sortByMostRecentLast.
  destruct (lastCreatedAt x) as [|nx|lx]; cbn [isFiniteNumber]; try tauto.
  destruct (lastCreatedAt y) as [|ny|ly]; cbn [isFiniteNumber]; try tauto.
  intros _ _. cbn [timeOf].
  destruct (jsNumberNeq (Finite ly) (Finite lx)) eqn:En.
  - rewrite isNegative_sub. intros H. left. exact H.
  - apply jsNumberNeq_finite in En.
    destruct (Nat.eqb (annotationsCount y) (annotationsCount x)) eqn:Ec; cbn [negb].
    + apply Nat.eqb_eq in Ec. intros _. right. split; [lra|lia].
    + rewrite isNegative_count. intros H. right. split; [lra|lia].
Qed.

Lemma sortByMostRecentLast_other (x y : AnnotationBrowserPage) :
  finiteTimes x -> finiteTimes y ->
  isNegative (sortByMostRecentLast localeCompare x y) = false -> recentFirst y x.
Proof.
  unfold finiteTimes, recentFirst, sortByMostRecentLast.
  destruct (lastCreatedAt x) as [|nx|lx]; cbn [isFiniteNumber]; try tauto.
  destruct (lastCreatedAt y) as [|ny|ly]; cbn [isFiniteNumber]; try tauto.
  intros _ _. cbn [timeOf].
  destruct (jsNumberNeq (Finite ly) (Finite lx)) eqn:En.
  - intros H. apply (not_true_false _ _ (isNegative_sub ly lx)) in H.
    assert (Hne : ~ (ly == lx)%Q).
    { intros Heq. apply jsNumberNeq_finite in Heq. congruence. }
    left. destruct (Qlt_le_dec lx ly) as [Hlt|Hle]; [exact Hlt|].
    exfalso. apply Hne. lra.
  - apply jsNumberNeq_finite in En.
    destruct (Nat.eqb (annotationsCount y) (annotationsCount x)) eqn:Ec; cbn [negb].
    + apply Nat.eqb_eq in Ec. intros _. right. split; [lra|lia].
    + intros H. apply (not_true_false _ _ (isNegative_count _ _)) in H.
      right. split; [lra|lia].
Qed.

Lemma recentFirst_trans (x y z : AnnotationBrowserPage) :
  recentFirst x y -> recentFirst y z -> recentFirst x z.
Proof.
  unfold recentFirst. intros [H1|[H1 C1]] [H2|[H2 C2]].
  - left. lra.
  - left. lra.
  - left. lra.
  - right. split; [lra|lia].
Qed.

Lemma sortByMostAnnotations_negative (x y : AnnotationBrowserPage) :
  finiteTimes x -> finiteTimes y ->
  isNegative (sortByMostAnnotations localeCompare x y) = true -> mostAnnotatedFirst x y.
Proof.
  unfold finiteTimes, mostAnnotatedFirst, sortByMostAnnotations.
  destruct (lastCreatedAt x) as [|nx|lx]; cbn [isFiniteNumber]; try tauto.
  destruct (lastCreatedAt y) as [|ny|ly]; cbn [isFiniteNumber]; try tauto.
  intros _ _. cbn [timeOf].
  destruct (Nat.eqb (annotationsCount y) (annotationsCount x)) eqn:Ec; cbn [negb].
  - apply Nat.eqb_eq in Ec.
    destruct (jsNumberNeq (Finite ly) (Finite lx)) eqn:En.
    + rewrite isNegative_sub. intros H. right. split; [lia|lra].
    + apply jsNumberNeq_finite in En. intros _. right. split; [lia|lra].
  - rewrite isNegative_count. intros H. left. exact H.
Qed.

Lemma sortByMostAnnotations_other (x y : AnnotationBrowserPage) :
  finiteTimes x -> finiteTimes y ->
  isNegative (sortByMostAnnotations localeCompare x y) = false -> mostAnnotatedFirst y x.
Proof.
  unfold finiteTimes, mostAnnotatedFirst, sortByMostAnnotations.
  destruct (lastCreatedAt x) as [|nx|lx]; cbn [isFiniteNumber]; try tauto.
  destruct (lastCreatedAt y) as [|ny|ly]; cbn [isFiniteNumber]; try tauto.
  intros _ _. cbn [timeOf].
  destruct (Nat.eqb (annotationsCount y) (annotationsCount x)) eqn:Ec; cbn [negb].
  - apply Nat.eqb_eq in Ec.
    destruct (jsNumberNeq (Finite ly) (Finite lx)) eqn:En.
    + intros H. apply (not_true_false _ _ (isNegative_sub ly lx)) in H.
      right. split; [lia|lra].
    + apply jsNumberNeq_finite in En. intros _. right. split; [lia|lra].
  - apply Nat.eqb_neq in Ec. intros H.
    apply (not_true_false _ _ (isNegative_count _ _)) in H. left. lia.
Qed.

Lemma mostAnnotatedFirst_trans (x y z : AnnotationBrowserPage) :
  mostAnnotatedFirst x y -> mostAnnotatedFirst y z -> mostAnnotatedFirst x z.
Proof.
  unfold mostAnnotatedFirst. intros [H1|[C1 H1]] [H2|[C2 H2]].
  - left. lia.
  - left. lia.
  - left. lia.
  - right. split; [lia|lra].
Qed.

Lemma Math_finite (l : list JsNumber) :
  l <> [] -> Forall isFiniteNumber l ->
  isFiniteNumber (Math_min l) /\ isFiniteNumber (Math_max l).
Proof.
  intros Hne Hfin. destruct (all_finite_map l Hfin) as [qs ->].
  destruct qs as [|q qs]; [exfalso; apply Hne; reflexivity|].
  unfold Math_min, Math_max. simpl.
  rewrite fold_jsMin2_finite, fold_jsMax2_finite. simpl. split; exact I.
Qed.

Lemma pageOfEntry_finite (storageKey : string) (rawEntry : JsValue) (tick : nat)
      (page : AnnotationBrowserPage) :
  fst (pageOfEntry parseUrl decodeURIComponent clock storageKey rawEntry tick) = Some page ->
  finiteTimes page.
Proof.
  unfold pageOfEntry.
  destruct (isRecord rawEntry); cbn [negb fst]; [|discriminate].
  destruct (parseUrl (entryUrl storageKey rawEntry)) as [parsedUrl|]; [|discriminate].
  destruct (entryHighlights rawEntry) as [|h rest]; [discriminate|].
  destruct (collectTimestamps_spec clock (h :: rest) [] tick) as [ts [Heq [_ Hfin]]].
  destruct (collectTimestamps clock (h :: rest) [] tick) as [highlightTimestamps tick'].
  cbn [fst app] in Heq. subst highlightTimestamps.
  destruct ts as [|t ts']; [discriminate|].
  cbn [fst]. intros H. injection H as <-. unfold finiteTimes.
  cbn [firstCreatedAt lastCreatedAt]. apply Math_finite; [discriminate|exact Hfin].
Qed.

Lemma collectPages_finite (entries : list (string * JsValue)) :
  forall pages total tick,
    Forall finiteTimes pages ->
    Forall finiteTimes
           (fst (collectPages parseUrl decodeURIComponent clock entries pages total tick)).
Proof.
  induction entries as [|[storageKey rawEntry] rest IH]; intros pages total tick Hpages.
  - exact Hpages.
  - cbn [collectPages].
    pose proof (pageOfEntry_finite storageKey rawEntry tick) as Hp.
    destruct (pageOfEntry parseUrl decodeURIComponent clock storageKey rawEntry tick)
      as [[page|] tick']; cbn [fst] in Hp.
    + apply IH. apply Forall_app. split; [exact Hpages|].
      constructor; [apply Hp; reflexivity|constructor].
    + apply IH. exact Hpages.
Qed.

(** X7.  The two lists of a snapshot are in order, whatever the stored
    value and whatever [localeCompare] answers: in [recentPages] every page
    stands before the pages annotated earlier and, among those annotated at
    the same time, before the ones with fewer annotations; in
    [mostAnnotatedPages] every page stands before the pages with fewer
    annotations and, among those with as many, before the ones annotated
    earlier.  All timestamps of the pages are finite. *)
Theorem snapshot_lists_are_ordered (rawHighlightsStorage : JsValue) (tick : nat) :
  let snapshot :=
    buildAnnotationBrowserSnapshot parseUrl decodeURIComponent localeCompare clock
      rawHighlightsStorage tick in
  Forall finiteTimes (recentPages snapshot)
  /\ StronglySorted recentFirst (recentPages snapshot)
  /\ StronglySorted mostAnnotatedFirst (mostAnnotatedPages snapshot).
Proof.
  unfold buildAnnotationBrowserSnapshot.
  destruct (isRecord rawHighlightsStorage); cbn [negb].
  - pose proof (collectPages_finite (objectEntries rawHighlightsStorage) [] 0%nat tick
                  (Forall_nil _)) as Hfin.
    destruct (collectPages parseUrl decodeURIComponent clock
                (objectEntries rawHighlightsStorage) [] 0%nat tick) as [pages total].
    cbn [fst] in Hfin. cbn [recentPages mostAnnotatedPages].
    split; [|split].
    + apply (Permutation_Forall (Permutation_sym (arraySort_perm _ pages))). exact Hfin.
    + apply (arraySort_sorted _ finiteTimes recentFirst); try exact Hfin.
      * apply sortByMostRecentLast_negative.
      * apply sortByMostRecentLast_other.
      * intros x y z _ _ _. apply recentFirst_trans.
    + apply (arraySort_sorted _ finiteTimes mostAnnotatedFirst); try exact Hfin.
      * apply sortByMostAnnotations_negative.
      * apply sortByMostAnnotations_other.
      * intros x y z _ _ _. apply mostAnnotatedFirst_trans.
  - cbn [recentPages mostAnnotatedPages]. repeat split; constructor.
Qed.

End SnapshotOrder.

(** ** Page titles *)

Section PageTitles.
Import Js AnnotationBrowser.

Variable parseUrl : string -> option URL.
Variable decodeURIComponent : string -> option string.

Lemma collapseRuns_chars (inClass : ascii -> bool) (s : list ascii) :
  forall inRun c, In c (collapseRuns inClass inRun s) ->
                  c = " "%char \/ (In c s /\ inClass c = false).
Proof.
  induction s as [|c0 rest IH]; intros inRun c; simpl; [tauto|].
  destruct (inClass c0) eqn:E.
  - destruct inRun; simpl.
    + intros H. destruct (IH _ _ H) as [->|[Hin Hc]]; [left; reflexivity|right; tauto].
    + intros [<-|H]; [left; reflexivity|].
      destruct (IH _ _ H) as [->|[Hin Hc]]; [left; reflexivity|right; tauto].
  - simpl. intros [<-|H]; [right; tauto|].
    destruct (IH _ _ H) as [->|[Hin Hc]]; [left; reflexivity|right; tauto].
Qed.

Lemma collapseRuns_head (inClass : ascii -> bool) (s : list ascii) :
  forall c rest, collapseRuns inClass true s = c :: rest -> inClass c = false.
Proof.
  induction s as [|c0 s' IH]; intros c rest; simpl; [discriminate|].
  destruct (inClass c0) eqn:E.
  - apply IH.
  - intros H. injection H as <- _. exact E.
Qed.

Lemma collapseRuns_adjacent (inClass : ascii -> bool) (s : list ascii) :
  forall inRun l1 c d l2,
    collapseRuns inClass inRun s = (l1 ++ c :: d :: l2)%list ->
    inClass c = true -> inClass d = false.
Proof.
  induction s as [|c0 s' IH]; intros inRun l1 c d l2; simpl.
  - destruct l1; discriminate.
  - destruct (inClass c0) eqn:E.
    + destruct inRun.
      * apply IH.
      * destruct l1 as [|x l1']; simpl.
        -- intros H _. injection H as _ H. apply (collapseRuns_head _ _ _ _ H).
        -- intros H. injection H as _ H. apply (IH _ _ _ _ _ H).
    + destruct l1 as [|x l1']; simpl.
      * intros H Hc. injection H as -> _. congruence.
      * intros H. injection H as _ H. apply (IH _ _ _ _ _ H).
Qed.

Lemma dropWhile_suffix {A : Type} (f : A -> bool) (l : list A) :
  exists pre, l = (pre ++ dropWhile f l)%list.
Proof.
  induction l as [|x rest [pre IH]]; simpl.
  - exists []. reflexivity.
  - destruct (f x).
    + exists (x :: pre). simpl. f_equal. exact IH.
    + exists []. reflexivity.
Qed.

Lemma dropWhile_head {A : Type} (f : A -> bool) (l : list A) (x : A) (rest : list A) :
  dropWhile f l = x :: rest -> f x = false.
Proof.
  induction l as [|y l' IH]; simpl; [discriminate|].
  destruct (f y) eqn:E; [exact IH|].
  intros H. injection H as <- _. exact E.
Qed.

Lemma trim_segment (s : list ascii) : exists pre post, s = (pre ++ trim s ++ post)%list.
Proof.
  unfold trim. destruct (dropWhile_suffix isWhiteSpace s) as [pre Hpre].
  destruct (dropWhile_suffix isWhiteSpace (rev (dropWhile isWhiteSpace s))) as [post Hpost].
  exists pre, (rev post).
  rewrite <- rev_app_distr, <- Hpost, rev_involutive. exact Hpre.
Qed.

Lemma trim_last (s front : list ascii) (c : ascii) :
  trim s = (front ++ [c])%list -> isWhiteSpace c = false.
Proof.
  unfold trim. intros H. apply (f_equal (@rev ascii)) in H.
  rewrite rev_involutive, rev_app_distr in H. simpl in H.
  apply (dropWhile_head _ _ _ _ H).
Qed.

Lemma trim_head (s rest : list ascii) (c : ascii) :
  trim s = c :: rest -> isWhiteSpace c = false.
Proof.
  unfold trim. intros H.
  destruct (dropWhile_suffix isWhiteSpace (rev (dropWhile isWhiteSpace s))) as [post Hpost].
  apply (f_equal (@rev ascii)) in Hpost. rewrite rev_involutive, rev_app_distr, H in Hpost.
  simpl in Hpost. apply (dropWhile_head _ _ _ _ Hpost).
Qed.

(** X8.  The shape of a normalised title segment, whatever the segment and
    whatever [decodeURIComponent] answers: it contains none of the
    characters plus, underscore and hyphen; its only white space is the
    space character, never twice in a row, never first and never last. *)
Theorem normalizeTitleSegment_shape (segment : string) :
  let t := list_ascii_of_string (normalizeTitleSegment decodeURIComponent segment) in
  (forall c, In c t -> isTitleSeparator c = false)
  /\ (forall c, In c t -> isWhiteSpace c = true -> c = " "%char)
  /\ (forall l1 c d l2, t = (l1 ++ c :: d :: l2)%list ->
                        isWhiteSpace c = true -> isWhiteSpace d = false)
  /\ (forall c rest, t = c :: rest -> isWhiteSpace c = false)
  /\ (forall front c, t = (front ++ [c])%list -> isWhiteSpace c = false).
Proof.
  unfold normalizeTitleSegment. rewrite list_ascii_of_string_of_list_ascii.
  set (decoded := list_ascii_of_string
                    (decodeUriComponentSafe decodeURIComponent
                       (string_of_list_ascii (stripExtension (list_ascii_of_string segment))))).
  set (spaced := collapseRuns isTitleSeparator false decoded).
  set (single := collapseRuns isWhiteSpace false spaced).
  cbv zeta.
  destruct (trim_segment single) as [pre [post Hseg]].
  assert (Hin : forall c, In c (trim single) -> In c single).
  { intros c Hc. rewrite Hseg, !in_app_iff. tauto. }
  split; [|split; [|split; [|split]]].
  - intros c Hc. apply Hin in Hc.
    destruct (collapseRuns_chars _ _ _ _ Hc) as [->|[Hc' _]]; [reflexivity|].
    destruct (collapseRuns_chars _ _ _ _ Hc') as [->|[_ Hsep]]; [reflexivity|exact Hsep].
  - intros c Hc Hws. apply Hin in Hc.
    destruct (collapseRuns_chars _ _ _ _ Hc) as [->|[_ Hnot]]; [reflexivity|congruence].
  - intros l1 c d l2 Ht. rewrite Ht in Hseg.
    apply (collapseRuns_adjacent isWhiteSpace spaced false (pre ++ l1) c d (l2 ++ post)).
    fold single. rewrite Hseg, <- !app_assoc. reflexivity.
  - intros c rest. apply trim_head.
  - intros front c. apply trim_last.
Qed.



Lemma takeWhile_all {A : Type} (f : A -> bool) (prefix rest : list A) (x : A) :
  Forall (fun a => f a = true) prefix -> f x = false ->
  takeWhile f (prefix ++ x :: rest)%list = prefix.
Proof.
  induction 1 as [|a l Ha _ IH]; intros Hx; cbn [app takeWhile].
  - rewrite Hx. reflexivity.
  - rewrite Ha, IH by exact Hx. reflexivity.
Qed.

Lemma takeWhile_split {A : Type} (f : A -> bool) (l : list A) :
  l = (takeWhile f l ++ skipn (List.length (takeWhile f l)) l)%list
  /\ Forall (fun a => f a = true) (takeWhile f l).
Proof.
  induction l as [|a l [IH1 IH2]]; cbn [takeWhile]; [split; [reflexivity|constructor]|].
  destruct (f a) eqn:E; cbn [app List.length skipn].
  - split; [f_equal; exact IH1|constructor; assumption].
  - split; [reflexivity|constructor].
Qed.

(** X29.  Only the last extension of a segment is removed.  A dot followed
    by two to five letters or digits at the end of the segment is cut off,
    whatever stands before it, also another extension; and in general the
    segment is either left as it is or is what remains followed by a dot and
    two to five letters or digits. *)
Theorem last_extension_is_stripped (segment : list ascii) :
  (forall base ext,
      segment = (base ++ "."%char :: ext)%list ->
      Forall (fun c => isAlphaNumeric c = true) ext ->
      (2 <= List.length ext <= 5)%nat ->
      stripExtension segment = base)
  /\ (stripExtension segment = segment
      \/ exists ext,
           segment = (stripExtension segment ++ "."%char :: ext)%list
           /\ Forall (fun c => isAlphaNumeric c = true) ext
           /\ (2 <= List.length ext <= 5)%nat).
Proof.
  split.
  - intros base ext -> Halnum Hlen. unfold stripExtension.
    rewrite rev_app_distr. cbn [rev]. rewrite <- app_assoc. cbn [app].
    assert (Hrev : Forall (fun c => isAlphaNumeric c = true) (rev ext)).
    { rewrite Forall_forall in *. intros c Hc. apply Halnum. apply in_rev. exact Hc. }
    rewrite (takeWhile_all isAlphaNumeric (rev ext) (rev base) "."%char Hrev eq_refl).
    rewrite length_rev.
    replace ((2 <=? List.length ext) && (List.length ext <=? 5))%nat with true
      by (symmetry; apply andb_true_iff; split; apply Nat.leb_le; lia).
    rewrite <- (length_rev ext), skipn_app, skipn_all, Nat.sub_diag. cbn [app skipn].
    rewrite Ascii.eqb_refl. apply rev_involutive.
  - unfold stripExtension.
    destruct (takeWhile_split isAlphaNumeric (rev segment)) as [Hsplit Halnum].
    set (suffix := takeWhile isAlphaNumeric (rev segment)) in *.
    destruct ((2 <=? List.length suffix) && (List.length suffix <=? 5))%nat eqn:Elen;
      [|left; reflexivity].
    destruct (skipn (List.length suffix) (rev segment)) as [|c before] eqn:Eskip;
      [left; reflexivity|].
    destruct (Ascii.eqb c "."%char) eqn:Ec; [|left; reflexivity].
    apply Ascii.eqb_eq in Ec. subst c. right. exists (rev suffix).
    apply andb_true_iff in Elen. destruct Elen as [H2 H5].
    apply Nat.leb_le in H2. apply Nat.leb_le in H5.
    split; [|split].
    + apply (f_equal (@rev ascii)) in Hsplit. rewrite rev_involutive, rev_app_distr in Hsplit.
      cbn [rev] in Hsplit. rewrite <- app_assoc in Hsplit. exact Hsplit.
    + rewrite Forall_forall in *. intros x Hx. apply Halnum. apply in_rev. exact Hx.
    + rewrite length_rev. lia.
Qed.

End PageTitles.

(** "archive.tar.gz" loses ".gz" only. *)
Lemma last_extension_is_stripped_witness :
  AnnotationBrowser.stripExtension (list_ascii_of_string "archive.tar.gz")
  = list_ascii_of_string "archive.tar".
Proof.
  destruct (last_extension_is_stripped (list_ascii_of_string "archive.tar.gz")) as [Hstrip _].
  apply (Hstrip (list_ascii_of_string "archive.tar") (list_ascii_of_string "gz")).
  - reflexivity.
  - repeat constructor.
  - cbn. lia.
Defined.

(** ** The visible count of a panel section *)

Section VisibleCount.
Import Js AnnotationBrowser BrowserPanel.
Local Open Scope Q_scope.

Lemma Qle_bool_false (a b : Q) : Qle_bool a b = false -> b < a.
Proof.
  intros H. apply Qnot_le_lt. intros Hle. apply Qle_bool_iff in Hle. congruence.
Qed.

Ltac split_comparisons :=
  repeat match goal with
         | |- context [Qle_bool ?a ?b] =>
             lazymatch a with context [Qle_bool _ _] => fail | _ => idtac end;
             lazymatch b with context [Qle_bool _ _] => fail | _ => idtac end;
             let E := fresh "E" in
             destruct (Qle_bool a b) eqn:E;
             [apply Qle_bool_iff in E|apply Qle_bool_false in E];
             cbv iota
         end.

Lemma count_nonneg (n : nat) : 0 <= inject_Z (Z.of_nat n).
Proof. rewrite <- (Zle_Qle 0). lia. Qed.

Lemma Math_min_pair (a b : Q) : Math_min [Finite a; Finite b] = Finite (qmin a b).
Proof.
  unfold Math_min, qmin. cbn [fold_left jsMin2 jsLeb]. destruct (Qle_bool a b); reflexivity.
Qed.

Lemma Math_max_pair (a b : Q) : Math_max [Finite a; Finite b] = Finite (qmax a b).
Proof.
  unfold Math_max, qmax. cbn [fold_left jsMax2 jsLeb]. destruct (Qle_bool a b); reflexivity.
Qed.

(** The value of [clampVisibleCount] for a list that is not empty. *)
Lemma clampVisibleCount_value (current : JsNumber) (t : Q) :
  0 < t ->
  clampVisibleCount current (Finite t)
  = Finite (match current with
            | Finite c => if Qle_bool c 0 then qmin 25 t else qmin (qmax c (qmin 25 t)) t
            | _ => qmin 25 t
            end).
Proof.
  intros Ht. unfold clampVisibleCount. cbn [jsLeb].
  replace (Qle_bool t 0) with false
    by (symmetry; apply not_true_is_false; intros H; apply Qle_bool_iff in H; lra).
  unfold INITIAL_VISIBLE_ITEMS. rewrite Math_min_pair.
  destruct current as [|negative|c]; try reflexivity.
  cbn [Number_isFinite negb orb jsLeb]. destruct (Qle_bool c 0); [reflexivity|].
  rewrite Math_max_pair, Math_min_pair. reflexivity.
Qed.

(** X10.  For a list of [n] pages and any previous count, also NaN or an
    infinity, [clampVisibleCount] answers a finite count between
    min(25, n) and n; a positive previous count in that range is kept; and
    clamping the answer again changes nothing. *)
Theorem clampVisibleCount_in_range (current : JsNumber) (n : nat) :
  exists q,
    clampVisibleCount current (numberOfNat n) = Finite q
    /\ Qmin 25 (inject_Z (Z.of_nat n)) <= q <= inject_Z (Z.of_nat n)
    /\ (forall c, current = Finite c -> 0 < c ->
                  Qmin 25 (inject_Z (Z.of_nat n)) <= c <= inject_Z (Z.of_nat n) -> q == c)
    /\ exists q', clampVisibleCount (Finite q) (numberOfNat n) = Finite q' /\ q' == q.
Proof.
  pose proof (count_nonneg n) as Hn.
  unfold numberOfNat. set (t := inject_Z (Z.of_nat n)) in *.
  pose proof (Q.min_spec 25 t) as Hm.
  destruct (Qle_bool t 0) eqn:Et.
  - apply Qle_bool_iff in Et. exists 0.
    assert (Hc : forall x, clampVisibleCount x (Finite t) = Finite 0).
    { intros x. unfold clampVisibleCount. cbn [jsLeb].
      replace (Qle_bool t 0) with true by (symmetry; apply Qle_bool_iff; exact Et).
      reflexivity. }
    rewrite !Hc. split; [reflexivity|]. split; [|split].
    + destruct Hm as [[H1 H2]|[H1 H2]]; lra.
    + intros c _ Hpos Hc'. lra.
    + exists 0. split; [reflexivity|lra].
  - apply Qle_bool_false in Et.
    rewrite (clampVisibleCount_value current t Et).
    eexists. split; [reflexivity|].
    split; [|split].
    + destruct current as [|negative|c]; unfold qmin, qmax; split_comparisons;
        destruct Hm as [[H1 H2]|[H1 H2]]; lra.
    + intros c -> Hpos Hc. unfold qmin, qmax. split_comparisons;
        destruct Hm as [[H1 H2]|[H1 H2]]; lra.
    + rewrite (clampVisibleCount_value _ t Et). eexists. split; [reflexivity|].
      destruct current as [|negative|c]; unfold qmin, qmax; split_comparisons; lra.
Qed.

Lemma jsLeb_count (a b : nat) : jsLeb (numberOfNat a) (numberOfNat b) = (a <=? b)%nat.
Proof.
  unfold numberOfNat. cbn [jsLeb]. destruct (Nat.leb_spec a b) as [H|H].
  - apply Qle_bool_iff. rewrite <- Zle_Qle. lia.
  - apply not_true_is_false. intros Hle. apply Qle_bool_iff in Hle.
    rewrite <- Zle_Qle in Hle. lia.
Qed.

Lemma Math_min_count (a b : nat) :
  Math_min [numberOfNat a; numberOfNat b] = numberOfNat (Nat.min a b).
Proof.
  unfold Math_min. cbn [fold_left]. change (jsMin2 (Infinity false) (numberOfNat a))
    with (numberOfNat a).
  change (jsMin2 (numberOfNat a) (numberOfNat b))
    with (if jsLeb (numberOfNat a) (numberOfNat b) then numberOfNat a else numberOfNat b).
  rewrite jsLeb_count. destruct (Nat.leb_spec a b) as [H|H].
  - rewrite Nat.min_l by lia. reflexivity.
  - rewrite Nat.min_r by lia. reflexivity.
Qed.

Lemma Math_max_count (a b : nat) :
  Math_max [numberOfNat a; numberOfNat b] = numberOfNat (Nat.max a b).
Proof.
  unfold Math_max. cbn [fold_left]. change (jsMax2 (Infinity true) (numberOfNat a))
    with (numberOfNat a).
  change (jsMax2 (numberOfNat a) (numberOfNat b))
    with (if jsLeb (numberOfNat a) (numberOfNat b) then numberOfNat b else numberOfNat a).
  rewrite jsLeb_count. destruct (Nat.leb_spec a b) as [H|H].
  - rewrite Nat.max_r by lia. reflexivity.
  - rewrite Nat.max_l by lia. reflexivity.
Qed.

Lemma jsLtb_count (a b : nat) : jsLtb (numberOfNat a) (numberOfNat b) = (a <? b)%nat.
Proof.
  change (jsLtb (numberOfNat a) (numberOfNat b))
    with (negb (jsLeb (numberOfNat b) (numberOfNat a))).
  rewrite jsLeb_count. destruct (Nat.leb_spec b a), (Nat.ltb_spec a b); try reflexivity; lia.
Qed.

Lemma jsAdd_count (a b : nat) :
  jsAdd (numberOfNat a) (numberOfNat b) = numberOfNat (a + b).
Proof.
  unfold numberOfNat. cbn [jsAdd]. f_equal. unfold Qplus, inject_Z. cbn [Qnum Qden].
  f_equal. lia.
Qed.

(** The counter of a section on whole numbers. *)
Lemma clampVisibleCount_count (v n : nat) :
  clampVisibleCount (numberOfNat v) (numberOfNat n)
  = numberOfNat (if (n =? 0)%nat then 0
                 else if (v =? 0)%nat then Nat.min 25 n
                      else Nat.min (Nat.max v (Nat.min 25 n)) n).
Proof.
  unfold clampVisibleCount.
  change (Finite 0) with (numberOfNat 0). change INITIAL_VISIBLE_ITEMS with (numberOfNat 25).
  rewrite !jsLeb_count. cbn [Number_isFinite numberOfNat negb orb].
  fold (numberOfNat v). fold (numberOfNat n). fold (numberOfNat 25).
  destruct n as [|n']; [reflexivity|]. cbn [Nat.leb Nat.eqb].
  destruct v as [|v']; cbn [Nat.leb Nat.eqb].
  - apply Math_min_count.
  - rewrite Math_min_count, Math_max_count, Math_min_count. reflexivity.
Qed.

Lemma cardsLoop_count (rest : list AnnotationBrowserPage) :
  forall index v, cardsLoop rest index (numberOfNat v) = firstn (v - index) rest.
Proof.
  induction rest as [|page rest' IH]; intros index v; cbn [cardsLoop].
  - rewrite firstn_nil. reflexivity.
  - rewrite jsLtb_count. destruct (Nat.ltb_spec index v) as [H|H].
    + rewrite IH. replace (v - index)%nat with (S (v - S index)) by lia. reflexivity.
    + replace (v - index)%nat with 0%nat by lia. reflexivity.
Qed.

Lemma renderVisibleItems_count (s : SectionView) (v : nat) :
  visibleCount s = numberOfNat v -> (v <= List.length (pages s))%nat ->
  renderVisibleItems s = (firstn v (pages s), (v <? List.length (pages s))%nat).
Proof.
  intros Hv Hle. unfold renderVisibleItems. rewrite Hv, Math_min_count.
  rewrite Nat.min_l by exact Hle. rewrite cardsLoop_count, jsLtb_count, Nat.sub_0_r.
  reflexivity.
Qed.

Lemma loadMore_count (s : SectionView) (v : nat) :
  visibleCount s = numberOfNat v -> (v <= List.length (pages s))%nat ->
  pages (loadMore s) = pages s
  /\ visibleCount (loadMore s) = numberOfNat (Nat.min (v + 25) (List.length (pages s))).
Proof.
  intros Hv Hle. unfold loadMore. rewrite Hv, Math_min_count.
  rewrite Nat.min_l by exact Hle. rewrite jsLeb_count.
  destruct (Nat.leb_spec (List.length (pages s)) v) as [H|H].
  - split; [reflexivity|]. rewrite Hv. f_equal. lia.
  - cbn [pages visibleCount]. split; [reflexivity|].
    change VISIBLE_BATCH_SIZE with (numberOfNat 25).
    rewrite jsAdd_count. apply Math_min_count.
Qed.

Lemma panelStep_in_range (s : SectionView) (e : PanelEvent) (v : nat) :
  countInRange s v -> exists v', countInRange (panelStep s e) v'.
Proof.
  intros [Hv Hrange]. destruct e as [newPages|]; cbn [panelStep].
  - unfold refreshSection, countInRange. cbn [pages visibleCount].
    rewrite Hv, clampVisibleCount_count. eexists. split; [reflexivity|].
    destruct (List.length newPages) as [|n']; [cbn; lia|]. cbn [Nat.eqb].
    destruct v as [|v0]; cbn [Nat.eqb]; lia.
  - destruct (loadMore_count s v Hv ltac:(lia)) as [Hp Hc].
    exists (Nat.min (v + 25) (List.length (pages s))). unfold countInRange.
    rewrite Hp. split; [exact Hc|lia].
Qed.

Lemma panelRun_in_range (events : list PanelEvent) :
  forall s v, countInRange s v -> exists v', countInRange (fold_left panelStep events s) v'.
Proof.
  induction events as [|e rest IH]; intros s v Hs; cbn [fold_left].
  - exists v. exact Hs.
  - destruct (panelStep_in_range s e v Hs) as [v' Hv']. apply (IH _ v' Hv').
Qed.

(** X11.  Whatever snapshots arrive and however often more pages are
    requested, a section shows a prefix of its list: the counter is a whole
    number v with min(25, n) <= v <= n for the n pages of the list, the
    cards are those of the first v pages, and the load-more controls are
    shown exactly when v < n. *)
Theorem section_shows_prefix (events : list PanelEvent) :
  let s := panelRun events in
  exists v : nat,
    visibleCount s = numberOfNat v
    /\ (Nat.min 25 (List.length (pages s)) <= v <= List.length (pages s))%nat
    /\ renderVisibleItems s = (firstn v (pages s), (v <? List.length (pages s))%nat).
Proof.
  cbv zeta. unfold panelRun.
  destruct (panelRun_in_range events initialSection 0) as [v [Hv Hrange]].
  { split; [reflexivity|]. cbn. lia. }
  exists v. split; [exact Hv|]. split; [exact Hrange|].
  apply renderVisibleItems_count; [exact Hv|lia].
Qed.

Lemma loadMore_iter (s : SectionView) (v : nat) :
  visibleCount s = numberOfNat v -> (v <= List.length (pages s))%nat ->
  forall k,
    pages (Nat.iter k loadMore s) = pages s
    /\ visibleCount (Nat.iter k loadMore s)
       = numberOfNat (Nat.min (v + 25 * k) (List.length (pages s))).
Proof.
  intros Hv Hle. induction k as [|k [IHp IHc]].
  - change (Nat.iter 0 loadMore s) with s.
    split; [reflexivity|]. rewrite Hv. f_equal. lia.
  - change (Nat.iter (S k) loadMore s) with (loadMore (Nat.iter k loadMore s)).
    destruct (loadMore_count (Nat.iter k loadMore s) _ IHc) as [Hp Hc].
    { rewrite IHp. lia. }
    rewrite Hp, Hc, IHp. split; [reflexivity|]. f_equal. lia.
Qed.

(** X12.  Load-more requests compose: after a snapshot of n pages has been
    shown with v of them visible, k requests make min(v + 25 k, n) pages
    visible and leave the list alone; once 25 k covers the rest, all pages
    are shown, the controls are hidden, and a further request changes
    nothing. *)
Theorem loadMore_reaches_all_pages (s : SectionView) (v k : nat) :
  visibleCount s = numberOfNat v -> (v <= List.length (pages s))%nat ->
  let s' := Nat.iter k loadMore s in
  pages s' = pages s
  /\ visibleCount s' = numberOfNat (Nat.min (v + 25 * k) (List.length (pages s)))
  /\ fst (renderVisibleItems s') = firstn (v + 25 * k) (pages s)
  /\ ((List.length (pages s) <= v + 25 * k)%nat ->
      renderVisibleItems s' = (pages s, false) /\ loadMore s' = s').
Proof.
  intros Hv Hle s'. destruct (loadMore_iter s v Hv Hle k) as [Hp Hc]. fold s' in Hp, Hc.
  assert (Hr := renderVisibleItems_count s' _ Hc). rewrite Hp in Hr.
  specialize (Hr ltac:(lia)).
  split; [exact Hp|]. split; [exact Hc|]. split.
  - rewrite Hr. cbn [fst].
    destruct (Nat.le_ge_cases (v + 25 * k) (List.length (pages s))) as [H|H].
    + rewrite Nat.min_l by exact H. reflexivity.
    + rewrite Nat.min_r by exact H. rewrite !firstn_all2 by lia. reflexivity.
  - intros Hall. rewrite Hr. rewrite Nat.min_r by exact Hall. split.
    + rewrite firstn_all, Nat.ltb_irrefl. reflexivity.
    + unfold loadMore. rewrite Hc, Hp, Math_min_count, jsLeb_count.
      replace (List.length (pages s) <=?
               Nat.min (Nat.min (v + 25 * k) (List.length (pages s))) (List.length (pages s)))%nat
        with true by (symmetry; apply Nat.leb_le; lia).
      reflexivity.
Qed.

(** Sixty pages of which the first 25 are shown: two requests show all. *)
Lemma loadMore_reaches_all_pages_witness :
  let page := mkBrowserPage "https://example.org/a" "a" "example.org" "/a" 1
                            (Finite 1700) (Finite 1700) in
  let s := mkSectionView (repeat page 60) (numberOfNat 25) in
  renderVisibleItems (Nat.iter 2 loadMore s) = (repeat page 60, false).
Proof.
  cbv zeta.
  set (page := mkBrowserPage "https://example.org/a" "a" "example.org" "/a" 1
                             (Finite 1700) (Finite 1700)).
  set (s := mkSectionView (repeat page 60) (numberOfNat 25)).
  assert (Hv : visibleCount s = numberOfNat 25) by reflexivity.
  assert (Hle : (25 <= List.length (pages s))%nat) by (vm_compute; lia).
  pose proof (loadMore_reaches_all_pages s 25 2 Hv Hle) as H. cbv zeta in H.
  destruct H as [_ [_ [_ Hall]]].
  assert (Hcover : (List.length (pages s) <= 25 + 25 * 2)%nat) by (vm_compute; lia).
  destruct (Hall Hcover) as [Hrender _]. exact Hrender.
Defined.

End VisibleCount.

(** ** Merged rectangles *)

Section MergedRectangles.
Import Js Geometry Overlays.

Lemma copyRect_id (rect : DOMRect) : copyRect rect = rect.
Proof. destruct rect; reflexivity. Qed.

Lemma sameLine_line (rect a b : DOMRect) :
  y a = y b -> height a = height b -> sameLine rect a = sameLine rect b.
Proof. unfold sameLine. intros -> ->. reflexivity. Qed.

Lemma sameLine_of_line (a b running : DOMRect) :
  y a = y b -> height a = height b -> sameLine a running = sameLine b running.
Proof. unfold sameLine. intros -> ->. reflexivity. Qed.

Lemma mergeRunning_head (rects : list DOMRect) :
  forall running, exists m ms,
    mergeRunning running rects = m :: ms /\ y m = y running /\ height m = height running.
Proof.
  induction rects as [|rect rest IH]; intros running; simpl.
  - exists running, []. repeat split.
  - destruct (sameLine rect running).
    + destruct (IH (extendTo running rect)) as [m [ms [Heq [Hy Hh]]]].
      exists m, ms. split; [exact Heq|]. split; assumption.
    + exists running, (mergeRunning (copyRect rect) rest). repeat split.
Qed.

Lemma mergeRunning_length (rects : list DOMRect) :
  forall running, (List.length (mergeRunning running rects) <= S (List.length rects))%nat.
Proof.
  induction rects as [|rect rest IH]; intros running; simpl; [lia|].
  destruct (sameLine rect running); simpl.
  - specialize (IH (extendTo running rect)). lia.
  - specialize (IH (copyRect rect)). lia.
Qed.

Lemma mergeRunning_separated (rects : list DOMRect) :
  forall running l1 a b l2,
    mergeRunning running rects = (l1 ++ a :: b :: l2)%list -> sameLine b a = false.
Proof.
  induction rects as [|rect rest IH]; intros running l1 a b l2; simpl.
  - destruct l1 as [|c [|c' l1']]; discriminate.
  - destruct (sameLine rect running) eqn:E.
    + apply IH.
    + destruct l1 as [|c l1']; simpl; intros H; injection H as Hhead Htail.
      * subst a. destruct (mergeRunning_head rest (copyRect rect)) as [m [ms [Heq [Hy Hh]]]].
        rewrite Heq in Htail. injection Htail as -> _.
        rewrite (sameLine_of_line b rect running) by assumption. exact E.
      * apply (IH _ _ _ _ _ Htail).
Qed.

Lemma mergeRunning_fixed (rest : list DOMRect) :
  forall a,
    (forall l1 c d l2, a :: rest = (l1 ++ c :: d :: l2)%list -> sameLine d c = false) ->
    mergeRunning a rest = a :: rest.
Proof.
  induction rest as [|b rest' IH]; intros a Hsep; simpl; [reflexivity|].
  rewrite (Hsep [] a b rest' eq_refl). f_equal. rewrite copyRect_id. apply IH.
  intros l1 c d l2 Heq. apply (Hsep (a :: l1) c d l2). simpl. f_equal. exact Heq.
Qed.

(** X13.  Merging reaches its fixed point in one pass: the merged list is
    no longer than the input and empty only for an empty input, no
    rectangle of it is on the line of the one before it, and merging the
    merged list again gives it back. *)
Theorem merged_rectangles_are_final (rects : list DOMRect) :
  (List.length (mergedRectsOf rects) <= List.length rects)%nat
  /\ (mergedRectsOf rects = [] <-> rects = [])
  /\ (forall l1 a b l2, mergedRectsOf rects = (l1 ++ a :: b :: l2)%list ->
                        sameLine b a = false)
  /\ mergedRectsOf (mergedRectsOf rects) = mergedRectsOf rects.
Proof.
  rewrite !mergedRectsOf_running.
  assert (Hsep : forall l1 a b l2, mergeRunningRule rects = (l1 ++ a :: b :: l2)%list ->
                                   sameLine b a = false).
  { destruct rects as [|rect rest]; simpl.
    - intros [|c l1] a b l2 H; discriminate.
    - apply mergeRunning_separated. }
  split; [|split; [|split]].
  - destruct rects as [|rect rest]; simpl; [lia|]. apply mergeRunning_length.
  - destruct rects as [|rect rest]; simpl; [tauto|].
    destruct (mergeRunning_head rest (copyRect rect)) as [m [ms [Heq _]]]. rewrite Heq.
    split; discriminate.
  - exact Hsep.
  - destruct (mergeRunningRule rects) as [|a rest] eqn:E; [reflexivity|].
    simpl. rewrite copyRect_id. apply mergeRunning_fixed. exact Hsep.
Qed.

End MergedRectangles.

(** ** Drag sessions: foreign input, cancellation and commit *)

Section DragOutcomes.
Import Js Dom Highlighter Overlays Examples.

Lemma listening_or_not (p : Page) (k : DragListener) (q : Page) :
  q = p -> (if listening p k then q else p) = p.
Proof. intros ->. destruct (listening p k); reflexivity. Qed.

(** X14.  Input that does not belong to the session is ignored.  While a
    pointer session is active, document events of any other pointer and all
    mouse events leave the page as it is; while a mouse session is active,
    all pointer events on the document do; and in either case a mouse press
    on a handle starts nothing. *)
Theorem foreign_input_is_ignored (p : Page) (d : OffsetHandleDragState) :
  activeOffsetHandleDrag p = Some d ->
  (forall pid, inputType d = InputPointer -> pointerId d = Some pid ->
     (forall pid' e b, pid' <> pid ->
        dispatch p (DocumentPointerMove pid' e b) = p
        /\ dispatch p (DocumentPointerUp pid' e b) = p
        /\ dispatch p (DocumentPointerCancel pid') = p)
     /\ (forall e b, dispatch p (DocumentMouseMove e b) = p
                     /\ dispatch p (DocumentMouseUp e b) = p))
  /\ (inputType d = InputMouse ->
      forall pid e b,
        dispatch p (DocumentPointerMove pid e b) = p
        /\ dispatch p (DocumentPointerUp pid e b) = p
        /\ dispatch p (DocumentPointerCancel pid) = p)
  /\ (forall e b, dispatch p (HandleMouseDown e b) = p).
Proof.
  intros Hd. split; [|split].
  - intros pid Htype Hpid. split.
    + intros pid' e b Hne.
      assert (Hneq : Z.eqb pid' pid = false) by (apply Z.eqb_neq; exact Hne).
      cbn [dispatch]. repeat split; apply listening_or_not.
      * unfold handleOffsetHandleDragMove. rewrite Hd, Htype, Hpid, Hneq. reflexivity.
      * unfold handleOffsetHandlePointerUp, pointerSessionMatches.
        rewrite Hd, Htype, Hpid, Hneq. reflexivity.
      * unfold handleOffsetHandlePointerCancel, pointerSessionMatches.
        rewrite Hd, Htype, Hpid, Hneq. reflexivity.
    + intros e b. cbn [dispatch]. split; apply listening_or_not.
      * unfold handleOffsetHandleDragMove. rewrite Hd, Htype. reflexivity.
      * unfold handleOffsetHandleMouseUp. rewrite Hd, Htype. reflexivity.
  - intros Htype pid e b. cbn [dispatch]. repeat split; apply listening_or_not.
    + unfold handleOffsetHandleDragMove. rewrite Hd, Htype. reflexivity.
    + unfold handleOffsetHandlePointerUp, pointerSessionMatches. rewrite Hd, Htype. reflexivity.
    + unfold handleOffsetHandlePointerCancel, pointerSessionMatches.
      rewrite Hd, Htype. reflexivity.
  - intros e b. cbn [dispatch]. unfold handleOffsetHandleMouseDown. rewrite Hd.
    cbn [isSome]. rewrite orb_true_r. reflexivity.
Qed.

(** During the session of pointer 1, a move of pointer 2 and a mouse
    release change nothing. *)
Lemma foreign_input_is_ignored_witness :
  let p := run examplePage [pressStartHandle] in
  dispatch p (DocumentPointerMove 2 (mkMouseEvent 0 300%Q 90%Q None) browserWithClerk) = p
  /\ dispatch p (DocumentMouseUp (mkMouseEvent 0 300%Q 90%Q None) browserWithClerk) = p.
Proof.
  cbv zeta.
  assert (Hd : activeOffsetHandleDrag (run examplePage [pressStartHandle])
               = Some startHandleSession) by (vm_compute; reflexivity).
  destruct (foreign_input_is_ignored _ _ Hd) as [Hpointer _].
  destruct (Hpointer 1 eq_refl eq_refl) as [Hother Hmouse].
  assert (Hne : 2 <> 1) by discriminate.
  destruct (Hother 2 (mkMouseEvent 0 300%Q 90%Q None) browserWithClerk Hne) as [Hmove _].
  destruct (Hmouse (mkMouseEvent 0 300%Q 90%Q None) browserWithClerk) as [_ Hup].
  split; [exact Hmove|exact Hup].
Defined.

Lemma move_frame (p : Page) (b : Browser) (event : InputEvent) :
  let p' := handleOffsetHandleDragMove p b event in
  highlights p' = highlights p
  /\ persistenceCalls p' = persistenceCalls p
  /\ match activeOffsetHandleDrag p, activeOffsetHandleDrag p' with
     | Some d, Some d' => inputType d' = inputType d /\ pointerId d' = pointerId d
     | None, None => True
     | _, _ => False
     end.
Proof.
  unfold handleOffsetHandleDragMove.
  destruct (activeOffsetHandleDrag p) as [d|] eqn:Hd; [|rewrite Hd; auto].
  match goal with |- context [negb ?a] => destruct (negb a) end.
  { rewrite Hd. repeat split. }
  match goal with
  | |- context [if ?c then withHasMoved d else d] => destruct c
  end;
    (destruct (caretPointAtPointer b) as [focus|];
     [destruct (caretRectFound b)|];
     cbv zeta; rewrite ?persistenceCalls_call; cbn [isPersistenceCall];
     rewrite ?app_nil_r; repeat split).
Qed.

Lemma dispatch_move_frame (p : Page) (i : Input) :
  match i with
  | DocumentPointerMove _ _ _ | DocumentMouseMove _ _ => True
  | _ => False
  end ->
  highlights (dispatch p i) = highlights p
  /\ persistenceCalls (dispatch p i) = persistenceCalls p
  /\ match activeOffsetHandleDrag p, activeOffsetHandleDrag (dispatch p i) with
     | Some d, Some d' => inputType d' = inputType d /\ pointerId d' = pointerId d
     | None, None => True
     | _, _ => False
     end.
Proof.
  assert (Hsame : highlights p = highlights p
                  /\ persistenceCalls p = persistenceCalls p
                  /\ match activeOffsetHandleDrag p, activeOffsetHandleDrag p with
                     | Some d, Some d' => inputType d' = inputType d /\ pointerId d' = pointerId d
                     | None, None => True
                     | _, _ => False
                     end).
  { repeat split. destruct (activeOffsetHandleDrag p); auto. }
  destruct i; try contradiction; intros _; cbn [dispatch].
  - destruct (listening p OnPointerMove); [apply move_frame|exact Hsame].
  - destruct (listening p OnMouseMove); [apply move_frame|exact Hsame].
Qed.

(** X15.  A cancelled drag changes no highlight.  However far the pointer
    of the session travelled before [pointercancel], the handler ends the
    session, leaves the highlights and the persistence calls as they were
    when the session started, and makes the next mouse-up be skipped. *)
Theorem cancelled_drag_changes_nothing (moves : list Input) :
  forall (p : Page) (d : OffsetHandleDragState) (pid : Z),
    activeOffsetHandleDrag p = Some d ->
    inputType d = InputPointer -> pointerId d = Some pid ->
    Forall (fun i => match i with
                     | DocumentPointerMove _ _ _ | DocumentMouseMove _ _ => True
                     | _ => False
                     end) moves ->
    let p' := handleOffsetHandlePointerCancel (run p moves) pid in
    activeOffsetHandleDrag p' = None
    /\ suppressNextMouseUpHighlight p' = true
    /\ highlights p' = highlights p
    /\ persistenceCalls p' = persistenceCalls p.
Proof.
  induction moves as [|i rest IH]; intros p d pid Hd Htype Hpid Hmoves.
  - cbv zeta. unfold run. cbn [fold_left].
    unfold handleOffsetHandlePointerCancel, pointerSessionMatches.
    rewrite Hd, Htype, Hpid, Z.eqb_refl.
    destruct (teardown_frame p) as [Hnone [Hh Hc]].
    split; [exact Hnone|]. split; [reflexivity|]. split; [exact Hh|exact Hc].
  - inversion Hmoves as [|? ? Hi Hrest]; subst.
    destruct (dispatch_move_frame p i Hi) as [Hh [Hc Hs]].
    rewrite Hd in Hs.
    destruct (activeOffsetHandleDrag (dispatch p i)) as [d'|] eqn:Hd'; [|contradiction].
    destruct Hs as [Htype' Hpid'].
    specialize (IH (dispatch p i) d' pid Hd' ltac:(congruence) ltac:(congruence) Hrest).
    cbv zeta in IH. unfold run in *. cbn [fold_left].
    rewrite <- Hh, <- Hc. exact IH.
Qed.

(** The session of pointer 1 is cancelled after a move of 200 pixels. *)
Lemma cancelled_drag_changes_nothing_witness :
  let p := run examplePage [pressStartHandle] in
  let p' := handleOffsetHandlePointerCancel
              (run p [DocumentPointerMove 1 (mkMouseEvent 0 300%Q 50%Q None) browserWithClerk])
              1 in
  activeOffsetHandleDrag p' = None /\ highlights p' = [clerkHighlight].
Proof.
  cbv zeta.
  assert (Hd : activeOffsetHandleDrag (run examplePage [pressStartHandle])
               = Some startHandleSession) by (vm_compute; reflexivity).
  assert (Hmoves : Forall (fun i => match i with
                                    | DocumentPointerMove _ _ _ | DocumentMouseMove _ _ => True
                                    | _ => False
                                    end)
                          [DocumentPointerMove 1 (mkMouseEvent 0 300%Q 50%Q None)
                                               browserWithClerk])
    by (constructor; [exact I|constructor]).
  destruct (cancelled_drag_changes_nothing _ _ _ 1 Hd eq_refl eq_refl Hmoves)
    as [Hnone [_ [Hh _]]].
  split; [exact Hnone|]. rewrite Hh. vm_compute. reflexivity.
Defined.

Lemma resolveSelectedTextHighlight_ext (p q : Page) :
  highlights p = highlights q -> elements p = elements q ->
  selectedHighlightId p = selectedHighlightId q ->
  selectedHighlightIndex p = selectedHighlightIndex q ->
  resolveSelectedTextHighlight p = resolveSelectedTextHighlight q.
Proof.
  intros Hh He Hid Hidx. unfold resolveSelectedTextHighlight.
  rewrite Hh, He, Hid, Hidx. reflexivity.
Qed.

Lemma rewriteSelected_ext (p q : Page) (newStart newEnd : Z) (text : string) :
  selectedHighlightId p = selectedHighlightId q ->
  selectedHighlightIndex p = selectedHighlightIndex q ->
  rewriteSelected p newStart newEnd text = rewriteSelected q newStart newEnd text.
Proof. intros Hid Hidx. unfold rewriteSelected. rewrite Hid, Hidx. reflexivity. Qed.

Lemma teardown_selection (p : Page) :
  let p' := teardownOffsetHandleDrag p in
  highlights p' = highlights p /\ elements p' = elements p
  /\ selectedHighlightId p' = selectedHighlightId p
  /\ selectedHighlightIndex p' = selectedHighlightIndex p
  /\ exists c, calls p' = (calls p ++ c)%list /\ filter isPersistenceCall c = [].
Proof.
  unfold teardownOffsetHandleDrag. destruct (activeOffsetHandleDrag p) as [d|].
  - destruct (pointerId d); cbn; repeat split; eexists; split; try reflexivity; reflexivity.
  - cbn. repeat split. exists []. rewrite app_nil_r. split; reflexivity.
Qed.

(** X16.  A release after a real move commits once.  When the session has
    moved beyond the threshold and the live selection is a range of the
    selected text highlight with two different raw offsets, the release ends
    the session, rewrites the highlights by the callback of the commit, and
    its last calls are, in this order: update, sort, apply, save, menu
    update, then the native selection is cleared and the widget is asked to
    reopen at the release point; the next mouse-up is skipped. *)
Theorem release_after_move_commits (p : Page) (d : OffsetHandleDragState) (b : Browser)
        (sel : Selection) (selected : AnyHighlightData) (target : Element)
        (clientX clientY : Q) :
  activeOffsetHandleDrag p = Some d ->
  hasMoved d = true ->
  windowSelection b = Some sel ->
  rangeCount sel <> 0%nat -> isCollapsed sel = false ->
  resolveSelectedTextHighlight p = Some (selected, target) ->
  let rawStart := getLegacyTextOffset target (startContainer sel) (rangeStartOffset sel) in
  let rawEnd := getLegacyTextOffset target (endContainer sel) (rangeEndOffset sel) in
  rawStart <> rawEnd ->
  let p' := finalizeOffsetHandleDrag p b clientX clientY in
  activeOffsetHandleDrag p' = None
  /\ suppressNextMouseUpHighlight p' = true
  /\ highlights p'
     = mapWithIndex (rewriteSelected p (Z.min rawStart rawEnd) (Z.max rawStart rawEnd)
                                     (selectionText sel)) 0 (highlights p)
  /\ exists before,
       calls p' = (before ++ [UpdateHighlights (highlights p'); SortHighlights;
                              ApplyHighlights; SaveHighlights; UpdateHighlighterMenu;
                              SelectionRemoveAllRanges;
                              ScheduleHighlightWidgetOpenFromPoint clientX clientY])%list
       /\ persistenceCalls p' = (filter isPersistenceCall before
                                  ++ [UpdateHighlights (highlights p'); SortHighlights;
                                      ApplyHighlights; SaveHighlights;
                                      UpdateHighlighterMenu])%list
       /\ filter isPersistenceCall before = persistenceCalls p.
Proof.
  intros Hd Hmoved Hsel Hcount Hcollapsed Hresolve rawStart rawEnd Hraw p'.
  unfold p', finalizeOffsetHandleDrag. rewrite Hd, Hsel, Hmoved, Hcollapsed.
  cbn [orb negb].
  destruct (teardown_frame p) as [Hnone _].
  destruct (teardown_selection p) as [Hh [He [Hid [Hidx [c [Hcalls Hc]]]]]].
  set (p1 := teardownOffsetHandleDrag p) in *.
  set (p2 := setSuppressNextMouseUpHighlight p1 true).
  assert (Hresolve2 : resolveSelectedTextHighlight p2 = Some (selected, target)).
  { rewrite <- Hresolve. apply resolveSelectedTextHighlight_ext; assumption. }
  unfold updateSelectedTextHighlightFromSelection.
  replace (Nat.eqb (rangeCount sel) 0) with false
    by (symmetry; apply Nat.eqb_neq; exact Hcount).
  rewrite Hcollapsed, Hresolve2. cbn [orb]. fold rawStart rawEnd.
  replace (Z.eqb (Z.min rawStart rawEnd) (Z.max rawStart rawEnd)) with false
    by (symmetry; apply Z.eqb_neq; lia).
  rewrite (rewriteSelected_ext p2 p) by assumption.
  cbn [highlights call updateHighlights setHighlights activeOffsetHandleDrag
       suppressNextMouseUpHighlight calls p2 setSuppressNextMouseUpHighlight].
  split; [exact Hnone|]. split; [reflexivity|]. split; [rewrite Hh; reflexivity|].
  exists (calls p ++ c)%list. rewrite Hcalls, Hh.
  split; [rewrite <- !app_assoc; reflexivity|].
  assert (Hbefore : filter isPersistenceCall (calls p ++ c) = persistenceCalls p).
  { rewrite filter_app, Hc, app_nil_r. reflexivity. }
  split; [|exact Hbefore].
  rewrite Hbefore. unfold updateHighlights. rewrite !persistenceCalls_call.
  cbn [isPersistenceCall]. rewrite !app_nil_r, <- !app_assoc. cbn [app].
  f_equal. unfold persistenceCalls. cbn [calls setHighlights p2 setSuppressNextMouseUpHighlight].
  rewrite Hcalls. exact Hbefore.
Qed.

(** Pointer 1 drags the start handle 200 pixels and releases over a
    selection whose raw offsets are 34 and 3. *)
Lemma release_after_move_commits_witness :
  let p := run examplePage
               [pressStartHandle;
                DocumentPointerMove 1 (mkMouseEvent 0 300%Q 50%Q None) browserWithClerk] in
  let p' := finalizeOffsetHandleDrag p (mkBrowser (Some reversedSelection) None false false)
                                     300%Q 50%Q in
  activeOffsetHandleDrag p' = None
  /\ map (fun h => (startOffset h, endOffset h)) (highlights p') = [(3, 34)].
Proof.
  cbv zeta.
  set (p := run examplePage
                [pressStartHandle;
                 DocumentPointerMove 1 (mkMouseEvent 0 300%Q 50%Q None) browserWithClerk]).
  assert (Hd : activeOffsetHandleDrag p = Some (withHasMoved startHandleSession))
    by (vm_compute; reflexivity).
  assert (Hresolve : resolveSelectedTextHighlight p = Some (clerkHighlight, maxwellParagraph))
    by (vm_compute; reflexivity).
  assert (Hcount : rangeCount reversedSelection <> 0%nat) by discriminate.
  assert (Hraw : getLegacyTextOffset maxwellParagraph (startContainer reversedSelection)
                                     (rangeStartOffset reversedSelection)
                 <> getLegacyTextOffset maxwellParagraph (endContainer reversedSelection)
                                        (rangeEndOffset reversedSelection))
    by (vm_compute; discriminate).
  pose proof (release_after_move_commits p (withHasMoved startHandleSession)
                (mkBrowser (Some reversedSelection) None false false) reversedSelection
                clerkHighlight maxwellParagraph 300%Q 50%Q
                Hd eq_refl eq_refl Hcount eq_refl Hresolve Hraw) as H.
  cbv zeta in H. destruct H as [Hnone [_ [Hh _]]].
  split; [exact Hnone|]. rewrite Hh. vm_compute. reflexivity.
Defined.

Lemma install_anchor (p2 : Page) (b : Browser) (selectedRange : SelectedRange)
      (handle : Handle) (edge : Edge) (x y : Q) (inputType : OffsetHandleDragInputType)
      (pointerId : option Z) :
  let p' := installOffsetHandleDrag p2 b selectedRange handle edge x y inputType pointerId in
  activeOffsetHandleDrag p'
  = Some (mkDragState (srAnchorNode selectedRange) (srAnchorOffset selectedRange)
                      (srTarget selectedRange) edge pointerId inputType handle x y false
                      (selectionTextOf b) (snapshotPointerEvents (overlays p2)))
  /\ documentListeners p' = fold_left addEventListener DRAG_LISTENERS (documentListeners p2)
  /\ exists added, calls p' = (calls p2 ++ added)%list.
Proof.
  unfold installOffsetHandleDrag.
  destruct inputType, pointerId as [pid|]; [destruct (setPointerCaptureThrows b)| | |];
    cbn; (split; [reflexivity|]; split; [reflexivity|]; eexists; reflexivity).
Qed.

(** X30.  A drag is anchored at the edge opposite to the handle.  When the
    selected text highlight resolves and both its offsets decode, pressing a
    handle puts the native selection over the whole highlight, from the
    opposite boundary to the boundary of the handle, and arms a session
    whose anchor is that opposite boundary: the decoded end for the start
    handle, the decoded start for the end handle; the session has not moved
    and remembers the selection text.  When no text highlight resolves as
    selected, or a boundary does not decode, the press only hides the
    tooltip and arms nothing. *)
Theorem drag_is_anchored_at_opposite_edge (p : Page) (b : Browser) (handle : Handle)
        (edge : Edge) (x y : Q) (inputType : OffsetHandleDragInputType)
        (pointerId : option Z) :
  let p' := beginOffsetHandleDrag p b handle edge x y inputType pointerId in
  (forall highlight target startPoint endPoint,
      resolveSelectedTextHighlight p = Some (highlight, target) ->
      resolveTextBoundaries target (startOffset highlight) (endOffset highlight)
      = (Some startPoint, Some endPoint) ->
      let anchor := match edge with EdgeStart => endPoint | EdgeEnd => startPoint end in
      let focus := match edge with EdgeStart => startPoint | EdgeEnd => endPoint end in
      (exists d,
          activeOffsetHandleDrag p' = Some d
          /\ anchorNode d = node anchor /\ anchorOffset d = offset anchor
          /\ Overlays.target d = target /\ Overlays.edge d = edge
          /\ Overlays.handle d = handle
          /\ hasMoved d = false /\ initialSelectionText d = selectionTextOf b)
      /\ In (ApplyNativeSelection anchor focus) (calls p')
      /\ highlights p' = highlights p
      /\ persistenceCalls p' = persistenceCalls p)
  /\ (resolveSelectedTextHighlight p = None ->
      p' = call p HideHighlightWidgetTooltip)
  /\ (forall highlight target,
        resolveSelectedTextHighlight p = Some (highlight, target) ->
        (fst (resolveTextBoundaries target (startOffset highlight) (endOffset highlight)) = None
         \/ snd (resolveTextBoundaries target (startOffset highlight) (endOffset highlight))
            = None) ->
        p' = call p HideHighlightWidgetTooltip).
Proof.
  intros p'. unfold p', beginOffsetHandleDrag. clear p'. cbv zeta.
  set (p0 := call p HideHighlightWidgetTooltip).
  assert (Hr0 : resolveSelectedTextHighlight p0 = resolveSelectedTextHighlight p)
    by (apply resolveSelectedTextHighlight_ext; reflexivity).
  unfold selectHighlightTextFromOpposingEdge. rewrite Hr0.
  split; [|split].
  - intros highlight target startPoint endPoint Hresolve Hbounds.
    set (anchor := match edge with EdgeStart => endPoint | EdgeEnd => startPoint end).
    set (focus := match edge with EdgeStart => startPoint | EdgeEnd => endPoint end).
    rewrite Hresolve, Hbounds.
    assert (Hanchor : (if Edge_eqb edge EdgeStart then endPoint else startPoint) = anchor)
      by (destruct edge; reflexivity).
    assert (Hfocus : (if Edge_eqb edge EdgeStart then startPoint else endPoint) = focus)
      by (destruct edge; reflexivity).
    rewrite Hanchor, Hfocus.
    set (p1 := call p0 (ApplyNativeSelection anchor focus)).
    set (p2 := if isSome (activeOffsetHandleDrag p1) then teardownOffsetHandleDrag p1 else p1).
    assert (Hp2 : highlights p2 = highlights p
                  /\ persistenceCalls p2 = persistenceCalls p
                  /\ exists c, calls p2 = (calls p1 ++ c)%list).
    { unfold p2. destruct (isSome (activeOffsetHandleDrag p1)).
      - destruct (teardown_frame p1) as [_ [Hh Hc]].
        destruct (teardown_selection p1) as [_ [_ [_ [_ [c [Hcalls _]]]]]].
        split; [rewrite Hh; reflexivity|]. split; [|exists c; exact Hcalls].
        rewrite Hc. unfold p1, p0. rewrite !persistenceCalls_call. cbn [isPersistenceCall].
        rewrite !app_nil_r. reflexivity.
      - split; [reflexivity|]. split; [|exists []; rewrite app_nil_r; reflexivity].
        unfold p1, p0. rewrite !persistenceCalls_call. cbn [isPersistenceCall].
        rewrite !app_nil_r. reflexivity. }
    destruct Hp2 as [Hh2 [Hc2 [c Hcalls2]]].
    destruct (install_anchor p2 b (mkSelectedRange target (node anchor) (offset anchor))
                handle edge x y inputType pointerId) as [Hd [_ [added Hcalls]]].
    split; [|split; [|split]].
    + eexists. split; [exact Hd|]. repeat split.
    + rewrite Hcalls, Hcalls2. rewrite !in_app_iff. left. left.
      unfold p1. cbn [calls call]. rewrite in_app_iff. right. left. reflexivity.
    + unfold installOffsetHandleDrag.
      destruct inputType, pointerId as [pid|]; [destruct (setPointerCaptureThrows b)| | |];
        cbn; exact Hh2.
    + unfold persistenceCalls. rewrite Hcalls, filter_app.
      fold (persistenceCalls p2). rewrite Hc2.
      assert (Hadded : filter isPersistenceCall added = []).
      { revert Hcalls. unfold installOffsetHandleDrag.
        destruct inputType, pointerId as [pid|]; [destruct (setPointerCaptureThrows b)| | |];
          cbn; intros Heq; apply app_inv_head in Heq; subst added; reflexivity. }
      rewrite Hadded, app_nil_r. reflexivity.
  - intros Hnone. rewrite Hnone. reflexivity.
  - intros highlight target Hresolve Hmissing. rewrite Hresolve.
    destruct (resolveTextBoundaries target (startOffset highlight) (endOffset highlight))
      as [[s'|] [e'|]]; cbn [fst snd] in Hmissing; try reflexivity.
    destruct Hmissing; discriminate.
Qed.

End DragOutcomes.

(** ** Selecting overlays *)

Section OverlayHitTest.
Import Js Dom Highlighter Geometry Overlays OverlaySelection.

Lemma find_app {A : Type} (f : A -> bool) (l1 l2 : list A) :
  find f (l1 ++ l2)%list = match find f l1 with Some x => Some x | None => find f l2 end.
Proof.
  induction l1 as [|a l1 IH]; simpl; [reflexivity|]. destruct (f a); [reflexivity|exact IH].
Qed.

Lemma find_last {A : Type} (f : A -> bool) (l : list A) :
  match find f (rev l) with
  | Some x => exists before after,
                l = (before ++ x :: after)%list /\ f x = true
                /\ Forall (fun y => f y = false) after
  | None => Forall (fun y => f y = false) l
  end.
Proof.
  induction l as [|a l IH]; simpl; [constructor|].
  rewrite find_app. destruct (find f (rev l)) as [x|].
  - destruct IH as [before [after [-> [Hx Hafter]]]].
    exists (a :: before), after. repeat split; assumption.
  - simpl. destruct (f a) eqn:E.
    + exists [], l. repeat split; assumption.
    + constructor; assumption.
Qed.

(** X17.  The hit test answers the topmost overlay under the point: the
    overlay it finds contains the point and no overlay after it in the
    document does; it finds none exactly when no overlay contains the point.
    An overlay that contains the target of the event is preferred to the hit
    test, and an event without a point and without such a target finds
    none. *)
Theorem hit_test_finds_topmost_overlay (p : Page) (clientX clientY : Q) :
  match findOverlayAtPoint p clientX clientY with
  | Some overlay =>
      exists before after,
        overlays p = (before ++ overlay :: after)%list
        /\ containsPoint p clientX clientY overlay = true
        /\ Forall (fun later => containsPoint p clientX clientY later = false) after
  | None => Forall (fun overlay => containsPoint p clientX clientY overlay = false) (overlays p)
  end
  /\ (forall target point,
        findOverlayFromEvent p (mkUiEvent (Some target) point) = Some target)
  /\ findOverlayFromEvent p (mkUiEvent None (Some (clientX, clientY)))
     = findOverlayAtPoint p clientX clientY
  /\ findOverlayFromEvent p (mkUiEvent None None) = None.
Proof.
  split; [|repeat split].
  unfold findOverlayAtPoint. apply (find_last (containsPoint p clientX clientY) (overlays p)).
Qed.

Lemma hideOffsetHandles_state (p : Page) :
  let p' := hideOffsetHandles p in
  activeOffsetHandleDrag p' = None
  /\ offsetHandleDragging p' = false
  /\ highlights p' = highlights p
  /\ elements p' = elements p
  /\ selectedHighlightId p' = selectedHighlightId p
  /\ selectedHighlightIndex p' = selectedHighlightIndex p
  /\ persistenceCalls p' = persistenceCalls p
  /\ (activeOffsetHandleDrag p = None ->
      overlays p' = overlays p /\ documentListeners p' = documentListeners p
      /\ pointerCaptures p' = pointerCaptures p)
  /\ (forall d, activeOffsetHandleDrag p = Some d ->
                overlays p' = restorePointerEvents (overlays p) (disabledOverlayPointerEvents d)
                /\ documentListeners p' = []).
Proof.
  unfold hideOffsetHandles. destruct (activeOffsetHandleDrag p) as [d|] eqn:Hd; cbn [isSome].
  - destruct (teardown_frame p) as [Hnone [Hh Hc]].
    destruct (teardown_selection p) as [_ [He [Hid [Hidx _]]]].
    cbv zeta. rewrite persistenceCalls_call. cbn [isPersistenceCall]. rewrite app_nil_r.
    cbn [activeOffsetHandleDrag offsetHandleDragging highlights elements selectedHighlightId
         selectedHighlightIndex call setOffsetHandleDraggingState overlays documentListeners].
    split; [exact Hnone|]. split; [reflexivity|]. split; [exact Hh|]. split; [exact He|].
    split; [exact Hid|]. split; [exact Hidx|]. split.
    + rewrite <- Hc. reflexivity.
    + split; [discriminate|]. intros d' Hd'. injection Hd' as <-.
      unfold teardownOffsetHandleDrag. rewrite Hd.
      destruct (pointerId d); cbn; (split; [reflexivity|apply remove_all_listeners]).
  - cbv zeta. rewrite persistenceCalls_call. cbn [isPersistenceCall]. rewrite app_nil_r.
    cbn. rewrite Hd. repeat split; try reflexivity; discriminate.
Qed.

(** X18.  Removing the highlights of the page leaves no overlay, no
    selected reference and no drag session, whatever was going on: the
    dragging class is off, the drag listeners of an interrupted session are
    gone, no text highlight resolves as selected any more, and the stored
    highlights themselves are untouched and nothing is persisted. *)
Theorem removeExistingHighlights_clears_selection (p : Page) :
  let p' := fst (removeExistingHighlights p) in
  overlays p' = []
  /\ selectedHighlightId p' = None /\ selectedHighlightIndex p' = None
  /\ resolveSelectedTextHighlight p' = None
  /\ activeOffsetHandleDrag p' = None
  /\ offsetHandleDragging p' = false
  /\ (forall d, activeOffsetHandleDrag p = Some d -> documentListeners p' = [])
  /\ highlights p' = highlights p
  /\ persistenceCalls p' = persistenceCalls p
  /\ snd (removeExistingHighlights p) = [CloseHighlightWidget].
Proof.
  unfold removeExistingHighlights. cbn [fst snd].
  set (p2 := setSelectedReference (setOverlays p []) None None).
  destruct (hideOffsetHandles_state p2)
    as [Hnone [Hdrag [Hh [He [Hid [Hidx [Hc [Hidle Hactive]]]]]]]].
  set (p3 := hideOffsetHandles p2) in *.
  assert (Hov : overlays p3 = []).
  { destruct (activeOffsetHandleDrag p2) as [d|] eqn:Hd.
    - destruct (Hactive d eq_refl) as [Ho _]. rewrite Ho. cbn [overlays p2 setSelectedReference
        setOverlays]. rewrite restorePointerEvents_map. reflexivity.
    - destruct (Hidle eq_refl) as [Ho _]. rewrite Ho. reflexivity. }
  rewrite persistenceCalls_call. cbn [isPersistenceCall]. rewrite app_nil_r.
  cbn [overlays selectedHighlightId selectedHighlightIndex activeOffsetHandleDrag
       offsetHandleDragging documentListeners highlights call].
  assert (Hresolve : resolveSelectedTextHighlight (call p3 HideHighlightWidgetTooltip) = None).
  { unfold resolveSelectedTextHighlight.
    cbn [selectedHighlightId selectedHighlightIndex call]. rewrite Hid, Hidx. reflexivity. }
  split; [exact Hov|]. split; [rewrite Hid; reflexivity|]. split; [rewrite Hidx; reflexivity|].
  split; [exact Hresolve|]. split; [exact Hnone|]. split; [exact Hdrag|].
  split.
  - intros d Hd. destruct (Hactive d Hd) as [_ Hl]. exact Hl.
  - split; [rewrite Hh; reflexivity|]. split; [rewrite Hc; reflexivity|reflexivity].
Qed.

End OverlayHitTest.

Section OverlaySelectionFacts.
Import Js Dom Highlighter Geometry Overlays OverlaySelection.

Variable engineSort : (Overlay -> Overlay -> JsNumber) -> list Overlay -> list Overlay.
Variable layoutOf : nat -> Layout.
Hypothesis engineSort_permutes :
  forall comparefn l, Permutation (engineSort comparefn l) l.

Lemma stringOfIndex_injective (i j : nat) : stringOfIndex i = stringOfIndex j -> i = j.
Proof.
  intros H. apply (f_equal parseIntDigits) in H.
  rewrite !parseIntDigits_stringOfIndex in H. injection H as H. lia.
Qed.

Lemma datasetHighlightIndex_eqb (a b : Overlay) :
  optionStringEqb (Some (datasetHighlightIndex a)) (Some (datasetHighlightIndex b))
  = Nat.eqb (highlightIndex a) (highlightIndex b).
Proof.
  unfold datasetHighlightIndex. cbn [optionStringEqb].
  destruct (Nat.eqb_spec (highlightIndex a) (highlightIndex b)) as [->|Hne].
  - apply String.eqb_refl.
  - apply String.eqb_neq. intros H. apply Hne, stringOfIndex_injective, H.
Qed.

Lemma sameElement_refl (o : Overlay) : sameElement o o.
Proof. unfold sameElement. repeat split. Qed.

Lemma sameElement_trans (a b c : Overlay) :
  sameElement a b -> sameElement b c -> sameElement a c.
Proof.
  unfold sameElement. intros H1 H2.
  destruct H1 as (?&?&?&?&?&?&?&?&?&?), H2 as (?&?&?&?&?&?&?&?&?&?).
  repeat split; congruence.
Qed.

Lemma restoreOne_same (saved : list (nat * string)) :
  forall o, sameElement o (restoreOne saved o)
            /\ isSelected (restoreOne saved o) = isSelected o.
Proof.
  unfold restoreOne. induction saved as [|entry rest IH]; intros o; cbn [fold_left].
  - split; [apply sameElement_refl|reflexivity].
  - destruct (Nat.eqb (ovKey o) (fst entry)); [|apply IH].
    destruct (IH (withPointerEvents o (snd entry))) as [Hs Hsel].
    split; [|exact Hsel].
    apply (sameElement_trans _ (withPointerEvents o (snd entry))); [|exact Hs].
    unfold sameElement. repeat split.
Qed.

(** What hiding the handles can do to the overlays: nothing but restore
    pointer-events values. *)
Lemma hideOffsetHandles_overlays (p : Page) :
  exists f, overlays (hideOffsetHandles p) = map f (overlays p)
            /\ forall o, sameElement o (f o) /\ isSelected (f o) = isSelected o.
Proof.
  destruct (hideOffsetHandles_state p) as [_ [_ [_ [_ [_ [_ [_ [Hidle Hactive]]]]]]]].
  destruct (activeOffsetHandleDrag p) as [d|].
  - destruct (Hactive d eq_refl) as [Ho _].
    exists (restoreOne (disabledOverlayPointerEvents d)).
    rewrite Ho, restorePointerEvents_map. split; [reflexivity|apply restoreOne_same].
  - destruct (Hidle eq_refl) as [Ho _]. exists (fun o => o).
    rewrite Ho, map_id. split; [reflexivity|].
    intros o. split; [apply sameElement_refl|reflexivity].
Qed.

Lemma updateOffsetHandles_overlays (p : Page) :
  (exists f, overlays (updateOffsetHandles engineSort p) = map f (overlays p)
             /\ forall o, sameElement o (f o) /\ isSelected (f o) = isSelected o)
  /\ selectedHighlightId (updateOffsetHandles engineSort p) = selectedHighlightId p
  /\ selectedHighlightIndex (updateOffsetHandles engineSort p) = selectedHighlightIndex p
  /\ highlights (updateOffsetHandles engineSort p) = highlights p
  /\ persistenceCalls (updateOffsetHandles engineSort p) = persistenceCalls p.
Proof.
  unfold updateOffsetHandles.
  destruct (resolveSelectedTextHighlight p) as [[highlight target]|].
  - cbv zeta.
    destruct (getMatchingOverlays engineSort _ _ _) as [|m ms].
    + destruct (hideOffsetHandles_overlays
                  (call p (SetSelectionPreviewColor (color highlight) DefaultAlpha)))
        as [f [Hf Hsame]].
      destruct (hideOffsetHandles_state
                  (call p (SetSelectionPreviewColor (color highlight) DefaultAlpha)))
        as [_ [_ [Hh [_ [Hid [Hidx [Hc _]]]]]]].
      split; [exists f; split; [exact Hf|exact Hsame]|].
      rewrite Hid, Hidx, Hh, Hc, persistenceCalls_call. cbn [isPersistenceCall].
      rewrite app_nil_r. repeat split.
    + rewrite !persistenceCalls_call. cbn [isPersistenceCall]. rewrite !app_nil_r.
      split; [|repeat split].
      exists (fun o => o). cbn [overlays call]. rewrite map_id. split; [reflexivity|].
      intros o. split; [apply sameElement_refl|reflexivity].
  - destruct (hideOffsetHandles_overlays p) as [f [Hf Hsame]].
    destruct (hideOffsetHandles_state p) as [_ [_ [Hh [_ [Hid [Hidx [Hc _]]]]]]].
    split; [exists f; split; [exact Hf|exact Hsame]|].
    repeat split; assumption.
Qed.

Lemma getMatchingOverlays_by_id (p : Page) (id index : option string) :
  truthy id = true ->
  (exists o, In o (overlays p) /\ optionStringEqb (highlightId o) id = true) ->
  Permutation (getMatchingOverlays engineSort p id index)
              (filter (fun o => optionStringEqb (highlightId o) id) (overlays p)).
Proof.
  intros Hid [o [Hin Ho]]. unfold getMatchingOverlays. rewrite Hid.
  destruct (filter (fun o => optionStringEqb (highlightId o) id) (overlays p))
    as [|a l] eqn:E.
  - exfalso. assert (Hf : In o []) by (rewrite <- E; apply filter_In; split; assumption).
    destruct Hf.
  - apply engineSort_permutes.
Qed.

Lemma getMatchingOverlays_by_index (p : Page) (id index : option string) :
  truthy id = false ->
  Permutation (getMatchingOverlays engineSort p id index)
              (if truthy index
               then filter (fun o => optionStringEqb (Some (datasetHighlightIndex o)) index)
                           (overlays p)
               else []).
Proof.
  intros Hid. unfold getMatchingOverlays. rewrite Hid. apply engineSort_permutes.
Qed.

Lemma Forall2_map_same {A B : Type} (R : A -> B -> Prop) (f : A -> B) (l : list A) :
  (forall x, In x l -> R x (f x)) -> Forall2 R l (map f l).
Proof.
  induction l as [|a l IH]; intros H; simpl; constructor.
  - apply H. left. reflexivity.
  - apply IH. intros x Hx. apply H. right. exact Hx.
Qed.

Lemma key_determines (l : list Overlay) (a b : Overlay) :
  NoDup (map ovKey l) -> In a l -> In b l -> ovKey a = ovKey b -> a = b.
Proof.
  induction l as [|c l IH]; simpl; [tauto|].
  intros Hnd Ha Hb Hk. inversion Hnd as [|? ? Hnotin Hnd']; subst.
  destruct Ha as [->|Ha], Hb as [->|Hb].
  - reflexivity.
  - exfalso. apply Hnotin. rewrite Hk. apply in_map. exact Hb.
  - exfalso. apply Hnotin. rewrite <- Hk. apply in_map. exact Ha.
  - apply IH; assumption.
Qed.

(** The matches of the reference that [rememberSelectedOverlayReference]
    keeps of an overlay of the page are the overlays of its highlight. *)
Lemma matches_of_remembered (p : Page) (overlay : Overlay) :
  In overlay (overlays p) ->
  let p1 := clearSelectedOverlays (rememberSelectedOverlayReference p overlay) in
  Permutation
    (getMatchingOverlays engineSort p1 (selectedHighlightId p1) (selectedHighlightIndex p1))
    (filter (sameHighlight overlay) (overlays p1)).
Proof.
  intros Hin p1. unfold sameHighlight.
  assert (Hidx : truthy (Some (datasetHighlightIndex overlay)) = true)
    by apply stringOfIndex_truthy.
  assert (Hov : overlays p1 = map (fun o => withSelected o false) (overlays p)) by reflexivity.
  assert (Hsid : selectedHighlightId p1
                 = if truthy (highlightId overlay) then highlightId overlay else None)
    by reflexivity.
  assert (Hsidx : selectedHighlightIndex p1 = Some (datasetHighlightIndex overlay)).
  { cbn [p1 clearSelectedOverlays rememberSelectedOverlayReference setOverlays
         setSelectedReference selectedHighlightIndex]. rewrite Hidx. reflexivity. }
  rewrite Hsid, Hsidx. destruct (truthy (highlightId overlay)) eqn:Et.
  - apply getMatchingOverlays_by_id; [exact Et|].
    exists (withSelected overlay false). split.
    + rewrite Hov. apply (in_map (fun o => withSelected o false)). exact Hin.
    + cbn [highlightId withSelected]. destruct (highlightId overlay) as [s|];
        [apply optionStringEqb_refl|discriminate].
  - eapply Permutation_trans; [apply getMatchingOverlays_by_index; reflexivity|].
    rewrite Hidx. erewrite filter_ext; [apply Permutation_refl|].
    intros o. apply datasetHighlightIndex_eqb.
Qed.

Lemma sameHighlight_self (overlay : Overlay) (selected : bool) :
  sameHighlight overlay (withSelected overlay selected) = true.
Proof.
  unfold sameHighlight. cbn [highlightId highlightIndex withSelected].
  destruct (highlightId overlay) as [[|c s]|]; cbn [truthy];
    try apply Nat.eqb_refl.
  apply optionStringEqb_refl.
Qed.

Lemma sameHighlight_cleared (overlay o : Overlay) (selected : bool) :
  sameHighlight overlay (withSelected o selected) = sameHighlight overlay o.
Proof. reflexivity. Qed.

(** The overlays that [addSelectedClass] marks, when keys name elements. *)
Lemma marked_iff_same_highlight (p : Page) (overlay o : Overlay) (matches : list Overlay) :
  NoDup (map ovKey (overlays p)) -> In o (overlays p) ->
  Permutation matches
              (filter (sameHighlight overlay)
                      (map (fun o' => withSelected o' false) (overlays p))) ->
  existsb (fun m => Nat.eqb (ovKey m) (ovKey (withSelected o false))) matches
  = sameHighlight overlay o.
Proof.
  intros Hnd Hin Hperm. cbn [ovKey withSelected].
  destruct (sameHighlight overlay o) eqn:Es.
  - apply existsb_exists. exists (withSelected o false). split; [|apply Nat.eqb_refl].
    apply (Permutation_in _ (Permutation_sym Hperm)). apply filter_In. split.
    + apply (in_map (fun o' => withSelected o' false)). exact Hin.
    + rewrite sameHighlight_cleared. exact Es.
  - apply not_true_is_false. intros Hex. apply existsb_exists in Hex.
    destruct Hex as [m [Hm Hk]]. apply Nat.eqb_eq in Hk.
    apply (Permutation_in _ Hperm) in Hm. apply filter_In in Hm. destruct Hm as [Hm Hs].
    apply in_map_iff in Hm. destruct Hm as [o' [<- Ho']].
    cbn [ovKey withSelected] in Hk.
    assert (o' = o) by (apply (key_determines (overlays p)); assumption).
    subst o'. rewrite sameHighlight_cleared in Hs. congruence.
Qed.

(** The steps of [selectOverlay] for an overlay of the page. *)
Lemma selectOverlay_steps (p : Page) (overlay : Overlay) (options : OverlaySelectionOptions) :
  In overlay (overlays p) ->
  let result := selectOverlay engineSort p overlay options in
  let p' := snd (fst result) in
  exists matches primary f,
    Permutation matches
                (filter (sameHighlight overlay)
                        (map (fun o => withSelected o false) (overlays p)))
    /\ In primary matches
    /\ (forall o, sameElement o (f o) /\ isSelected (f o) = isSelected o)
    /\ fst (fst result) = true
    /\ overlays p'
       = map (fun o =>
                f (if existsb (fun m => Nat.eqb (ovKey m) (ovKey o)) matches
                   then withSelected (withSelected o false) true
                   else withSelected o false))
             (overlays p)
    /\ selectedHighlightId p'
       = (if truthy (highlightId overlay) then highlightId overlay else None)
    /\ selectedHighlightIndex p' = Some (datasetHighlightIndex overlay)
    /\ highlights p' = highlights p
    /\ persistenceCalls p' = persistenceCalls p
    /\ (openWidget options <> Some false ->
        In (OpenHighlightWidgetForOverlay (ovKey primary) (openPoint options)) (snd result)).
Proof.
  intros Hin result p'. unfold p', result, selectOverlay, applySelectedOverlayState.
  clear p' result.
  pose proof (matches_of_remembered p overlay Hin) as Hperm. cbv zeta in Hperm.
  set (p1 := clearSelectedOverlays (rememberSelectedOverlayReference p overlay)) in *.
  assert (Hidx : truthy (Some (datasetHighlightIndex overlay)) = true)
    by apply stringOfIndex_truthy.
  assert (Hov : overlays p1 = map (fun o => withSelected o false) (overlays p)) by reflexivity.
  rewrite Hov in Hperm.
  destruct (getMatchingOverlays engineSort p1 (selectedHighlightId p1)
              (selectedHighlightIndex p1)) as [|primary others] eqn:Em.
  { exfalso. apply Permutation_nil in Hperm.
    assert (Hf : In (withSelected overlay false) []).
    { rewrite <- Hperm. apply filter_In. split.
      - apply (in_map (fun o => withSelected o false)). exact Hin.
      - apply sameHighlight_self. }
    destruct Hf. }
  set (p2 := addSelectedClass p1 (primary :: others)).
  destruct (updateOffsetHandles_overlays p2) as [[f [Hf Hsame]] [Hid [Hindex [Hh Hc]]]].
  exists (primary :: others), primary, f. cbn [fst snd].
  split; [exact Hperm|]. split; [left; reflexivity|]. split; [exact Hsame|].
  split; [reflexivity|].
  split.
  { rewrite Hf. cbn [p2 addSelectedClass overlays setOverlays]. rewrite Hov, !map_map.
    reflexivity. }
  split; [rewrite Hid; reflexivity|].
  split.
  { rewrite Hindex.
    cbn [p2 p1 addSelectedClass clearSelectedOverlays rememberSelectedOverlayReference
         setOverlays setSelectedReference selectedHighlightIndex].
    rewrite Hidx. reflexivity. }
  split; [rewrite Hh; reflexivity|]. split; [rewrite Hc; reflexivity|].
  intros Hopen. rewrite !in_app_iff. right. left.
  destruct (openWidget options) as [[|]|]; try (left; reflexivity).
  exfalso. apply Hopen. reflexivity.
Qed.

(** With keys that name elements, the class is on the overlays of the
    highlight and on no other, and the primary overlay is one of them. *)
Lemma selectOverlay_marks (p : Page) (overlay : Overlay) (options : OverlaySelectionOptions) :
  NoDup (map ovKey (overlays p)) -> In overlay (overlays p) ->
  let result := selectOverlay engineSort p overlay options in
  Forall2 (fun o o' => sameElement o o' /\ isSelected o' = sameHighlight overlay o)
          (overlays p) (overlays (snd (fst result)))
  /\ exists primary,
       In primary (overlays p) /\ sameHighlight overlay primary = true
       /\ (openWidget options <> Some false ->
           In (OpenHighlightWidgetForOverlay (ovKey primary) (openPoint options))
              (snd result)).
Proof.
  intros Hnd Hin result.
  destruct (selectOverlay_steps p overlay options Hin)
    as [matches [primary [f [Hperm [Hprimary [Hsame [_ [Hov [_ [_ [_ [_ Hopen]]]]]]]]]]]].
  fold result in Hov, Hopen.
  split.
  { rewrite Hov. apply Forall2_map_same. intros o Ho.
    pose proof (marked_iff_same_highlight p overlay o matches Hnd Ho Hperm) as Hmark.
    cbn [ovKey withSelected] in Hmark. rewrite Hmark.
    destruct (sameHighlight overlay o) eqn:Es.
    - destruct (Hsame (withSelected (withSelected o false) true)) as [Hs Hsel].
      split; [|rewrite Hsel; reflexivity].
      apply (sameElement_trans _ (withSelected (withSelected o false) true)); [|exact Hs].
      unfold sameElement. repeat split.
    - destruct (Hsame (withSelected o false)) as [Hs Hsel].
      split; [|rewrite Hsel; reflexivity].
      apply (sameElement_trans _ (withSelected o false)); [|exact Hs].
      unfold sameElement. repeat split. }
  apply (Permutation_in _ Hperm) in Hprimary.
  apply filter_In in Hprimary. destruct Hprimary as [Hp Hs].
  apply in_map_iff in Hp. destruct Hp as [o [Heq Ho]]. subst primary.
  exists o. split; [exact Ho|]. split; [rewrite sameHighlight_cleared in Hs; exact Hs|].
  exact Hopen.
Qed.

(** X19.  Selecting an overlay of the page selects its highlight and
    nothing else.  For an overlay of the document (elements being told
    apart by their keys), [selectOverlay] succeeds; it remembers the
    overlay's identifier and index; afterwards an overlay carries the
    selected class exactly when it belongs to the same highlight (same
    identifier, or same index when the overlay has no identifier); no
    overlay is added, removed, moved or relabelled; the highlights are
    untouched and nothing is persisted; and unless the options forbid it the
    widget is opened for an overlay of that highlight. *)
Theorem selectOverlay_selects_its_highlight (p : Page) (overlay : Overlay)
        (options : OverlaySelectionOptions) :
  NoDup (map ovKey (overlays p)) -> In overlay (overlays p) ->
  let result := selectOverlay engineSort p overlay options in
  let p' := snd (fst result) in
  fst (fst result) = true
  /\ selectedHighlightId p'
     = (if truthy (highlightId overlay) then highlightId overlay else None)
  /\ selectedHighlightIndex p' = Some (datasetHighlightIndex overlay)
  /\ Forall2 (fun o o' => sameElement o o' /\ isSelected o' = sameHighlight overlay o)
             (overlays p) (overlays p')
  /\ highlights p' = highlights p
  /\ persistenceCalls p' = persistenceCalls p
  /\ exists primary,
       In primary (overlays p) /\ sameHighlight overlay primary = true
       /\ (openWidget options <> Some false ->
           In (OpenHighlightWidgetForOverlay (ovKey primary) (openPoint options))
              (snd result)).
Proof.
  intros Hnd Hin result p'.
  destruct (selectOverlay_steps p overlay options Hin)
    as [matches [_ [f [_ [_ [_ [Hok [_ [Hid [Hidx [Hh [Hc _]]]]]]]]]]]].
  destruct (selectOverlay_marks p overlay options Hnd Hin) as [Hall Hprimary].
  fold result in Hok, Hid, Hidx, Hh, Hc, Hall, Hprimary. fold p' in Hid, Hidx, Hh, Hc, Hall.
  split; [exact Hok|]. split; [exact Hid|]. split; [exact Hidx|].
  split; [exact Hall|]. split; [exact Hh|]. split; [exact Hc|exact Hprimary].
Qed.

Lemma sameButOverlays_refl (p : Page) : sameButOverlays p p.
Proof. unfold sameButOverlays. repeat split. Qed.

Lemma sameButOverlays_trans (p q r : Page) :
  sameButOverlays p q -> sameButOverlays q r -> sameButOverlays p r.
Proof.
  unfold sameButOverlays. intros H1 H2.
  destruct H1 as (?&?&?&?&?&?&?&?), H2 as (?&?&?&?&?&?&?&?).
  repeat split; congruence.
Qed.

Lemma createHighlightOverlayElement_frame (p : Page) (rect : DOMRect) (d : OverlayData)
      (badge : bool) :
  sameButOverlays p (createHighlightOverlayElement p rect d badge).
Proof. unfold sameButOverlays. cbn. repeat split. Qed.

Lemma emitMergedRects_frame (mergedRects : list DOMRect) :
  forall p rectIndex existingOverlays d,
    sameButOverlays p (emitMergedRects p mergedRects rectIndex existingOverlays d).
Proof.
  induction mergedRects as [|rect rest IH]; intros p rectIndex existingOverlays d;
    cbn [emitMergedRects]; [apply sameButOverlays_refl|].
  destruct (isDuplicate p existingOverlays rect); [apply IH|].
  eapply sameButOverlays_trans; [apply createHighlightOverlayElement_frame|apply IH].
Qed.

Lemma planHighlightOverlayRects_frame (p : Page) (layout : Layout) (target : Element)
      (highlight : AnyHighlightData) (index : nat) :
  sameButOverlays p (planHighlightOverlayRects p layout target highlight index).
Proof.
  assert (Hmerge : forall q rects existing d,
             sameButOverlays q (mergeHighlightOverlayRects q rects existing d)).
  { intros. apply emitMergedRects_frame. }
  assert (Hprocess : forall q rects fallback existing d,
             sameButOverlays q (processRangeForOverlayRects q rects fallback existing d)).
  { intros q rects fallback existing d. unfold processRangeForOverlayRects.
    destruct rects as [|r rs]; [apply Hmerge|]. cbv zeta.
    destruct (filter _ (r :: rs)) as [|t ts];
      destruct (filter _ (r :: rs)) as [|c cs];
      try apply sameButOverlays_refl; try apply Hmerge.
    eapply sameButOverlays_trans; apply Hmerge. }
  unfold planHighlightOverlayRects. cbv zeta.
  destruct (type highlight).
  - destruct (resolveTextBoundaries target (startOffset highlight) (endOffset highlight))
      as [[s|] [e|]]; try apply Hmerge. apply Hprocess.
  - destruct (existsb _ LINE_BY_LINE_OVERLAY_TAGS); [apply Hprocess|apply Hmerge].
  - destruct (existsb _ LINE_BY_LINE_OVERLAY_TAGS); [apply Hprocess|apply Hmerge].
Qed.

Lemma removeExistingHighlightOverlays_frame (p : Page) (index : nat) :
  sameButOverlays p (removeExistingHighlightOverlays p index).
Proof. unfold sameButOverlays. cbn. repeat split. Qed.

Lemma planEach_frame (rest : list AnyHighlightData) :
  forall p index, sameButOverlays p (planEach layoutOf p rest index).
Proof.
  induction rest as [|highlight rest' IH]; intros p index; cbn [planEach];
    [apply sameButOverlays_refl|].
  destruct (getElementByXPath (elements p) (xpath highlight)) as [target|]; [|apply IH].
  eapply sameButOverlays_trans; [apply planHighlightOverlayRects_frame|apply IH].
Qed.

Lemma repaintEach_frame (rest : list AnyHighlightData) :
  forall p index, sameButOverlays p (repaintEach layoutOf p rest index).
Proof.
  induction rest as [|highlight rest' IH]; intros p index; cbn [repaintEach];
    [apply sameButOverlays_refl|].
  destruct (getElementByXPath (elements p) (xpath highlight)) as [target|]; [|apply IH].
  eapply sameButOverlays_trans; [|apply IH].
  destruct (overlaysOfIndex p index).
  - apply planHighlightOverlayRects_frame.
  - eapply sameButOverlays_trans;
      [apply removeExistingHighlightOverlays_frame|apply planHighlightOverlayRects_frame].
Qed.

Lemma ensureHighlightOverlaysPresent_frame (p : Page) :
  sameButOverlays p (ensureHighlightOverlaysPresent layoutOf p).
Proof.
  unfold ensureHighlightOverlaysPresent.
  destruct (overlays p); [|apply sameButOverlays_refl].
  destruct (highlights p); [apply sameButOverlays_refl|apply planEach_frame].
Qed.

Lemma optionStringEqb_Some (a : option string) (s : string) :
  optionStringEqb a (Some s) = true <-> a = Some s.
Proof.
  destruct a as [t|]; cbn [optionStringEqb].
  - rewrite String.eqb_eq. split; [intros ->; reflexivity|intros H; injection H; auto].
  - split; discriminate.
Qed.

(** X20.  [selectHighlightOverlayById] succeeds exactly when the identifier
    is not empty and some overlay carries it once the overlays have been
    made present.  On success the identifier is the selected one, every
    overlay that carries it has the selected class, the highlights are
    untouched and nothing is persisted; on failure the selected reference
    is the one from before and no widget is opened or notified. *)
Theorem selectHighlightOverlayById_succeeds_iff (p : Page) (id : string)
        (options : OverlaySelectionOptions) :
  let result := selectHighlightOverlayById engineSort layoutOf p id options in
  let p1 := ensureHighlightOverlaysPresent layoutOf p in
  let p' := snd (fst result) in
  (fst (fst result) = true
   <-> id <> EmptyString /\ exists o, In o (overlays p1) /\ highlightId o = Some id)
  /\ (fst (fst result) = true ->
      selectedHighlightId p' = Some id
      /\ (forall o', In o' (overlays p') -> highlightId o' = Some id -> isSelected o' = true)
      /\ highlights p' = highlights p
      /\ persistenceCalls p' = persistenceCalls p)
  /\ (fst (fst result) = false ->
      snd result = []
      /\ selectedHighlightId p' = selectedHighlightId p
      /\ selectedHighlightIndex p' = selectedHighlightIndex p
      /\ highlights p' = highlights p).
Proof.
  intros result p1 p'. unfold p', result, selectHighlightOverlayById. clear p' result.
  destruct id as [|c rest].
  { cbn [truthy negb fst snd]. split; [|split].
    - split; [discriminate|]. intros [H _]. exfalso. apply H. reflexivity.
    - discriminate.
    - intros _. repeat split. }
  cbn [truthy negb]. fold p1.
  destruct (ensureHighlightOverlaysPresent_frame p) as [Hid [Hidx [Hh [_ [_ [_ [_ Hcalls]]]]]]].
  fold p1 in Hid, Hidx, Hh, Hcalls.
  destruct (filter (fun o => optionStringEqb (highlightId o) (Some (String c rest)))
                   (overlays p1)) as [|a l] eqn:Ef.
  - assert (Hm : getMatchingOverlays engineSort p1 (Some (String c rest)) None = []).
    { unfold getMatchingOverlays. cbn [truthy]. rewrite Ef.
      apply Permutation_nil. apply Permutation_sym. apply engineSort_permutes. }
    rewrite Hm. cbn [fst snd]. split; [|split].
    + split; [discriminate|]. intros [_ [o [Ho Hoid]]]. exfalso.
      assert (Hin : In o []).
      { rewrite <- Ef. apply filter_In. split; [exact Ho|].
        apply optionStringEqb_Some. exact Hoid. }
      destruct Hin.
    + discriminate.
    + intros _. repeat split; assumption.
  - assert (Hperm : Permutation
                      (getMatchingOverlays engineSort p1 (Some (String c rest)) None)
                      (a :: l)).
    { rewrite <- Ef. apply getMatchingOverlays_by_id; [reflexivity|].
      exists a.
      apply (proj1 (filter_In (fun o => optionStringEqb (highlightId o) (Some (String c rest)))
                              a (overlays p1))).
      rewrite Ef. left. reflexivity. }
    destruct (getMatchingOverlays engineSort p1 (Some (String c rest)) None)
      as [|first others] eqn:Em.
    { apply Permutation_nil in Hperm. discriminate. }
    assert (Hfirst : In first (overlays p1) /\ highlightId first = Some (String c rest)).
    { assert (Hin : In first (a :: l)) by (apply (Permutation_in _ Hperm); left; reflexivity).
      rewrite <- Ef in Hin. apply filter_In in Hin. destruct Hin as [Hin Hoid].
      split; [exact Hin|apply optionStringEqb_Some; exact Hoid]. }
    destruct Hfirst as [Hin Hfid].
    destruct (selectOverlay_steps p1 first options Hin)
      as [matches [primary [f [Hmperm [_ [Hsame [Hok [Hov [Hsid [_ [Hh' [Hc' _]]]]]]]]]]]].
    split; [|split].
    + split; [|intros _; exact Hok]. intros _. split; [discriminate|].
      exists first. split; assumption.
    + intros _. split; [rewrite Hsid, Hfid; reflexivity|].
      split; [|split; [rewrite Hh'; exact Hh|]].
      * intros o' Ho' Hoid. rewrite Hov in Ho'. apply in_map_iff in Ho'.
        destruct Ho' as [o [Heq Ho]].
        assert (Hmark : existsb (fun m => Nat.eqb (ovKey m) (ovKey o)) matches = true).
        { apply existsb_exists. exists (withSelected o false). split; [|apply Nat.eqb_refl].
          apply (Permutation_in _ (Permutation_sym Hmperm)). apply filter_In. split.
          - apply (in_map (fun o0 => withSelected o0 false)). exact Ho.
          - rewrite sameHighlight_cleared. unfold sameHighlight. rewrite Hfid. cbn [truthy].
            apply optionStringEqb_Some. rewrite <- Hoid. symmetry.
            destruct (Hsame (if existsb (fun m => Nat.eqb (ovKey m) (ovKey o)) matches
                             then withSelected (withSelected o false) true
                             else withSelected o false)) as [Hs _].
            rewrite <- Heq. destruct Hs as (_ & _ & Hsid' & _). rewrite Hsid'.
            destruct (existsb _ matches); reflexivity. }
        rewrite Hmark in Heq. subst o'.
        destruct (Hsame (withSelected (withSelected o false) true)) as [_ Hsel].
        rewrite Hsel. reflexivity.
      * rewrite Hc'. unfold persistenceCalls. rewrite Hcalls. reflexivity.
    + rewrite Hok. discriminate.
Qed.

(** X21.  A click or tap that reaches the overlay layer at a point selects
    the highlight of the topmost overlay under that point and opens the
    widget there; when no overlay is under the point it only hides the
    tooltip: no reference is remembered, no overlay changes and no widget
    call is made. *)
Theorem click_selects_topmost_highlight (p : Page) (clientX clientY : Q) :
  NoDup (map ovKey (overlays p)) ->
  let result :=
    handleHighlightClick engineSort p (mkUiEvent None (Some (clientX, clientY))) in
  match findOverlayAtPoint p clientX clientY with
  | Some overlay =>
      containsPoint p clientX clientY overlay = true
      /\ selectedHighlightId (fst result)
         = (if truthy (highlightId overlay) then highlightId overlay else None)
      /\ selectedHighlightIndex (fst result) = Some (datasetHighlightIndex overlay)
      /\ Forall2 (fun o o' => sameElement o o' /\ isSelected o' = sameHighlight overlay o)
                 (overlays p) (overlays (fst result))
      /\ exists primary,
           In primary (overlays p) /\ sameHighlight overlay primary = true
           /\ In (OpenHighlightWidgetForOverlay (ovKey primary) (Some (clientX, clientY)))
                 (snd result)
  | None => result = (call p HideHighlightWidgetTooltip, [])
  end.
Proof.
  intros Hnd result. unfold result, handleHighlightClick, findOverlayFromEvent.
  cbn [closestOverlay eventPoint]. clear result.
  change (findOverlayAtPoint (call p HideHighlightWidgetTooltip) clientX clientY)
    with (findOverlayAtPoint p clientX clientY).
  pose proof (find_last (containsPoint p clientX clientY) (overlays p)) as Hhit.
  fold (findOverlayAtPoint p clientX clientY) in Hhit.
  destruct (findOverlayAtPoint p clientX clientY) as [overlay|]; [|reflexivity].
  destruct Hhit as [before [after [Hov [Hcontains _]]]].
  assert (Hin : In overlay (overlays (call p HideHighlightWidgetTooltip))).
  { cbn [overlays call]. rewrite Hov. apply in_elt. }
  set (options := mkOptions (Some true) (Some false) (Some true) (Some (clientX, clientY))).
  destruct (selectOverlay_steps (call p HideHighlightWidgetTooltip) overlay options Hin)
    as [matches [_ [f [_ [_ [_ [_ [_ [Hid [Hidx _]]]]]]]]]].
  destruct (selectOverlay_marks (call p HideHighlightWidgetTooltip) overlay options Hnd Hin)
    as [Hall [primary [Hp [Hs Hopen]]]].
  destruct (selectOverlay engineSort (call p HideHighlightWidgetTooltip) overlay options)
    as [[ok p'] widgetCalls].
  cbn [fst snd] in *.
  split; [exact Hcontains|]. split; [exact Hid|]. split; [exact Hidx|].
  split; [exact Hall|]. exists primary. split; [exact Hp|]. split; [exact Hs|].
  apply Hopen. discriminate.
Qed.

End OverlaySelectionFacts.

Section OverlaySelectionExamples.
Import Js Dom Highlighter Geometry Overlays OverlaySelection AnnotationBrowser Examples.

Lemma twoHighlightsPage_keys : NoDup (map ovKey (overlays twoHighlightsPage)).
Proof.
  cbn. repeat constructor; cbn; intros H; repeat (destruct H as [H|H]; try discriminate H);
    exact H.
Qed.

(** Clicking the overlay of " Maxwell" remembers its identifier. *)
Lemma selectOverlay_selects_its_highlight_witness :
  let result := selectOverlay arraySort twoHighlightsPage maxwellOverlay
                              (mkOptions None None None None) in
  fst (fst result) = true
  /\ selectedHighlightId (snd (fst result)) = Some "1700000000500".
Proof.
  cbv zeta.
  assert (Hin : In maxwellOverlay (overlays twoHighlightsPage)) by (right; left; reflexivity).
  pose proof (selectOverlay_selects_its_highlight arraySort
                (fun comparefn l => arraySort_perm comparefn l)
                twoHighlightsPage maxwellOverlay (mkOptions None None None None)
                twoHighlightsPage_keys Hin) as H.
  cbv zeta in H. destruct H as [Hok [Hid _]]. split; [exact Hok|exact Hid].
Defined.

Lemma selectHighlightOverlayById_succeeds_iff_witness :
  fst (fst (selectHighlightOverlayById arraySort (fun _ => clerkLayout) twoHighlightsPage
                                       "1700000000500" (mkOptions None None None None)))
  = true.
Proof.
  pose proof (selectHighlightOverlayById_succeeds_iff arraySort (fun _ => clerkLayout)
                (fun comparefn l => arraySort_perm comparefn l)
                twoHighlightsPage "1700000000500" (mkOptions None None None None)) as H.
  cbv zeta in H. destruct H as [[_ Hyes] _]. apply Hyes.
  split; [discriminate|]. exists maxwellOverlay. split; [|reflexivity].
  right. left. reflexivity.
Defined.

(** A click at (20, 50), inside the overlay of " Maxwell" only. *)
Lemma click_selects_topmost_highlight_witness :
  selectedHighlightId
    (fst (handleHighlightClick arraySort twoHighlightsPage
                               (mkUiEvent None (Some (20%Q, 50%Q)))))
  = Some "1700000000500".
Proof.
  pose proof (click_selects_topmost_highlight arraySort
                (fun comparefn l => arraySort_perm comparefn l)
                twoHighlightsPage 20%Q 50%Q twoHighlightsPage_keys) as H.
  cbv zeta in H.
  assert (Hhit : findOverlayAtPoint twoHighlightsPage 20%Q 50%Q = Some maxwellOverlay)
    by (vm_compute; reflexivity).
  rewrite Hhit in H. destruct H as [_ [Hid _]]. exact Hid.
Defined.

End OverlaySelectionExamples.

(** ** Repainting the overlays *)

Section RepaintFacts.
Import Js Dom Highlighter Geometry Overlays OverlaySelection.

Variable engineSort : (Overlay -> Overlay -> JsNumber) -> list Overlay -> list Overlay.
Variable layoutOf : nat -> Layout.

Lemma emitMergedRects_fresh (mergedRects : list DOMRect) :
  forall (p : Page) (rectIndex : nat) (d : OverlayData),
    exists new,
      overlays (emitMergedRects p mergedRects rectIndex [] d) = (overlays p ++ new)%list
      /\ map overlayBox new = map (paddedBox p) mergedRects
      /\ Forall (fun o => highlightIndex o = odIndex d) new.
Proof.
  induction mergedRects as [|rect rest IH]; intros p rectIndex d; cbn [emitMergedRects].
  - exists []. rewrite app_nil_r. repeat split. constructor.
  - cbn [isDuplicate existsb].
    set (p1 := createHighlightOverlayElement p rect d
                 (hasNotes (odNotes d) && Nat.eqb rectIndex 0)).
    destruct (IH p1 (S rectIndex) d) as [new [Hov [Hbox Hidx]]].
    assert (Hp1 : exists o, overlays p1 = (overlays p ++ [o])%list
                            /\ overlayBox o = paddedBox p rect
                            /\ highlightIndex o = odIndex d).
    { eexists. cbn. split; [reflexivity|]. split; reflexivity. }
    destruct Hp1 as [o [Ho [Hobox Hoidx]]].
    exists (o :: new). rewrite Hov, Ho, <- app_assoc. split; [reflexivity|].
    split; [|constructor; assumption].
    cbn [map]. rewrite Hobox, Hbox. reflexivity.
Qed.

Lemma mergeHighlightOverlayRects_fresh (p : Page) (rects : list DOMRect) (d : OverlayData) :
  exists new,
    overlays (mergeHighlightOverlayRects p rects [] d) = (overlays p ++ new)%list
    /\ map overlayBox new = map (paddedBox p) (mergedRectsOf rects)
    /\ Forall (fun o => highlightIndex o = odIndex d) new.
Proof. apply emitMergedRects_fresh. Qed.

Lemma paddedBox_frame (p q : Page) : sameButOverlays p q -> paddedBox q = paddedBox p.
Proof.
  intros (_ & _ & _ & _ & Hx & Hy & _). unfold paddedBox. rewrite Hx, Hy. reflexivity.
Qed.

Lemma processRangeForOverlayRects_fresh (p : Page) (rects : list DOMRect)
      (fallbackRect : DOMRect) (d : OverlayData) :
  exists new,
    overlays (processRangeForOverlayRects p rects fallbackRect [] d) = (overlays p ++ new)%list
    /\ map overlayBox new = map (paddedBox p) (rangeRects rects fallbackRect)
    /\ Forall (fun o => highlightIndex o = odIndex d) new.
Proof.
  unfold processRangeForOverlayRects, rangeRects.
  destruct rects as [|r rs]; [apply mergeHighlightOverlayRects_fresh|]. cbv zeta.
  set (average := calculateAverageLineHeight (r :: rs)).
  set (textRects :=
         filter (fun rect => Qle_bool (height rect) (fl (average * (3 # 2)))) (r :: rs)).
  set (complexRects :=
         filter (fun rect => Qlt_bool (fl (average * (3 # 2))) (height rect)) (r :: rs)).
  set (p1 := match textRects with
             | [] => p
             | _ :: _ => mergeHighlightOverlayRects p textRects [] d
             end).
  assert (H1 : exists new, overlays p1 = (overlays p ++ new)%list
                           /\ map overlayBox new = map (paddedBox p) (mergedRectsOf textRects)
                           /\ Forall (fun o => highlightIndex o = odIndex d) new
                           /\ sameButOverlays p p1).
  { unfold p1. destruct textRects as [|t ts].
    - exists []. rewrite app_nil_r. repeat split; constructor.
    - destruct (mergeHighlightOverlayRects_fresh p (t :: ts) d) as [new [Ho [Hb Hi]]].
      exists new. repeat split; try assumption; apply emitMergedRects_frame. }
  destruct H1 as [new1 [Ho1 [Hb1 [Hi1 Hsame]]]].
  assert (H2 : exists new,
             overlays (match complexRects with
                       | [] => p1
                       | _ :: _ => mergeHighlightOverlayRects p1 complexRects [] d
                       end) = (overlays p1 ++ new)%list
             /\ map overlayBox new = map (paddedBox p) (mergedRectsOf complexRects)
             /\ Forall (fun o => highlightIndex o = odIndex d) new).
  { destruct complexRects as [|c cs].
    - exists []. rewrite app_nil_r. repeat split; constructor.
    - destruct (mergeHighlightOverlayRects_fresh p1 (c :: cs) d) as [new [Ho [Hb Hi]]].
      exists new. rewrite (paddedBox_frame p p1 Hsame) in Hb. repeat split; assumption. }
  destruct H2 as [new2 [Ho2 [Hb2 Hi2]]].
  exists (new1 ++ new2)%list. rewrite Ho2, Ho1, <- app_assoc. split; [reflexivity|].
  split; [rewrite !map_app, Hb1, Hb2; reflexivity|apply Forall_app; split; assumption].
Qed.

(** Planning a highlight none of whose overlays exists. *)
Lemma planHighlightOverlayRects_fresh (p : Page) (layout : Layout) (target : Element)
      (highlight : AnyHighlightData) (index : nat) :
  overlaysOfIndex p index = [] ->
  exists new,
    overlays (planHighlightOverlayRects p layout target highlight index)
    = (overlays p ++ new)%list
    /\ map overlayBox new = map (paddedBox p) (plannedRects layout target highlight)
    /\ Forall (fun o => highlightIndex o = index) new.
Proof.
  intros Hnone. unfold planHighlightOverlayRects, plannedRects. rewrite Hnone. cbv zeta.
  change index with (odIndex (overlayDataOf highlight index)) at 5 6 7 8.
  destruct (type highlight).
  - destruct (resolveTextBoundaries target (startOffset highlight) (endOffset highlight))
      as [[s|] [e|]];
      first [apply processRangeForOverlayRects_fresh|apply mergeHighlightOverlayRects_fresh].
  - destruct (existsb _ LINE_BY_LINE_OVERLAY_TAGS);
      first [apply processRangeForOverlayRects_fresh|apply mergeHighlightOverlayRects_fresh].
  - destruct (existsb _ LINE_BY_LINE_OVERLAY_TAGS);
      first [apply processRangeForOverlayRects_fresh|apply mergeHighlightOverlayRects_fresh].
Qed.

Lemma overlaysOfIndex_app (p : Page) (l new : list Overlay) (i : nat) :
  overlays p = (l ++ new)%list ->
  overlaysOfIndex p i
  = (filter (fun o => Nat.eqb (highlightIndex o) i) l
     ++ filter (fun o => Nat.eqb (highlightIndex o) i) new)%list.
Proof. intros H. unfold overlaysOfIndex. rewrite H. apply filter_app. Qed.

Lemma filter_index_all (new : list Overlay) (index : nat) :
  Forall (fun o => highlightIndex o = index) new ->
  filter (fun o => Nat.eqb (highlightIndex o) index) new = new.
Proof.
  induction 1 as [|o l Ho _ IH]; cbn [filter]; [reflexivity|].
  rewrite Ho, Nat.eqb_refl, IH. reflexivity.
Qed.

Lemma filter_index_none (new : list Overlay) (index i : nat) :
  Forall (fun o => highlightIndex o = index) new -> i <> index ->
  filter (fun o => Nat.eqb (highlightIndex o) i) new = [].
Proof.
  intros Hall Hne. induction Hall as [|o l Ho _ IH]; cbn [filter]; [reflexivity|].
  rewrite Ho. replace (Nat.eqb index i) with false by (symmetry; apply Nat.eqb_neq; lia).
  exact IH.
Qed.

Lemma filter_other_index (l : list Overlay) (index i : nat) :
  filter (fun o => Nat.eqb (highlightIndex o) i)
         (filter (fun o => negb (Nat.eqb (highlightIndex o) index)) l)
  = if Nat.eqb i index then [] else filter (fun o => Nat.eqb (highlightIndex o) i) l.
Proof.
  induction l as [|o l IH]; cbn [filter]; [destruct (Nat.eqb i index); reflexivity|].
  destruct (Nat.eqb_spec (highlightIndex o) index) as [Ho|Ho]; cbn [negb filter].
  - rewrite IH. destruct (Nat.eqb_spec i index) as [Hi|Hi]; [reflexivity|].
    replace (Nat.eqb (highlightIndex o) i) with false
      by (symmetry; apply Nat.eqb_neq; lia).
    reflexivity.
  - rewrite IH. destruct (Nat.eqb_spec i index) as [Hi|Hi]; [|reflexivity].
    replace (Nat.eqb (highlightIndex o) i) with false
      by (symmetry; apply Nat.eqb_neq; lia).
    reflexivity.
Qed.

(** One turn of the loop of [updateHighlightOverlayPositions] for a
    highlight whose target resolves. *)
Lemma repaint_step (p : Page) (target : Element) (highlight : AnyHighlightData)
      (index : nat) :
  let p1 := match overlaysOfIndex p index with
            | _ :: _ => removeExistingHighlightOverlays p index
            | [] => p
            end in
  let p' := planHighlightOverlayRects p1 (layoutOf index) target highlight index in
  sameButOverlays p p'
  /\ map overlayBox (overlaysOfIndex p' index)
     = map (paddedBox p) (plannedRects (layoutOf index) target highlight)
  /\ forall i, i <> index -> overlaysOfIndex p' i = overlaysOfIndex p i.
Proof.
  intros p1 p'.
  assert (Hp1 : sameButOverlays p p1
                /\ overlays p1
                   = filter (fun o => negb (Nat.eqb (highlightIndex o) index)) (overlays p)).
  { unfold p1. destruct (overlaysOfIndex p index) as [|o l] eqn:E.
    - split; [apply sameButOverlays_refl|].
      unfold overlaysOfIndex in E. symmetry. clear p1 p'.
      induction (overlays p) as [|a rest IH]; cbn [filter] in *; [reflexivity|].
      destruct (Nat.eqb (highlightIndex a) index); [discriminate|].
      cbn [negb]. rewrite IH by exact E. reflexivity.
    - split; [apply removeExistingHighlightOverlays_frame|reflexivity]. }
  destruct Hp1 as [Hsame1 Hov1].
  assert (Hnone : overlaysOfIndex p1 index = []).
  { unfold overlaysOfIndex. rewrite Hov1, filter_other_index, Nat.eqb_refl. reflexivity. }
  destruct (planHighlightOverlayRects_fresh p1 (layoutOf index) target highlight index Hnone)
    as [new [Hov [Hbox Hidx]]].
  fold p' in Hov.
  split; [|split].
  - eapply sameButOverlays_trans; [exact Hsame1|apply planHighlightOverlayRects_frame].
  - rewrite (overlaysOfIndex_app p' _ _ index Hov).
    fold (overlaysOfIndex p1 index). rewrite Hnone, filter_index_all by exact Hidx.
    cbn [app]. rewrite Hbox, (paddedBox_frame p p1 Hsame1). reflexivity.
  - intros i Hi. rewrite (overlaysOfIndex_app p' _ _ i Hov).
    rewrite (filter_index_none new index i Hidx Hi), app_nil_r.
    rewrite Hov1, filter_other_index.
    replace (Nat.eqb i index) with false by (symmetry; apply Nat.eqb_neq; exact Hi).
    reflexivity.
Qed.

(** The overlays of index [i] after the loop of
    [updateHighlightOverlayPositions] over [rest], which starts at index
    [k]. *)
Lemma repaintEach_index (rest : list AnyHighlightData) :
  forall (p : Page) (k i : nat),
    map overlayBox (overlaysOfIndex (repaintEach layoutOf p rest k) i)
    = match (if (k <=? i)%nat then nth_error rest (i - k) else None) with
      | Some highlight =>
          match getElementByXPath (elements p) (xpath highlight) with
          | Some target => map (paddedBox p) (plannedRects (layoutOf i) target highlight)
          | None => map overlayBox (overlaysOfIndex p i)
          end
      | None => map overlayBox (overlaysOfIndex p i)
      end.
Proof.
  induction rest as [|highlight rest' IH]; intros p k i; cbn [repaintEach].
  - destruct (k <=? i)%nat; [destruct (i - k)%nat|]; reflexivity.
  - set (p' := match getElementByXPath (elements p) (xpath highlight) with
               | Some target =>
                   planHighlightOverlayRects
                     match overlaysOfIndex p k with
                     | [] => p
                     | _ :: _ => removeExistingHighlightOverlays p k
                     end (layoutOf k) target highlight k
               | None => p
               end).
    assert (Hstep : sameButOverlays p p'
                    /\ map overlayBox (overlaysOfIndex p' k)
                       = match getElementByXPath (elements p) (xpath highlight) with
                         | Some target =>
                             map (paddedBox p) (plannedRects (layoutOf k) target highlight)
                         | None => map overlayBox (overlaysOfIndex p k)
                         end
                    /\ forall j, j <> k -> overlaysOfIndex p' j = overlaysOfIndex p j).
    { unfold p'. destruct (getElementByXPath (elements p) (xpath highlight)) as [target|].
      - apply repaint_step.
      - split; [apply sameButOverlays_refl|]. split; reflexivity. }
    destruct Hstep as [Hsame [Hk Hother]].
    rewrite (IH p' (S k) i).
    assert (He : elements p' = elements p) by (destruct Hsame as (_ & _ & _ & He & _); exact He).
    rewrite He, (paddedBox_frame p p' Hsame).
    destruct (Nat.leb_spec k i) as [Hki|Hki].
    + destruct (Nat.eq_dec i k) as [->|Hne].
      * replace (S k <=? k)%nat with false by (symmetry; apply Nat.leb_gt; lia).
        rewrite Nat.sub_diag. cbn [nth_error]. exact Hk.
      * replace (S k <=? i)%nat with true by (symmetry; apply Nat.leb_le; lia).
        replace (i - k)%nat with (S (i - S k)) by lia. cbn [nth_error].
        rewrite (Hother i Hne). reflexivity.
    + replace (S k <=? i)%nat with false by (symmetry; apply Nat.leb_gt; lia).
      rewrite (Hother i) by lia. reflexivity.
Qed.

Lemma hideOffsetHandles_document (p : Page) :
  elements (hideOffsetHandles p) = elements p
  /\ scrollX (hideOffsetHandles p) = scrollX p
  /\ scrollY (hideOffsetHandles p) = scrollY p.
Proof.
  unfold hideOffsetHandles, teardownOffsetHandleDrag.
  destruct (activeOffsetHandleDrag p) as [d|]; [destruct (pointerId d)|]; cbn; repeat split.
Qed.

(** What [applySelectedOverlayState] keeps: the overlays up to their
    selected class and pointer-events value, and the document. *)
Lemma applySelectedOverlayState_frame (p : Page) :
  let p' := snd (applySelectedOverlayState engineSort p) in
  (exists F, overlays p' = map F (overlays p) /\ forall o, sameElement o (F o))
  /\ highlights p' = highlights p /\ elements p' = elements p
  /\ scrollX p' = scrollX p /\ scrollY p' = scrollY p
  /\ persistenceCalls p' = persistenceCalls p.
Proof.
  unfold applySelectedOverlayState.
  set (p1 := clearSelectedOverlays p).
  assert (Hclear : forall o, sameElement o (withSelected o false))
    by (intros o; unfold sameElement; repeat split).
  destruct (getMatchingOverlays engineSort p1 (selectedHighlightId p1)
              (selectedHighlightIndex p1)) as [|primary others]; cbn [snd].
  - destruct (hideOffsetHandles_overlays p1) as [f [Hf Hsame]].
    destruct (hideOffsetHandles_state p1) as [_ [_ [Hh [_ [_ [_ [Hc _]]]]]]].
    destruct (hideOffsetHandles_document p1) as [He [Hx Hy]].
    split; [|rewrite Hh, He, Hx, Hy, Hc; repeat split].
    exists (fun o => f (withSelected o false)). split.
    + rewrite Hf. cbn [p1 clearSelectedOverlays overlays setOverlays]. apply map_map.
    + intros o. eapply sameElement_trans; [apply Hclear|apply Hsame].
  - set (p2 := addSelectedClass p1 (primary :: others)).
    destruct (updateOffsetHandles_overlays engineSort p2) as [[f [Hf Hsame]] [_ [_ [Hh Hc]]]].
    assert (Hdoc : elements (updateOffsetHandles engineSort p2) = elements p
                   /\ scrollX (updateOffsetHandles engineSort p2) = scrollX p
                   /\ scrollY (updateOffsetHandles engineSort p2) = scrollY p).
    { unfold updateOffsetHandles.
      destruct (resolveSelectedTextHighlight p2) as [[highlight target]|].
      - cbv zeta. destruct (getMatchingOverlays engineSort _ _ _) as [|m ms].
        + destruct (hideOffsetHandles_document
                      (call p2 (SetSelectionPreviewColor (color highlight) DefaultAlpha)))
            as [He [Hx Hy]].
          rewrite He, Hx, Hy. repeat split.
        + repeat split.
      - destruct (hideOffsetHandles_document p2) as [He [Hx Hy]].
        rewrite He, Hx, Hy. repeat split. }
    destruct Hdoc as [He [Hx Hy]].
    split; [|rewrite Hh, He, Hx, Hy, Hc; repeat split].
    exists (fun o => f (if existsb (fun m => Nat.eqb (ovKey m) (ovKey (withSelected o false)))
                                   (primary :: others)
                        then withSelected (withSelected o false) true
                        else withSelected o false)).
    split.
    + rewrite Hf. cbn [p2 p1 addSelectedClass clearSelectedOverlays overlays setOverlays].
      rewrite !map_map. reflexivity.
    + intros o. eapply sameElement_trans; [|apply Hsame].
      destruct (existsb _ (primary :: others)); unfold sameElement; repeat split.
Qed.

Lemma sameElement_index_map (F : Overlay -> Overlay) (l : list Overlay) (i : nat) :
  (forall o, sameElement o (F o)) ->
  map overlayBox (filter (fun o => Nat.eqb (highlightIndex o) i) (map F l))
  = map overlayBox (filter (fun o => Nat.eqb (highlightIndex o) i) l).
Proof.
  intros HF. induction l as [|o l IH]; cbn [map filter]; [reflexivity|].
  destruct (HF o) as (_ & Hidx & _ & Hl & Ht & Hw & Hh & _).
  rewrite Hidx. destruct (Nat.eqb (highlightIndex o) i); [|exact IH].
  cbn [map]. rewrite IH. f_equal. unfold overlayBox. rewrite Hl, Ht, Hw, Hh. reflexivity.
Qed.

(** The overlays of each index after a repaint. *)
Lemma repaint_index (p : Page) (i : nat) :
  let p' := fst (updateHighlightOverlayPositions engineSort layoutOf p) in
  map overlayBox (overlaysOfIndex p' i)
  = match nth_error (highlights p) i with
    | Some highlight =>
        match getElementByXPath (elements p) (xpath highlight) with
        | Some target => map (paddedBox p) (plannedRects (layoutOf i) target highlight)
        | None => map overlayBox (overlaysOfIndex p i)
        end
    | None => map overlayBox (overlaysOfIndex p i)
    end.
Proof.
  unfold updateHighlightOverlayPositions. cbn [fst].
  set (p1 := repaintEach layoutOf p (highlights p) 0).
  destruct (applySelectedOverlayState_frame p1) as [[F [HF Hsame]] _].
  unfold overlaysOfIndex at 1. rewrite HF, (sameElement_index_map F _ i Hsame).
  fold (overlaysOfIndex p1 i). unfold p1. rewrite repaintEach_index.
  cbn [Nat.leb]. rewrite Nat.sub_0_r. reflexivity.
Qed.

Lemma repaint_document (p : Page) :
  let p' := fst (updateHighlightOverlayPositions engineSort layoutOf p) in
  highlights p' = highlights p /\ elements p' = elements p
  /\ paddedBox p' = paddedBox p
  /\ persistenceCalls p' = persistenceCalls p.
Proof.
  unfold updateHighlightOverlayPositions. cbn [fst].
  set (p1 := repaintEach layoutOf p (highlights p) 0).
  destruct (applySelectedOverlayState_frame p1) as [_ [Hh [He [Hx [Hy Hc]]]]].
  destruct (repaintEach_frame layoutOf (highlights p) p 0)
    as (_ & _ & Hh1 & He1 & Hx1 & Hy1 & _ & Hc1).
  fold p1 in Hh1, He1, Hx1, Hy1, Hc1.
  rewrite Hh, He, Hc. split; [exact Hh1|]. split; [exact He1|]. split.
  - unfold paddedBox. rewrite Hx, Hy, Hx1, Hy1. reflexivity.
  - unfold persistenceCalls. rewrite Hc1. reflexivity.
Qed.

(** X22.  After a repaint every highlight whose target resolves is shown
    by exactly one overlay for each merged rectangle of its current layout,
    in order, whatever overlays the page held before.  The inline box of
    each is [paddedBox]: the rectangle in document coordinates grown by 2px
    on every edge, except that a width or a height that would be negative is
    not set, CSS refusing it (the width of a run that continues to the left,
    as in right-to-left text).  The overlays of an index without such a
    highlight keep their boxes; the highlights are untouched and nothing is
    persisted. *)
Theorem repaint_shows_planned_rectangles (p : Page) :
  let p' := fst (updateHighlightOverlayPositions engineSort layoutOf p) in
  (forall i highlight target,
      nth_error (highlights p) i = Some highlight ->
      getElementByXPath (elements p) (xpath highlight) = Some target ->
      map overlayBox (overlaysOfIndex p' i)
      = map (paddedBox p) (plannedRects (layoutOf i) target highlight)
      /\ List.length (overlaysOfIndex p' i)
         = List.length (plannedRects (layoutOf i) target highlight))
  /\ (forall i,
        match nth_error (highlights p) i with
        | Some highlight => getElementByXPath (elements p) (xpath highlight) = None
        | None => True
        end ->
        map overlayBox (overlaysOfIndex p' i) = map overlayBox (overlaysOfIndex p i))
  /\ highlights p' = highlights p
  /\ persistenceCalls p' = persistenceCalls p
  /\ snd (updateHighlightOverlayPositions engineSort layoutOf p)
     = [SyncHighlightWidgetPosition].
Proof.
  intros p'. destruct (repaint_document p) as [Hh [_ [_ Hc]]]. fold p' in Hh, Hc.
  split; [|split; [|split; [exact Hh|split; [exact Hc|reflexivity]]]].
  - intros i highlight target Hnth Htarget.
    pose proof (repaint_index p i) as H. fold p' in H. rewrite Hnth, Htarget in H.
    split; [exact H|].
    apply (f_equal (@List.length InlineBox)) in H. rewrite !length_map in H. exact H.
  - intros i Hnone. pose proof (repaint_index p i) as H. fold p' in H.
    destruct (nth_error (highlights p) i) as [highlight|]; [|exact H].
    rewrite Hnone in H. exact H.
Qed.

(** X23.  Repainting is idempotent on what is shown: a second repaint of
    an unchanged document leaves, for every index, the same boxes in the
    same order as the first, so that repeated repaints never pile up
    overlays. *)
Theorem repaint_is_idempotent (p : Page) (i : nat) :
  let p1 := fst (updateHighlightOverlayPositions engineSort layoutOf p) in
  let p2 := fst (updateHighlightOverlayPositions engineSort layoutOf p1) in
  map overlayBox (overlaysOfIndex p2 i) = map overlayBox (overlaysOfIndex p1 i)
  /\ List.length (overlaysOfIndex p2 i) = List.length (overlaysOfIndex p1 i).
Proof.
  intros p1 p2.
  assert (Hbox : map overlayBox (overlaysOfIndex p2 i) = map overlayBox (overlaysOfIndex p1 i)).
  { pose proof (repaint_index p i) as H1. fold p1 in H1.
    pose proof (repaint_index p1 i) as H2. fold p2 in H2.
    destruct (repaint_document p) as [Hh [He [Hbox _]]]. fold p1 in Hh, He, Hbox.
    rewrite Hh, He, Hbox in H2.
    destruct (nth_error (highlights p) i) as [highlight|]; [|exact H2].
    destruct (getElementByXPath (elements p) (xpath highlight)) as [target|]; [|exact H2].
    rewrite H2, H1. reflexivity. }
  split; [exact Hbox|].
  apply (f_equal (@List.length InlineBox)) in Hbox. rewrite !length_map in Hbox. exact Hbox.
Qed.

End RepaintFacts.

(** A line of right-to-left text whose second sub-run lies left of the
    first: the merged rectangle has the width -40, and its overlay is
    positioned at its left edge but has no inline width. *)
Lemma leftward_run_overlay_has_no_width :
  Overlays.mergedRectsOf [Geometry.mkDOMRect 50 0 10 10; Geometry.mkDOMRect 0 0 10 10]
  = [Geometry.mkDOMRect 50 0 (-40) 10]
  /\ OverlaySelection.paddedBox Examples.unrenderedPage (Geometry.mkDOMRect 50 0 (-40) 10)
     = OverlaySelection.mkInlineBox 8 (-2) None (Some 14%Q).
Proof. split; vm_compute; reflexivity. Qed.

(** ** Mouse-up after a drag, and what a mouse-up highlights *)

Section PointerReleaseFacts.
Import Js Dom Highlighter Geometry Overlays OverlaySelection PointerRelease.

Lemma updateSelected_flag (p : Page) (selection : Selection) :
  suppressNextMouseUpHighlight (snd (updateSelectedTextHighlightFromSelection p selection))
  = suppressNextMouseUpHighlight p.
Proof.
  unfold updateSelectedTextHighlightFromSelection.
  destruct (Nat.eqb (rangeCount selection) 0 || isCollapsed selection); [reflexivity|].
  destruct (resolveSelectedTextHighlight p) as [[selected target]|]; [|reflexivity].
  cbv zeta. destruct (Z.eqb _ _); reflexivity.
Qed.

Lemma finalize_flag (p : Page) (d : OffsetHandleDragState) (b : Browser) (x y : Q) :
  activeOffsetHandleDrag p = Some d ->
  suppressNextMouseUpHighlight (finalizeOffsetHandleDrag p b x y) = true.
Proof.
  intros Hd. unfold finalizeOffsetHandleDrag. rewrite Hd. cbv zeta.
  destruct (windowSelection b) as [sel|]; [|reflexivity].
  destruct (negb _ || isCollapsed sel); [reflexivity|].
  pose proof (updateSelected_flag
                (setSuppressNextMouseUpHighlight (teardownOffsetHandleDrag p) true) sel) as Hf.
  destruct (updateSelectedTextHighlightFromSelection _ sel) as [updated p3].
  cbn [snd] in Hf. destruct updated; cbn; exact Hf.
Qed.

(** X24.  The end of a drag swallows exactly one mouse-up.  After the
    release of an active session the next mouse-up or touch-end does nothing
    but clear the flag: it calls neither the highlighter nor the widget,
    whatever the event and the selection; the same holds after the
    cancellation of the session's pointer; and with the flag clear again, a
    mouse-up over a selection that is not collapsed is handed to
    [handleTextSelection]. *)
Theorem drag_end_swallows_one_mouseup (p : Page) (d : OffsetHandleDragState) (b : Browser)
        (x y startX startY : Q) (touchMoved : bool) (event : ReleaseEvent)
        (selectionCollapsed : option bool) :
  activeOffsetHandleDrag p = Some d ->
  let released := finalizeOffsetHandleDrag p b x y in
  let first :=
    handleMouseUp (mkReleaseState released startX startY touchMoved) event selectionCollapsed in
  snd first = []
  /\ fst first
     = mkReleaseState (setSuppressNextMouseUpHighlight released false) startX startY touchMoved
  /\ (forall point target parent table overlay,
        snd (handleMouseUp (fst first)
                           (mkReleaseEvent true (Some point) target parent table overlay)
                           (Some false))
        = [HandleTextSelection; ScheduleHighlightWidgetOpen (Some point)])
  /\ (forall pid, pointerSessionMatches p pid = true ->
        snd (handleMouseUp (mkReleaseState (handleOffsetHandlePointerCancel p pid)
                                           startX startY touchMoved)
                           event selectionCollapsed) = []).
Proof.
  intros Hd released first.
  pose proof (finalize_flag p d b x y Hd) as Hflag. fold released in Hflag.
  unfold first, handleMouseUp. cbn [page isTouchMoved]. rewrite Hflag. cbn [fst snd].
  split; [reflexivity|]. split; [reflexivity|]. split.
  - intros point target parent table overlay. reflexivity.
  - intros pid Hpid. unfold handleOffsetHandlePointerCancel. rewrite Hpid. reflexivity.
Qed.

(** The release that ends the session of pointer 1 is followed by a
    mouse-up over the paragraph. *)
Lemma drag_end_swallows_one_mouseup_witness :
  let p := run Examples.examplePage [Examples.pressStartHandle] in
  let released := finalizeOffsetHandleDrag p Examples.browserWithClerk 100%Q 50%Q in
  snd (handleMouseUp (mkReleaseState released 0 0 false)
                     (mkReleaseEvent true (Some (100%Q, 50%Q))
                                     (Some (mkDomElement "P" EmptyString [] false false false))
                                     None None None)
                     (Some true)) = [].
Proof.
  cbv zeta.
  assert (Hd : activeOffsetHandleDrag (run Examples.examplePage [Examples.pressStartHandle])
               = Some Examples.startHandleSession) by (vm_compute; reflexivity).
  pose proof (drag_end_swallows_one_mouseup _ _ Examples.browserWithClerk 100%Q 50%Q 0 0 false
                (mkReleaseEvent true (Some (100%Q, 50%Q))
                                (Some (mkDomElement "P" EmptyString [] false false false))
                                None None None)
                (Some true) Hd) as H.
  cbv zeta in H. destruct H as [Hnone _]. exact Hnone.
Defined.

(** X25.  What a mouse-up hands to [highlightElement].  It does so only
    when the flag is clear, the selection is absent or collapsed and no
    overlay is under the release; the element is then the table of a table
    cell or row, or else an element that [isIgnoredElement] accepts: the
    target itself, or its parent when the target is ignored.  An element
    that is ignored is never highlighted in place of a target that is not a
    table cell. *)
Theorem mouseup_highlights_allowed_element (s : ReleaseState) (event : ReleaseEvent)
        (selectionCollapsed : option bool) (element : DomElement) :
  In (HighlightElement element) (snd (handleMouseUp s event selectionCollapsed)) ->
  suppressNextMouseUpHighlight (page s) = false
  /\ selectionCollapsed <> Some false
  /\ findOverlayFromEvent (page s) (mkUiEvent (releaseOverlay event) (releasePoint event))
     = None
  /\ exists target,
       hitElement event = Some target
       /\ (if isTableCellTag (toUpperCase (elementTagName target))
           then hitClosestTable event = Some element
           else isIgnoredElement element = false
                /\ (element = target
                    \/ (isIgnoredElement target = true
                        /\ hitParentElement event = Some element))).
Proof.
  unfold handleMouseUp.
  destruct (suppressNextMouseUpHighlight (page s)); [intros []|].
  destruct (negb (isMouseEvent event) && isTouchMoved s); [intros []|].
  assert (Hmain :
            In (HighlightElement element)
               (snd match selectionCollapsed with
                    | Some false =>
                        (s, [HandleTextSelection;
                             ScheduleHighlightWidgetOpen (releasePoint event)])
                    | _ =>
                        match findOverlayFromEvent (page s)
                                (mkUiEvent (releaseOverlay event) (releasePoint event)) with
                        | Some overlay =>
                            (s, [OpenHighlightWidget (ovKey overlay) (releasePoint event)])
                        | None => (s, highlightUnderRelease event)
                        end
                    end) ->
            True /\ selectionCollapsed <> Some false
            /\ findOverlayFromEvent (page s)
                 (mkUiEvent (releaseOverlay event) (releasePoint event)) = None
            /\ exists target,
                 hitElement event = Some target
                 /\ (if isTableCellTag (toUpperCase (elementTagName target))
                     then hitClosestTable event = Some element
                     else isIgnoredElement element = false
                          /\ (element = target
                              \/ (isIgnoredElement target = true
                                  /\ hitParentElement event = Some element)))).
  { intros Hin. split; [exact I|].
    assert (Hsel : selectionCollapsed <> Some false
                   /\ In (HighlightElement element)
                         (snd match findOverlayFromEvent (page s)
                                      (mkUiEvent (releaseOverlay event) (releasePoint event))
                              with
                              | Some overlay =>
                                  (s, [OpenHighlightWidget (ovKey overlay) (releasePoint event)])
                              | None => (s, highlightUnderRelease event)
                              end)).
    { destruct selectionCollapsed as [[|]|]; try (split; [discriminate|exact Hin]).
      cbn in Hin. destruct Hin as [H|[H|[]]]; discriminate H. }
    destruct Hsel as [Hsel Hin']. split; [exact Hsel|].
    destruct (findOverlayFromEvent (page s) _) as [overlay|].
    { cbn in Hin'. destruct Hin' as [H|[]]. discriminate H. }
    split; [reflexivity|]. cbn [snd] in Hin'. unfold highlightUnderRelease in Hin'.
    destruct (hitElement event) as [target|]; [|destruct Hin'].
    exists target. split; [reflexivity|]. cbv zeta in Hin'.
    destruct (isTableCellTag (toUpperCase (elementTagName target))).
    - destruct (hitClosestTable event) as [table|]; [|destruct Hin'].
      destruct Hin' as [H|[H|[]]]; [injection H as ->; reflexivity|discriminate H].
    - destruct (isIgnoredElement target) eqn:Et.
      + destruct (hitParentElement event) as [parent|]; [|destruct Hin'].
        destruct (isIgnoredElement parent) eqn:Ep; cbn [negb] in Hin'; [destruct Hin'|].
        destruct Hin' as [H|[H|[]]]; [injection H as <-|discriminate H].
        split; [exact Ep|]. right. split; reflexivity.
      + destruct Hin' as [H|[H|[]]]; [injection H as <-|discriminate H].
        split; [exact Et|]. left. reflexivity. }
  intros Hin.
  assert (Hin' : In (HighlightElement element)
                    (snd match selectionCollapsed with
                         | Some false =>
                             (s, [HandleTextSelection;
                                  ScheduleHighlightWidgetOpen (releasePoint event)])
                         | _ =>
                             match findOverlayFromEvent (page s)
                                     (mkUiEvent (releaseOverlay event) (releasePoint event))
                             with
                             | Some overlay =>
                                 (s, [OpenHighlightWidget (ovKey overlay) (releasePoint event)])
                             | None => (s, highlightUnderRelease event)
                             end
                         end)).
  { destruct (isMouseEvent event); [exact Hin|].
    destruct (releasePoint event); [exact Hin|destruct Hin]. }
  destruct (Hmain Hin') as [_ H]. split; [reflexivity|exact H].
Qed.

(** A mouse-up on an [<em>] inside the highlighter menu, whose parent is a
    paragraph of the page: the paragraph is highlighted. *)
Lemma mouseup_highlights_allowed_element_witness :
  let menuItem := mkDomElement "EM" EmptyString [] true false false in
  let paragraph := mkDomElement "P" EmptyString [] false false false in
  isIgnoredElement menuItem = true /\ isIgnoredElement paragraph = false.
Proof.
  cbv zeta. split; [reflexivity|].
  set (menuItem := mkDomElement "EM" EmptyString [] true false false).
  set (paragraph := mkDomElement "P" EmptyString [] false false false).
  set (event := mkReleaseEvent true (Some (10%Q, 10%Q)) (Some menuItem) (Some paragraph)
                               None None).
  assert (Hin : In (HighlightElement paragraph)
                   (snd (handleMouseUp (mkReleaseState Examples.unrenderedPage 0 0 false) event
                                       None)))
    by (left; reflexivity).
  destruct (mouseup_highlights_allowed_element _ _ _ _ Hin) as [_ [_ [_ [target [Ht Hcase]]]]].
  injection Ht as <-. cbn [isTableCellTag] in Hcase.
  change (isTableCellTag (toUpperCase (elementTagName menuItem))) with false in Hcase.
  destruct Hcase as [Hallowed _]. exact Hallowed.
Defined.

Lemma overlay_is_managed (element : DomElement) :
  isOverlayOrHandle element = true -> isHighlighterManagedElement element = true.
Proof.
  unfold isOverlayOrHandle, isHighlighterManagedElement. intros H.
  apply orb_true_iff in H. destruct H as [H|H]; rewrite H;
    repeat (rewrite ?orb_true_r, ?orb_true_l); reflexivity.
Qed.

(** X27.  The observer never repaints for the engine's own changes of the
    document, and does for the page's.  While highlights are being applied
    no mutation asks for an update.  Otherwise a batch in which every record
    either has a highlighter-managed target or is a child-list record whose
    added and removed nodes are all overlays or handles (and at least one)
    asks for none; and a batch holds a record that does as soon as a
    child-list record on an element of the page adds or removes a node that
    is not highlighter-managed. *)
Theorem observer_ignores_own_mutations (isApplyingHighlights : bool)
        (mutations : list MutationRecord) :
  observerCallsUpdate true mutations = false
  /\ (Forall (fun m =>
                (exists target, mutationTarget m = Some target
                                /\ isHighlighterManagedElement target = true)
                \/ (mutationType m = ChildList
                    /\ (addedNodes m ++ removedNodes m)%list <> []
                    /\ Forall (fun node => exists element,
                                 node = Some element /\ isOverlayOrHandle element = true)
                              (addedNodes m ++ removedNodes m)%list))
             mutations ->
      observerCallsUpdate isApplyingHighlights mutations = false)
  /\ (forall m target node,
        In m mutations -> mutationType m = ChildList ->
        mutationTarget m = Some target -> isHighlighterManagedElement target = false ->
        In node (addedNodes m ++ removedNodes m)%list ->
        match node with
        | Some element => isHighlighterManagedElement element = false
        | None => True
        end ->
        observerCallsUpdate false mutations = true).
Proof.
  split; [reflexivity|]. split.
  - intros Hall. unfold observerCallsUpdate. destruct isApplyingHighlights; [reflexivity|].
    cbn [negb]. induction Hall as [|m rest Hm _ IH]; [reflexivity|].
    cbn [existsb]. rewrite IH, orb_false_r.
    unfold mutationAsksForUpdate. destruct Hm as [[target [Ht Hmanaged]]|[Htype [Hne Hown]]].
    + rewrite Ht, Hmanaged. destruct (mutationType m); cbn [negb];
        [destruct (isChildListMutationOnlyHighlighterManaged m)| |]; try reflexivity.
      apply andb_false_r.
    + rewrite Htype. destruct (mutationTarget m) as [target|]; [|reflexivity].
      assert (Honly : isChildListMutationOnlyHighlighterManaged m = true).
      { unfold isChildListMutationOnlyHighlighterManaged.
        destruct (addedNodes m ++ removedNodes m)%list as [|n ns] eqn:E;
          [exfalso; apply Hne; reflexivity|].
        apply forallb_forall. intros node Hnode. rewrite Forall_forall in Hown.
        destruct (Hown node Hnode) as [element [-> He]]. apply overlay_is_managed, He. }
      rewrite Honly. reflexivity.
  - intros m target node Hm Htype Ht Hunmanaged Hnode Hforeign.
    unfold observerCallsUpdate. cbn [negb]. apply existsb_exists. exists m.
    split; [exact Hm|]. unfold mutationAsksForUpdate. rewrite Htype, Ht, Hunmanaged.
    assert (Honly : isChildListMutationOnlyHighlighterManaged m = false).
    { unfold isChildListMutationOnlyHighlighterManaged.
      destruct (addedNodes m ++ removedNodes m)%list as [|n ns] eqn:E; [reflexivity|].
      apply not_true_is_false. intros Hall. rewrite forallb_forall in Hall.
      specialize (Hall node Hnode). destruct node as [element|]; [|discriminate].
      congruence. }
    rewrite Honly. reflexivity.
Qed.

Lemma touch_moves_state (moves : list (Q * Q)) :
  forall st,
    let st' := fold_left (fun st0 m => fst (handleTouchMove st0 (Some m))) moves st in
    page st' = page st
    /\ touchStartX st' = touchStartX st /\ touchStartY st' = touchStartY st
    /\ (isTouchMoved st' = true <->
        isTouchMoved st = true
        \/ Exists (fun m => (10 < Qabs (fl (fst m - touchStartX st)))%Q
                            \/ (10 < Qabs (fl (snd m - touchStartY st)))%Q) moves).
Proof.
  induction moves as [|[mx my] rest IH]; intros st; cbn [fold_left].
  - repeat split; auto. intros [H|H]; [exact H|inversion H].
  - set (st1 := fst (handleTouchMove st (Some (mx, my)))).
    destruct (IH st1) as [Hp [Hx [Hy Hflag']]].
    assert (H1 : page st1 = page st /\ touchStartX st1 = touchStartX st
                 /\ touchStartY st1 = touchStartY st) by (repeat split).
    destruct H1 as [Hp1 [Hx1 Hy1]].
    assert (Hflag : isTouchMoved st1
                    = if Qlt_bool 10 (Qabs (fl (mx - touchStartX st)))
                         || Qlt_bool 10 (Qabs (fl (my - touchStartY st)))
                      then true else isTouchMoved st) by reflexivity.
    assert (Hhere : isTouchMoved st1 = true <->
                    isTouchMoved st = true
                    \/ ((10 < Qabs (fl (mx - touchStartX st)))%Q
                        \/ (10 < Qabs (fl (my - touchStartY st)))%Q)).
    { rewrite Hflag. rewrite <- !Qlt_bool_iff, <- orb_true_iff.
      destruct (_ || _); [tauto|]. split; [tauto|]. intros [H|H]; [exact H|discriminate]. }
    rewrite Hx1, Hy1 in Hflag'.
    split; [congruence|]. split; [congruence|]. split; [congruence|].
    rewrite Hflag', Hhere, Exists_cons. cbn [fst snd]. tauto.
Qed.

(** X28.  A touch that scrolled does not highlight.  After a touch start
    the flag [isTouchMoved] is set by the touch moves that follow exactly
    when, for one of them, the horizontal or the vertical difference from the
    start point, rounded to a double, is above 10 in absolute value, that is
    when the difference itself is above [10 + 2^-50].  The touch end then
    calls neither the highlighter nor the widget, whatever is under it and
    whatever the selection.  It clears the flag for the next touch, unless
    the mouse-up that follows a drag is still to be swallowed: then it is
    that mouse-up, and the flag stays set. *)
Theorem scrolled_touch_does_not_highlight (s : ReleaseState) (start : Q * Q)
        (moves : list (Q * Q)) (event : ReleaseEvent) (selectionCollapsed : option bool) :
  let started := handleTouchStart s (Some start) in
  let moved := fold_left (fun st m => fst (handleTouchMove st (Some m))) moves started in
  let released := handleMouseUp moved event selectionCollapsed in
  isTouchMoved started = false
  /\ page moved = page s
  /\ (isTouchMoved moved = true <->
      Exists (fun m => (10 < Qabs (fl (fst m - fst start)))%Q
                       \/ (10 < Qabs (fl (snd m - snd start)))%Q) moves)
  /\ (isTouchMoved moved = true <->
      Exists (fun m => (10 + 2 ^ (-50) < Qabs (fst m - fst start))%Q
                       \/ (10 + 2 ^ (-50) < Qabs (snd m - snd start))%Q) moves)
  /\ (isTouchMoved moved = true -> isMouseEvent event = false ->
      snd released = []
      /\ (suppressNextMouseUpHighlight (page s) = false ->
          isTouchMoved (fst released) = false /\ page (fst released) = page s)
      /\ (suppressNextMouseUpHighlight (page s) = true ->
          isTouchMoved (fst released) = true
          /\ page (fst released) = setSuppressNextMouseUpHighlight (page s) false)).
Proof.
  intros started moved released. destruct start as [startX startY].
  destruct (touch_moves_state moves started) as [Hp [Hx [Hy Hflag]]].
  fold moved in Hp, Hx, Hy, Hflag.
  cbn [started handleTouchStart page touchStartX touchStartY isTouchMoved fst snd] in *.
  assert (Hrounded : isTouchMoved moved = true <->
                     Exists (fun m => (10 < Qabs (fl (fst m - startX)))%Q
                                      \/ (10 < Qabs (fl (snd m - startY)))%Q) moves).
  { rewrite Hflag. split; [intros [H|H]; [discriminate|exact H]|intros H; right; exact H]. }
  split; [reflexivity|]. split; [exact Hp|]. split; [exact Hrounded|]. split.
  - rewrite Hrounded, !Exists_exists.
    split; intros [m [Hin Hm]]; exists m; (split; [exact Hin|]);
      rewrite !fl_above_10 in *; exact Hm.
  - intros Hmoved Htouch. unfold released, handleMouseUp. rewrite Hp, Htouch, Hmoved.
    cbn [negb andb].
    destruct (suppressNextMouseUpHighlight (page s)); cbn [fst snd isTouchMoved page].
    + split; [reflexivity|]. split; [discriminate|]. intros _. split; reflexivity.
    + split; [reflexivity|]. split; [|discriminate]. intros _. split; reflexivity.
Qed.

(** A touch at (100, 200) that travels 40 pixels down before it ends over
    a paragraph; and a touch that starts at x = 0.3 and moves to x = 10.3,
    the doubles nearest to them: they are more than 10 apart, their rounded
    difference is 10, and the touch has not moved. *)
Lemma scrolled_touch_does_not_highlight_witness :
  let s := mkReleaseState Examples.unrenderedPage 0 0 false in
  let moved := fold_left (fun st m => fst (handleTouchMove st (Some m)))
                         [(100%Q, 220%Q); (100%Q, 240%Q)]
                         (handleTouchStart s (Some (100%Q, 200%Q))) in
  snd (handleMouseUp moved
         (mkReleaseEvent false (Some (100%Q, 240%Q))
                         (Some (mkDomElement "P" EmptyString [] false false false))
                         None None None)
         None) = []
  /\ (10 < fl (103 # 10) - fl (3 # 10))%Q
  /\ isTouchMoved
       (fst (handleTouchMove (handleTouchStart s (Some (fl (3 # 10), 200%Q)))
                             (Some (fl (103 # 10), 200%Q)))) = false.
Proof.
  cbv zeta. split; [|split; vm_compute; reflexivity].
  pose proof (scrolled_touch_does_not_highlight
                (mkReleaseState Examples.unrenderedPage 0 0 false) (100%Q, 200%Q)
                [(100%Q, 220%Q); (100%Q, 240%Q)]
                (mkReleaseEvent false (Some (100%Q, 240%Q))
                                (Some (mkDomElement "P" EmptyString [] false false false))
                                None None None)
                None) as H.
  cbv zeta in H. destruct H as [_ [_ [_ [Hexact Hscrolled]]]].
  assert (Hex : Exists (fun m : Q * Q =>
                          (10 + 2 ^ (-50) < Qabs (fst m - fst (100%Q, 200%Q)))%Q
                          \/ (10 + 2 ^ (-50) < Qabs (snd m - snd (100%Q, 200%Q)))%Q)
                       [(100%Q, 220%Q); (100%Q, 240%Q)]).
  { apply Exists_cons_hd. right. vm_compute. reflexivity. }
  destruct (Hscrolled (proj2 Hexact Hex) eq_refl) as [Hnone _]. exact Hnone.
Defined.

End PointerReleaseFacts.

(** ** The caret under the pointer *)

Section CaretFacts.
Import Js Dom CaretHitTest.

Variable caretFromPoint : Q -> Q -> option RawCaret.




End CaretFacts.

